(** * RimSort metadata core: a shallow embedding and its properties

    The development follows [src/app/utils/metadata.py] (relation compiler,
    active-list builder, recursive database merge) and
    [src/util/steam/webapi/wrapper.py] (batching of PublishedFileIds).

    Python values are embedded as they are used by the code: strings as
    [string], dictionaries as association lists in insertion order, sets of
    package ids as [gset], exceptions as an explicit outcome. *)

From Stdlib Require Import Ascii String List Arith Lia Bool.
From Stdlib Require OrderedTypeEx.
From stdpp Require Import base option list strings gmap.

Local Open Scope string_scope.
Local Open Scope list_scope.
Local Open Scope nat_scope.

(** ** Exceptions raised by the modelled code *)

Inductive exn : Type :=
| ValueError      (* unpacking too few values, range() with step 0 *)
| AttributeError  (* .get / .items on a value that is not a dict *)
| KeyError        (* d[k] on a missing key, set.remove of a missing element *)
| IndexError      (* l[0] on an empty list *)
| RuntimeError    (* a Qt object used before its base class was initialised *)
| RegexUnmodelled (* a pattern holding a regular-expression operator *).

Inductive result (A : Type) : Type :=
| Ok (a : A)
| Raise (e : exn).
Arguments Ok {A} a.
Arguments Raise {A} e.

(** ** Batching of PublishedFileIds ([wrapper.py], DynamicQuery) *)

Module Chunks.

(** [range(start, stop, step)] for a positive step; [fuel] bounds the
    number of indices produced. *)
Fixpoint range_from (fuel start stop step : nat) : list nat :=
  match fuel with
  | 0 => []
  | S fuel' =>
      if start <? stop then start :: range_from fuel' (start + step) stop step
      else []
  end.

(** [stop - start] indices are always enough when [step >= 1]. *)
Definition py_range (start stop step : nat) : list nat :=
  range_from (stop - start) start stop step.

(** [_list[i : j]] for [0 <= i <= j]; Python clips at the end of the list. *)
Definition slice {A} (l : list A) (i j : nat) : list A :=
  firstn (j - i) (skipn i l).

(** [DynamicQuery.__chunks]: the generator is embedded as the list of the
    values it yields. [range] raises [ValueError] for a zero step. *)
Definition chunks {A} (_list : list A) (limit : nat) : result (list (list A)) :=
  if limit =? 0 then Raise ValueError
  else Ok (map (fun i => slice _list i (i + limit))
               (py_range 0 (length _list) limit)).

(** The batch limit used by [IPublishedFileService_GetDetails]. *)
Definition batch_limit : nat := 215.

(** The batches [IPublishedFileService_GetDetails] sends, in order. *)
Definition GetDetails_batches {A} (publishedfileids : list A)
  : result (list (list A)) :=
  chunks publishedfileids batch_limit.

End Chunks.

(** ** Python values

    The values the code inspects with [isinstance], [.get] and truth tests:
    parsed descriptor and JSON data. A dictionary keeps its insertion order,
    as Python's does, and has pairwise distinct keys. *)

#[local] Set Warnings "-register-all".

Inductive pyval : Type :=
| VNone
| VBool (b : bool)
| VInt (z : Z)
| VStr (s : string)
| VList (l : list pyval)
| VDict (d : list (string * pyval)).

Module Py.

Definition dict (V : Type) : Type := list (string * V).

(** [k in d] *)
Definition dmem {V} (k : string) (d : dict V) : bool :=
  existsb (fun kv => String.eqb k (fst kv)) d.

(** [d.get(k)] *)
Fixpoint dget {V} (k : string) (d : dict V) : option V :=
  match d with
  | [] => None
  | (k', v) :: d' => if String.eqb k k' then Some v else dget k d'
  end.

(** [d[k] = v]: an existing key keeps its place, a new key goes last. *)
Fixpoint dset {V} (k : string) (v : V) (d : dict V) : dict V :=
  match d with
  | [] => [(k, v)]
  | (k', v') :: d' =>
      if String.eqb k k' then (k', v) :: d' else (k', v') :: dset k v d'
  end.

(** [del d[k]] (for a key that is present), [d.pop(k, None)] *)
Definition ddel {V} (k : string) (d : dict V) : dict V :=
  List.filter (fun kv => negb (String.eqb k (fst kv))) d.

(** [d.keys()] *)
Definition dkeys {V} (d : dict V) : list string := map fst d.

(** [k in l] for a list (or other iterable) of strings *)
Definition str_in (k : string) (l : list string) : bool :=
  existsb (String.eqb k) l.

(** Truth value of an object: [None], [False], [0], empty strings and
    empty containers are false. *)
Definition truthy (v : pyval) : bool :=
  match v with
  | VNone => false
  | VBool b => b
  | VInt z => negb (Z.eqb z 0)
  | VStr s => negb (String.eqb s "")
  | VList l => match l with [] => false | _ => true end
  | VDict d => match d with [] => false | _ => true end
  end.

(** [isinstance(v, dict) and not v] *)
Definition is_empty_dict (v : pyval) : bool :=
  match v with VDict [] => true | _ => false end.

End Py.

(** ** The recursive database merge ([recursively_update_dict])

    The function updates [a_dict] in place; the embedding returns the updated
    dictionary. The three optional iterables are lists of keys: for each of
    them the code treats [None] like the empty list. *)

Module Merge.
Import Py.

Section WithExceptions.
Variables (prune_exceptions purge_keys recurse_exceptions : list string).

(** First loop: keys of [a_dict] missing from [b_dict] that are
    recurse exceptions are deleted. *)
Definition drop_stale_exceptions (a_dict b_dict : dict pyval) : dict pyval :=
  fold_left
    (fun a key => if str_in key recurse_exceptions then ddel key a else a)
    (List.filter (fun key => negb (dmem key b_dict)) (dkeys a_dict))
    a_dict.

(** Third block: keys holding an empty dict are pruned unless exempt. *)
Definition prune (a_dict : dict pyval) : dict pyval :=
  let keys_to_delete :=
    dkeys (List.filter (fun kv => is_empty_dict (snd kv)
                             && negb (str_in (fst kv) prune_exceptions))
                  a_dict) in
  fold_left (fun a key => ddel key a) keys_to_delete a_dict.

(** Last block: the purge list. *)
Definition purge (a_dict : dict pyval) : dict pyval :=
  fold_left (fun a key => if dmem key a then ddel key a else a)
            purge_keys a_dict.

(** [recursively_update_dict(a_dict, b)] for [b = VDict b_dict]; the
    recursion descends into the values of [b_dict]. On a [b] that is not
    a dictionary (never passed by the code) [a_dict] is returned. *)
Fixpoint update_with (a_dict : dict pyval) (b : pyval) {struct b}
  : dict pyval :=
  match b with
  | VDict b_dict =>
      let a0 := drop_stale_exceptions a_dict b_dict in
      let a1 :=
        (fix items (its : list (string * pyval)) (a : dict pyval)
             {struct its} : dict pyval :=
           match its with
           | [] => a
           | (key, value) :: its' =>
               let a' :=
                 if str_in key recurse_exceptions then dset key value a
                 else
                   match dget key a, value with
                   | Some (VDict sub), VDict _ =>
                       dset key (VDict (update_with sub value)) a
                   | _, _ => dset key value a
                   end in
               items its' a'
           end) b_dict a0 in
      purge (prune a1)
  | _ => a_dict
  end.

Definition recursively_update_dict (a_dict b_dict : dict pyval)
  : dict pyval :=
  update_with a_dict (VDict b_dict).

End WithExceptions.

(** The merge [SteamDatabaseBuilder._output_database] performs on the
    persisted database: the two exception lists are the constants
    [DB_BUILDER_PRUNE_EXCEPTIONS] and [DB_BUILDER_RECURSE_EXCEPTIONS] of
    [app.utils.constants], taken as parameters; no purge list is passed. *)
Definition output_database_merge
    (DB_BUILDER_PRUNE_EXCEPTIONS DB_BUILDER_RECURSE_EXCEPTIONS : list string)
    (db_to_update database : dict pyval) : dict pyval :=
  recursively_update_dict DB_BUILDER_PRUNE_EXCEPTIONS []
                          DB_BUILDER_RECURSE_EXCEPTIONS db_to_update database.

End Merge.

(** ** Predicates used to state the properties of the merge *)

Module MergeSpec.
Import Py.

(** The keys of a list are pairwise distinct. *)
Fixpoint distinct (keys : list string) : bool :=
  match keys with
  | [] => true
  | k :: keys' => negb (str_in k keys') && distinct keys'
  end.

(** Every dictionary in the value has pairwise distinct keys. *)
Fixpoint well_keyed (v : pyval) : bool :=
  match v with
  | VDict d =>
      distinct (dkeys d)
      && forallb (fun kv : string * pyval => let (_, x) := kv in well_keyed x) d
  | _ => true
  end.

Section WithExceptions.
Variables (prune_exceptions purge_keys recurse_exceptions : list string).

(** The entry would be pruned: an empty dict under a key that is not
    exempt. *)
Definition prunable (kv : string * pyval) : bool :=
  is_empty_dict (snd kv) && negb (str_in (fst kv) prune_exceptions).

(** A value the merge leaves as it is when it is merged into itself: no
    dictionary reached without crossing a recurse exception holds a purge
    key or a prunable entry. *)
Fixpoint settled (v : pyval) : bool :=
  match v with
  | VDict d =>
      forallb (fun kv : string * pyval =>
                 let (k, x) := kv in
                 negb (str_in k purge_keys)
                 && negb (prunable (k, x))
                 && (str_in k recurse_exceptions || settled x)) d
  | _ => true
  end.

(** The condition on a fresh database: below its top level and outside the
    recurse exceptions it is settled. *)
Definition fresh_settled (b_dict : dict pyval) : bool :=
  forallb (fun kv => str_in (fst kv) recurse_exceptions || settled (snd kv))
          b_dict.

(** The value the second loop stores under [key]: [current] is
    [a_dict.get(key)], [value] the fresh value. *)
Definition merged_value (key : string) (current : option pyval) (value : pyval)
  : pyval :=
  if str_in key recurse_exceptions then value
  else match current, value with
       | Some (VDict sub), VDict _ =>
           VDict (Merge.update_with prune_exceptions purge_keys
                                    recurse_exceptions sub value)
       | _, _ => value
       end.

(** The second loop as a fold over the items of the fresh dictionary. *)
Definition merge_items (items : dict pyval) (a_dict : dict pyval) : dict pyval :=
  fold_left
    (fun a kv => dset (fst kv) (merged_value (fst kv) (dget (fst kv) a) (snd kv)) a)
    items a_dict.

(** The entries the pruning and the purge keep. *)
Definition kept (kv : string * pyval) : bool :=
  negb (prunable kv) && negb (str_in (fst kv) purge_keys).

(** What the induction on a fresh value [v] carries: merging [v] into
    any dictionary keeps the keys of [v], merging it into itself changes
    nothing, and merging it twice is merging it once. *)
Definition keeps_keys (v : pyval) : Prop :=
  forall bd, v = VDict bd ->
    well_keyed v = true -> settled v = true ->
    forall sub, well_keyed (VDict sub) = true ->
      forall k, In k (dkeys bd) ->
        In k (dkeys (Merge.update_with prune_exceptions purge_keys
                                       recurse_exceptions sub v)).

Definition self_merge (v : pyval) : Prop :=
  forall bd, v = VDict bd ->
    well_keyed v = true -> settled v = true ->
    Merge.update_with prune_exceptions purge_keys recurse_exceptions bd v = bd.

Definition idempotent_on (v : pyval) : Prop :=
  forall bd, v = VDict bd ->
    forall a, well_keyed (VDict a) = true -> well_keyed v = true ->
      fresh_settled bd = true ->
      Merge.update_with prune_exceptions purge_keys recurse_exceptions
        (Merge.update_with prune_exceptions purge_keys recurse_exceptions a v) v
      = Merge.update_with prune_exceptions purge_keys recurse_exceptions a v.

End WithExceptions.
End MergeSpec.

Module MergeExamples.
Import Py Merge.

Definition existing : dict pyval :=
  [("123", VDict [("blacklist", VDict [("comment", VStr "bad")])])].
Definition fresh : dict pyval :=
  [("123", VDict [("steamName", VStr "Foo")])].
Definition claimed : dict pyval :=
  [("123", VDict [("blacklist", VDict [("comment", VStr "bad")]);
                  ("steamName", VStr "Foo")])].
Definition actual : dict pyval :=
  [("123", VDict [("steamName", VStr "Foo")])].

Definition fresh_nested_empty : dict pyval :=
  [("x", VDict [("y", VDict [])])].

End MergeExamples.


(** ** Strings as the code uses them *)

Module Str.

(** [c.lower()] on an ASCII letter; other characters are unchanged (the
    package ids, version keys and sources handled here are ASCII). *)
Definition lower_ascii (c : ascii) : ascii :=
  let n := nat_of_ascii c in
  if (65 <=? n) && (n <=? 90) then ascii_of_nat (n + 32) else c.

(** [s.lower()] *)
Fixpoint lower (s : string) : string :=
  match s with
  | EmptyString => EmptyString
  | String c s' => String (lower_ascii c) (lower s')
  end.

(** [sub in s] *)
Fixpoint contains (sub s : string) : bool :=
  String.prefix sub s ||
  match s with
  | EmptyString => false
  | String _ s' => contains sub s'
  end.

(** [s.replace(old, new)] for a non-empty [old]: occurrences are replaced
    from left to right and do not overlap. [skip] counts the characters of
    a matched occurrence still to be dropped. *)
Fixpoint replace_from (skip : nat) (old new s : string) : string :=
  match s with
  | EmptyString => EmptyString
  | String c s' =>
      match skip with
      | S n => replace_from n old new s'
      | 0 =>
          if String.prefix old s
          then new ++ replace_from (String.length old - 1) old new s'
          else String c (replace_from 0 old new s')
      end
  end.

Definition replace (old new s : string) : string := replace_from 0 old new s.

(** [s.split(sep)] for a one-character separator: [acc] holds the
    characters of the current field, last one first. *)
Fixpoint split_from (sep : ascii) (acc : string) (s : string) : list string :=
  match s with
  | EmptyString => [String.rev acc]
  | String c s' =>
      if Ascii.eqb c sep then String.rev acc :: split_from sep EmptyString s'
      else split_from sep (String c acc) s'
  end.

Definition split (sep : ascii) (s : string) : list string :=
  split_from sep EmptyString s.

End Str.

(** ** Natural sorting of paths ([natsort.natsorted], default algorithm)

    The key of a string is the sequence of its maximal runs of text and of
    decimal digits, digit runs read as numbers; a key always starts with a
    text run (the empty one when the string starts with a digit), so equal
    positions of two keys hold runs of the same kind. Sorting is stable. *)

Module Natsort.

Inductive run : Type :=
| Txt (s : string)
| Num (n : N).

Definition is_digit (c : ascii) : bool :=
  let n := nat_of_ascii c in (48 <=? n) && (n <=? 57).

Definition digit_value (c : ascii) : N := N.of_nat (nat_of_ascii c - 48).

(** State of the scan: the run being read (text kept last character
    first). *)
Inductive cursor : Type :=
| InTxt (acc : string)
| InNum (n : N).

Definition close (c : cursor) : list run :=
  match c with
  | InTxt EmptyString => []
  | InTxt acc => [Txt (String.rev acc)]
  | InNum n => [Num n]
  end.

Fixpoint scan (cur : cursor) (s : string) : list run :=
  match s with
  | EmptyString => close cur
  | String c s' =>
      if is_digit c then
        match cur with
        | InNum n => scan (InNum (n * 10 + digit_value c)) s'
        | InTxt acc => close cur ++ scan (InNum (digit_value c)) s'
        end
      else
        match cur with
        | InTxt acc => scan (InTxt (String c acc)) s'
        | InNum n => close cur ++ scan (InTxt (String c EmptyString)) s'
        end
  end.

Definition natsort_key (s : string) : list run :=
  match scan (InTxt EmptyString) s with
  | Num n :: rest => Txt EmptyString :: Num n :: rest
  | k => k
  end.

Definition run_compare (a b : run) : comparison :=
  match a, b with
  | Txt x, Txt y => String.compare x y
  | Num x, Num y => N.compare x y
  | Txt _, Num _ => Lt
  | Num _, Txt _ => Gt
  end.

(** Tuple comparison: first difference decides, a proper prefix is
    smaller. *)
Fixpoint key_compare (a b : list run) : comparison :=
  match a, b with
  | [], [] => Eq
  | [], _ :: _ => Lt
  | _ :: _, [] => Gt
  | x :: a', y :: b' =>
      match run_compare x y with
      | Eq => key_compare a' b'
      | c => c
      end
  end.

Definition key_leb (x y : string) : bool :=
  match key_compare (natsort_key x) (natsort_key y) with
  | Gt => false
  | _ => true
  end.

Fixpoint insert_sorted (x : string) (l : list string) : list string :=
  match l with
  | [] => [x]
  | y :: l' => if key_leb x y then x :: l else y :: insert_sorted x l'
  end.

Definition natsorted (l : list string) : list string :=
  fold_right insert_sorted [] l.

End Natsort.

(** ** The metadata store and the relation compiler ([MetadataManager]) *)

Module Metadata.
Import Py.

(** One installed mod: the entry of [internal_local_metadata] for a uuid.
    The keys the code always reads are fields; [about] holds the parsed
    descriptor keys ([moddependencies], [loadafter], ...), which are
    lower-case and so never collide with the derived keys. The derived
    keys are sets: [dependencies] and [incompatibilities] (an absent key
    reads as the empty set) and the load-rule sets, kept by key name
    because [add_load_rule_to_mod] receives the key as a string. *)
Record Mod : Type := mkMod {
  packageid : string;
  data_source : string;
  path : string;
  publishedfileid : option string;
  about : dict pyval;
  dependencies : gset string;
  incompatibilities : gset string;
  load_rules : gmap string (gset (string * bool));
}.

(** [mod_data.get(key, set())] for a load-rule key *)
Definition rules_of (m : Mod) (key : string) : gset (string * bool) :=
  default ∅ (load_rules m !! key).

Definition loadTheseBefore (m : Mod) := rules_of m "loadTheseBefore".
Definition loadTheseAfter (m : Mod) := rules_of m "loadTheseAfter".

Definition add_dependency (dep : string) (m : Mod) : Mod :=
  mkMod (packageid m) (data_source m) (path m) (publishedfileid m) (about m)
        ({[dep]} ∪ dependencies m) (incompatibilities m) (load_rules m).

Definition add_incompatibility (dep : string) (m : Mod) : Mod :=
  mkMod (packageid m) (data_source m) (path m) (publishedfileid m) (about m)
        (dependencies m) ({[dep]} ∪ incompatibilities m) (load_rules m).

(** [mod_data.setdefault(key, set())] *)
Definition setdefault_rules (key : string) (m : Mod) : Mod :=
  mkMod (packageid m) (data_source m) (path m) (publishedfileid m) (about m)
        (dependencies m) (incompatibilities m)
        (<[key := rules_of m key]> (load_rules m)).

(** [mod_data.setdefault(key, set()).add(rule)] *)
Definition add_rule (key : string) (rule : string * bool) (m : Mod) : Mod :=
  mkMod (packageid m) (data_source m) (path m) (publishedfileid m) (about m)
        (dependencies m) (incompatibilities m)
        (<[key := {[rule]} ∪ rules_of m key]> (load_rules m)).

(** Signals emitted to the user interface. *)
Inductive signal : Type :=
| mod_created (uuid : string)
| mod_deleted (uuid : string)
| mod_metadata_updated (uuid : string).

(** The part of [MetadataManager] the compiler and the update engine use.
    [external_*] hold the loaded databases ([None] reads as the empty
    dict: the code only tests their truth value). *)
Record Manager : Type := mkManager {
  internal_local_metadata : dict Mod;
  packageid_to_uuids : gmap string (gset string);
  game_version : string;
  dependency_for_sorting : bool;
  external_steam_metadata : dict pyval;
  external_community_rules : dict pyval;
  external_user_rules : dict pyval;
  steamdb_packageid_to_name : dict pyval;
  emitted : list signal;
}.

Definition set_metadata (f : dict Mod -> dict Mod) (st : Manager) : Manager :=
  mkManager (f (internal_local_metadata st)) (packageid_to_uuids st)
            (game_version st) (dependency_for_sorting st)
            (external_steam_metadata st) (external_community_rules st)
            (external_user_rules st) (steamdb_packageid_to_name st)
            (emitted st).

Definition set_index (f : gmap string (gset string) -> gmap string (gset string))
           (st : Manager) : Manager :=
  mkManager (internal_local_metadata st) (f (packageid_to_uuids st))
            (game_version st) (dependency_for_sorting st)
            (external_steam_metadata st) (external_community_rules st)
            (external_user_rules st) (steamdb_packageid_to_name st)
            (emitted st).

Definition set_steamdb_names (f : dict pyval -> dict pyval) (st : Manager)
  : Manager :=
  mkManager (internal_local_metadata st) (packageid_to_uuids st)
            (game_version st) (dependency_for_sorting st)
            (external_steam_metadata st) (external_community_rules st)
            (external_user_rules st) (f (steamdb_packageid_to_name st))
            (emitted st).

Definition emit (s : signal) (st : Manager) : Manager :=
  mkManager (internal_local_metadata st) (packageid_to_uuids st)
            (game_version st) (dependency_for_sorting st)
            (external_steam_metadata st) (external_community_rules st)
            (external_user_rules st) (steamdb_packageid_to_name st)
            (emitted st ++ [s]).

(** *** Computations on the manager: state and exceptions

    A method mutates the manager in place and may raise; what it changed
    before raising stays changed. *)

Definition M (A : Type) : Type := Manager -> Manager * result A.

Definition ret {A} (a : A) : M A := fun st => (st, Ok a).
Definition raise {A} (e : exn) : M A := fun st => (st, Raise e).
Definition lift {A} (r : result A) : M A := fun st => (st, r).
Definition bind {A B} (m : M A) (k : A -> M B) : M B :=
  fun st =>
    match m st with
    | (st', Ok a) => k a st'
    | (st', Raise e) => (st', Raise e)
    end.
Definition get_state : M Manager := fun st => (st, Ok st).
Definition modify (f : Manager -> Manager) : M unit := fun st => (f st, Ok tt).

Declare Scope py_scope.
Delimit Scope py_scope with py.
Notation "'let*' x := m 'in' k" := (bind m (fun x => k))
  (at level 10, x name, m at level 100, k at level 200) : py_scope.
Notation "m >>> k" := (bind m (fun _ => k))
  (at level 90, right associativity) : py_scope.
Local Open Scope py_scope.

(** [for x in l: body(x)] *)
Fixpoint for_each {X} (l : list X) (body : X -> M unit) : M unit :=
  match l with
  | [] => ret tt
  | x :: l' => body x >>> for_each l' body
  end.

Definition skip : M unit := ret tt.

(** [self.internal_local_metadata[uuid]] as an object to mutate: the
    record is looked up ([KeyError] when absent) and [f] applied to it in
    the store. *)
Definition update_mod (uuid : string) (f : Mod -> Mod) : M unit :=
  let* st := get_state in
  match dget uuid (internal_local_metadata st) with
  | None => raise KeyError
  | Some m => modify (set_metadata (dset uuid (f m)))
  end.

(** [self.internal_local_metadata[uuid]] as a value *)
Definition the_mod (uuid : string) : M Mod :=
  let* st := get_state in
  match dget uuid (internal_local_metadata st) with
  | None => raise KeyError
  | Some m => ret m
  end.

(** [v.lower()] for a value expected to be a string *)
Definition lower_of (v : pyval) : result string :=
  match v with
  | VStr s => Ok (Str.lower s)
  | _ => Raise AttributeError
  end.

(** [v.get(key)] for a value expected to be a dict *)
Definition get_of (v : pyval) (key : string) : result pyval :=
  match v with
  | VDict d => Ok (default VNone (dget key d))
  | _ => Raise AttributeError
  end.

(** [v.items()] for a value expected to be a dict *)
Definition items_of (v : pyval) : result (list (string * pyval)) :=
  match v with
  | VDict d => Ok d
  | _ => Raise AttributeError
  end.

(** [v.get("li") if v else None] *)
Definition li_of (v : pyval) : result pyval :=
  if truthy v then get_of v "li" else Ok VNone.

(** [v or []] *)
Definition or_empty_list (v : pyval) : pyval :=
  if truthy v then v else VList [].

(** [mod_metadata.get(key, {})] on the descriptor keys *)
Definition about_get (m : Mod) (key : string) : pyval :=
  default (VDict []) (dget key (about m)).

(** *** Helper functions of the compiler *)

Definition is_list (v : pyval) : bool :=
  match v with VList _ => true | _ => false end.
Definition is_dict (v : pyval) : bool :=
  match v with VDict _ => true | _ => false end.

(** [add_dependency_to_mod(self.internal_local_metadata[uuid], x, ...)] *)
Definition add_dependency_to_mod (uuid : string) (x : pyval) : M unit :=
  let* _ := the_mod uuid in
  match x with
  | VDict d =>
      let pid := default VNone (dget "packageId" d) in
      if truthy pid && negb (is_list pid) && negb (is_dict pid) then
        let* dependency_id := lift (lower_of pid) in
        update_mod uuid (add_dependency dependency_id)
      else skip
  | VList l =>
      match l with
      | [] => raise IndexError
      | VDict _ :: _ =>
          for_each l (fun dependency =>
            let* pid := lift (get_of dependency "packageId") in
            if truthy pid then
              let* dependency_id := lift (lower_of pid) in
              update_mod uuid (add_dependency dependency_id)
            else skip)
      | _ => skip
      end
  | _ => skip
  end.

(** [add_dependency_to_mod_from_steamdb] for a [str] dependency id *)
Definition add_dependency_to_mod_from_steamdb (uuid : string)
           (dependency_id : string) : M unit :=
  update_mod uuid (add_dependency dependency_id).

(** [set(all_mods[uuid]["packageid"] for uuid in all_mods)] *)
Definition all_package_ids (all_mods : dict Mod) : list string :=
  map (fun um => packageid (snd um)) all_mods.

(** [add_incompatibility_to_mod(self.internal_local_metadata[uuid], x, ...)] *)
Definition add_incompatibility_to_mod (uuid : string) (x : pyval) : M unit :=
  let* _ := the_mod uuid in
  let* st := get_state in
  let ids := all_package_ids (internal_local_metadata st) in
  match x with
  | VStr s =>
      let dependency_id := Str.lower s in
      if str_in dependency_id ids
      then update_mod uuid (add_incompatibility dependency_id)
      else skip
  | VList l =>
      match l with
      | [] => raise IndexError
      | VStr _ :: _ =>
          for_each l (fun dependency =>
            if truthy dependency then
              let* dependency_id := lift (lower_of dependency) in
              if str_in dependency_id ids
              then update_mod uuid (add_incompatibility dependency_id)
              else skip
            else skip)
      | _ => skip
      end
  | _ => skip
  end.

(** Pre-processing of [add_load_rule_to_mod]: the rule targets as a list
    of lower-case strings, [None] where the function returns early. *)
Definition text_of (d : dict pyval) : result string :=
  lower_of (default VNone (dget "#text" d)).

Fixpoint rule_targets_of_list (l : list pyval) : result (list string) :=
  match l with
  | [] => Ok []
  | dep :: l' =>
      let here :=
        match dep with
        | VStr s => Ok [Str.lower s]
        | VDict d => if dmem "#text" d
                     then match text_of d with
                          | Ok s => Ok [s]
                          | Raise e => Raise e
                          end
                     else Ok []
        | _ => Ok []
        end in
      match here with
      | Raise e => Raise e
      | Ok h => match rule_targets_of_list l' with
                | Ok t => Ok (h ++ t)
                | Raise e => Raise e
                end
      end
  end.

Definition rule_targets (x : pyval) : result (option (list string)) :=
  match x with
  | VStr s => Ok (Some [Str.lower s])
  | VDict d =>
      if dmem "#text" d
      then match text_of d with
           | Ok s => Ok (Some [s])
           | Raise e => Raise e
           end
      else Ok (Some [])
  | VList l =>
      match rule_targets_of_list l with
      | Ok t => Ok (Some t)
      | Raise e => Raise e
      end
  | _ => Ok None
  end.

(** [add_load_rule_to_mod(self.internal_local_metadata[uuid], x,
    explicit_key, indirect_key, ...)] *)
Definition add_load_rule_to_mod (uuid : string) (x : pyval)
           (explicit_key indirect_key : string) : M unit :=
  let* mod_data := the_mod uuid in
  let* targets := lift (rule_targets x) in
  match targets with
  | None => skip
  | Some deps =>
      update_mod uuid (setdefault_rules explicit_key) >>>
      for_each deps (fun dep =>
        let* st := get_state in
        match packageid_to_uuids st !! dep with
        | Some potential_dep_uuids =>
            update_mod uuid (add_rule explicit_key (dep, true)) >>>
            for_each (elements potential_dep_uuids) (fun dep_uuid =>
              update_mod dep_uuid
                (add_rule indirect_key (packageid mod_data, false)))
        | None => skip
        end)
  end.

(** *** The version pattern

    [major, minor = game_version.split(".")[:2]] raises [ValueError]
    when the version has fewer than two components. The pattern
    [rf"v{major}\.{minor}"] is kept as the pair; [re.match] tests the
    start of the key only. Where [major] or [minor] would put a
    regular-expression operator into the pattern the embedding stops with
    [RegexUnmodelled]. *)

Definition version_regex (game_version : string) : result (string * string) :=
  match Str.split "." game_version with
  | major :: minor :: _ => Ok (major, minor)
  | _ => Raise ValueError
  end.

Definition regex_special (c : ascii) : bool :=
  existsb (Ascii.eqb c) (list_ascii_of_string ".^$*+?{}[]\|()").

Definition regex_plain (s : string) : bool :=
  forallb (fun c => negb (regex_special c)) (list_ascii_of_string s).

(** [match(version_regex, version)] as a truth value *)
Definition re_match (regex : string * string) (version : string) : result bool :=
  let (major, minor) := regex in
  if regex_plain major && regex_plain minor
  then Ok (String.prefix ("v" ++ major ++ "." ++ minor) version)
  else Raise RegexUnmodelled.

(** *** [compile_metadata] *)

Definition process_dependencies (uuid : string) (dependencies : pyval) : M unit :=
  match dependencies with
  | VList l =>
      for_each l (fun dependency =>
        match dependency with
        | VDict d =>
            if dmem "packageId" d then
              let package_id := default VNone (dget "packageId" d) in
              if truthy package_id then
                add_dependency_to_mod uuid package_id >>>
                let* st := get_state in
                if dependency_for_sorting st
                then add_load_rule_to_mod uuid package_id
                                          "loadTheseBefore" "loadTheseAfter"
                else skip
              else skip
            else skip
        | _ => skip
        end)
  | _ => skip
  end.

Definition process_incompatibilities (uuid : string) (incompatibilities : pyval)
  : M unit :=
  match incompatibilities with
  | VList l =>
      for_each l (fun incompatibility =>
        match incompatibility with
        | VStr _ => add_incompatibility_to_mod uuid incompatibility
        | _ => skip
        end)
  | _ => skip
  end.

Definition process_load_order (uuid : string) (load_these : pyval)
           (rule_type opposite_rule_type : string) : M unit :=
  match load_these with
  | VList l =>
      for_each l (fun load_this =>
        match load_this with
        | VStr _ => add_load_rule_to_mod uuid load_this
                                         rule_type opposite_rule_type
        | _ => skip
        end)
  | _ => skip
  end.

(** [for version, data in by_version: if match(version_regex, version): ...] *)
Definition for_matching_versions (regex : string * string)
           (by_version : list (string * pyval)) (body : pyval -> M unit)
  : M unit :=
  for_each by_version (fun entry =>
    let* applies := lift (re_match regex (fst entry)) in
    if applies then body (snd entry) else skip).

(** An unconditional load-order block: [loadafter], [forceloadafter],
    [loadbefore], [forceloadbefore]. *)
Definition load_order_block (uuid : string) (mod_metadata : Mod)
           (key rule_type opposite_rule_type : string) : M unit :=
  let* load_list := lift (li_of (about_get mod_metadata key)) in
  process_load_order uuid (or_empty_list load_list)
                     rule_type opposite_rule_type.

(** The body of a version-scoped load-order block. *)
Definition load_order_by_version_body (uuid : string)
           (rule_type opposite_rule_type : string) (by_ver : pyval) : M unit :=
  if is_dict by_ver then
    let* by_ver_list := lift (li_of by_ver) in
    process_load_order uuid (or_empty_list by_ver_list)
                       rule_type opposite_rule_type
  else skip.

(** The body of [for uuid in uuids]. *)
Definition compile_mod (uuid : string) : M unit :=
  let* st := get_state in
  match dget uuid (internal_local_metadata st) with
  | None => skip
  | Some mod_metadata =>
      (* moddependencies *)
      let* dependencies :=
        lift (li_of (about_get mod_metadata "moddependencies")) in
      process_dependencies uuid dependencies >>>
      (* moddependenciesbyversion *)
      let dependencies_by_version :=
        about_get mod_metadata "moddependenciesbyversion" in
      let* version_regex := lift (version_regex (game_version st)) in
      let* by_version := lift (items_of dependencies_by_version) in
      for_matching_versions version_regex by_version (fun deps =>
        let* dependencies := lift (li_of deps) in
        process_dependencies uuid dependencies) >>>
      (* incompatiblewith *)
      let* incompatibilities :=
        lift (li_of (about_get mod_metadata "incompatiblewith")) in
      process_incompatibilities uuid (or_empty_list incompatibilities) >>>
      (* incompatiblewithbyversion *)
      let* by_version :=
        lift (items_of (about_get mod_metadata "incompatiblewithbyversion")) in
      for_matching_versions version_regex by_version (fun incs =>
        let* incompatibilities := lift (li_of incs) in
        process_incompatibilities uuid (or_empty_list incompatibilities)) >>>
      (* loadafter, forceloadafter *)
      load_order_block uuid mod_metadata "loadafter"
                       "loadTheseBefore" "loadTheseAfter" >>>
      load_order_block uuid mod_metadata "forceloadafter"
                       "loadTheseBefore" "loadTheseAfter" >>>
      (* loadafterbyversion *)
      (let load_after_by_version :=
         about_get mod_metadata "loadafterbyversion" in
       match load_after_by_version with
       | VDict ((_ :: _) as by_version) =>
           for_matching_versions version_regex by_version
             (load_order_by_version_body uuid
                "loadTheseBefore" "loadTheseAfter")
       | _ => skip
       end) >>>
      (* loadbefore, forceloadbefore *)
      load_order_block uuid mod_metadata "loadbefore"
                       "loadTheseAfter" "loadTheseBefore" >>>
      load_order_block uuid mod_metadata "forceloadbefore"
                       "loadTheseAfter" "loadTheseBefore" >>>
      (* loadbeforebyversion *)
      (let load_before_by_version :=
         about_get mod_metadata "loadbeforebyversion" in
       match load_before_by_version with
       | VDict by_version =>
           for_matching_versions version_regex by_version
             (load_order_by_version_body uuid
                "loadTheseAfter" "loadTheseBefore")
       | _ => skip
       end)
  end.

(** *** Dependencies from the Steam database *)

(** First loop over [external_steam_metadata]: [steam_id_to_package_id]
    and [tracking_dict] are locals, threaded through the loop. *)
Definition steamdb_locals : Type :=
  (dict string * dict (gset string))%type.

Definition track_uuid (publishedfileid : string) (mod_data : pyval)
           (uuid : string) (tracking_dict : dict (gset string))
  : M (dict (gset string)) :=
  let* st := get_state in
  match dget uuid (internal_local_metadata st) with
  | Some mod_metadata =>
      if bool_decide (Metadata.publishedfileid mod_metadata
                      = Some publishedfileid) then
        let* dependencies := lift (get_of mod_data "dependencies") in
        if truthy dependencies then
          let* deps := lift (items_of dependencies) in
          ret (dset uuid
                    (default ∅ (dget uuid tracking_dict)
                       ∪ list_to_set (dkeys deps))
                    tracking_dict)
        else ret tracking_dict
      else ret tracking_dict
  | None => ret tracking_dict
  end.

Fixpoint track_uuids (publishedfileid : string) (mod_data : pyval)
         (uuids : list string) (tracking_dict : dict (gset string))
  : M (dict (gset string)) :=
  match uuids with
  | [] => ret tracking_dict
  | uuid :: uuids' =>
      let* t := track_uuid publishedfileid mod_data uuid tracking_dict in
      track_uuids publishedfileid mod_data uuids' t
  end.

Definition steamdb_entry (publishedfileid : string) (mod_data : pyval)
           (locals : steamdb_locals) : M steamdb_locals :=
  let (steam_id_to_package_id, tracking_dict) := locals in
  let* db_packageid := lift (get_of mod_data "packageId") in
  if truthy db_packageid then
    let* db_packageid := lift (lower_of db_packageid) in
    let steam_id_to_package_id :=
      dset publishedfileid db_packageid steam_id_to_package_id in
    let* name := lift (get_of mod_data "name") in
    modify (set_steamdb_names (dset db_packageid name)) >>>
    let* st := get_state in
    let potential_uuids :=
      default ∅ (packageid_to_uuids st !! db_packageid) in
    let* tracking_dict :=
      track_uuids publishedfileid mod_data (elements potential_uuids)
                  tracking_dict in
    ret (steam_id_to_package_id, tracking_dict)
  else ret locals.

Fixpoint steamdb_entries (entries : list (string * pyval))
         (locals : steamdb_locals) : M steamdb_locals :=
  match entries with
  | [] => ret locals
  | (publishedfileid, mod_data) :: entries' =>
      let* locals' := steamdb_entry publishedfileid mod_data locals in
      steamdb_entries entries' locals'
  end.

Definition compile_steamdb : M unit :=
  let* st := get_state in
  match external_steam_metadata st with
  | [] => skip
  | entries =>
      let* locals := steamdb_entries entries ([], []) in
      let (steam_id_to_package_id, tracking_dict) := locals in
      for_each tracking_dict (fun tracked =>
        for_each (elements (snd tracked)) (fun dependency_steam_id =>
          match dget dependency_steam_id steam_id_to_package_id with
          | Some package_id =>
              add_dependency_to_mod_from_steamdb (fst tracked) package_id
          | None => skip
          end))
  end.

(** *** External rule sets *)

(** One of the three buckets of a rule entry: [rule_data.get(bucket)]
    applied through [add_load_rule_to_mod] to every uuid of the package. *)
Definition apply_bucket (rule_data : pyval) (bucket : string)
           (potential_uuids : list string)
           (rule_type opposite_rule_type : string) : M unit :=
  let* load_these := lift (get_of rule_data bucket) in
  match load_these with
  | VList ((_ :: _) as l) =>
      for_each l (fun load_this =>
        match load_this with
        | VStr _ =>
            for_each potential_uuids (fun uuid =>
              add_load_rule_to_mod uuid load_this
                                   rule_type opposite_rule_type)
        | _ => skip
        end)
  | _ => skip
  end.

Definition process_external_rules (rules : dict pyval)
           (rule_type opposite_rule_type : string) : M unit :=
  for_each rules (fun rule =>
    let package_id_lower := Str.lower (fst rule) in
    let rule_data := snd rule in
    let* st := get_state in
    match packageid_to_uuids st !! package_id_lower with
    | Some uuids =>
        let potential_uuids := elements uuids in
        apply_bucket rule_data rule_type potential_uuids
                     rule_type opposite_rule_type >>>
        apply_bucket rule_data "loadBottom" potential_uuids
                     rule_type opposite_rule_type >>>
        apply_bucket rule_data "loadTop" potential_uuids
                     rule_type opposite_rule_type
    | None => skip
    end).

Definition compile_rules (rules : dict pyval) : M unit :=
  match rules with
  | [] => skip
  | _ =>
      process_external_rules rules "loadBefore" "loadAfter" >>>
      process_external_rules rules "loadAfter" "loadBefore"
  end.

(** [MetadataManager.compile_metadata(uuids)] *)
Definition compile_metadata (uuids : list string) : M unit :=
  let* st := get_state in
  let uuids :=
    match uuids with
    | [] => dkeys (internal_local_metadata st)
    | _ => uuids
    end in
  for_each uuids compile_mod >>>
  compile_steamdb >>>
  (let* st := get_state in compile_rules (external_community_rules st)) >>>
  (let* st := get_state in compile_rules (external_user_rules st)).

(** *** Single-item updates *)

(** [MetadataManager.process_deletion]; the directory is only logged. *)
Definition process_deletion (uuid : string) : M unit :=
  let* st := get_state in
  match dget uuid (internal_local_metadata st) with
  | None => skip
  | Some deleted_mod =>
      let deleted_mod_packageid := packageid deleted_mod in
      modify (set_metadata (ddel uuid)) >>>
      (if negb (String.eqb deleted_mod_packageid "") then
         match packageid_to_uuids st !! deleted_mod_packageid with
         | Some group =>
             if bool_decide (group = ∅) then skip
             else if bool_decide (uuid ∈ group) then
               modify (set_index
                         (insert deleted_mod_packageid (group ∖ {[uuid]})))
             else raise KeyError
         | None => skip
         end
       else skip) >>>
      modify (emit (mod_deleted uuid))
  end.

(** [self.parser_threadpool.start(parser)] on the [ModParser] that
    [process_update] has just built. [ModParser.__init__] only sets the
    attributes of the parser and never runs [QRunnable.__init__], so the
    binding refuses the object with [RuntimeError] before anything is
    scheduled: nothing is parsed and the manager is left as it is. *)
Definition start_parser (mod_directory data_source uuid : string) : M unit :=
  raise RuntimeError.

(** [MetadataManager.process_update]. Waiting for the pool and clearing it
    ([if not batch]) do not touch the manager. *)
Definition process_update (batch : bool) (exists_ : bool)
           (data_source mod_directory uuid : string) : M unit :=
  start_parser mod_directory data_source uuid >>>
  (if exists_ && negb batch then
     compile_metadata [uuid] >>>
     modify (emit (mod_metadata_updated uuid))
   else skip).

(** [MetadataManager.process_batch]; [batch] maps a directory to the uuid
    to parse. *)
Definition process_batch (batch : dict string) (data_source : string) : M unit :=
  for_each batch (fun entry =>
    let* st := get_state in
    process_update true (dmem (snd entry) (internal_local_metadata st))
                   data_source (fst entry) (snd entry)).

(** [MetadataManager.process_creation] *)
Definition process_creation (data_source mod_directory uuid : string) : M unit :=
  let* st := get_state in
  process_update false (dmem uuid (internal_local_metadata st))
                 data_source mod_directory uuid >>>
  modify (emit (mod_created uuid)).

End Metadata.

(** ** The active-list builder ([get_mods_from_list])

    The list form of the argument is embedded: a list of package ids. The
    path form reads the same list from a file first. *)

Module Resolver.
Import Py Metadata.

(** Locals of the function that the loops update. *)
Record lists : Type := mkLists {
  active_mods_uuids : list string;
  duplicates_processed : list string;
  populated_mods : list string;
  to_populate : list string;
}.

Record outcome : Type := mkOutcome {
  active : list string;
  inactive : list string;
  duplicates : dict (list string);
  missing : list string;
}.

(** [duplicate_mods]: package id to the uuids carrying it, in store order,
    kept where there is more than one. *)
Definition duplicate_mods (all_mods : dict Mod) : dict (list string) :=
  let grouped :=
    fold_left
      (fun acc um =>
         let pid := packageid (snd um) in
         dset pid (default [] (dget pid acc) ++ [fst um]) acc)
      all_mods [] in
  List.filter (fun kv => 1 <? length (snd kv)) grouped.

Definition steam_suffix : string := "_steam".

Definition sources_order (is_steam : bool) : list string :=
  if is_steam then ["workshop"; "local"]
  else ["expansion"; "local"; "workshop"].

(** [paths_to_uuid] for one source: the duplicates whose [data_source]
    holds the source name, keyed by path. The uuids come from the store,
    so the lookup [all_mods[duplicate_uuid]] succeeds. *)
Definition paths_to_uuid (all_mods : dict Mod) (source : string)
           (duplicate_uuids : list string) : dict string :=
  fold_left
    (fun acc duplicate_uuid =>
       match dget duplicate_uuid all_mods with
       | Some m =>
           if Str.contains source (data_source m)
           then dset (path m) duplicate_uuid acc
           else acc
       | None => acc
       end)
    duplicate_uuids [].

(** [for source in sources_order: ... break]: the uuid of the first path,
    in natural order, of the first source that has a path. *)
Fixpoint calculated_duplicate (all_mods : dict Mod) (sources : list string)
         (duplicate_uuids : list string) : option string :=
  match sources with
  | [] => None
  | source :: sources' =>
      let p2u := paths_to_uuid all_mods source duplicate_uuids in
      match Natsort.natsorted (dkeys p2u) with
      | first :: _ => dget first p2u
      | [] => calculated_duplicate all_mods sources' duplicate_uuids
      end
  end.

(** Body of [for uuid, metadata in all_mods.items()]. *)
Definition visit_mod (all_mods : dict Mod) (dups : dict (list string))
           (package_id_normalized package_id_normalized_stripped target_id
              : string)
           (sources : list string) (l : lists) (um : string * Mod) : lists :=
  let metadata_package_id := packageid (snd um) in
  if String.eqb metadata_package_id package_id_normalized
     || String.eqb metadata_package_id package_id_normalized_stripped then
    if negb (dmem target_id dups) then
      mkLists (active_mods_uuids l ++ [fst um]) (duplicates_processed l)
              (populated_mods l ++ [target_id]) (to_populate l)
    else if str_in target_id (duplicates_processed l) then l
    else
      match calculated_duplicate all_mods sources
                                 (default [] (dget target_id dups)) with
      | Some calculated_duplicate_uuid =>
          mkLists (active_mods_uuids l ++ [calculated_duplicate_uuid])
                  (duplicates_processed l ++ [target_id])
                  (populated_mods l ++ [target_id]) (to_populate l)
      | None => l
      end
  else l.

(** The target id of a requested entry. *)
Definition normalized (package_id : string) : string := Str.lower package_id.
Definition stripped (package_id : string) : string :=
  Str.replace steam_suffix "" (normalized package_id).
Definition is_steam (package_id : string) : bool :=
  Str.contains steam_suffix (normalized package_id).
Definition target_of (package_id : string) : string :=
  if is_steam package_id then stripped package_id else normalized package_id.

(** Body of [for package_id in package_ids_to_import]. *)
Definition visit_request (all_mods : dict Mod) (dups : dict (list string))
           (l : lists) (package_id : string) : lists :=
  let target_id := target_of package_id in
  let l0 := mkLists (active_mods_uuids l) (duplicates_processed l)
                    (populated_mods l) (to_populate l ++ [target_id]) in
  fold_left
    (visit_mod all_mods dups (normalized package_id) (stripped package_id)
               target_id (sources_order (is_steam package_id)))
    all_mods l0.

(** [list(set(xs) - set(ys))]: Python leaves the order of the result
    open; the embedding lists each element once. *)
Fixpoint set_difference (xs ys : list string) : list string :=
  match xs with
  | [] => []
  | x :: xs' =>
      let rest := set_difference xs' ys in
      if str_in x ys || str_in x xs' then rest else x :: rest
  end.

Definition get_mods_from_list (all_mods : dict Mod) (mod_list : list string)
  : outcome :=
  let dups := duplicate_mods all_mods in
  let l := fold_left (visit_request all_mods dups) mod_list
                     (mkLists [] [] [] []) in
  mkOutcome
    (active_mods_uuids l)
    (List.filter (fun uuid => negb (str_in uuid (active_mods_uuids l)))
            (dkeys all_mods))
    dups
    (set_difference (to_populate l) (populated_mods l)).

End Resolver.

(** ** Predicates used to state the properties of the active-list builder *)

Module ResolverSpec.
Import Py Metadata Resolver.

(** The test of [get_mods_from_list] for "this record answers entry p". *)
Definition entry_matches (p : string) (m : Mod) : bool :=
  String.eqb (packageid m) (normalized p)
  || String.eqb (packageid m) (stripped p).

(** Entry [p] selects a record: some record answers it and, where its
    target is a duplicated package id, one of the copies comes from a
    source of the entry's priority order. *)
Definition selects (all_mods : dict Mod) (p : string) : bool :=
  existsb (fun um => entry_matches p (snd um)) all_mods
  && (negb (dmem (target_of p) (duplicate_mods all_mods))
      || match calculated_duplicate all_mods (sources_order (is_steam p))
                 (default [] (dget (target_of p) (duplicate_mods all_mods)))
         with
         | Some _ => true
         | None => false
         end).

(** The lists kept by the loops: every processed duplicate was populated. *)
Definition processed_populated (l : lists) : Prop :=
  forall x, In x (duplicates_processed l) -> In x (populated_mods l).

(** The second condition of [selects], as a proposition. *)
Definition reachable_choice (all_mods : dict Mod) (p : string) : Prop :=
  dmem (target_of p) (duplicate_mods all_mods) = false \/
  calculated_duplicate all_mods (sources_order (is_steam p))
    (default [] (dget (target_of p) (duplicate_mods all_mods))) <> None.

End ResolverSpec.

(** ** Predicates used to state the properties of the relation compiler *)

Module CompilerSpec.
Import Py Metadata.

(** The descriptor of [m] lists [name] under [key]: [{key: {"li": [...,
    name, ...]}}]. *)
Definition declares (m : Mod) (key name : string) : Prop :=
  exists d l, dget key (about m) = Some (VDict d) /\
              dget "li" d = Some (VList l) /\ In (VStr name) l.

(** What the compiler may do to a record: the descriptor and the
    identifying fields stay, the derived sets grow, and an incompatibility
    is only added for one of the package ids [pids]. *)
Definition mod_evolves (pids : list string) (m m' : Mod) : Prop :=
  packageid m' = packageid m /\ data_source m' = data_source m /\
  path m' = path m /\ publishedfileid m' = publishedfileid m /\
  about m' = about m /\
  dependencies m ⊆ dependencies m' /\
  incompatibilities m ⊆ incompatibilities m' /\
  (forall x, x ∈ incompatibilities m' -> x ∈ incompatibilities m \/ In x pids) /\
  (forall key, rules_of m key ⊆ rules_of m' key).

Definition entries_evolve (pids : list string) (s s' : dict Mod) : Prop :=
  Forall2 (fun um um' => fst um = fst um' /\ mod_evolves pids (snd um) (snd um'))
          s s'.

Definition evolves (st st' : Manager) : Prop :=
  entries_evolve (all_package_ids (internal_local_metadata st))
                 (internal_local_metadata st) (internal_local_metadata st') /\
  packageid_to_uuids st' = packageid_to_uuids st /\
  game_version st' = game_version st /\
  dependency_for_sorting st' = dependency_for_sorting st /\
  external_steam_metadata st' = external_steam_metadata st /\
  external_community_rules st' = external_community_rules st /\
  external_user_rules st' = external_user_rules st.

(** A computation is steady when the manager it leaves, whether it
    returns or raises, evolves from the one it started in. *)
Definition steady {A} (m : M A) : Prop := forall st, evolves st (fst (m st)).

(** Steadiness from the states whose package ids are [ids]. *)
Definition steady_from {A} (ids : list string) (m : M A) : Prop :=
  forall st, all_package_ids (internal_local_metadata st) = ids ->
             evolves st (fst (m st)).

End CompilerSpec.

(** ** Purging the records of a data source
       ([__refresh_internal_metadata], [purge_by_data_source]) *)

Module Refresh.
Import Py Metadata.
Local Open Scope py_scope.

(** The list comprehension: the uuids of the records of [data_source], all
    of them for an empty [batch], otherwise those that are not in it. *)
Definition uuids_to_remove (data_source : string) (batch : list string)
           (all_mods : dict Mod) : list string :=
  match batch with
  | [] =>
      dkeys (List.filter
               (fun um => String.eqb (Metadata.data_source (snd um)) data_source)
               all_mods)
  | _ =>
      dkeys (List.filter
               (fun um => String.eqb (Metadata.data_source (snd um)) data_source
                          && negb (str_in (fst um) batch))
               all_mods)
  end.

(** Body of [for uuid in uuids_to_remove]. *)
Definition purge_uuid (uuid : string) : M unit :=
  let* st := get_state in
  match dget uuid (internal_local_metadata st) with
  | None => skip
  | Some deleted_mod =>
      let deleted_mod_packageid := packageid deleted_mod in
      modify (set_metadata (ddel uuid)) >>>
      (if negb (String.eqb deleted_mod_packageid "") then
         match packageid_to_uuids st !! deleted_mod_packageid with
         | Some group =>
             if bool_decide (group = ∅) then skip
             else if bool_decide (uuid ∈ group) then
               modify (set_index
                         (insert deleted_mod_packageid (group ∖ {[uuid]})))
             else raise KeyError
         | None => skip
         end
       else skip)
  end.

Definition purge_by_data_source (data_source : string) (batch : list string)
  : M unit :=
  let* st := get_state in
  match uuids_to_remove data_source batch (internal_local_metadata st) with
  | [] => skip
  | uuids => for_each uuids purge_uuid
  end.

End Refresh.

(** ** Version check and blacklist check

    [is_version_mismatch] and [check_if_pfids_blacklisted] can also raise
    [TypeError]. *)

Inductive pyerror : Type :=
| Exn (e : exn)
| TypeError  (* startswith on a value that is not a string, subscripting
                a string, a list or a number with a key *).

Inductive attempt (A : Type) : Type :=
| Returns (a : A)
| Raises (e : pyerror).
Arguments Returns {A} a.
Arguments Raises {A} e.

Module Checks.
Import Py Metadata.

(** [[ver for ver in supported_versions if game_version.startswith(ver)]] *)
Fixpoint versions_started (game_version : string) (supported_versions : list pyval)
  : attempt (list string) :=
  match supported_versions with
  | [] => Returns []
  | VStr ver :: rest =>
      if String.prefix ver game_version then
        match versions_started game_version rest with
        | Returns found => Returns (ver :: found)
        | Raises e => Raises e
        end
      else versions_started game_version rest
  | _ :: _ => Raises TypeError
  end.

(** [any(l)] on a list of strings *)
Definition any_str (l : list string) : bool :=
  existsb (fun s => negb (String.eqb s "")) l.

(** [MetadataManager.is_version_mismatch] *)
Definition is_version_mismatch (uuid : string) (st : Manager) : attempt bool :=
  if String.eqb (game_version st) "" then Returns true
  else
    match dget uuid (internal_local_metadata st) with
    | None => Returns true
    | Some mod_data =>
        match about_get mod_data "supportedversions" with
        | VDict d =>
            let supported_versions := default VNone (dget "li" d) in
            if truthy supported_versions then
              match supported_versions with
              | VStr s => Returns (negb (String.prefix s (game_version st)))
              | VList l =>
                  match versions_started (game_version st) l with
                  | Returns found => Returns (negb (any_str found))
                  | Raises e => Raises e
                  end
              | _ => Returns true
              end
            else Returns true
        | _ => Raises (Exn AttributeError)
        end
    end.

(** [steamdb.get(publishedfileid, {}).get("blacklist")] *)
Definition blacklist_of (steamdb : dict pyval) (publishedfileid : string)
  : attempt pyval :=
  match default (VDict []) (dget publishedfileid steamdb) with
  | VDict entry => Returns (default VNone (dget "blacklist" entry))
  | _ => Raises (Exn AttributeError)
  end.

(** The report entry [{"name": steamdb[id]["steamName"],
    "comment": steamdb[id]["blacklist"]["comment"]}] of an id whose
    blacklist value is [blacklist]. *)
Definition report_entry (steamdb : dict pyval) (publishedfileid : string)
           (blacklist : pyval) : attempt (pyval * pyval) :=
  match dget publishedfileid steamdb with
  | Some (VDict entry) =>
      match dget "steamName" entry with
      | None => Raises (Exn KeyError)
      | Some name =>
          match blacklist with
          | VDict b =>
              match dget "comment" b with
              | Some comment => Returns (name, comment)
              | None => Raises (Exn KeyError)
              end
          | _ => Raises TypeError
          end
      end
  | _ => Raises (Exn KeyError)
  end.

(** First loop: the dictionary [blacklisted_mods].  The ids are strings,
    so the [elif] of the source, which repeats the test on
    [str(publishedfileid)], looks up the same key and finds the same false
    value: its body is never entered. *)
Fixpoint blacklisted_mods (steamdb : dict pyval) (publishedfileids : list string)
         (found : dict (pyval * pyval)) : attempt (dict (pyval * pyval)) :=
  match publishedfileids with
  | [] => Returns found
  | publishedfileid :: rest =>
      match blacklist_of steamdb publishedfileid with
      | Raises e => Raises e
      | Returns blacklist =>
          if truthy blacklist then
            match report_entry steamdb publishedfileid blacklist with
            | Raises e => Raises e
            | Returns entry =>
                blacklisted_mods steamdb rest (dset publishedfileid entry found)
            end
          else blacklisted_mods steamdb rest found
      end
  end.

(** [l.remove(x)]: the first occurrence goes, [ValueError] without one. *)
Fixpoint list_remove (x : string) (l : list string) : attempt (list string) :=
  match l with
  | [] => Raises (Exn ValueError)
  | y :: l' =>
      if String.eqb x y then Returns l'
      else match list_remove x l' with
           | Returns r => Returns (y :: r)
           | Raises e => Raises e
           end
  end.

Fixpoint remove_each (xs : list string) (l : list string) : attempt (list string) :=
  match xs with
  | [] => Returns l
  | x :: xs' =>
      match list_remove x l with
      | Returns l' => remove_each xs' l'
      | Raises e => Raises e
      end
  end.

(** [check_if_pfids_blacklisted]; [answer] is the button text the dialogue
    returns, asked for only when a blacklisted id was found. *)
Definition check_if_pfids_blacklisted (publishedfileids : list string)
           (steamdb : dict pyval) (answer : string) : attempt (list string) :=
  match steamdb with
  | [] => Returns publishedfileids
  | _ =>
      match blacklisted_mods steamdb publishedfileids [] with
      | Raises e => Raises e
      | Returns [] => Returns publishedfileids
      | Returns found =>
          if Str.contains "Download" answer
          then remove_each (dkeys found) publishedfileids
          else Returns publishedfileids
      end
  end.

(** The test of the first loop as a truth value: the entry of the id
    holds a true [blacklist] value. *)
Definition blacklisted (steamdb : dict pyval) (publishedfileid : string) : bool :=
  match blacklist_of steamdb publishedfileid with
  | Returns blacklist => truthy blacklist
  | Raises _ => false
  end.

End Checks.

(** ** Predicates used to state the properties of the store *)

Module StoreSpec.
Import Py Metadata.

(** The index agrees with the store on the non-empty package ids: a uuid
    is in the group of [p] exactly when its record carries [p]. *)
Definition indexed (st : Manager) : Prop :=
  forall u p, p <> "" ->
    ((exists g, packageid_to_uuids st !! p = Some g /\ u ∈ g)
     <-> (exists m, dget u (internal_local_metadata st) = Some m
                    /\ packageid m = p)).

(** The index a store calls for: every uuid in the group of the package
    id of its record. *)
Definition index_of (all_mods : dict Mod) : gmap string (gset string) :=
  fold_right
    (fun um idx =>
       let p := packageid (snd um) in
       <[p := {[fst um]} ∪ default ∅ (idx !! p)]> idx)
    ∅ all_mods.

End StoreSpec.

(** ** Relations the compiler keeps between the manager before and after *)

Module Keeping.
Import Py Metadata.

(** Two stores hold the same uuids in the same order, with records
    related by [Qm]. *)
Definition lifted (Qm : Mod -> Mod -> Prop) (s s' : dict Mod) : Prop :=
  Forall2 (fun um um' => fst um = fst um' /\ Qm (snd um) (snd um')) s s'.

Definition related (Qm : Mod -> Mod -> Prop) (st st' : Manager) : Prop :=
  packageid_to_uuids st' = packageid_to_uuids st /\
  lifted Qm (internal_local_metadata st) (internal_local_metadata st').

(** The managers whose index is [idx] and whose package ids are [pids]. *)
Definition based (idx : gmap string (gset string)) (pids : list string)
           (st : Manager) : Prop :=
  packageid_to_uuids st = idx /\
  all_package_ids (internal_local_metadata st) = pids.

(** A computation keeps [Qm] when the manager it leaves, whether it
    returns or raises, is related to the one it started in. *)
Definition keeps (Qm : Mod -> Mod -> Prop) (idx : gmap string (gset string))
           (pids : list string) {A} (m : M A) : Prop :=
  forall st, based idx pids st -> related Qm st (fst (m st)).

(** A rule tuple the compiler may add on a manager based on [idx] and
    [pids]: an explicit one names a key of the index, an implied one
    carries the package id of a record. *)
Definition nameable (idx : gmap string (gset string)) (pids : list string)
           (rule : string * bool) : Prop :=
  (snd rule = true /\ is_Some (idx !! fst rule)) \/
  (snd rule = false /\ In (fst rule) pids).

(** The record keeps its package id and gains nameable tuples only. *)
Definition names_rules (idx : gmap string (gset string)) (pids : list string)
           (m m' : Mod) : Prop :=
  packageid m' = packageid m /\
  forall key rule, rule ∈ rules_of m' key ->
                   rule ∈ rules_of m key \/ nameable idx pids rule.

(** The record keeps its package id and its dependencies. *)
Definition same_dependencies (m m' : Mod) : Prop :=
  packageid m' = packageid m /\ dependencies m' = dependencies m.

(** The [packageId] of a dependency entry is neither a dictionary nor a
    list (it is a string in a well-formed descriptor). *)
Definition plain_package_id (dependency : pyval) : bool :=
  match dependency with
  | VDict d =>
      match dget "packageId" d with
      | Some package_id => negb (is_list package_id) && negb (is_dict package_id)
      | None => true
      end
  | _ => true
  end.

End Keeping.

(** ** Predicates used to state the properties of the version-scoped blocks *)

Module VersionSpec.
Import Py Metadata.

(** The descriptor of [m] lists [name] under [key] in the block of version
    key [version]: [{key: {version: {"li": [..., name, ...]}}}]. *)
Definition declares_for (m : Mod) (key version name : string) : Prop :=
  exists by_version d l,
    dget key (about m) = Some (VDict by_version) /\
    In (version, VDict d) by_version /\
    dget "li" d = Some (VList l) /\ In (VStr name) l.

(** The descriptor of [m] lists a dependency on [name] in the block of
    version key [version] of [moddependenciesbyversion]. *)
Definition depends_for (m : Mod) (version name : string) : Prop :=
  exists by_version d l dependency,
    dget "moddependenciesbyversion" (about m) = Some (VDict by_version) /\
    In (version, VDict d) by_version /\
    dget "li" d = Some (VList l) /\ In (VDict dependency) l /\
    dget "packageId" dependency = Some (VStr name) /\ name <> "".

(** The descriptor keys that hold version-scoped blocks. *)
Definition by_version_keys : list string :=
  ["moddependenciesbyversion"; "incompatiblewithbyversion";
   "loadafterbyversion"; "loadbeforebyversion"].

(** A dictionary of version-scoped blocks without the blocks whose version
    key [keep] rejects. *)
Definition scope_value (keep : string -> bool) (v : pyval) : pyval :=
  match v with
  | VDict by_version =>
      VDict (List.filter (fun entry => keep (fst entry)) by_version)
  | _ => v
  end.

Definition scope_about (keep : string -> bool) (descriptor : dict pyval)
  : dict pyval :=
  map (fun kv => (fst kv, if str_in (fst kv) by_version_keys
                          then scope_value keep (snd kv) else snd kv))
      descriptor.

Definition scope_mod (keep : string -> bool) (m : Mod) : Mod :=
  mkMod (packageid m) (data_source m) (path m) (publishedfileid m)
        (scope_about keep (about m))
        (dependencies m) (incompatibilities m) (load_rules m).

(** The manager whose descriptors hold only the version-scoped blocks that
    [keep] accepts. *)
Definition scoped (keep : string -> bool) (st : Manager) : Manager :=
  set_metadata (map (fun um => (fst um, scope_mod keep (snd um)))) st.

(** A computation commutes with scoping: run on the scoped manager it
    gives the same outcome and the scoped final manager. *)
Definition commutes (keep : string -> bool) {A} (m : M A) : Prop :=
  forall st, m (scoped keep st) = (scoped keep (fst (m st)), snd (m st)).

End VersionSpec.

(** ** Concrete stores used as test inputs *)

Module Examples.
Import Py Metadata.

Definition installed (pid source dir : string) (descriptor : dict pyval) : Mod :=
  mkMod pid source dir None descriptor ∅ ∅ ∅.

(** [{"li": [...]}] *)
Definition li (ids : list string) : pyval :=
  VDict [("li", VList (map VStr ids))].

Definition manager (mods : dict Mod) (index : gmap string (gset string))
           (version : string) : Manager :=
  mkManager mods index version false [] [] [] [] [].

(** A declares "load after b" and an incompatibility with b and with an
    absent package; b is installed. *)
Definition mod_a : Mod :=
  installed "a" "local" "/mods/a"
    [("loadafter", li ["B"]); ("incompatiblewith", li ["b"; "gone"]);
     ("loadbefore", li ["c"])].
Definition mod_b : Mod := installed "b" "workshop" "/workshop/b" [].
Definition mod_c : Mod := installed "c" "workshop" "/workshop/c" [].

Definition store_abc : dict Mod := [("uA", mod_a); ("uB", mod_b); ("uC", mod_c)].
Definition index_abc : gmap string (gset string) :=
  {[ "a" := {["uA"]}; "b" := {["uB"]}; "c" := {["uC"]} ]}.

Definition st_abc : Manager := manager store_abc index_abc "1.4.3600".

(** The same store when [Version.txt] could not be read. *)
Definition st_no_version : Manager := manager store_abc index_abc "".

(** Version-scoped load-order blocks. *)
Definition mod_v : Mod :=
  installed "v" "local" "/mods/v"
    [("loadafterbyversion",
      VDict [("v1.4", li ["b"]); ("v1.5", li ["c"])])].
Definition st_versions : Manager :=
  manager [("uV", mod_v); ("uB", mod_b); ("uC", mod_c)]
          {[ "v" := {["uV"]}; "b" := {["uB"]}; "c" := {["uC"]} ]}
          "1.4.3600".

(** Duplicates for the active-list builder. *)
Definition x_local : Mod := installed "x.mod" "local" "/mods/x" [].
Definition x_workshop : Mod := installed "x.mod" "workshop" "/workshop/1" [].
Definition x_expansion (dir : string) : Mod :=
  installed "x.mod" "expansion" dir [].

Definition store_local_workshop : dict Mod :=
  [("u1", x_local); ("u2", x_workshop)].
Definition store_two_expansions : dict Mod :=
  [("e1", x_expansion "/data/x1"); ("e2", x_expansion "/data/x2")].

(** Two workshop copies whose paths differ in a number. *)
Definition store_two_workshop : dict Mod :=
  [("w10", installed "x.mod" "workshop" "/workshop/10" []);
   ("w9", installed "x.mod" "workshop" "/workshop/9" [])].

(** A declares "load after b" and an incompatibility with b, each with a
    single [li] entry, which the descriptor parser hands over as a string
    and not as a list; both records are indexed. *)
Definition mod_a_single : Mod :=
  installed "a" "local" "/mods/a"
    [("loadafter", VDict [("li", VStr "b")]);
     ("incompatiblewith", VDict [("li", VStr "b")])].
Definition st_single : Manager :=
  manager [("uA", mod_a_single); ("uB", mod_b)]
          {[ "a" := {["uA"]}; "b" := {["uB"]} ]} "1.4.3600".

(** The store of [st_abc] under the index as [__init__] leaves it. *)
Definition st_unindexed : Manager := manager store_abc ∅ "1.4.3600".

End Examples.

Module Scenarios.
Import Py Metadata.

(** A mod that lists the game versions it supports. *)
Definition mod_s : Mod :=
  Examples.installed "s" "local" "/mods/s"
    [("supportedversions", VDict [("li", VList [VStr "1.3"; VStr "1.4"])])].
Definition st_supported : Manager :=
  Examples.manager [("uS", mod_s)] {[ "s" := {["uS"]} ]} "1.4.3600".

(** A Steam database with one blacklisted entry. *)
Definition steamdb_blacklist : dict pyval :=
  [("1", VDict [("steamName", VStr "Bad");
                ("blacklist", VDict [("comment", VStr "broken")])]);
   ("2", VDict [("steamName", VStr "Good")])].

(** A workshop mod whose Steam database entry names a dependency. *)
Definition mod_w : Mod :=
  mkMod "a.mod" "workshop" "/workshop/100" (Some "100") [] ∅ ∅ ∅.
Definition steamdb_deps : dict pyval :=
  [("100", VDict [("packageId", VStr "A.Mod"); ("name", VStr "A");
                  ("dependencies",
                   VDict [("200", VList [VStr "B"; VStr "url"])])]);
   ("200", VDict [("packageId", VStr "B.Lib"); ("name", VStr "B")])].
Definition st_steam : Manager :=
  mkManager [("uW", mod_w)] {[ "a.mod" := {["uW"]} ]} "1.4.3600" false
            steamdb_deps [] [] [] [].

(** The store of [Examples.st_abc] with a community rule: a loads before
    b. *)
Definition st_rules : Manager :=
  mkManager Examples.store_abc Examples.index_abc "1.4.3600" false []
            [("A", VDict [("loadBefore", VList [VStr "B"])])] [] [] [].

End Scenarios.

(** * Properties *)

#[local] Arguments Py.str_in : simpl never.

(** ** Properties of the batching *)

Section ChunksFacts.
Import Chunks.
Context {A : Type}.
Implicit Types (l : list A) (i limit fuel : nat).

Lemma slice_length l i limit :
  i < length l -> 0 < limit ->
  0 < length (slice l i (i + limit)) <= limit.
Proof.
  intros Hi Hl. unfold slice.
  replace (i + limit - i) with limit by lia.
  rewrite length_firstn, length_skipn. lia.
Qed.

Lemma range_from_concat l limit fuel i :
  0 < limit -> length l - i <= fuel ->
  concat (map (fun j => slice l j (j + limit))
              (range_from fuel i (length l) limit)) = skipn i l.
Proof.
  intros Hl. revert i.
  induction fuel as [|fuel IH]; intros i Hf; simpl.
  - rewrite skipn_all2; [reflexivity | lia].
  - destruct (Nat.ltb_spec i (length l)) as [Hlt|Hge]; simpl.
    + rewrite IH by lia. unfold slice.
      replace (i + limit - i) with limit by lia.
      rewrite <- (firstn_skipn limit (skipn i l)) at 2.
      f_equal. rewrite skipn_skipn. f_equal. lia.
    + rewrite skipn_all2; [reflexivity | lia].
Qed.

Lemma range_from_bound fuel i stop step j :
  In j (range_from fuel i stop step) -> j < stop.
Proof.
  revert i. induction fuel as [|fuel IH]; intros i; simpl; [tauto|].
  destruct (Nat.ltb_spec i stop); simpl; [|tauto].
  intros [<-|Hin]; [assumption | eauto].
Qed.

Lemma range_from_nth fuel i stop step k :
  0 < step -> stop - i <= fuel -> i + k * step < stop ->
  nth_error (range_from fuel i stop step) k = Some (i + k * step).
Proof.
  intros Hs. revert i k.
  induction fuel as [|fuel IH]; intros i k Hf Hk; [lia|]. simpl.
  destruct (Nat.ltb_spec i stop) as [Hlt|Hge]; [|nia].
  destruct k as [|k]; simpl.
  - f_equal. lia.
  - rewrite IH by nia. f_equal. lia.
Qed.

End ChunksFacts.

(** C10. The ids handed to [IPublishedFileService_GetDetails] are sent in
    consecutive batches of at most 215 ids: the call always yields its
    batches, none is empty or longer than 215, their concatenation in order
    is the original id list, and the id at position [i] of the list sits in
    exactly one place of the batches, position [i mod 215] of batch
    [i / 215]. *)
Theorem C10_batches_partition_ids :
  forall (A : Type) (ids : list A),
  exists batches,
    Chunks.GetDetails_batches ids = Ok batches /\
    Forall (fun b => 0 < length b <= 215) batches /\
    concat batches = ids /\
    (forall i x, nth_error ids i = Some x ->
       exists b, nth_error batches (i / 215) = Some b /\
                 nth_error b (i mod 215) = Some x).
Proof.
  intros A ids. unfold Chunks.GetDetails_batches, Chunks.chunks, Chunks.batch_limit.
  simpl (215 =? 0). cbv iota. eexists. split; [reflexivity|].
  split; [|split].
  - apply List.Forall_forall. intros b Hb. apply in_map_iff in Hb as (i & <- & Hi).
    apply range_from_bound in Hi. apply slice_length; lia.
  - unfold Chunks.py_range.
    rewrite (range_from_concat ids 215 (length ids - 0) 0) by lia.
    reflexivity.
  - intros i x Hx.
    assert (Hlt : i < length ids) by (apply nth_error_Some; congruence).
    pose proof (Nat.div_mod_eq i 215) as Hdm.
    pose proof (Nat.mod_upper_bound i 215 ltac:(lia)) as Hm.
    exists (Chunks.slice ids (0 + (i / 215) * 215) (0 + (i / 215) * 215 + 215)).
    split.
    + rewrite nth_error_map. unfold Chunks.py_range.
      rewrite (range_from_nth _ 0 _ 215 (i / 215)) by lia. reflexivity.
    + unfold Chunks.slice.
      replace (0 + i / 215 * 215 + 215 - (0 + i / 215 * 215)) with 215 by lia.
      rewrite nth_error_firstn.
      destruct (Nat.ltb_spec (i mod 215) 215) as [_|]; [|lia].
      rewrite nth_error_skipn. rewrite <- Hx. f_equal. lia.
Qed.

(** ** Version-scoped blocks *)

Section VersionFacts.
Import Py Metadata.

Lemma version_regex_short gv :
  length (Str.split "." gv) < 2 -> version_regex gv = Raise ValueError.
Proof.
  unfold version_regex. destruct (Str.split "." gv) as [|major [|minor rest]];
    simpl; intros; try reflexivity; lia.
Qed.

Lemma version_regex_long gv :
  2 <= length (Str.split "." gv) ->
  exists major minor, version_regex gv = Ok (major, minor).
Proof.
  unfold version_regex. destruct (Str.split "." gv) as [|major [|minor rest]];
    simpl; intros; try lia. eauto.
Qed.

(** The state a compilation is left in when the version cannot be split:
    a record without a [moddependencies] key is abandoned before any of
    its blocks has changed the store. *)
Lemma compile_metadata_short_version st uuid rest A :
  length (Str.split "." (game_version st)) < 2 ->
  dget uuid (internal_local_metadata st) = Some A ->
  dget "moddependencies" (about A) = None ->
  compile_metadata (uuid :: rest) st = (st, Raise ValueError).
Proof.
  intros Hv HA Hd. apply version_regex_short in Hv.
  assert (Hmod : compile_mod uuid st = (st, Raise ValueError)).
  { unfold compile_mod, bind, get_state. rewrite HA.
    unfold about_get at 1. rewrite Hd. simpl. rewrite Hv. reflexivity. }
  unfold compile_metadata, bind, get_state. simpl for_each.
  unfold bind. rewrite Hmod. reflexivity.
Qed.

End VersionFacts.

(** C3. With an empty game version the relation compiler does not complete:
    on the store where A declares "load after b" and an incompatibility
    with the installed b, [compile_metadata] raises [ValueError] at the
    unpacking of the version and leaves every record as it was, so neither
    the incompatibility nor the load-order block of A has been applied. *)
Theorem C3_empty_version_raises :
  Metadata.compile_metadata [] Examples.st_no_version
  = (Examples.st_no_version, Raise ValueError).
Proof. vm_compute. reflexivity. Qed.

(** ** Stale index entries *)

Section IndexGuard.
Import Py Metadata.
Local Open Scope py_scope.

(** The guard of [add_load_rule_to_mod] is the index, not the store: when
    no target is a key of [packageid_to_uuids] the call adds no tuple, it
    only makes sure the record has its own rule set. *)
Lemma unindexed_targets_add_nothing uuid x explicit_key indirect_key st deps :
  rule_targets x = Ok (Some deps) ->
  (forall dep, In dep deps -> packageid_to_uuids st !! dep = None) ->
  add_load_rule_to_mod uuid x explicit_key indirect_key st
  = (the_mod uuid >>> update_mod uuid (setdefault_rules explicit_key)) st.
Proof.
  intros Ht Hnone. unfold add_load_rule_to_mod, bind.
  destruct (the_mod uuid st) as [s0 [m|e]] eqn:Hm; [|reflexivity].
  unfold lift. rewrite Ht.
  destruct (update_mod uuid (setdefault_rules explicit_key) s0)
    as [s1 [[]|e]] eqn:Hu; [|reflexivity].
  assert (Hidx : packageid_to_uuids s1 = packageid_to_uuids st).
  { unfold the_mod, bind, get_state in Hm.
    destruct (dget uuid (internal_local_metadata st)); [|discriminate].
    injection Hm as <- _.
    unfold update_mod, bind, get_state in Hu.
    destruct (dget uuid (internal_local_metadata st)); [|discriminate].
    injection Hu as <-. reflexivity. }
  clear Hm Hu Ht. induction deps as [|dep deps IH]; [reflexivity|].
  simpl for_each. unfold bind, get_state. fold (@bind unit unit).
  rewrite Hidx, (Hnone dep (or_introl eq_refl)). unfold skip, ret.
  apply IH. intros d Hd. apply Hnone. right. exact Hd.
Qed.

End IndexGuard.

(** C9. After the only record of package b has been deleted, its group in
    [packageid_to_uuids] is left empty but present; compiling A, which
    declares "load after b", then inserts the explicit tuple [(b, true)]
    into A's [loadTheseBefore] although no installed record has package id
    b. *)
Theorem C9_rule_added_for_deleted_target :
  exists st1 st2 A,
    Metadata.process_deletion "uB" Examples.st_abc = (st1, Ok tt) /\
    Metadata.packageid_to_uuids st1 !! "b" = Some ∅ /\
    Py.str_in "b" (Metadata.all_package_ids
                     (Metadata.internal_local_metadata st1)) = false /\
    Metadata.compile_metadata ["uA"] st1 = (st2, Ok tt) /\
    Py.dget "uA" (Metadata.internal_local_metadata st2) = Some A /\
    elements (Metadata.loadTheseBefore A) = [("b", true)].
Proof.
  do 3 eexists.
  split; [vm_compute; reflexivity|].
  split; [vm_compute; reflexivity|].
  split; [vm_compute; reflexivity|].
  split; [vm_compute; reflexivity|].
  split; vm_compute; reflexivity.
Qed.

(** ** Single-item updates

    Every update goes through [start_parser] first, so none of them gets
    as far as the compiler. *)

Section Updates.
Import Py Metadata.
Local Open Scope py_scope.

Lemma process_update_raises batch exists_ data_source mod_directory uuid st :
  process_update batch exists_ data_source mod_directory uuid st
  = (st, Raise RuntimeError).
Proof. reflexivity. Qed.

Lemma process_creation_raises data_source mod_directory uuid st :
  process_creation data_source mod_directory uuid st = (st, Raise RuntimeError).
Proof. reflexivity. Qed.

Lemma process_batch_raises entry batch data_source st :
  process_batch (entry :: batch) data_source st = (st, Raise RuntimeError).
Proof. reflexivity. Qed.

End Updates.

(** ** The database merge on the blacklist scenario *)

(** The scenario of C2 as the claim states it fails: with "blacklist" a
    recurse exception, the merge does not return the claimed database. *)
Lemma C2_blacklist_not_preserved :
  Merge.output_database_merge [] ["blacklist"]
    MergeExamples.existing MergeExamples.fresh
  <> MergeExamples.claimed.
Proof. vm_compute. discriminate. Qed.

(** C2 (amended). Merging the fresh database [{"123": {"steamName":
    "Foo"}}] into the persisted [{"123": {"blacklist": {"comment":
    "bad"}}}] with "blacklist" among the recurse exceptions, whatever the
    other exceptions are, gives [{"123": {"steamName": "Foo"}}]: the
    blacklist entry, an exception key missing from the fresh side, is
    deleted. *)
Theorem C2_merge_drops_absent_exception_key :
  forall prune_exceptions recurse_exceptions,
    In "blacklist" recurse_exceptions ->
    Merge.output_database_merge prune_exceptions recurse_exceptions
      MergeExamples.existing MergeExamples.fresh
    = MergeExamples.actual.
Proof.
  intros PE RE Hin.
  assert (Hb : Py.str_in "blacklist" RE = true).
  { unfold Py.str_in. apply existsb_exists. exists "blacklist".
    split; [assumption | reflexivity]. }
  unfold Merge.output_database_merge, Merge.recursively_update_dict,
    MergeExamples.existing, MergeExamples.fresh, MergeExamples.actual.
  cbn [Merge.update_with Merge.drop_stale_exceptions Py.dkeys map fst snd
       Py.dmem existsb List.filter negb String.eqb Ascii.eqb Bool.eqb orb fold_left].
  destruct (Py.str_in "123" RE) eqn:H123.
  - reflexivity.
  - cbn. rewrite Hb. cbn.
    destruct (Py.str_in "steamName" RE); reflexivity.
Qed.

Lemma C2_witness :
  In "blacklist" ["blacklist"] /\
  Merge.output_database_merge [] ["blacklist"]
    MergeExamples.existing MergeExamples.fresh
  = MergeExamples.actual.
Proof.
  split; [left; reflexivity|].
  apply (C2_merge_drops_absent_exception_key [] ["blacklist"]).
  left; reflexivity.
Defined.

(** The idempotence of C7 as the claim states it fails: a fresh database
    holding an empty structure below its top level is copied by the first
    merge and pruned away by the second. *)
Lemma C7_second_merge_differs :
  Merge.recursively_update_dict [] [] []
    (Merge.recursively_update_dict [] [] [] [] MergeExamples.fresh_nested_empty)
    MergeExamples.fresh_nested_empty
  <> Merge.recursively_update_dict [] [] [] [] MergeExamples.fresh_nested_empty.
Proof. vm_compute. discriminate. Qed.

(** ** The active-list builder *)

Section ResolverScenario.
Import Py Metadata Resolver.

Lemma sources_order_steam :
  sources_order true = ["workshop"; "local"].
Proof. reflexivity. Qed.

Lemma sources_order_plain :
  sources_order false = ["expansion"; "local"; "workshop"].
Proof. reflexivity. Qed.

Lemma natsorted_singleton p : Natsort.natsorted [p] = [p].
Proof. reflexivity. Qed.

#[local] Arguments String.eqb : simpl never.
#[local] Arguments Str.contains : simpl never.

Lemma x_mod_steam_request :
  normalized "x.mod_steam" = "x.mod_steam" /\ stripped "x.mod_steam" = "x.mod" /\
  is_steam "x.mod_steam" = true /\ target_of "x.mod_steam" = "x.mod".
Proof. vm_compute. repeat split. Qed.

Lemma str_in_nil k : str_in k [] = false.
Proof. reflexivity. Qed.
Lemma str_in_cons k x l : str_in k (x :: l) = String.eqb k x || str_in k l.
Proof. reflexivity. Qed.


Lemma calculated_workshop uL uW L W (all_mods : dict Mod) dup :
  uL <> uW ->
  data_source L = "local" -> data_source W = "workshop" ->
  dget uL all_mods = Some L -> dget uW all_mods = Some W ->
  dup = [uL; uW] \/ dup = [uW; uL] ->
  calculated_duplicate all_mods ["workshop"; "local"] dup = Some uW.
Proof.
  intros Hne HsL HsW HL HW Hdup.
  assert (Hc1 : Str.contains "workshop" "local" = false) by reflexivity.
  assert (Hc2 : Str.contains "workshop" "workshop" = true) by reflexivity.
  unfold calculated_duplicate, paths_to_uuid.
  destruct Hdup as [-> | ->]; simpl fold_left;
    rewrite HL, HW, HsL, HsW, Hc1, Hc2; simpl;
    rewrite String.eqb_refl; reflexivity.
Qed.

Lemma two_copies_resolved uL uW pthL pthW fL fW aL aW depL depW incL incW rL rW
      (first_local : bool) :
  uL <> uW ->
  let L := mkMod "x.mod" "local" pthL fL aL depL incL rL in
  let W := mkMod "x.mod" "workshop" pthW fW aW depW incW rW in
  let all_mods := if first_local then [(uL, L); (uW, W)] else [(uW, W); (uL, L)] in
  get_mods_from_list all_mods ["x.mod_steam"]
  = mkOutcome [uW] [uL]
      [("x.mod", if first_local then [uL; uW] else [uW; uL])] [].
Proof.
  intros Hne L W all_mods.
  assert (HLW : String.eqb uL uW = false) by (apply String.eqb_neq; assumption).
  assert (HWL : String.eqb uW uL = false)
    by (apply String.eqb_neq; intros E; apply Hne; symmetry; assumption).
  assert (Hx : String.eqb "x.mod" "x.mod_steam" = false) by reflexivity.
  destruct x_mod_steam_request as (Hn & Hs & His & Ht).
  assert (HL : dget uL all_mods = Some L).
  { subst all_mods. destruct first_local; simpl; rewrite ?String.eqb_refl, ?HLW; reflexivity. }
  assert (HW : dget uW all_mods = Some W).
  { subst all_mods. destruct first_local; simpl; rewrite ?String.eqb_refl, ?HWL; reflexivity. }
  assert (Hd : duplicate_mods all_mods
               = [("x.mod", if first_local then [uL; uW] else [uW; uL])]).
  { subst all_mods. unfold duplicate_mods.
    destruct first_local; simpl; rewrite ?String.eqb_refl; simpl;
      rewrite ?String.eqb_refl; reflexivity. }
  assert (Hcalc : calculated_duplicate all_mods ["workshop"; "local"]
                    (if first_local then [uL; uW] else [uW; uL]) = Some uW).
  { apply (calculated_workshop uL uW L W); try assumption; try reflexivity.
    destruct first_local; [left|right]; reflexivity. }
  assert (Hv1 : forall u M a p t, packageid M = "x.mod" ->
            visit_mod all_mods [("x.mod", if first_local then [uL; uW] else [uW; uL])]
              "x.mod_steam" "x.mod" "x.mod" ["workshop"; "local"]
              (mkLists a [] p t) (u, M)
            = mkLists (a ++ [uW]) ["x.mod"] (p ++ ["x.mod"]) t).
  { intros u M a p t HpM. unfold visit_mod. simpl fst; simpl snd.
    rewrite HpM, Hx, String.eqb_refl. simpl orb. cbv iota.
    simpl dmem. rewrite ?String.eqb_refl. simpl negb. cbv iota.
    simpl duplicates_processed. rewrite str_in_nil.
    replace (default [] (dget "x.mod"
               [("x.mod", if first_local then [uL; uW] else [uW; uL])]))
      with (if first_local then [uL; uW] else [uW; uL])
      by (simpl dget; rewrite ?String.eqb_refl; reflexivity).
    rewrite Hcalc. reflexivity. }
  assert (Hv2 : forall u M a p t, packageid M = "x.mod" ->
            visit_mod all_mods [("x.mod", if first_local then [uL; uW] else [uW; uL])]
              "x.mod_steam" "x.mod" "x.mod" ["workshop"; "local"]
              (mkLists a ["x.mod"] p t) (u, M)
            = mkLists a ["x.mod"] p t).
  { intros u M a p t HpM. unfold visit_mod. simpl fst; simpl snd.
    rewrite HpM, Hx, String.eqb_refl. simpl orb. cbv iota.
    simpl dmem. rewrite ?String.eqb_refl. simpl negb. cbv iota.
    simpl duplicates_processed. rewrite str_in_cons, String.eqb_refl. reflexivity. }
  assert (Hfold : fold_left
            (visit_mod all_mods [("x.mod", if first_local then [uL; uW] else [uW; uL])]
               "x.mod_steam" "x.mod" "x.mod" ["workshop"; "local"])
            all_mods (mkLists [] [] [] ([] ++ ["x.mod"]))
          = mkLists [uW] ["x.mod"] ["x.mod"] ["x.mod"]).
  { subst all_mods. destruct first_local; simpl fold_left.
    - rewrite (Hv1 uL L _ _ _ eq_refl). rewrite (Hv2 uW W _ _ _ eq_refl).
      reflexivity.
    - rewrite (Hv1 uW W _ _ _ eq_refl). rewrite (Hv2 uL L _ _ _ eq_refl).
      reflexivity. }
  assert (Hl : fold_left
                 (visit_request all_mods
                    [("x.mod", if first_local then [uL; uW] else [uW; uL])])
                 ["x.mod_steam"] (mkLists [] [] [] [])
               = mkLists [uW] ["x.mod"] ["x.mod"] ["x.mod"]).
  { simpl fold_left. unfold visit_request. rewrite Ht, Hn, Hs, His.
    unfold sources_order.
    simpl to_populate; simpl active_mods_uuids; simpl duplicates_processed;
      simpl populated_mods.
    exact Hfold. }
  unfold get_mods_from_list. rewrite Hd. cbv zeta. rewrite Hl.
  simpl active_mods_uuids; simpl to_populate; simpl populated_mods.
  f_equal.
  - subst all_mods. destruct first_local; simpl;
      rewrite !str_in_cons, !str_in_nil, ?String.eqb_refl, ?HLW, ?HWL; reflexivity.
Qed.

End ResolverScenario.

(** ** The missing list *)

Section ResolverFacts.
Import Py Metadata Resolver ResolverSpec.


Lemma str_in_In k l : str_in k l = true <-> In k l.
Proof.
  unfold str_in. rewrite existsb_exists. split.
  - intros (x & Hx & E). apply String.eqb_eq in E. subst. assumption.
  - intros H. exists k. split; [assumption | apply String.eqb_refl].
Qed.

Lemma str_in_false k l : str_in k l = false <-> ~ In k l.
Proof.
  rewrite <- str_in_In. destruct (str_in k l); split; congruence.
Qed.

Lemma set_difference_In x xs ys :
  In x (set_difference xs ys) <-> In x xs /\ ~ In x ys.
Proof.
  induction xs as [|y xs IH]; simpl; [tauto|].
  destruct (str_in y ys) eqn:Hy; simpl.
  - apply str_in_In in Hy. rewrite IH. split.
    + tauto.
    + intros [[->|H] Hn]; [contradiction | tauto].
  - apply str_in_false in Hy.
    destruct (str_in y xs) eqn:Hx.
    + apply str_in_In in Hx. rewrite IH. split; [tauto|].
      intros [[->|H] Hn]; tauto.
    + simpl. rewrite IH. split.
      * intros [->|H]; tauto.
      * intros [[->|H] Hn]; tauto.
Qed.

(** The inner loop for one entry. *)
Variables (all_mods : dict Mod) (p : string).
Let dups := duplicate_mods all_mods.
Let t := target_of p.
Let step := visit_mod all_mods dups (normalized p) (stripped p) t
                      (sources_order (is_steam p)).
Let chosen := calculated_duplicate all_mods (sources_order (is_steam p))
                (default [] (dget t dups)).

Lemma step_cases l um :
  (step l um = l /\
   (entry_matches p (snd um) = false \/
    (dmem t dups = true /\ (In t (duplicates_processed l) \/ chosen = None))))
  \/ (entry_matches p (snd um) = true /\
      (dmem t dups = false \/
       (~ In t (duplicates_processed l) /\ chosen <> None)) /\
      exists u d, step l um
        = mkLists (active_mods_uuids l ++ [u]) (duplicates_processed l ++ d)
                  (populated_mods l ++ [t]) (to_populate l)
        /\ (d = [] \/ d = [t])).
Proof.
  subst step. unfold visit_mod. fold (entry_matches p (snd um)).
  destruct (entry_matches p (snd um)) eqn:Hm; [|left; tauto].
  destruct (dmem t dups) eqn:Hd; simpl negb; cbv iota.
  - destruct (str_in t (duplicates_processed l)) eqn:Hp.
    + apply str_in_In in Hp. left. tauto.
    + apply str_in_false in Hp. fold chosen.
      destruct chosen as [c|] eqn:Hc.
      * right. split; [reflexivity|]. split; [right; split; [assumption|discriminate]|].
        exists c, [t]. split; [reflexivity | right; reflexivity].
      * left. tauto.
  - right. split; [reflexivity|]. split; [left; reflexivity|].
    exists (fst um), []. rewrite app_nil_r. split; [reflexivity | left; reflexivity].
Qed.

Lemma inner_loop ms l :
  let l' := fold_left step ms l in
  to_populate l' = to_populate l /\
  (forall x, In x (populated_mods l) -> In x (populated_mods l')) /\
  (forall x, In x (populated_mods l') ->
     In x (populated_mods l) \/
     (x = t /\ existsb (fun um => entry_matches p (snd um)) ms = true
      /\ reachable_choice all_mods p)) /\
  (processed_populated l -> processed_populated l') /\
  (processed_populated l ->
   existsb (fun um => entry_matches p (snd um)) ms = true ->
   reachable_choice all_mods p -> In t (populated_mods l')) /\
  (active_mods_uuids l' = active_mods_uuids l \/ In t (populated_mods l')).
Proof.
  revert l. induction ms as [|um ms IH]; intros l; simpl.
  - repeat split; try tauto; try discriminate.
  - destruct (IH (step l um)) as (IH1 & IH2 & IH3 & IH4 & IH5 & IH6).
    destruct (step_cases l um) as [(E & Hc) | (Hm & Hc & u & d & E & Hd)].
    + rewrite E in *. repeat split; try assumption.
      * intros x Hx. destruct (IH3 x Hx) as [H | (-> & Hex & Hr)]; [tauto|].
        right. split; [reflexivity|]. rewrite Hex, orb_true_r. tauto.
      * intros Hpp Hex Hr.
        destruct Hc as [Hf | (Hdup & [Hin | Hnone])].
        -- rewrite Hf in Hex. simpl in Hex. apply IH5; assumption.
        -- apply IH2, Hpp, Hin.
        -- destruct Hr as [Hr | Hr];
           [exfalso; exact (eq_true_false_abs _ Hdup Hr)
           | exact (False_ind _ (Hr Hnone))].
    + assert (Ht' : In t (populated_mods (step l um))).
      { rewrite E. simpl. apply in_or_app. right. left. reflexivity. }
      assert (Hmono : forall x, In x (populated_mods l) ->
                                In x (populated_mods (step l um))).
      { intros x Hx. rewrite E. simpl. apply in_or_app. left. assumption. }
      assert (Hpp' : processed_populated l -> processed_populated (step l um)).
      { intros Hpp x. rewrite E. simpl. rewrite !in_app_iff.
        intros [Hx | Hx]; [left; apply Hpp, Hx|].
        destruct Hd as [-> | ->]; simpl in Hx; [tauto|].
        right. assumption. }
      repeat split.
      * rewrite IH1, E. reflexivity.
      * intros x Hx. apply IH2, Hmono, Hx.
      * intros x Hx. destruct (IH3 x Hx) as [H | (-> & Hex & Hr)].
        -- rewrite E in H. simpl in H. apply in_app_iff in H as [H | [<- | []]];
             [tauto|]. right. split; [reflexivity|]. rewrite Hm. simpl.
           split; [reflexivity|]. unfold reachable_choice. tauto.
        -- right. split; [reflexivity|]. rewrite Hm. simpl.
           split; [reflexivity | assumption].
      * intros Hpp. apply IH4, Hpp', Hpp.
      * intros _ _ _. apply IH2, Ht'.
      * right. apply IH2, Ht'.
Qed.

End ResolverFacts.

Section ResolverRequests.
Import Py Metadata Resolver ResolverSpec.

Variable all_mods : dict Mod.
Let dups := duplicate_mods all_mods.

Lemma selects_spec p :
  selects all_mods p = true <->
  existsb (fun um => entry_matches p (snd um)) all_mods = true /\
  reachable_choice all_mods p.
Proof.
  unfold selects, reachable_choice. rewrite andb_true_iff, orb_true_iff.
  rewrite negb_true_iff.
  destruct (calculated_duplicate _ _ _); split; intros [H1 H2]; split;
    try assumption; destruct H2; try tauto; try congruence.
  right. discriminate.
Qed.

Lemma visit_request_facts l p :
  let l' := visit_request all_mods dups l p in
  to_populate l' = to_populate l ++ [target_of p] /\
  (forall x, In x (populated_mods l) -> In x (populated_mods l')) /\
  (processed_populated l -> processed_populated l') /\
  (processed_populated l -> forall x,
     In x (populated_mods l') <->
     In x (populated_mods l) \/ (target_of p = x /\ selects all_mods p = true)) /\
  (active_mods_uuids l' = active_mods_uuids l
   \/ In (target_of p) (populated_mods l')).
Proof.
  unfold visit_request.
  set (l0 := mkLists (active_mods_uuids l) (duplicates_processed l)
                     (populated_mods l) (to_populate l ++ [target_of p])).
  destruct (inner_loop all_mods p all_mods l0) as (H1 & H2 & H3 & H4 & H5 & H6).
  simpl. split; [exact H1|]. split; [exact H2|]. split; [exact H4|].
  split; [|exact H6].
  intros Hpp x. rewrite selects_spec. split.
  - intros Hx. destruct (H3 x Hx) as [H | (-> & Hex & Hr)]; [left; exact H|].
    right. tauto.
  - intros [Hx | (<- & Hex & Hr)]; [apply H2, Hx|]. apply H5; assumption.
Qed.

Lemma requests_loop request l :
  let l' := fold_left (visit_request all_mods dups) request l in
  to_populate l' = to_populate l ++ map target_of request /\
  (forall x, In x (populated_mods l) -> In x (populated_mods l')) /\
  (processed_populated l -> processed_populated l') /\
  (processed_populated l -> forall x,
     In x (populated_mods l') <->
     In x (populated_mods l) \/
     exists p, In p request /\ target_of p = x /\ selects all_mods p = true).
Proof.
  revert l. induction request as [|p request IH]; intros l; simpl.
  - rewrite app_nil_r. repeat split; try tauto.
    intros [Hx | (p & [] & _)]. exact Hx.
  - destruct (visit_request_facts l p) as (V1 & V2 & V3 & V4 & _).
    destruct (IH (visit_request all_mods dups l p)) as (I1 & I2 & I3 & I4).
    split; [|split; [|split]].
    + rewrite I1, V1, <- app_assoc. reflexivity.
    + intros x Hx. apply I2, V2, Hx.
    + intros Hpp. apply I3, V3, Hpp.
    + intros Hpp x. rewrite (I4 (V3 Hpp) x), (V4 Hpp x). split.
      * intros [[H | (E & Hs)] | (q & Hq & E & Hs)].
        -- left. exact H.
        -- right. exists p. tauto.
        -- right. exists q. tauto.
      * intros [H | (q & [<- | Hq] & E & Hs)].
        -- tauto.
        -- tauto.
        -- right. exists q. tauto.
Qed.

Lemma processed_populated_init : processed_populated (mkLists [] [] [] []).
Proof. intros x []. Qed.

Lemma missing_spec request x :
  In x (missing (get_mods_from_list all_mods request)) <->
  In x (map target_of request) /\
  forall p, In p request -> target_of p = x -> selects all_mods p = false.
Proof.
  unfold get_mods_from_list. cbv zeta. simpl missing.
  destruct (requests_loop request (mkLists [] [] [] [])) as (R1 & _ & _ & R4).
  fold dups. rewrite set_difference_In, R1. simpl app.
  rewrite (R4 processed_populated_init x). simpl. split.
  - intros [Hin Hn]. split; [exact Hin|]. intros p Hp E.
    destruct (selects all_mods p) eqn:Hs; [|reflexivity].
    exfalso. apply Hn. right. exists p. tauto.
  - intros [Hin Hall]. split; [exact Hin|].
    intros [[] | (p & Hp & E & Hs)]. rewrite (Hall p Hp E) in Hs. discriminate.
Qed.

Lemma missing_adds_nothing before p after :
  In (target_of p)
     (missing (get_mods_from_list all_mods (before ++ p :: after))) ->
  active (get_mods_from_list all_mods (before ++ [p]))
  = active (get_mods_from_list all_mods before).
Proof.
  unfold get_mods_from_list. cbv zeta. simpl missing. simpl active.
  fold dups. rewrite set_difference_In. intros [_ Hn].
  rewrite !fold_left_app in *. simpl fold_left in *.
  set (lb := fold_left (visit_request all_mods dups) before (mkLists [] [] [] [])) in *.
  destruct (visit_request_facts lb p) as (_ & _ & _ & _ & [E | Hin]);
    [exact E|].
  exfalso. apply Hn.
  destruct (requests_loop after (visit_request all_mods dups lb p))
    as (_ & R2 & _). apply R2, Hin.
Qed.

End ResolverRequests.

Section MissingMod.
Import Py Metadata Resolver ResolverSpec.

Lemma unmatched_entry_skips all_mods' dups p t srcs ms l :
  (forall um, In um ms -> entry_matches p (snd um) = false) ->
  fold_left (visit_mod all_mods' dups (normalized p) (stripped p) t srcs) ms l
  = l.
Proof.
  revert l. induction ms as [|um ms IH]; intros l Hall; [reflexivity|].
  simpl. unfold visit_mod at 2. fold (entry_matches p (snd um)).
  rewrite (Hall um (or_introl eq_refl)). apply IH.
  intros um' Hin. apply Hall. right. exact Hin.
Qed.

Lemma missing_mod_request :
  normalized "missing.mod" = "missing.mod" /\
  stripped "missing.mod" = "missing.mod" /\
  target_of "missing.mod" = "missing.mod".
Proof. vm_compute. repeat split. Qed.

Lemma missing_mod_alone all_mods :
  str_in "missing.mod" (all_package_ids all_mods) = false ->
  missing (get_mods_from_list all_mods ["missing.mod"]) = ["missing.mod"] /\
  active (get_mods_from_list all_mods ["missing.mod"]) = [].
Proof.
  intros Hno. destruct missing_mod_request as (Hn & Hs & Ht).
  assert (Hfold : fold_left (visit_request all_mods (duplicate_mods all_mods))
                    ["missing.mod"] (mkLists [] [] [] [])
                  = mkLists [] [] [] ["missing.mod"]).
  { simpl fold_left. unfold visit_request. rewrite unmatched_entry_skips.
    - rewrite Ht. reflexivity.
    - intros um Hin. unfold entry_matches. rewrite Hn, Hs, orb_diag.
      apply String.eqb_neq. intros E.
      apply str_in_false in Hno. apply Hno. unfold all_package_ids.
      rewrite <- E. apply (in_map (fun um => packageid (snd um))). exact Hin. }
  unfold get_mods_from_list. cbv zeta. rewrite Hfold. split; reflexivity.
Qed.

End MissingMod.

(** The missing list of C8 as the claim states it fails: two expansion
    copies of "x.mod" requested as "x.mod_steam" leave "x.mod" in the
    missing list although installed records carry that package id. *)
Lemma C8_matched_but_missing :
  ~ (forall x,
       In x (Resolver.missing
               (Resolver.get_mods_from_list Examples.store_two_expansions
                                            ["x.mod_steam"]))
       <-> In x (map Resolver.target_of ["x.mod_steam"]) /\
           Py.str_in x (Metadata.all_package_ids Examples.store_two_expansions)
           = false).
Proof.
  intros H. destruct (H "x.mod") as [H1 _].
  assert (Hin : In "x.mod"
                  (Resolver.missing
                     (Resolver.get_mods_from_list Examples.store_two_expansions
                                                  ["x.mod_steam"])))
    by (vm_compute; left; reflexivity).
  destruct (H1 Hin) as [_ Hfalse]. vm_compute in Hfalse. discriminate.
Qed.

(** C8 (amended). For every store and request, the missing list holds
    exactly the requested target ids (lower-cased, [_steam] removed) none of
    whose entries selects a record: each such entry either matches no
    installed record or names a duplicated package id with no copy from the
    sources of the entry's priority order. An entry whose target is missing
    adds nothing to the active list. Requesting "missing.mod" alone with no
    installed record of that package id yields it in missing and an empty
    active list. *)
Theorem C8_missing_exactly_unselected :
  forall (all_mods : Py.dict Metadata.Mod) (request : list string),
    (forall x,
       In x (Resolver.missing (Resolver.get_mods_from_list all_mods request))
       <-> In x (map Resolver.target_of request) /\
           forall p, In p request -> Resolver.target_of p = x ->
                     ResolverSpec.selects all_mods p = false) /\
    (forall before p after,
       request = before ++ p :: after ->
       In (Resolver.target_of p)
          (Resolver.missing (Resolver.get_mods_from_list all_mods request)) ->
       Resolver.active (Resolver.get_mods_from_list all_mods (before ++ [p]))
       = Resolver.active (Resolver.get_mods_from_list all_mods before)) /\
    (Py.str_in "missing.mod" (Metadata.all_package_ids all_mods) = false ->
     Resolver.missing (Resolver.get_mods_from_list all_mods ["missing.mod"])
     = ["missing.mod"] /\
     Resolver.active (Resolver.get_mods_from_list all_mods ["missing.mod"]) = []).
Proof.
  intros all_mods request. split; [|split].
  - intros x. apply missing_spec.
  - intros before p after -> Hin. apply (missing_adds_nothing _ _ _ after Hin).
  - apply missing_mod_alone.
Qed.

Lemma C8_witness :
  Resolver.missing
    (Resolver.get_mods_from_list Examples.store_local_workshop ["missing.mod"])
  = ["missing.mod"] /\
  Resolver.active
    (Resolver.get_mods_from_list Examples.store_local_workshop ["missing.mod"])
  = [].
Proof.
  apply (C8_missing_exactly_unselected Examples.store_local_workshop
                                       ["missing.mod"]).
  reflexivity.
Defined.

(** ** The relation compiler *)

Section DictFacts.
Import Py Metadata CompilerSpec.
Context {V : Type}.
Implicit Types (d : dict V) (k : string) (v : V).

Lemma dget_dset_eq k v d : dget k (dset k v d) = Some v.
Proof.
  induction d as [|[k' v'] d IH]; simpl.
  - rewrite String.eqb_refl. reflexivity.
  - destruct (String.eqb k k') eqn:E; simpl; rewrite E; [reflexivity | exact IH].
Qed.

Lemma dget_dset_ne k k' v d : k <> k' -> dget k' (dset k v d) = dget k' d.
Proof.
  intros Hne. induction d as [|[k0 v0] d IH]; simpl.
  - apply String.eqb_neq in Hne. rewrite String.eqb_sym, Hne. reflexivity.
  - destruct (String.eqb k k0) eqn:E; simpl.
    + apply String.eqb_eq in E. subst k0.
      assert (E' : String.eqb k' k = false)
        by (apply String.eqb_neq; congruence).
      rewrite E'. reflexivity.
    + destruct (String.eqb k' k0); [reflexivity | exact IH].
Qed.

Lemma dget_In k v d : dget k d = Some v -> In (k, v) d.
Proof.
  induction d as [|[k' v'] d IH]; simpl; [discriminate|].
  destruct (String.eqb k k') eqn:E.
  - apply String.eqb_eq in E. intros [= ->]. subst. left. reflexivity.
  - intros H. right. exact (IH H).
Qed.

Lemma dget_dkeys k v d : dget k d = Some v -> In k (dkeys d).
Proof.
  intros H. apply dget_In in H. unfold dkeys.
  apply (in_map fst) in H. exact H.
Qed.

End DictFacts.

Section Evolution.
Import Py Metadata CompilerSpec.

Lemma mod_evolves_refl pids m : mod_evolves pids m m.
Proof. unfold mod_evolves. repeat split; try reflexivity; auto. Qed.

Lemma mod_evolves_trans pids m1 m2 m3 :
  mod_evolves pids m1 m2 -> mod_evolves pids m2 m3 -> mod_evolves pids m1 m3.
Proof.
  intros (A1 & A2 & A3 & A4 & A5 & A6 & A7 & A8 & A9)
         (B1 & B2 & B3 & B4 & B5 & B6 & B7 & B8 & B9).
  unfold mod_evolves. repeat split; try congruence.
  - set_solver.
  - set_solver.
  - intros x Hx. destruct (B8 x Hx) as [H | H]; [apply A8, H | right; exact H].
  - intros key. specialize (A9 key). specialize (B9 key). set_solver.
Qed.

Lemma entries_evolve_refl pids s : entries_evolve pids s s.
Proof.
  induction s; constructor; [|assumption]. split; [reflexivity|].
  apply mod_evolves_refl.
Qed.

Lemma entries_evolve_trans pids s1 s2 s3 :
  entries_evolve pids s1 s2 -> entries_evolve pids s2 s3 ->
  entries_evolve pids s1 s3.
Proof.
  intros H12. revert s3. induction H12 as [|x y l1 l2 [Hk Hm] _ IH];
    intros s3 H23; inversion H23 as [|y' z l2' l3 [Hk' Hm'] Hrest]; subst;
    constructor.
  - split; [congruence | eapply mod_evolves_trans; eassumption].
  - apply IH. assumption.
Qed.

Lemma entries_evolve_pids pids s s' :
  entries_evolve pids s s' -> all_package_ids s' = all_package_ids s.
Proof.
  induction 1 as [|x y l1 l2 [Hk Hm] _ IH]; [reflexivity|].
  unfold all_package_ids in *. simpl. rewrite IH. f_equal. apply Hm.
Qed.

Lemma entries_evolve_keys pids s s' :
  entries_evolve pids s s' -> dkeys s' = dkeys s.
Proof.
  induction 1 as [|x y l1 l2 [Hk Hm] _ IH]; [reflexivity|].
  unfold dkeys in *. simpl. rewrite IH, Hk. reflexivity.
Qed.

Lemma entries_evolve_dget pids s s' u :
  entries_evolve pids s s' ->
  match dget u s with
  | Some m => exists m', dget u s' = Some m' /\ mod_evolves pids m m'
  | None => dget u s' = None
  end.
Proof.
  induction 1 as [|[k m] [k' m'] l1 l2 [Hk Hm] _ IH]; simpl; [reflexivity|].
  simpl in Hk, Hm. subst k'. destruct (String.eqb u k); [|exact IH].
  exists m'. split; [reflexivity | exact Hm].
Qed.

Lemma entries_evolve_dset pids s u m m' :
  dget u s = Some m -> mod_evolves pids m m' ->
  entries_evolve pids s (dset u m' s).
Proof.
  induction s as [|[k m0] s IH]; simpl; [discriminate|].
  destruct (String.eqb u k) eqn:E.
  - intros [= ->] Hm. constructor; [|apply entries_evolve_refl].
    split; [reflexivity | exact Hm].
  - intros Hg Hm. constructor; [|apply IH; assumption].
    split; [reflexivity | apply mod_evolves_refl].
Qed.

Lemma evolves_refl st : evolves st st.
Proof. unfold evolves. repeat split. apply entries_evolve_refl. Qed.

Lemma evolves_trans st1 st2 st3 :
  evolves st1 st2 -> evolves st2 st3 -> evolves st1 st3.
Proof.
  intros (A & A1 & A2 & A3 & A4 & A5 & A6) (B & B1 & B2 & B3 & B4 & B5 & B6).
  unfold evolves. repeat split; try congruence.
  rewrite (entries_evolve_pids _ _ _ A) in B.
  eapply entries_evolve_trans; eassumption.
Qed.

Lemma evolves_pids st st' :
  evolves st st' ->
  all_package_ids (internal_local_metadata st')
  = all_package_ids (internal_local_metadata st).
Proof. intros (A & _). eapply entries_evolve_pids, A. Qed.

Lemma evolves_dget st st' u m :
  evolves st st' -> dget u (internal_local_metadata st) = Some m ->
  exists m', dget u (internal_local_metadata st') = Some m' /\
             mod_evolves (all_package_ids (internal_local_metadata st)) m m'.
Proof.
  intros (A & _) Hg. pose proof (entries_evolve_dget _ _ _ u A) as H.
  rewrite Hg in H. exact H.
Qed.

End Evolution.

Section Steady.
Import Py Metadata CompilerSpec.
Local Open Scope py_scope.

Lemma steady_ret {A} (a : A) : steady (ret a).
Proof. intros st. apply evolves_refl. Qed.

Lemma steady_skip : steady skip.
Proof. apply steady_ret. Qed.

Lemma steady_raise {A} e : steady (@raise A e).
Proof. intros st. apply evolves_refl. Qed.

Lemma steady_lift {A} (r : result A) : steady (lift r).
Proof. intros st. apply evolves_refl. Qed.

Lemma steady_get_state : steady get_state.
Proof. intros st. apply evolves_refl. Qed.

Lemma steady_bind {A B} (m : M A) (k : A -> M B) :
  steady m -> (forall a, steady (k a)) -> steady (bind m k).
Proof.
  intros Hm Hk st. unfold bind. specialize (Hm st).
  destruct (m st) as [st1 [a|e]]; simpl in *; [|exact Hm].
  eapply evolves_trans; [exact Hm | apply Hk].
Qed.

Lemma steady_for_each {X} (l : list X) (body : X -> M unit) :
  (forall x, steady (body x)) -> steady (for_each l body).
Proof.
  intros Hb. induction l as [|x l IH]; simpl.
  - apply steady_ret.
  - apply steady_bind; [apply Hb | intros _; exact IH].
Qed.

Lemma steady_names f : steady (modify (set_steamdb_names f)).
Proof.
  intros st. unfold modify, evolves. simpl. repeat split.
  apply entries_evolve_refl.
Qed.

(** Updating a record the way the compiler does. *)
Lemma update_mod_evolves uuid f st :
  (forall m, dget uuid (internal_local_metadata st) = Some m ->
             mod_evolves (all_package_ids (internal_local_metadata st)) m (f m)) ->
  evolves st (fst (update_mod uuid f st)).
Proof.
  intros Hf. unfold update_mod, bind, get_state.
  destruct (dget uuid (internal_local_metadata st)) as [m|] eqn:Hg; simpl;
    [|apply evolves_refl].
  unfold evolves. simpl. repeat split.
  eapply entries_evolve_dset; [exact Hg | apply Hf; reflexivity].
Qed.

Lemma add_dependency_evolves pids dep m :
  mod_evolves pids m (add_dependency dep m).
Proof.
  unfold mod_evolves, add_dependency. simpl.
  repeat split; try reflexivity; auto. set_solver.
Qed.

Lemma rules_of_setdefault key key' m :
  rules_of (setdefault_rules key m) key' = rules_of m key'.
Proof.
  unfold rules_of, setdefault_rules. simpl.
  destruct (decide (key = key')) as [->|Hne].
  - rewrite lookup_insert_eq. reflexivity.
  - rewrite lookup_insert_ne by exact Hne. reflexivity.
Qed.

Lemma rules_of_add_rule key key' rule m :
  rules_of (add_rule key rule m) key'
  = if decide (key = key') then {[rule]} ∪ rules_of m key' else rules_of m key'.
Proof.
  unfold rules_of, add_rule. simpl.
  destruct (decide (key = key')) as [->|Hne].
  - rewrite lookup_insert_eq. reflexivity.
  - rewrite lookup_insert_ne by exact Hne. reflexivity.
Qed.

Lemma setdefault_rules_evolves pids key m :
  mod_evolves pids m (setdefault_rules key m).
Proof.
  unfold mod_evolves. repeat split; try reflexivity; auto.
  intros key'. rewrite rules_of_setdefault. reflexivity.
Qed.

Lemma add_rule_evolves pids key rule m :
  mod_evolves pids m (add_rule key rule m).
Proof.
  unfold mod_evolves. repeat split; try reflexivity; auto.
  intros key'. rewrite rules_of_add_rule. destruct (decide (key = key')); set_solver.
Qed.

Lemma add_incompatibility_evolves pids dep m :
  In dep pids -> mod_evolves pids m (add_incompatibility dep m).
Proof.
  intros Hin. unfold mod_evolves, add_incompatibility. simpl.
  repeat split; try reflexivity; auto; [set_solver|].
  intros x Hx. apply elem_of_union in Hx as [Hx | Hx]; [|left; exact Hx].
  apply elem_of_singleton in Hx. subst. right. exact Hin.
Qed.

Lemma steady_update_dependency uuid dep :
  steady (update_mod uuid (add_dependency dep)).
Proof. intros st. apply update_mod_evolves. intros. apply add_dependency_evolves. Qed.

Lemma steady_update_setdefault uuid key :
  steady (update_mod uuid (setdefault_rules key)).
Proof. intros st. apply update_mod_evolves. intros. apply setdefault_rules_evolves. Qed.

Lemma steady_update_rule uuid key rule :
  steady (update_mod uuid (add_rule key rule)).
Proof. intros st. apply update_mod_evolves. intros. apply add_rule_evolves. Qed.

Lemma steady_the_mod uuid : steady (the_mod uuid).
Proof.
  intros st. unfold the_mod, bind, get_state.
  destruct (dget uuid (internal_local_metadata st)); apply evolves_refl.
Qed.

End Steady.

Create HintDb steady.
#[local] Hint Resolve steady_ret steady_skip steady_raise steady_lift steady_get_state
  steady_names steady_update_dependency steady_update_setdefault
  steady_update_rule steady_the_mod : steady.

Ltac steady_step :=
  first
    [ solve [auto with steady]
    | apply steady_for_each; intros ?
    | apply steady_bind; [|intros ?]
    | match goal with
      | |- CompilerSpec.steady (match ?x with _ => _ end) => destruct x
      | |- CompilerSpec.steady (if ?b then _ else _) => destruct b
      end ].

Ltac steady_tac := repeat steady_step.

Section SteadyCompiler.
Import Py Metadata CompilerSpec.
Local Open Scope py_scope.

Lemma steady_add_dependency_to_mod uuid x : steady (add_dependency_to_mod uuid x).
Proof. unfold add_dependency_to_mod. steady_tac. Qed.

Lemma steady_add_load_rule_to_mod uuid x ek ik :
  steady (add_load_rule_to_mod uuid x ek ik).
Proof. unfold add_load_rule_to_mod. steady_tac. Qed.

Lemma steady_from_for_each {X} ids (l : list X) (body : X -> M unit) :
  (forall x, steady_from ids (body x)) -> steady_from ids (for_each l body).
Proof.
  intros Hb. induction l as [|x l IH]; intros st Hst; simpl.
  - apply evolves_refl.
  - unfold bind. pose proof (Hb x st Hst) as Hx.
    destruct (body x st) as [st1 [[]|e]]; simpl in *; [|exact Hx].
    eapply evolves_trans; [exact Hx|]. apply IH.
    rewrite (evolves_pids _ _ Hx). exact Hst.
Qed.

Lemma guarded_incompatibility_steady ids uuid dep :
  steady_from ids
    (if str_in dep ids then update_mod uuid (add_incompatibility dep) else skip).
Proof.
  intros st Hst. destruct (str_in dep ids) eqn:Hin; [|apply evolves_refl].
  apply update_mod_evolves. intros m _. apply add_incompatibility_evolves.
  rewrite Hst. apply str_in_In. exact Hin.
Qed.

Lemma steady_add_incompatibility_to_mod uuid x :
  steady (add_incompatibility_to_mod uuid x).
Proof.
  intros st. unfold add_incompatibility_to_mod.
  unfold bind at 1. unfold the_mod, bind at 1, get_state at 1.
  destruct (dget uuid (internal_local_metadata st)) as [m|];
    [|apply evolves_refl].
  unfold ret at 1. unfold bind at 1, get_state at 1.
  set (ids := all_package_ids (internal_local_metadata st)).
  destruct x as [| | |s|l|d]; try apply evolves_refl.
  - exact (guarded_incompatibility_steady ids uuid _ st eq_refl).
  - destruct l as [|[| | |s| |] l']; try apply evolves_refl.
    refine (steady_from_for_each ids _ _ _ st eq_refl).
    intros dependency st1 Hst1.
    destruct (truthy dependency); [|apply evolves_refl].
    unfold bind, lift. destruct (lower_of dependency) as [dep|e];
      [|apply evolves_refl].
    exact (guarded_incompatibility_steady ids uuid _ st1 Hst1).
Qed.

End SteadyCompiler.

#[local] Hint Resolve steady_add_dependency_to_mod steady_add_load_rule_to_mod
  steady_add_incompatibility_to_mod : steady.

Section SteadyCompile.
Import Py Metadata CompilerSpec.
Local Open Scope py_scope.

Lemma steady_process_dependencies uuid x : steady (process_dependencies uuid x).
Proof. unfold process_dependencies. steady_tac. Qed.

Lemma steady_process_incompatibilities uuid x :
  steady (process_incompatibilities uuid x).
Proof. unfold process_incompatibilities. steady_tac. Qed.

Lemma steady_process_load_order uuid x rt ort :
  steady (process_load_order uuid x rt ort).
Proof. unfold process_load_order. steady_tac. Qed.

Hint Resolve steady_process_dependencies steady_process_incompatibilities
  steady_process_load_order : steady.

Lemma steady_for_matching_versions regex by_version body :
  (forall data, steady (body data)) ->
  steady (for_matching_versions regex by_version body).
Proof. intros Hb. unfold for_matching_versions. steady_tac. Qed.

Lemma steady_load_order_block uuid m key rt ort :
  steady (load_order_block uuid m key rt ort).
Proof. unfold load_order_block. steady_tac. Qed.

Lemma steady_load_order_by_version_body uuid rt ort by_ver :
  steady (load_order_by_version_body uuid rt ort by_ver).
Proof. unfold load_order_by_version_body. steady_tac. Qed.

Hint Resolve steady_load_order_block steady_load_order_by_version_body : steady.

Lemma steady_compile_mod uuid : steady (compile_mod uuid).
Proof.
  unfold compile_mod. steady_tac;
    try (apply steady_for_matching_versions; intros ?; steady_tac).
Qed.

Lemma steady_track_uuids pfid mod_data uuids t :
  steady (track_uuids pfid mod_data uuids t).
Proof.
  revert t. induction uuids as [|u uuids IH]; intros t; simpl; [auto with steady|].
  apply steady_bind; [|intros ?; apply IH].
  unfold track_uuid. steady_tac.
Qed.

Lemma steady_steamdb_entries entries locals :
  steady (steamdb_entries entries locals).
Proof.
  revert locals. induction entries as [|[pfid mod_data] entries IH];
    intros locals; simpl; [auto with steady|].
  apply steady_bind; [|intros ?; apply IH].
  unfold steamdb_entry. destruct locals as [ids tracking].
  steady_tac. apply steady_track_uuids.
Qed.

Lemma steady_compile_steamdb : steady compile_steamdb.
Proof.
  unfold compile_steamdb. apply steady_bind; [auto with steady|]. intros st.
  destruct (external_steam_metadata st) as [|e es]; [auto with steady|].
  apply steady_bind; [apply steady_steamdb_entries|]. intros [ids tracking].
  unfold add_dependency_to_mod_from_steamdb. steady_tac.
Qed.

Lemma steady_apply_bucket rule_data bucket uuids rt ort :
  steady (apply_bucket rule_data bucket uuids rt ort).
Proof. unfold apply_bucket. steady_tac. Qed.

Hint Resolve steady_apply_bucket : steady.

Lemma steady_process_external_rules rules rt ort :
  steady (process_external_rules rules rt ort).
Proof. unfold process_external_rules. steady_tac. Qed.

Lemma steady_compile_rules rules : steady (compile_rules rules).
Proof.
  unfold compile_rules. destruct rules; [auto with steady|].
  apply steady_bind; [|intros ?]; apply steady_process_external_rules.
Qed.

Lemma steady_compile_metadata uuids : steady (compile_metadata uuids).
Proof.
  unfold compile_metadata. apply steady_bind; [auto with steady|]. intros st.
  apply steady_bind; [apply steady_for_each; intros ?; apply steady_compile_mod|].
  intros _. apply steady_bind; [apply steady_compile_steamdb|]. intros _.
  apply steady_bind.
  - apply steady_bind; [auto with steady|]. intros ?. apply steady_compile_rules.
  - intros _. apply steady_bind; [auto with steady|]. intros ?.
    apply steady_compile_rules.
Qed.

End SteadyCompile.

Section Runs.
Import Py Metadata CompilerSpec.
Local Open Scope py_scope.

Lemma steady_run {A} (m : M A) st st' r :
  steady m -> m st = (st', r) -> evolves st st'.
Proof. intros Hm E. specialize (Hm st). rewrite E in Hm. exact Hm. Qed.

Lemma bind_ok {A B} (m : M A) (k : A -> M B) st st' b :
  bind m k st = (st', Ok b) ->
  exists a st1, m st = (st1, Ok a) /\ k a st1 = (st', Ok b).
Proof.
  unfold bind. destruct (m st) as [st1 [a|e]]; [|discriminate].
  intros H. exists a, st1. split; [reflexivity | exact H].
Qed.

Lemma lift_ok {A} (r : result A) st st' a :
  lift r st = (st', Ok a) -> r = Ok a /\ st' = st.
Proof. unfold lift. intros [= -> ->]. split; reflexivity. Qed.

Lemma get_state_ok st st' a : get_state st = (st', Ok a) -> a = st /\ st' = st.
Proof. unfold get_state. intros [= -> ->]. split; reflexivity. Qed.

Lemma for_each_ok_elem {X} (l : list X) (body : X -> M unit) x st st' :
  (forall y, steady (body y)) ->
  for_each l body st = (st', Ok tt) -> In x l ->
  exists st1 st2,
    evolves st st1 /\ body x st1 = (st2, Ok tt) /\ evolves st2 st'.
Proof.
  intros Hb. revert st. induction l as [|y l IH]; intros st Hrun Hin;
    [contradiction|].
  simpl in Hrun. apply bind_ok in Hrun as ([] & s1 & Hy & Hrest).
  destruct Hin as [-> | Hin].
  - exists st, s1. split; [apply evolves_refl|]. split; [exact Hy|].
    eapply steady_run; [apply (steady_for_each l body Hb) | exact Hrest].
  - destruct (IH s1 Hrest Hin) as (st1 & st2 & E1 & Hx & E2).
    exists st1, st2. split; [|split; assumption].
    eapply evolves_trans; [|exact E1]. eapply steady_run; [apply Hb | exact Hy].
Qed.

Lemma dget_dset_some {V} k (v v0 : V) d :
  dget k d = Some v0 -> dget k (dset k v d) = Some v.
Proof. intros _. apply dget_dset_eq. Qed.

Lemma update_mod_ok uuid f st st' :
  update_mod uuid f st = (st', Ok tt) ->
  exists m, dget uuid (internal_local_metadata st) = Some m /\
            dget uuid (internal_local_metadata st') = Some (f m).
Proof.
  unfold update_mod, bind, get_state.
  destruct (dget uuid (internal_local_metadata st)) as [m|] eqn:Hg;
    [|discriminate].
  unfold modify. intros [= <-]. exists m. split; [reflexivity|].
  simpl. apply dget_dset_eq.
Qed.

(** Membership in a rule set survives evolution. *)
Lemma rule_survives st st' u m key rule :
  evolves st st' -> dget u (internal_local_metadata st) = Some m ->
  rule ∈ rules_of m key ->
  exists m', dget u (internal_local_metadata st') = Some m' /\
             rule ∈ rules_of m' key /\ packageid m' = packageid m.
Proof.
  intros E Hg Hin. destruct (evolves_dget _ _ _ _ E Hg) as (m' & Hg' & Hm).
  exists m'. split; [exact Hg'|]. destruct Hm as (Hp & _ & _ & _ & _ & _ & _ & _ & Hr).
  split; [|exact Hp]. apply (Hr key). exact Hin.
Qed.

Lemma the_mod_ok uuid st st' m :
  the_mod uuid st = (st', Ok m) ->
  dget uuid (internal_local_metadata st) = Some m /\ st' = st.
Proof.
  unfold the_mod, bind, get_state.
  destruct (dget uuid (internal_local_metadata st)) as [m0|]; [|discriminate].
  unfold ret. intros [= <- <-]. split; reflexivity.
Qed.

(** A successful [add_load_rule_to_mod] for a string target whose package
    id is a key of the index. *)
Lemma add_load_rule_ok uuid name ek ik st st' m grp :
  add_load_rule_to_mod uuid (VStr name) ek ik st = (st', Ok tt) ->
  dget uuid (internal_local_metadata st) = Some m ->
  packageid_to_uuids st !! Str.lower name = Some grp ->
  (exists m', dget uuid (internal_local_metadata st') = Some m' /\
              (Str.lower name, true) ∈ rules_of m' ek) /\
  (forall u, u ∈ grp ->
     exists mu, dget u (internal_local_metadata st') = Some mu /\
                (packageid m, false) ∈ rules_of mu ik).
Proof.
  intros Hrun Hg Hidx. unfold add_load_rule_to_mod in Hrun.
  apply bind_ok in Hrun as (m0 & s0 & Hm0 & Hrun).
  apply the_mod_ok in Hm0 as [Hm0 ->]. rewrite Hg in Hm0. injection Hm0 as <-.
  apply bind_ok in Hrun as (targets & s1 & Ht & Hrun).
  apply lift_ok in Ht as [Ht ->]. simpl in Ht. injection Ht as <-.
  apply bind_ok in Hrun as ([] & s2 & Hsd & Hrun).
  assert (E2 : evolves st s2) by (eapply steady_run; [|exact Hsd]; auto with steady).
  simpl for_each in Hrun.
  apply bind_ok in Hrun as ([] & s3 & Hdep & Hskip).
  injection Hskip as ->.
  apply bind_ok in Hdep as (sx & s2' & Hgs & Hdep).
  apply get_state_ok in Hgs as [-> ->].
  destruct E2 as (E2s & E2i & E2r). rewrite E2i, Hidx in Hdep.
  apply bind_ok in Hdep as ([] & s4 & Hex & Hind).
  assert (E4 : evolves s4 st').
  { eapply steady_run; [|exact Hind]. apply steady_for_each. intros ?.
    auto with steady. }
  split.
  - apply update_mod_ok in Hex as (mx & Hgx & Hgx').
    eapply rule_survives in E4 as (m' & Hg' & Hin' & _); [|exact Hgx'|].
    + exists m'. split; [exact Hg' | exact Hin'].
    + rewrite rules_of_add_rule. destruct (decide (ek = ek)); [|congruence].
      apply elem_of_union. left. apply elem_of_singleton. reflexivity.
  - intros u Hu.
    assert (Hin : In u (elements grp)).
    { apply list_elem_of_In, elem_of_elements. exact Hu. }
    destruct (for_each_ok_elem
                (elements grp)
                (fun dep_uuid =>
                   update_mod dep_uuid (add_rule ik (packageid m, false)))
                u s4 st' (fun y => steady_update_rule y _ _) Hind Hin)
      as (sa & sb & Ea & Hup & Eb).
    apply update_mod_ok in Hup as (mu & Hgu & Hgu').
    eapply rule_survives in Eb as (mu' & Hg' & Hin' & _); [|exact Hgu'|].
    + exists mu'. split; [exact Hg' | exact Hin'].
    + rewrite rules_of_add_rule. destruct (decide (ik = ik)); [|congruence].
      apply elem_of_union. left. apply elem_of_singleton. reflexivity.
Qed.

End Runs.

Section Blocks.
Import Py Metadata CompilerSpec.
Local Open Scope py_scope.

Lemma declares_list m key name :
  declares m key name ->
  exists l, li_of (about_get m key) = Ok (VList l) /\
            or_empty_list (VList l) = VList l /\ In (VStr name) l.
Proof.
  intros (d & l & Hk & Hli & Hin). exists l.
  unfold about_get. rewrite Hk. simpl default.
  destruct d as [|kv d]; [discriminate|].
  unfold li_of, get_of. simpl truthy. cbv iota. rewrite Hli. simpl default.
  split; [reflexivity|]. split; [|exact Hin].
  destruct l; [contradiction | reflexivity].
Qed.

Lemma evolves_index st st' :
  evolves st st' -> packageid_to_uuids st' = packageid_to_uuids st.
Proof. intros (_ & H & _). exact H. Qed.

Lemma evolves_packageid st st' u m :
  evolves st st' -> dget u (internal_local_metadata st) = Some m ->
  exists m', dget u (internal_local_metadata st') = Some m' /\
             packageid m' = packageid m /\ about m' = about m.
Proof.
  intros E Hg. destruct (evolves_dget _ _ _ _ E Hg) as (m' & Hg' & Hm).
  exists m'. split; [exact Hg'|]. split; apply Hm.
Qed.

Lemma process_load_order_ok uuid l rt ort st st' name m grp :
  process_load_order uuid (VList l) rt ort st = (st', Ok tt) ->
  In (VStr name) l ->
  dget uuid (internal_local_metadata st) = Some m ->
  packageid_to_uuids st !! Str.lower name = Some grp ->
  (exists m', dget uuid (internal_local_metadata st') = Some m' /\
              (Str.lower name, true) ∈ rules_of m' rt) /\
  (forall u, u ∈ grp ->
     exists mu, dget u (internal_local_metadata st') = Some mu /\
                (packageid m, false) ∈ rules_of mu ort).
Proof.
  intros Hrun Hin Hg Hidx. unfold process_load_order in Hrun.
  eapply (for_each_ok_elem _ _ (VStr name)) in Hrun
    as (sa & sb & Ea & Hadd & Eb);
    [|intros y; destruct y; auto with steady | exact Hin].
  destruct (evolves_packageid _ _ _ _ Ea Hg) as (ma & Hga & Hpa & _).
  rewrite <- (evolves_index _ _ Ea) in Hidx.
  destruct (add_load_rule_ok _ _ _ _ _ _ _ _ Hadd Hga Hidx)
    as ((mb & Hgb & Hinb) & Hgrp).
  split.
  - destruct (rule_survives _ _ _ _ _ _ Eb Hgb Hinb) as (m' & Hg' & Hin' & _).
    exists m'. split; assumption.
  - intros u Hu. destruct (Hgrp u Hu) as (mu & Hgu & Hinu).
    destruct (rule_survives _ _ _ _ _ _ Eb Hgu Hinu) as (mu' & Hg' & Hin' & _).
    exists mu'. split; [exact Hg'|]. rewrite <- Hpa. exact Hin'.
Qed.

Lemma load_order_block_ok uuid mA key rt ort st st' name m grp :
  load_order_block uuid mA key rt ort st = (st', Ok tt) ->
  declares mA key name ->
  dget uuid (internal_local_metadata st) = Some m ->
  packageid_to_uuids st !! Str.lower name = Some grp ->
  (exists m', dget uuid (internal_local_metadata st') = Some m' /\
              (Str.lower name, true) ∈ rules_of m' rt) /\
  (forall u, u ∈ grp ->
     exists mu, dget u (internal_local_metadata st') = Some mu /\
                (packageid m, false) ∈ rules_of mu ort).
Proof.
  intros Hrun Hdecl Hg Hidx. unfold load_order_block in Hrun.
  destruct (declares_list _ _ _ Hdecl) as (l & Hli & Hor & Hin).
  apply bind_ok in Hrun as (v & s1 & Hl & Hrun).
  apply lift_ok in Hl as [Hl ->]. rewrite Hli in Hl. injection Hl as <-.
  rewrite Hor in Hrun.
  eapply process_load_order_ok; eassumption.
Qed.

(** The blocks of a successful [compile_mod], in order, with the states
    between them. *)
Lemma compile_mod_blocks uuid st st' m :
  compile_mod uuid st = (st', Ok tt) ->
  dget uuid (internal_local_metadata st) = Some m ->
  exists inc s2 s3 s4 s5 s6 s7 s8 s9,
    evolves st s2 /\
    li_of (about_get m "incompatiblewith") = Ok inc /\
    process_incompatibilities uuid (or_empty_list inc) s2 = (s3, Ok tt) /\
    evolves s3 s4 /\
    load_order_block uuid m "loadafter" "loadTheseBefore" "loadTheseAfter" s4
    = (s5, Ok tt) /\
    load_order_block uuid m "forceloadafter" "loadTheseBefore" "loadTheseAfter" s5
    = (s6, Ok tt) /\
    evolves s6 s7 /\
    load_order_block uuid m "loadbefore" "loadTheseAfter" "loadTheseBefore" s7
    = (s8, Ok tt) /\
    load_order_block uuid m "forceloadbefore" "loadTheseAfter" "loadTheseBefore" s8
    = (s9, Ok tt) /\
    evolves s9 st'.
Proof.
  intros Hrun Hg. unfold compile_mod in Hrun.
  apply bind_ok in Hrun as (sx & s0 & Hgs & Hrun).
  apply get_state_ok in Hgs as [-> ->]. rewrite Hg in Hrun.
  apply bind_ok in Hrun as (deps & s0 & Hl & Hrun). apply lift_ok in Hl as [_ ->].
  apply bind_ok in Hrun as ([] & s1 & Hdeps & Hrun).
  apply bind_ok in Hrun as (regex & s0 & Hl & Hrun). apply lift_ok in Hl as [_ ->].
  apply bind_ok in Hrun as (byv & s0 & Hl & Hrun). apply lift_ok in Hl as [_ ->].
  apply bind_ok in Hrun as ([] & s2 & Hdv & Hrun).
  apply bind_ok in Hrun as (inc & s0 & Hl & Hrun). apply lift_ok in Hl as [Hinc ->].
  apply bind_ok in Hrun as ([] & s3 & Hincs & Hrun).
  apply bind_ok in Hrun as (byv' & s0 & Hl & Hrun). apply lift_ok in Hl as [_ ->].
  apply bind_ok in Hrun as ([] & s4 & Hiv & Hrun).
  apply bind_ok in Hrun as ([] & s5 & Hla & Hrun).
  apply bind_ok in Hrun as ([] & s6 & Hfla & Hrun).
  apply bind_ok in Hrun as ([] & s7 & Hlav & Hrun).
  apply bind_ok in Hrun as ([] & s8 & Hlb & Hrun).
  apply bind_ok in Hrun as ([] & s9 & Hflb & Hrun).
  exists inc, s2, s3, s4, s5, s6, s7, s8, s9.
  assert (Hbody : forall rt ort data,
             steady (load_order_by_version_body uuid rt ort data))
    by (intros; apply steady_load_order_by_version_body).
  assert (E2 : evolves st s2).
  { eapply evolves_trans.
    + eapply steady_run; [apply steady_process_dependencies | exact Hdeps].
    + eapply steady_run; [|exact Hdv]. apply steady_for_matching_versions.
      intros ?. apply steady_bind; [apply steady_lift|].
      intros ?. apply steady_process_dependencies. }
  assert (E4 : evolves s3 s4).
  { eapply steady_run; [|exact Hiv]. apply steady_for_matching_versions.
    intros ?. apply steady_bind; [apply steady_lift|].
    intros ?. apply steady_process_incompatibilities. }
  assert (E7 : evolves s6 s7).
  { eapply steady_run; [|exact Hlav].
    destruct (about_get m "loadafterbyversion") as [| | | | |[|e es]];
      try apply steady_skip.
    apply steady_for_matching_versions, Hbody. }
  assert (E9 : evolves s9 st').
  { eapply steady_run; [|exact Hrun].
    destruct (about_get m "loadbeforebyversion"); try apply steady_skip.
    apply steady_for_matching_versions, Hbody. }
  exact (conj E2 (conj Hinc (conj Hincs (conj E4 (conj Hla (conj Hfla
          (conj E7 (conj Hlb (conj Hflb E9))))))))).
Qed.

Lemma compile_metadata_reaches uuids st st' uuid m :
  compile_metadata uuids st = (st', Ok tt) ->
  dget uuid (internal_local_metadata st) = Some m ->
  uuids = [] \/ In uuid uuids ->
  exists sa sb, evolves st sa /\ compile_mod uuid sa = (sb, Ok tt) /\
                evolves sb st'.
Proof.
  intros Hrun Hg Hin. unfold compile_metadata in Hrun.
  apply bind_ok in Hrun as (sx & s0 & Hgs & Hrun).
  apply get_state_ok in Hgs as [-> ->].
  apply bind_ok in Hrun as ([] & s1 & Hloop & Hrest).
  assert (Hin' : In uuid (match uuids with
                          | [] => dkeys (internal_local_metadata st)
                          | _ :: _ => uuids
                          end)).
  { destruct Hin as [-> | Hin]; [eapply dget_dkeys, Hg|].
    destruct uuids; [contradiction | exact Hin]. }
  destruct (for_each_ok_elem _ _ uuid _ _ steady_compile_mod Hloop Hin')
    as (sa & sb & Ea & Hc & Eb).
  exists sa, sb. split; [exact Ea|]. split; [exact Hc|].
  eapply evolves_trans; [exact Eb|].
  eapply steady_run; [|exact Hrest].
  apply steady_bind; [apply steady_compile_steamdb|]. intros _.
  apply steady_bind.
  - apply steady_bind; [apply steady_get_state|]. intros ?.
    apply steady_compile_rules.
  - intros _. apply steady_bind; [apply steady_get_state|]. intros ?.
    apply steady_compile_rules.
Qed.

End Blocks.

Section CompilerTheorems.
Import Py Metadata CompilerSpec.
Local Open Scope py_scope.

Lemma declares_about m m' key name :
  about m' = about m -> declares m key name -> declares m' key name.
Proof. unfold declares. intros ->. tauto. Qed.

(** One declared load-order rule, through a whole compilation. *)
Lemma compiled_rule uuids st st' uA uB A B name grp key rt ort :
  compile_metadata uuids st = (st', Ok tt) ->
  uuids = [] \/ In uA uuids ->
  dget uA (internal_local_metadata st) = Some A ->
  dget uB (internal_local_metadata st) = Some B ->
  packageid_to_uuids st !! Str.lower name = Some grp -> uB ∈ grp ->
  declares A key name ->
  (key, rt, ort) = ("loadafter", "loadTheseBefore", "loadTheseAfter") \/
  (key, rt, ort) = ("forceloadafter", "loadTheseBefore", "loadTheseAfter") \/
  (key, rt, ort) = ("loadbefore", "loadTheseAfter", "loadTheseBefore") \/
  (key, rt, ort) = ("forceloadbefore", "loadTheseAfter", "loadTheseBefore") ->
  exists A' B',
    dget uA (internal_local_metadata st') = Some A' /\
    dget uB (internal_local_metadata st') = Some B' /\
    (Str.lower name, true) ∈ rules_of A' rt /\
    (packageid A, false) ∈ rules_of B' ort.
Proof.
  intros Hrun Hin HA HB Hidx HuB Hdecl Hkey.
  destruct (compile_metadata_reaches _ _ _ _ _ Hrun HA Hin)
    as (sa & sb & Ea & Hc & Eb).
  destruct (evolves_packageid _ _ _ _ Ea HA) as (Aa & HAa & HpAa & HabAa).
  destruct (compile_mod_blocks _ _ _ _ Hc HAa)
    as (inc & s2 & s3 & s4 & s5 & s6 & s7 & s8 & s9 &
        E2 & _ & Hincs & E4 & Hla & Hfla & E7 & Hlb & Hflb & E9).
  assert (E3 : evolves s2 s3)
    by (eapply steady_run; [apply steady_process_incompatibilities | exact Hincs]).
  assert (E5 : evolves s4 s5)
    by (eapply steady_run; [apply steady_load_order_block | exact Hla]).
  assert (E6 : evolves s5 s6)
    by (eapply steady_run; [apply steady_load_order_block | exact Hfla]).
  assert (E8 : evolves s7 s8)
    by (eapply steady_run; [apply steady_load_order_block | exact Hlb]).
  assert (E9' : evolves s8 s9)
    by (eapply steady_run; [apply steady_load_order_block | exact Hflb]).
  assert (F4 : evolves st s4)
    by (eapply evolves_trans; [exact Ea|]; eapply evolves_trans; [exact E2|];
        eapply evolves_trans; eassumption).
  assert (F5 : evolves st s5) by (eapply evolves_trans; eassumption).
  assert (F7 : evolves st s7)
    by (eapply evolves_trans; [exact F5|]; eapply evolves_trans; eassumption).
  assert (F8 : evolves st s8) by (eapply evolves_trans; eassumption).
  assert (G9 : evolves s9 st') by (eapply evolves_trans; eassumption).
  assert (G8 : evolves s8 st') by (eapply evolves_trans; eassumption).
  assert (G6 : evolves s6 st')
    by (eapply evolves_trans; [exact E7|]; eapply evolves_trans; eassumption).
  assert (G5 : evolves s5 st') by (eapply evolves_trans; eassumption).
  apply (declares_about A Aa) in Hdecl; [|exact HabAa].
  assert (Hblock : forall s s', evolves st s -> evolves s' st' ->
            load_order_block uA Aa key rt ort s = (s', Ok tt) ->
            exists A' B',
              dget uA (internal_local_metadata st') = Some A' /\
              dget uB (internal_local_metadata st') = Some B' /\
              (Str.lower name, true) ∈ rules_of A' rt /\
              (packageid A, false) ∈ rules_of B' ort).
  { intros s s' Es Es' Hb.
    destruct (evolves_packageid _ _ _ _ Es HA) as (As & HAs & HpAs & _).
    rewrite <- (evolves_index _ _ Es) in Hidx.
    destruct (load_order_block_ok _ _ _ _ _ _ _ _ _ _ Hb Hdecl HAs Hidx)
      as ((m1 & Hg1 & Hin1) & Hgrp).
    destruct (Hgrp uB HuB) as (m2 & Hg2 & Hin2).
    destruct (rule_survives _ _ _ _ _ _ Es' Hg1 Hin1) as (A' & HA' & HinA' & _).
    destruct (rule_survives _ _ _ _ _ _ Es' Hg2 Hin2) as (B' & HB' & HinB' & _).
    exists A', B'. rewrite <- HpAs. tauto. }
  destruct Hkey as [E | [E | [E | E]]]; injection E as -> -> ->.
  - exact (Hblock s4 s5 F4 G5 Hla).
  - exact (Hblock s5 s6 F5 G6 Hfla).
  - exact (Hblock s7 s8 F7 G8 Hlb).
  - exact (Hblock s8 s9 F8 G9 Hflb).
Qed.

End CompilerTheorems.


(** C1 as the claim states it fails for installed pairs: a declaration
    whose [li] is a single string is not a list and is left out, and a
    target that is installed but not a key of [packageid_to_uuids] gets no
    rule; in both stores A and B are installed, A declares "load after b"
    and neither tuple is added. *)
Lemma C1_installed_pair_without_tuples :
  (exists st' A' B',
     Metadata.compile_metadata [] Examples.st_single = (st', Ok tt) /\
     Py.dget "uA" (Metadata.internal_local_metadata st') = Some A' /\
     Py.dget "uB" (Metadata.internal_local_metadata st') = Some B' /\
     elements (Metadata.loadTheseBefore A') = [] /\
     elements (Metadata.loadTheseAfter B') = []) /\
  (exists st' A' B',
     Metadata.compile_metadata [] Examples.st_unindexed = (st', Ok tt) /\
     Py.dget "uA" (Metadata.internal_local_metadata st') = Some A' /\
     Py.dget "uB" (Metadata.internal_local_metadata st') = Some B' /\
     CompilerSpec.declares Examples.mod_a "loadafter" "B" /\
     elements (Metadata.loadTheseBefore A') = [] /\
     elements (Metadata.loadTheseAfter B') = []).
Proof.
  split.
  - do 3 eexists. split; [vm_compute; reflexivity|].
    split; [vm_compute; reflexivity|]. split; [vm_compute; reflexivity|].
    split; vm_compute; reflexivity.
  - do 3 eexists. split; [vm_compute; reflexivity|].
    split; [vm_compute; reflexivity|]. split; [vm_compute; reflexivity|].
    split.
    + exists [("li", VList [VStr "B"])], [VStr "B"].
      split; [reflexivity|]. split; [reflexivity | left; reflexivity].
    + split; vm_compute; reflexivity.
Qed.


(** C1 (amended). After a compilation that returns, run over a store
    holding the records A and B (A among the compiled uuids), with the uuid
    of B in the group that [packageid_to_uuids] holds for the package id of
    B: if the [li] list of [loadafter] (or [forceloadafter]) in the
    descriptor of A holds the package id of B as a plain string, in any
    letter case, then [(B.packageid, true)] is in A's [loadTheseBefore] and
    [(A.packageid, false)] is in B's [loadTheseAfter]; for [loadbefore] (or
    [forceloadbefore]) the same holds with the two sets swapped. *)
Theorem C1_load_rule_propagates_both_ways :
  forall (st st' : Metadata.Manager) (uuids : list string) (uA uB : string) (A B : Metadata.Mod)
         (name : string) (grp : gset string),
    Metadata.compile_metadata uuids st = (st', Ok tt) ->
    uuids = [] \/ In uA uuids ->
    Py.dget uA (Metadata.internal_local_metadata st) = Some A ->
    Py.dget uB (Metadata.internal_local_metadata st) = Some B ->
    Metadata.packageid B = Str.lower name ->
    Metadata.packageid_to_uuids st !! Metadata.packageid B = Some grp -> uB ∈ grp ->
    exists A' B',
      Py.dget uA (Metadata.internal_local_metadata st') = Some A' /\
      Py.dget uB (Metadata.internal_local_metadata st') = Some B' /\
      (CompilerSpec.declares A "loadafter" name \/ CompilerSpec.declares A "forceloadafter" name ->
       (Metadata.packageid B, true) ∈ Metadata.loadTheseBefore A' /\
       (Metadata.packageid A, false) ∈ Metadata.loadTheseAfter B') /\
      (CompilerSpec.declares A "loadbefore" name \/ CompilerSpec.declares A "forceloadbefore" name ->
       (Metadata.packageid B, true) ∈ Metadata.loadTheseAfter A' /\
       (Metadata.packageid A, false) ∈ Metadata.loadTheseBefore B').
Proof.
  intros st st' uuids uA uB A B name grp Hrun Hin HA HB HpB Hidx HuB.
  pose proof (steady_run _ _ _ _ (steady_compile_metadata uuids) Hrun) as E.
  destruct (evolves_packageid _ _ _ _ E HA) as (A' & HA' & _).
  destruct (evolves_packageid _ _ _ _ E HB) as (B' & HB' & _).
  exists A', B'. split; [exact HA'|]. split; [exact HB'|].
  rewrite HpB in *.
  assert (Hone : forall key rt ort,
            CompilerSpec.declares A key name ->
            (key, rt, ort) = ("loadafter", "loadTheseBefore", "loadTheseAfter") \/
            (key, rt, ort) = ("forceloadafter", "loadTheseBefore", "loadTheseAfter") \/
            (key, rt, ort) = ("loadbefore", "loadTheseAfter", "loadTheseBefore") \/
            (key, rt, ort) = ("forceloadbefore", "loadTheseAfter", "loadTheseBefore") ->
            (Str.lower name, true) ∈ Metadata.rules_of A' rt /\
            (Metadata.packageid A, false) ∈ Metadata.rules_of B' ort).
  { intros key rt ort Hd Hk.
    destruct (compiled_rule _ _ _ _ _ _ _ _ _ _ _ _ Hrun Hin HA HB Hidx HuB Hd Hk)
      as (A2 & B2 & HA2 & HB2 & H1 & H2).
    rewrite HA' in HA2. rewrite HB' in HB2.
    injection HA2 as <-. injection HB2 as <-. split; assumption. }
  unfold Metadata.loadTheseBefore, Metadata.loadTheseAfter. split.
  - intros [Hd | Hd]; eapply Hone; try exact Hd; tauto.
  - intros [Hd | Hd]; eapply Hone; try exact Hd; tauto.
Qed.

Lemma C1_witness :
  exists A' B',
    Py.dget "uA" (Metadata.internal_local_metadata
                    (fst (Metadata.compile_metadata [] Examples.st_abc)))
    = Some A' /\
    Py.dget "uB" (Metadata.internal_local_metadata
                    (fst (Metadata.compile_metadata [] Examples.st_abc)))
    = Some B' /\
    ("b", true) ∈ Metadata.loadTheseBefore A' /\
    ("a", false) ∈ Metadata.loadTheseAfter B'.
Proof.
  destruct (C1_load_rule_propagates_both_ways
              Examples.st_abc
              (fst (Metadata.compile_metadata [] Examples.st_abc))
              [] "uA" "uB" Examples.mod_a Examples.mod_b "B" {["uB"]})
    as (A' & B' & HA & HB & Hafter & _).
  - vm_compute. reflexivity.
  - left. reflexivity.
  - reflexivity.
  - reflexivity.
  - reflexivity.
  - vm_compute. reflexivity.
  - apply elem_of_singleton. reflexivity.
  - exists A', B'. split; [exact HA|]. split; [exact HB|].
    apply Hafter. left.
    exists [("li", VList [VStr "B"])], [VStr "B"].
    split; [reflexivity|]. split; [reflexivity|]. left. reflexivity.
Defined.

Section Incompatibilities.
Import Py Metadata CompilerSpec.
Local Open Scope py_scope.

Lemma incompatibility_survives st st' u m x :
  evolves st st' -> dget u (internal_local_metadata st) = Some m ->
  x ∈ incompatibilities m ->
  exists m', dget u (internal_local_metadata st') = Some m' /\
             x ∈ incompatibilities m'.
Proof.
  intros E Hg Hin. destruct (evolves_dget _ _ _ _ E Hg) as (m' & Hg' & Hm).
  exists m'. split; [exact Hg'|].
  destruct Hm as (_ & _ & _ & _ & _ & _ & Hi & _). apply Hi, Hin.
Qed.

Lemma add_incompatibility_ok uuid X st st' :
  add_incompatibility_to_mod uuid (VStr X) st = (st', Ok tt) ->
  In (Str.lower X) (all_package_ids (internal_local_metadata st)) ->
  exists m', dget uuid (internal_local_metadata st') = Some m' /\
             Str.lower X ∈ incompatibilities m'.
Proof.
  intros Hrun Hin. unfold add_incompatibility_to_mod in Hrun.
  apply bind_ok in Hrun as (m0 & s0 & Hm0 & Hrun).
  apply the_mod_ok in Hm0 as [Hm0 ->].
  apply bind_ok in Hrun as (sx & s0 & Hgs & Hrun).
  apply get_state_ok in Hgs as [-> ->].
  apply str_in_In in Hin. rewrite Hin in Hrun.
  apply update_mod_ok in Hrun as (m & Hg & Hg').
  exists (add_incompatibility (Str.lower X) m). split; [exact Hg'|].
  unfold add_incompatibility. simpl. set_solver.
Qed.

Lemma process_incompatibilities_ok uuid l st st' X :
  process_incompatibilities uuid (VList l) st = (st', Ok tt) ->
  In (VStr X) l ->
  In (Str.lower X) (all_package_ids (internal_local_metadata st)) ->
  exists m', dget uuid (internal_local_metadata st') = Some m' /\
             Str.lower X ∈ incompatibilities m'.
Proof.
  intros Hrun Hin Hpid. unfold process_incompatibilities in Hrun.
  eapply (for_each_ok_elem _ _ (VStr X)) in Hrun
    as (sa & sb & Ea & Hadd & Eb);
    [|intros y; destruct y; auto with steady | exact Hin].
  rewrite <- (evolves_pids _ _ Ea) in Hpid.
  destruct (add_incompatibility_ok _ _ _ _ Hadd Hpid) as (mb & Hgb & Hinb).
  eapply incompatibility_survives; eassumption.
Qed.

End Incompatibilities.

(** C4 as the claim states it fails in both directions: an incompatibility
    declared with a single [li] entry, a string and not a list, is left out
    although b is installed; and an incompatibility recorded by an earlier
    compilation stays after b has been deleted and A is compiled again. *)
Lemma C4_declared_incompatibility_not_recorded :
  (exists st' A',
     Metadata.compile_metadata [] Examples.st_single = (st', Ok tt) /\
     Py.dget "uA" (Metadata.internal_local_metadata st') = Some A' /\
     Py.str_in "b" (Metadata.all_package_ids
                      (Metadata.internal_local_metadata Examples.st_single)) = true /\
     elements (Metadata.incompatibilities A') = []) /\
  (exists st1 st2 st3 A',
     Metadata.compile_metadata [] Examples.st_abc = (st1, Ok tt) /\
     Metadata.process_deletion "uB" st1 = (st2, Ok tt) /\
     Metadata.compile_metadata ["uA"] st2 = (st3, Ok tt) /\
     Py.dget "uA" (Metadata.internal_local_metadata st3) = Some A' /\
     Py.str_in "b" (Metadata.all_package_ids
                      (Metadata.internal_local_metadata st2)) = false /\
     elements (Metadata.incompatibilities A') = ["b"]).
Proof.
  split.
  - do 2 eexists. split; [vm_compute; reflexivity|].
    split; [vm_compute; reflexivity|]. split; vm_compute; reflexivity.
  - do 4 eexists. split; [vm_compute; reflexivity|].
    split; [vm_compute; reflexivity|]. split; [vm_compute; reflexivity|].
    split; [vm_compute; reflexivity|]. split; vm_compute; reflexivity.
Qed.

(** C4 (amended). After a compilation that returns, for a compiled record
    A whose descriptor holds X as a plain string in the [li] list of
    [incompatiblewith] and whose incompatibilities did not hold X before: X
    (lower-cased) is in A's incompatibilities if and only if some record of
    the store has package id X; an X that is not installed is not added. *)
Theorem C4_incompatibility_iff_installed :
  forall (st st' : Metadata.Manager) (uuids : list string) (uA : string) (A : Metadata.Mod)
         (X : string),
    Metadata.compile_metadata uuids st = (st', Ok tt) ->
    uuids = [] \/ In uA uuids ->
    Py.dget uA (Metadata.internal_local_metadata st) = Some A ->
    CompilerSpec.declares A "incompatiblewith" X ->
    Str.lower X ∉ Metadata.incompatibilities A ->
    exists A',
      Py.dget uA (Metadata.internal_local_metadata st') = Some A' /\
      (Str.lower X ∈ Metadata.incompatibilities A' <->
       exists u m, In (u, m) (Metadata.internal_local_metadata st) /\
                   Metadata.packageid m = Str.lower X).
Proof.
  intros st st' uuids uA A X Hrun Hin HA Hdecl Hfresh.
  pose proof (steady_run _ _ _ _ (steady_compile_metadata uuids) Hrun) as E.
  destruct (evolves_dget _ _ _ _ E HA) as (A' & HA' & Hm).
  exists A'. split; [exact HA'|].
  assert (Hpids : forall x, In x (Metadata.all_package_ids (Metadata.internal_local_metadata st)) <->
                            exists u m, In (u, m) (Metadata.internal_local_metadata st) /\
                                        Metadata.packageid m = x).
  { intros x. unfold Metadata.all_package_ids. rewrite in_map_iff. split.
    - intros ([u m] & Hp & Hi). exists u, m. split; assumption.
    - intros (u & m & Hi & Hp). exists (u, m). split; assumption. }
  rewrite <- Hpids. split.
  - intros Hx. destruct Hm as (_ & _ & _ & _ & _ & _ & _ & Hb & _).
    destruct (Hb _ Hx) as [Hold | Hnew]; [contradiction | exact Hnew].
  - intros Hinst.
    destruct (compile_metadata_reaches _ _ _ _ _ Hrun HA Hin)
      as (sa & sb & Ea & Hc & Eb).
    destruct (evolves_packageid _ _ _ _ Ea HA) as (Aa & HAa & HpAa & HabAa).
    destruct (compile_mod_blocks _ _ _ _ Hc HAa)
      as (inc & s2 & s3 & s4 & s5 & s6 & s7 & s8 & s9 &
          E2 & Hinc & Hincs & E4 & Hla & Hfla & E7 & Hlb & Hflb & E9).
    apply (declares_about A Aa) in Hdecl; [|exact HabAa].
    destruct (declares_list _ _ _ Hdecl) as (l & Hli & Hor & HinX).
    rewrite Hli in Hinc. injection Hinc as <-. rewrite Hor in Hincs.
    assert (F2 : CompilerSpec.evolves st s2) by (eapply evolves_trans; eassumption).
    rewrite <- (evolves_pids _ _ F2) in Hinst.
    destruct (process_incompatibilities_ok _ _ _ _ _ Hincs HinX Hinst)
      as (m3 & Hg3 & Hin3).
    assert (G3 : CompilerSpec.evolves s3 st').
    { eapply evolves_trans; [exact E4|].
      eapply evolves_trans;
        [eapply steady_run; [apply steady_load_order_block | exact Hla]|].
      eapply evolves_trans;
        [eapply steady_run; [apply steady_load_order_block | exact Hfla]|].
      eapply evolves_trans; [exact E7|].
      eapply evolves_trans;
        [eapply steady_run; [apply steady_load_order_block | exact Hlb]|].
      eapply evolves_trans;
        [eapply steady_run; [apply steady_load_order_block | exact Hflb]|].
      eapply evolves_trans; eassumption. }
    destruct (incompatibility_survives _ _ _ _ _ G3 Hg3 Hin3) as (A2 & HA2 & HinA2).
    rewrite HA' in HA2. injection HA2 as <-. exact HinA2.
Qed.

Lemma C4_witness :
  exists A',
    Py.dget "uA" (Metadata.internal_local_metadata
                    (fst (Metadata.compile_metadata [] Examples.st_abc)))
    = Some A' /\
    (Str.lower "gone" ∈ Metadata.incompatibilities A' <->
     exists u m, In (u, m) (Metadata.internal_local_metadata Examples.st_abc) /\
                 Metadata.packageid m = Str.lower "gone").
Proof.
  apply (C4_incompatibility_iff_installed
           Examples.st_abc
           (fst (Metadata.compile_metadata [] Examples.st_abc))
           [] "uA" Examples.mod_a "gone").
  - vm_compute. reflexivity.
  - left. reflexivity.
  - reflexivity.
  - exists [("li", VList [VStr "b"; VStr "gone"])], [VStr "b"; VStr "gone"].
    split; [reflexivity|]. split; [reflexivity|]. right. left. reflexivity.
  - apply not_elem_of_empty.
Defined.

(** ** Idempotence of the merge *)

Section DictLists.
Import Py Merge MergeSpec.
Context {V : Type}.
Implicit Types (d : dict V) (k : string) (v : V).

Lemma dmem_In k d : dmem k d = true <-> In k (dkeys d).
Proof.
  unfold dmem, dkeys. rewrite existsb_exists, in_map_iff. split.
  - intros (kv & Hin & E). apply String.eqb_eq in E. exists kv. split; [congruence | exact Hin].
  - intros (kv & E & Hin). exists kv. split; [exact Hin|]. subst. apply String.eqb_refl.
Qed.

Lemma dmem_false k d : dmem k d = false <-> ~ In k (dkeys d).
Proof. rewrite <- dmem_In. destruct (dmem k d); split; congruence. Qed.

Lemma dget_none k d : dget k d = None <-> ~ In k (dkeys d).
Proof.
  induction d as [|[k' v'] d IH]; simpl; [tauto|].
  destruct (String.eqb k k') eqn:E.
  - apply String.eqb_eq in E. subst. split; [discriminate | tauto].
  - apply String.eqb_neq in E. rewrite IH. split; [intros H [H1|H1]; congruence | tauto].
Qed.

Lemma dget_some_In k v d : dget k d = Some v -> In (k, v) d.
Proof.
  induction d as [|[k' v'] d IH]; simpl; [discriminate|].
  destruct (String.eqb k k') eqn:E.
  - apply String.eqb_eq in E. intros [= ->]. subst. left. reflexivity.
  - intros H. right. exact (IH H).
Qed.

Lemma distinct_NoDup (ks : list string) : distinct ks = true <-> List.NoDup ks.
Proof.
  induction ks as [|k ks IH]; simpl.
  - split; [constructor | reflexivity].
  - rewrite andb_true_iff, negb_true_iff, IH, str_in_false. split.
    + intros [H1 H2]. constructor; assumption.
    + intros H. inversion H; subst. split; assumption.
Qed.

Lemma In_dget k v d : List.NoDup (dkeys d) -> In (k, v) d -> dget k d = Some v.
Proof.
  induction d as [|[k' v'] d IH]; simpl; [contradiction|].
  intros Hnd. inversion Hnd as [|? ? Hnot Hnd']; subst.
  intros [[= -> ->] | Hin].
  - rewrite String.eqb_refl. reflexivity.
  - destruct (String.eqb k k') eqn:E; [|apply IH; assumption].
    apply String.eqb_eq in E. subst. exfalso. apply Hnot.
    apply (in_map fst) in Hin. exact Hin.
Qed.

Lemma dset_same k v d : dget k d = Some v -> dset k v d = d.
Proof.
  induction d as [|[k' v'] d IH]; simpl; [discriminate|].
  destruct (String.eqb k k') eqn:E.
  - intros [= ->]. reflexivity.
  - intros H. rewrite (IH H). reflexivity.
Qed.

Lemma dset_new k v d : dget k d = None -> dset k v d = d ++ [(k, v)].
Proof.
  induction d as [|[k' v'] d IH]; simpl; [reflexivity|].
  destruct (String.eqb k k'); [discriminate|].
  intros H. rewrite (IH H). reflexivity.
Qed.

Lemma dkeys_dset k v d :
  dkeys (dset k v d) = if dmem k d then dkeys d else dkeys d ++ [k].
Proof.
  induction d as [|[k' v'] d IH]; simpl; [reflexivity|].
  unfold dmem in *. simpl. destruct (String.eqb k k') eqn:E; simpl.
  - reflexivity.
  - rewrite IH. destruct (existsb _ d); reflexivity.
Qed.

Lemma NoDup_dset k v d : List.NoDup (dkeys d) -> List.NoDup (dkeys (dset k v d)).
Proof.
  intros Hnd. rewrite dkeys_dset. destruct (dmem k d) eqn:E; [exact Hnd|].
  apply dmem_false in E. apply List.NoDup_app; repeat split.
  - exact Hnd.
  - constructor; [intros [] | constructor].
  - intros x Hx [<- | []]. contradiction.
Qed.

Lemma filter_all {A} (f : A -> bool) (l : list A) :
  (forall x, In x l -> f x = true) -> List.filter f l = l.
Proof.
  induction l as [|x l IH]; simpl; intros H; [reflexivity|].
  rewrite (H x (or_introl eq_refl)). f_equal. apply IH.
  intros y Hy. apply H. right. exact Hy.
Qed.

Lemma filter_none {A} (f : A -> bool) (l : list A) :
  (forall x, In x l -> f x = false) -> List.filter f l = [].
Proof.
  induction l as [|x l IH]; simpl; intros H; [reflexivity|].
  rewrite (H x (or_introl eq_refl)). apply IH.
  intros y Hy. apply H. right. exact Hy.
Qed.

Lemma filter_filter_same {A} (f : A -> bool) (l : list A) :
  List.filter f (List.filter f l) = List.filter f l.
Proof. apply filter_all. intros x Hx. apply filter_In in Hx. tauto. Qed.

Lemma dkeys_filter_incl (f : string * V -> bool) d k :
  In k (dkeys (List.filter f d)) -> In k (dkeys d).
Proof.
  unfold dkeys. rewrite !in_map_iff. intros (kv & E & Hin).
  apply filter_In in Hin. exists kv. tauto.
Qed.

Lemma NoDup_filter_keys (f : string * V -> bool) d :
  List.NoDup (dkeys d) -> List.NoDup (dkeys (List.filter f d)).
Proof.
  induction d as [|[k v] d IH]; simpl; intros Hnd; [constructor|].
  inversion Hnd as [|? ? Hnot Hnd']; subst.
  destruct (f (k, v)); simpl; [|apply IH, Hnd'].
  constructor; [|apply IH, Hnd'].
  intros Hin. apply Hnot. eapply dkeys_filter_incl, Hin.
Qed.

Lemma dget_filter (f : string * V -> bool) d k :
  List.NoDup (dkeys d) ->
  dget k (List.filter f d)
  = match dget k d with
    | Some v => if f (k, v) then Some v else None
    | None => None
    end.
Proof.
  induction d as [|[k' v'] d IH]; simpl; intros Hnd; [reflexivity|].
  inversion Hnd as [|? ? Hnot Hnd']; subst.
  destruct (String.eqb k k') eqn:E.
  - apply String.eqb_eq in E. subst k'.
    destruct (f (k, v')) eqn:Hf; simpl.
    + rewrite String.eqb_refl. reflexivity.
    + apply dget_none. intros Hin. apply Hnot. eapply dkeys_filter_incl, Hin.
  - destruct (f (k', v')); simpl; [rewrite E|]; apply IH, Hnd'.
Qed.

(** Deleting a list of keys one by one. *)
Lemma fold_ddel (ks : list string) d :
  fold_left (fun a key => ddel key a) ks d
  = List.filter (fun kv => negb (str_in (fst kv) ks)) d.
Proof.
  revert d. induction ks as [|k ks IH]; intros d; simpl.
  - symmetry. apply filter_all. reflexivity.
  - rewrite IH. unfold ddel. clear IH.
    induction d as [|[k' v'] d IHd]; simpl; [reflexivity|].
    rewrite str_in_cons. rewrite (String.eqb_sym k' k).
    destruct (String.eqb k k'); simpl; rewrite IHd; reflexivity.
Qed.

End DictLists.

Section MergeSteps.
Import Py Merge MergeSpec.
Variables (PE PK RE : list string).
#[local] Abbreviation U := (update_with PE PK RE).
#[local] Abbreviation merged := (merged_value PE PK RE).
#[local] Abbreviation items := (merge_items PE PK RE).
Implicit Types (a b d : dict pyval) (k : string) (v : pyval).

Lemma drop_stale_filter a b :
  drop_stale_exceptions RE a b
  = List.filter (fun kv => negb (str_in (fst kv) RE && negb (dmem (fst kv) b))) a.
Proof.
  unfold drop_stale_exceptions.
  set (stale := List.filter (fun key => negb (dmem key b)) (dkeys a)).
  assert (H : forall ks d,
             fold_left (fun a0 key => if str_in key RE then ddel key a0 else a0) ks d
             = List.filter
                 (fun kv => negb (str_in (fst kv) (List.filter (fun key => str_in key RE) ks)))
                 d).
  { induction ks as [|key ks IH]; intros d; simpl.
    - symmetry. apply filter_all. reflexivity.
    - rewrite IH. destruct (str_in key RE) eqn:E; [|reflexivity].
      unfold ddel. clear IH. induction d as [|[k' v'] d IHd]; simpl; [reflexivity|].
      rewrite str_in_cons, (String.eqb_sym k' key).
      destruct (String.eqb key k'); simpl; rewrite IHd; reflexivity. }
  rewrite H. apply filter_ext_in. intros [k v] Hin. simpl. f_equal.
  destruct (str_in k (List.filter (fun key => str_in key RE) stale)) eqn:E.
  - apply str_in_In, filter_In in E as [E1 E2]. subst stale.
    apply filter_In in E1 as [_ E1]. rewrite E2, E1. reflexivity.
  - apply str_in_false in E. destruct (str_in k RE) eqn:E1; [|reflexivity].
    destruct (dmem k b) eqn:E2; [reflexivity|]. exfalso. apply E.
    apply filter_In. split; [|exact E1]. subst stale. apply filter_In.
    split; [|rewrite E2; reflexivity].
    apply (in_map fst) in Hin. exact Hin.
Qed.

Lemma prune_filter a :
  List.NoDup (dkeys a) ->
  prune PE a = List.filter (fun kv => negb (prunable PE kv)) a.
Proof.
  intros Hnd. unfold prune. rewrite fold_ddel. apply filter_ext_in.
  intros [k v] Hin. simpl. f_equal.
  destruct (prunable PE (k, v)) eqn:E.
  - apply str_in_In. unfold dkeys.
    apply (in_map fst (List.filter _ a) (k, v)). apply filter_In. split; assumption.
  - apply str_in_false. unfold dkeys. rewrite in_map_iff.
    intros ([k' v'] & Ek & Hin'). simpl in Ek. subst k'.
    apply filter_In in Hin' as [Hin' Hp].
    apply (In_dget _ _ _ Hnd) in Hin. apply (In_dget _ _ _ Hnd) in Hin'.
    rewrite Hin in Hin'. injection Hin' as <-. unfold prunable in E. simpl in *.
    rewrite E in Hp. discriminate.
Qed.

Lemma purge_filter a :
  purge PK a = List.filter (fun kv => negb (str_in (fst kv) PK)) a.
Proof.
  unfold purge.
  assert (H : forall ks d,
             fold_left (fun a0 key => if dmem key a0 then ddel key a0 else a0) ks d
             = fold_left (fun a0 key => ddel key a0) ks d).
  { induction ks as [|key ks IH]; intros d; simpl; [reflexivity|].
    destruct (dmem key d) eqn:E; [apply IH|].
    rewrite IH. f_equal. unfold ddel. symmetry. apply filter_all.
    intros [k' v'] Hin. simpl. apply negb_true_iff, String.eqb_neq. intros ->.
    apply dmem_false in E. apply E. apply (in_map fst) in Hin. exact Hin. }
  rewrite H. apply fold_ddel.
Qed.

Lemma purge_prune_kept a :
  List.NoDup (dkeys a) ->
  purge PK (prune PE a) = List.filter (kept PE PK) a.
Proof.
  intros Hnd. rewrite purge_filter, (prune_filter _ Hnd).
  induction a as [|kv a IH]; simpl; [reflexivity|].
  inversion Hnd; subst. unfold kept at 1.
  destruct (prunable PE kv); simpl; [apply IH; assumption|].
  destruct (str_in (fst kv) PK); simpl; rewrite IH by assumption; reflexivity.
Qed.

Lemma update_with_unfold a b :
  U a (VDict b) = purge PK (prune PE (items b (drop_stale_exceptions RE a b))).
Proof.
  cbn [update_with]. do 2 f_equal. unfold merge_items.
  generalize (drop_stale_exceptions RE a b). clear a.
  induction b as [|[k v] b IH]; intros a0; [reflexivity|].
  cbn [fold_left fst snd]. rewrite <- IH. unfold merged_value.
  destruct (str_in k RE); [reflexivity|].
  destruct (dget k a0) as [[| | | | |sub]|]; destruct v; reflexivity.
Qed.

Lemma items_dget its a k :
  List.NoDup (dkeys its) ->
  dget k (items its a)
  = match dget k its with
    | Some v => Some (merged k (dget k a) v)
    | None => dget k a
    end.
Proof.
  revert a. induction its as [|[k' v'] its IH]; intros a Hnd; [reflexivity|].
  inversion Hnd as [|? ? Hnot Hnd']; subst.
  unfold merge_items in *. cbn [fold_left fst snd dget].
  rewrite (IH _ Hnd'). destruct (String.eqb k k') eqn:E.
  - apply String.eqb_eq in E. subst k'.
    assert (Hn : dget k its = None) by (apply dget_none; exact Hnot).
    rewrite Hn. apply dget_dset_eq.
  - apply String.eqb_neq in E.
    rewrite !(dget_dset_ne k' k) by congruence. reflexivity.
Qed.

Lemma items_NoDup its a :
  List.NoDup (dkeys a) -> List.NoDup (dkeys (items its a)).
Proof.
  revert a. induction its as [|[k' v'] its IH]; intros a Hnd; [exact Hnd|].
  unfold merge_items in *. cbn [fold_left fst snd]. apply IH, NoDup_dset, Hnd.
Qed.

(** The second loop on a dictionary that already holds what it would
    store: the entries stay and the keys it lacks are appended. *)
Lemma items_settled its a :
  List.NoDup (dkeys its) ->
  (forall k v x, In (k, v) its -> dget k a = Some x -> merged k (Some x) v = x) ->
  items its a = a ++ List.filter (fun kv => negb (dmem (fst kv) a)) its.
Proof.
  revert a. induction its as [|[k v] its IH]; intros a Hnd Hfix.
  - simpl. rewrite app_nil_r. reflexivity.
  - inversion Hnd as [|? ? Hnot Hnd']; subst.
    unfold merge_items in *. cbn [fold_left fst snd List.filter].
    destruct (dget k a) as [x|] eqn:Hg.
    + rewrite (Hfix k v x (or_introl eq_refl) Hg), (dset_same _ _ _ Hg).
      assert (Hm : dmem k a = true)
        by (apply dmem_In; eapply dget_dkeys; exact Hg).
      rewrite Hm. simpl. apply IH; [exact Hnd'|].
      intros k' v' x' Hin. apply Hfix. right. exact Hin.
    + assert (Hm : dmem k a = false) by (apply dmem_false, dget_none; exact Hg).
      rewrite Hm. simpl negb. cbv iota.
      assert (Hv : merged k None v = v).
      { unfold merged_value. destruct (str_in k RE); reflexivity. }
      rewrite Hv, (dset_new _ _ _ Hg). rewrite IH; [|exact Hnd'|].
      * rewrite <- app_assoc. simpl. do 2 f_equal.
        apply filter_ext_in. intros [k' v'] Hin. simpl. f_equal.
        unfold dmem. rewrite existsb_app. simpl.
        assert (E : String.eqb k' k = false).
        { apply String.eqb_neq. intros ->. apply Hnot.
          apply (in_map fst) in Hin. exact Hin. }
        rewrite E. rewrite !orb_false_r. reflexivity.
      * intros k' v' x' Hin Hg'. apply Hfix; [right; exact Hin|].
        assert (E : k <> k').
        { intros ->. apply Hnot. apply (in_map fst) in Hin. exact Hin. }
        rewrite <- Hg'. symmetry.
        rewrite <- (dset_new _ _ _ Hg). apply dget_dset_ne. exact E.
Qed.

End MergeSteps.

Section MergeIdempotence.
Import Py Merge MergeSpec.
Variables (PE PK RE : list string).
#[local] Abbreviation U := (update_with PE PK RE).
#[local] Abbreviation merged := (merged_value PE PK RE).
#[local] Abbreviation items := (merge_items PE PK RE).
#[local] Abbreviation keeps_keys := (MergeSpec.keeps_keys PE PK RE).
#[local] Abbreviation self_merge := (MergeSpec.self_merge PE PK RE).
#[local] Abbreviation idempotent_on := (MergeSpec.idempotent_on PE PK RE).
Implicit Types (a b d : dict pyval) (k : string) (v : pyval).

Lemma pyval_dict_ind (P : pyval -> Prop) :
  (forall v, (forall d, v <> VDict d) -> P v) ->
  (forall d, (forall k x, In (k, x) d -> P x) -> P (VDict d)) ->
  forall v, P v.
Proof.
  intros Hn Hd.
  refine (fix F (v : pyval) : P v :=
            match v with
            | VDict d =>
                Hd d ((fix G (l : list (string * pyval))
                         : forall k x, In (k, x) l -> P x :=
                         match l with
                         | [] => fun k x H => match H with end
                         | (k', x') :: l' =>
                             fun k x H =>
                               match H with
                               | or_introl E => _
                               | or_intror H' => G l' k x H'
                               end
                         end) d)
            | _ => Hn _ _
            end); try discriminate.
  injection E as _ <-. exact (F x').
Qed.

Lemma well_keyed_dict d :
  well_keyed (VDict d) = true ->
  List.NoDup (dkeys d) /\ forall k x, In (k, x) d -> well_keyed x = true.
Proof.
  cbn [well_keyed]. rewrite andb_true_iff, distinct_NoDup, forallb_forall.
  intros [H1 H2]. split; [exact H1|]. intros k x Hin. exact (H2 (k, x) Hin).
Qed.

Lemma well_keyed_get d k x :
  well_keyed (VDict d) = true -> dget k d = Some x -> well_keyed x = true.
Proof.
  intros Hw Hg. apply well_keyed_dict in Hw as [_ Hw].
  eapply Hw, dget_some_In, Hg.
Qed.

Lemma well_keyed_filter f d :
  well_keyed (VDict d) = true -> well_keyed (VDict (List.filter f d)) = true.
Proof.
  intros Hw. apply well_keyed_dict in Hw as [H1 H2].
  cbn [well_keyed]. rewrite andb_true_iff, distinct_NoDup, forallb_forall.
  split; [apply NoDup_filter_keys, H1|].
  intros [k x] Hin. apply filter_In in Hin as [Hin _]. exact (H2 k x Hin).
Qed.

Lemma settled_dict d :
  settled PE PK RE (VDict d) = true ->
  forall k x, In (k, x) d ->
    str_in k PK = false /\ prunable PE (k, x) = false /\
    (str_in k RE = true \/ settled PE PK RE x = true).
Proof.
  cbn [settled]. rewrite forallb_forall. intros H k x Hin.
  specialize (H (k, x) Hin). cbn beta iota in H.
  rewrite !andb_true_iff, !negb_true_iff, orb_true_iff in H. tauto.
Qed.

Lemma fresh_settled_dict d :
  fresh_settled PE PK RE d = true ->
  forall k x, In (k, x) d -> str_in k RE = true \/ settled PE PK RE x = true.
Proof.
  unfold fresh_settled. rewrite forallb_forall. intros H k x Hin.
  specialize (H (k, x) Hin). simpl in H. apply orb_true_iff in H. exact H.
Qed.

Lemma settled_fresh d :
  settled PE PK RE (VDict d) = true -> fresh_settled PE PK RE d = true.
Proof.
  intros H. unfold fresh_settled. apply forallb_forall. intros [k x] Hin.
  simpl. apply orb_true_iff. eapply settled_dict; eassumption.
Qed.

(** The first pass, entry by entry. *)
Lemma first_pass a b :
  well_keyed (VDict a) = true -> well_keyed (VDict b) = true ->
  let a0 := drop_stale_exceptions RE a b in
  let a1 := items b a0 in
  well_keyed (VDict a0) = true /\
  List.NoDup (dkeys a1) /\
  U a (VDict b) = List.filter (kept PE PK) a1 /\
  (forall k, dget k a1
             = match dget k b with
               | Some v => Some (merged k (dget k a0) v)
               | None => dget k a0
               end) /\
  (forall k x, dget k a0 = Some x ->
               dget k a = Some x /\ (str_in k RE = false \/ dmem k b = true)).
Proof.
  intros Ha Hb a0 a1.
  assert (Ha0 : well_keyed (VDict a0) = true).
  { subst a0. rewrite drop_stale_filter. apply well_keyed_filter, Ha. }
  destruct (well_keyed_dict _ Ha) as [Hnda _].
  destruct (well_keyed_dict _ Ha0) as [Hnd0 _].
  destruct (well_keyed_dict _ Hb) as [Hndb _].
  assert (Hnd1 : List.NoDup (dkeys a1)) by (apply items_NoDup, Hnd0).
  split; [exact Ha0|]. split; [exact Hnd1|]. split; [|split].
  - rewrite update_with_unfold. apply purge_prune_kept, Hnd1.
  - intros k. apply items_dget, Hndb.
  - intros k x. subst a0. rewrite drop_stale_filter, (dget_filter _ _ _ Hnda).
    destruct (dget k a) as [y|]; [|discriminate]. simpl.
    destruct (str_in k RE) eqn:E1; destruct (dmem k b) eqn:E2; simpl;
      try discriminate; intros [= ->]; split; auto.
Qed.


Lemma merged_not_empty a0 k v :
  well_keyed (VDict a0) = true -> well_keyed v = true ->
  keeps_keys v ->
  str_in k RE = true \/ settled PE PK RE v = true ->
  is_empty_dict v = false ->
  is_empty_dict (merged k (dget k a0) v) = false.
Proof.
  intros Ha0 Hv Hkeys Hs Hne. unfold merged_value.
  destruct (str_in k RE) eqn:E; [exact Hne|].
  destruct Hs as [Hs | Hs]; [discriminate|].
  destruct (dget k a0) as [x|] eqn:Hg; [|destruct v; exact Hne].
  destruct x as [| | | | |sub]; try (destruct v; exact Hne).
  destruct v as [| | | | |bd]; try reflexivity.
  destruct bd as [|[k' x'] bd]; [discriminate|].
  assert (Hin : In k' (dkeys (U sub (VDict ((k', x') :: bd))))).
  { apply (Hkeys _ eq_refl Hv Hs sub).
    - exact (well_keyed_get a0 k _ Ha0 Hg).
    - left. reflexivity. }
  destruct (U sub (VDict ((k', x') :: bd))); [contradiction | reflexivity].
Qed.

Lemma keeps_keys_dict bd :
  (forall k x, In (k, x) bd -> keeps_keys x) -> keeps_keys (VDict bd).
Proof.
  intros IH bd' [= <-] Hb Hs sub Hsub k Hk.
  destruct (first_pass sub bd Hsub Hb) as (Ha0 & Hnd1 & HU & Hg1 & _).
  destruct (well_keyed_dict _ Hb) as [Hndb Hwb].
  apply in_map_iff in Hk as ([k0 v] & Ek & Hin). simpl in Ek. subst k0.
  destruct (settled_dict _ Hs k v Hin) as (Hpk & Hpr & Hre).
  pose proof (In_dget _ _ _ Hndb Hin) as Hgb.
  specialize (Hg1 k). rewrite Hgb in Hg1.
  rewrite HU. apply (dget_dkeys k (merged k (dget k (drop_stale_exceptions RE sub bd)) v)).
  rewrite (dget_filter _ _ _ Hnd1), Hg1.
  replace (kept PE PK _) with true; [reflexivity|].
  symmetry. unfold kept. cbn [fst]. rewrite Hpk. rewrite andb_true_r.
  apply negb_true_iff. unfold prunable in *. cbn [fst snd] in *.
  destruct (str_in k PE); [apply andb_false_r|].
  rewrite andb_true_r in *.
  apply merged_not_empty; try assumption.
  - eapply Hwb, Hin.
  - eapply IH, Hin.
Qed.

Lemma merged_self k v :
  well_keyed v = true -> self_merge v ->
  str_in k RE = true \/ settled PE PK RE v = true ->
  merged k (Some v) v = v.
Proof.
  intros Hv Hself Hs. unfold merged_value.
  destruct (str_in k RE) eqn:E; [reflexivity|].
  destruct Hs as [Hs | Hs]; [discriminate|].
  destruct v as [| | | | |bd]; try reflexivity.
  rewrite (Hself bd eq_refl Hv Hs). reflexivity.
Qed.

Lemma self_merge_dict bd :
  (forall k x, In (k, x) bd -> self_merge x) -> self_merge (VDict bd).
Proof.
  intros IH bd' [= <-] Hb Hs.
  destruct (well_keyed_dict _ Hb) as [Hndb Hwb].
  rewrite update_with_unfold, drop_stale_filter.
  rewrite (filter_all _ bd).
  2:{ intros [k x] Hin. simpl. apply negb_true_iff, andb_false_iff. right.
      apply negb_false_iff, dmem_In. apply (in_map fst) in Hin. exact Hin. }
  rewrite items_settled; [|exact Hndb|].
  2:{ intros k v x Hin Hg. rewrite (In_dget _ _ _ Hndb Hin) in Hg.
      injection Hg as <-. apply merged_self.
      - eapply Hwb, Hin.
      - eapply IH, Hin.
      - eapply settled_dict; eassumption. }
  rewrite (filter_none _ bd).
  2:{ intros [k x] Hin. simpl. apply negb_false_iff, dmem_In.
      apply (in_map fst) in Hin. exact Hin. }
  rewrite app_nil_r, (purge_prune_kept _ _ _ Hndb).
  apply filter_all. intros [k x] Hin.
  destruct (settled_dict _ Hs k x Hin) as (Hpk & Hpr & _).
  unfold kept. cbn [fst]. rewrite Hpk, Hpr. reflexivity.
Qed.

Lemma merged_again a0 k v :
  well_keyed (VDict a0) = true -> well_keyed v = true ->
  self_merge v -> idempotent_on v ->
  str_in k RE = true \/ settled PE PK RE v = true ->
  merged k (Some (merged k (dget k a0) v)) v = merged k (dget k a0) v.
Proof.
  intros Ha0 Hv Hself Hidem Hs. unfold merged_value.
  destruct (str_in k RE) eqn:E; [reflexivity|].
  destruct Hs as [Hs | Hs]; [discriminate|].
  destruct v as [| | | | |bd];
    try (destruct (dget k a0) as [[| | | | |sub]|]; reflexivity).
  destruct (dget k a0) as [x|] eqn:Hg.
  - destruct x as [| | | | |sub];
      try (rewrite (Hself bd eq_refl Hv Hs); reflexivity).
    rewrite (Hidem bd eq_refl sub (well_keyed_get a0 k _ Ha0 Hg) Hv
               (settled_fresh _ Hs)).
    reflexivity.
  - rewrite (Hself bd eq_refl Hv Hs). reflexivity.
Qed.

Lemma idempotent_on_dict bd :
  (forall k x, In (k, x) bd ->
     keeps_keys x /\ self_merge x /\ idempotent_on x) ->
  idempotent_on (VDict bd).
Proof.
  intros IH bd' [= <-] a Ha Hb Hf.
  destruct (first_pass a bd Ha Hb) as (Ha0 & Hnd1 & HU & Hg1 & Hg0).
  destruct (well_keyed_dict _ Hb) as [Hndb Hwb].
  set (a0 := drop_stale_exceptions RE a bd) in *.
  set (a1 := items bd a0) in *.
  rewrite HU. set (a' := List.filter (kept PE PK) a1).
  assert (Hnd' : List.NoDup (dkeys a')) by (apply NoDup_filter_keys, Hnd1).
  assert (Hget' : forall k x, dget k a' = Some x ->
                    dget k a1 = Some x /\ kept PE PK (k, x) = true).
  { intros k x. subst a'. rewrite (dget_filter _ _ _ Hnd1).
    destruct (dget k a1) as [y|]; [|discriminate].
    destruct (kept PE PK (k, y)) eqn:Hk; [|discriminate].
    intros [= ->]. split; [reflexivity | exact Hk]. }
  assert (Hentry : forall k v, In (k, v) bd ->
                     dget k a1 = Some (merged k (dget k a0) v)).
  { intros k v Hin. rewrite Hg1, (In_dget _ _ _ Hndb Hin). reflexivity. }
  rewrite update_with_unfold, drop_stale_filter.
  rewrite (filter_all _ a').
  2:{ intros [k x] Hin. cbn [fst]. apply negb_true_iff.
      apply (In_dget _ _ _ Hnd') in Hin. apply Hget' in Hin as [Hin _].
      rewrite Hg1 in Hin. destruct (dget k bd) as [v|] eqn:Hgb.
      - assert (Hm : dmem k bd = true)
          by (apply dmem_In; eapply dget_dkeys; exact Hgb).
        rewrite Hm. apply andb_false_r.
      - destruct (Hg0 k x Hin) as [_ [H | H]]; rewrite H;
          [reflexivity | apply andb_false_r]. }
  rewrite (purge_prune_kept _ _ _ (items_NoDup PE PK RE bd a' Hnd')).
  rewrite items_settled; [|exact Hndb|].
  2:{ intros k v x Hin Hg. apply Hget' in Hg as [Hg _].
      rewrite (Hentry k v Hin) in Hg. injection Hg as <-.
      destruct (IH k v Hin) as (_ & Hself & Hidem).
      apply merged_again; try assumption.
      - eapply Hwb, Hin.
      - eapply fresh_settled_dict; eassumption. }
  assert (Hextra : List.filter (kept PE PK)
                     (List.filter (fun kv => negb (dmem (fst kv) a')) bd) = []).
  { apply filter_none.
    intros [k v] Hin. apply filter_In in Hin as [Hin Hm]. cbn [fst] in Hm.
    apply negb_true_iff, dmem_false, dget_none in Hm. subst a'.
    rewrite (dget_filter _ _ _ Hnd1), (Hentry k v Hin) in Hm.
    destruct (kept PE PK (k, merged k (dget k a0) v)) eqn:Hk; [discriminate|].
    unfold kept, prunable in *. cbn [fst snd] in *.
    destruct (str_in k PK); [apply andb_false_r|].
    rewrite andb_true_r in *. apply negb_false_iff in Hk. apply negb_false_iff.
    apply andb_true_iff in Hk as [Hempty Hpe]. rewrite Hpe, andb_true_r.
    destruct (is_empty_dict v) eqn:Hv; [reflexivity|]. exfalso.
    destruct (IH k v Hin) as (Hkeys & _ & _).
    rewrite (merged_not_empty a0 k v Ha0 (Hwb k v Hin) Hkeys
               (fresh_settled_dict _ Hf k v Hin) Hv) in Hempty.
    discriminate. }
  rewrite List.filter_app, Hextra, app_nil_r. subst a'.
  apply filter_filter_same.
Qed.

Lemma merge_properties v : keeps_keys v /\ self_merge v /\ idempotent_on v.
Proof.
  induction v as [v Hnot | bd IH] using pyval_dict_ind.
  - repeat split; intros bd E; destruct (Hnot bd E).
  - split; [|split].
    + apply keeps_keys_dict. intros k x Hin. apply (IH k x Hin).
    + apply self_merge_dict. intros k x Hin. apply (IH k x Hin).
    + apply idempotent_on_dict. exact IH.
Qed.

End MergeIdempotence.

(** C7 (amended). For JSON trees (distinct keys in every object) and for a
    fresh database that, below its top level and outside the recurse
    exceptions, holds no purge key and no empty structure under a key that
    is not prune-exempt: merging the fresh database into an existing one
    twice gives the same result as merging it once, whatever the existing
    database and the three key lists are. *)
Theorem C7_merge_idempotent_on_settled_fresh :
  forall (prune_exceptions purge_keys recurse_exceptions : list string)
         (existing fresh : Py.dict pyval),
    MergeSpec.well_keyed (VDict existing) = true ->
    MergeSpec.well_keyed (VDict fresh) = true ->
    MergeSpec.fresh_settled prune_exceptions purge_keys recurse_exceptions fresh
    = true ->
    Merge.recursively_update_dict prune_exceptions purge_keys recurse_exceptions
      (Merge.recursively_update_dict prune_exceptions purge_keys
                                     recurse_exceptions existing fresh)
      fresh
    = Merge.recursively_update_dict prune_exceptions purge_keys
                                    recurse_exceptions existing fresh.
Proof.
  intros PE PK RE a b Ha Hb Hf. unfold Merge.recursively_update_dict.
  destruct (merge_properties PE PK RE (VDict b)) as (_ & _ & Hidem).
  exact (Hidem b eq_refl a Ha Hb Hf).
Qed.

Lemma C7_witness :
  Merge.recursively_update_dict [] [] ["blacklist"]
    (Merge.recursively_update_dict [] [] ["blacklist"]
       MergeExamples.existing MergeExamples.fresh)
    MergeExamples.fresh
  = Merge.recursively_update_dict [] [] ["blacklist"]
      MergeExamples.existing MergeExamples.fresh.
Proof.
  apply (C7_merge_idempotent_on_settled_fresh
           [] [] ["blacklist"] MergeExamples.existing MergeExamples.fresh);
    reflexivity.
Defined.

(** ** Version-scoped blocks in a compilation *)

Section Scoping.
Import Py Metadata CompilerSpec VersionSpec.
Local Open Scope py_scope.

Variable keep : string -> bool.

#[local] Abbreviation sc := (scoped keep).
#[local] Abbreviation scm := (scope_mod keep).
#[local] Abbreviation sce := (fun um : string * Mod => (fst um, scm (snd um))).

Lemma dget_scoped u (s : dict Mod) :
  dget u (map sce s) = option_map scm (dget u s).
Proof.
  induction s as [|[k m] s IH]; [reflexivity|]. cbn [map dget fst snd].
  destruct (String.eqb u k); [reflexivity | exact IH].
Qed.

Lemma dmem_scoped u (s : dict Mod) : dmem u (map sce s) = dmem u s.
Proof.
  unfold dmem. induction s as [|[k m] s IH]; [reflexivity|].
  cbn [map existsb fst snd]. rewrite IH. reflexivity.
Qed.

Lemma dset_scoped u m (s : dict Mod) :
  dset u (scm m) (map sce s) = map sce (dset u m s).
Proof.
  induction s as [|[k m0] s IH]; [reflexivity|]. cbn [map dset fst snd].
  destruct (String.eqb u k); [reflexivity|]. cbn [map fst snd]. rewrite IH.
  reflexivity.
Qed.

Lemma dkeys_scoped (s : dict Mod) : dkeys (map sce s) = dkeys s.
Proof. unfold dkeys. rewrite map_map. reflexivity. Qed.

Lemma all_package_ids_scoped (s : dict Mod) :
  all_package_ids (map sce s) = all_package_ids s.
Proof. unfold all_package_ids. rewrite map_map. reflexivity. Qed.

Lemma store_scoped st :
  internal_local_metadata (sc st) = map sce (internal_local_metadata st).
Proof. reflexivity. Qed.

Lemma index_scoped st : packageid_to_uuids (sc st) = packageid_to_uuids st.
Proof. reflexivity. Qed.

Lemma commutes_ret {A} (a : A) : commutes keep (ret a).
Proof. intros st. reflexivity. Qed.

Lemma commutes_skip : commutes keep skip.
Proof. intros st. reflexivity. Qed.

Lemma commutes_raise {A} e : commutes keep (@raise A e).
Proof. intros st. reflexivity. Qed.

Lemma commutes_lift {A} (r : result A) : commutes keep (lift r).
Proof. intros st. reflexivity. Qed.

(** Sequencing, for one run. *)
Lemma bind_scoped {A B} (m : M A) (k : A -> M B) st :
  m (sc st) = (sc (fst (m st)), snd (m st)) ->
  (forall a s1, m st = (s1, Ok a) ->
                k a (sc s1) = (sc (fst (k a s1)), snd (k a s1))) ->
  bind m k (sc st) = (sc (fst (bind m k st)), snd (bind m k st)).
Proof.
  intros Hm Hk. unfold bind. rewrite Hm.
  destruct (m st) as [s1 [a|e]] eqn:E; cbn [fst snd]; [|reflexivity].
  apply Hk. reflexivity.
Qed.

Lemma commutes_bind {A B} (m : M A) (k : A -> M B) :
  commutes keep m -> (forall a, commutes keep (k a)) -> commutes keep (bind m k).
Proof.
  intros Hm Hk st. apply bind_scoped; [apply Hm|]. intros a s1 _. apply Hk.
Qed.

Lemma commutes_bind_state {B} (k : Manager -> M B) :
  (forall st, k (sc st) (sc st) = (sc (fst (k st st)), snd (k st st))) ->
  commutes keep (bind get_state k).
Proof. intros Hk st. unfold bind, get_state. apply Hk. Qed.

Lemma commutes_bind_mod {B} uuid (k : Mod -> M B) :
  (forall m st, k (scm m) (sc st) = (sc (fst (k m st)), snd (k m st))) ->
  commutes keep (bind (the_mod uuid) k).
Proof.
  intros Hk st. unfold the_mod, bind, get_state. cbv beta iota.
  rewrite store_scoped, dget_scoped.
  destruct (dget uuid (internal_local_metadata st)) as [m|]; cbn [option_map];
    [|reflexivity].
  unfold ret. apply Hk.
Qed.

Lemma commutes_for_each {X} (l : list X) (body : X -> M unit) :
  (forall x, commutes keep (body x)) -> commutes keep (for_each l body).
Proof.
  intros Hb. induction l as [|x l IH]; [apply commutes_ret|].
  cbn [for_each]. apply commutes_bind; [apply Hb | intros _; exact IH].
Qed.

Lemma commutes_update_mod uuid (f : Mod -> Mod) :
  (forall m, f (scm m) = scm (f m)) -> commutes keep (update_mod uuid f).
Proof.
  intros Hf st. unfold update_mod, bind, get_state. cbv beta iota.
  rewrite store_scoped, dget_scoped.
  destruct (dget uuid (internal_local_metadata st)) as [m|]; cbn [option_map];
    [|reflexivity].
  unfold modify, scoped, set_metadata. cbn. rewrite Hf, dset_scoped. reflexivity.
Qed.

Lemma commutes_bind_ignored {B} uuid (k : M B) :
  commutes keep k -> commutes keep (bind (the_mod uuid) (fun _ => k)).
Proof. intros Hk. apply commutes_bind_mod. intros _ st. apply Hk. Qed.

Lemma commutes_modify (f : Manager -> Manager) :
  (forall st, f (sc st) = sc (f st)) -> commutes keep (modify f).
Proof. intros Hf st. unfold modify. rewrite Hf. reflexivity. Qed.

Ltac by_commutes :=
  match goal with
  | |- ?m (scoped ?kp ?st) = (scoped ?kp (fst (?m ?st)), snd (?m ?st)) =>
      revert st; change (commutes kp m)
  end.

Lemma commutes_add_dependency uuid dep :
  commutes keep (update_mod uuid (add_dependency dep)).
Proof. apply commutes_update_mod. intros m. reflexivity. Qed.

Lemma commutes_add_rule uuid key rule :
  commutes keep (update_mod uuid (add_rule key rule)).
Proof. apply commutes_update_mod. intros m. reflexivity. Qed.

Lemma commutes_add_dependency_to_mod uuid x :
  commutes keep (add_dependency_to_mod uuid x).
Proof.
  unfold add_dependency_to_mod. apply commutes_bind_ignored.
  destruct x as [| | | |l|d]; try apply commutes_skip.
  - destruct l as [|[| | | | |d0] l]; try apply commutes_skip;
      [apply commutes_raise|].
    apply commutes_for_each. intros dependency.
    apply commutes_bind; [apply commutes_lift|]. intros pid.
    destruct (truthy pid); [|apply commutes_skip].
    apply commutes_bind; [apply commutes_lift|]. intros dependency_id.
    apply commutes_add_dependency.
  - destruct (truthy (default VNone (dget "packageId" d))
              && negb (is_list (default VNone (dget "packageId" d)))
              && negb (is_dict (default VNone (dget "packageId" d))));
      [|apply commutes_skip].
    apply commutes_bind; [apply commutes_lift|]. intros dependency_id.
    apply commutes_add_dependency.
Qed.

Lemma commutes_add_dependency_to_mod_from_steamdb uuid dep :
  commutes keep (add_dependency_to_mod_from_steamdb uuid dep).
Proof. apply commutes_add_dependency. Qed.

Lemma commutes_add_incompatibility_to_mod uuid x :
  commutes keep (add_incompatibility_to_mod uuid x).
Proof.
  unfold add_incompatibility_to_mod. apply commutes_bind_ignored.
  apply commutes_bind_state. intros st.
  rewrite store_scoped, all_package_ids_scoped.
  generalize (all_package_ids (internal_local_metadata st)). intros ids.
  by_commutes.
  assert (Hadd : forall dep, commutes keep (update_mod uuid (add_incompatibility dep)))
    by (intros dep; apply commutes_update_mod; intros m; reflexivity).
  destruct x as [| | |s0|l|d]; try apply commutes_skip.
  - destruct (str_in (Str.lower s0) ids); [apply Hadd | apply commutes_skip].
  - destruct l as [|[| | |s0| |] l]; try apply commutes_skip;
      [apply commutes_raise|].
    apply commutes_for_each. intros dependency.
    destruct (truthy dependency); [|apply commutes_skip].
    apply commutes_bind; [apply commutes_lift|]. intros dependency_id.
    destruct (str_in dependency_id ids); [apply Hadd | apply commutes_skip].
Qed.

Lemma commutes_add_load_rule_to_mod uuid x ek ik :
  commutes keep (add_load_rule_to_mod uuid x ek ik).
Proof.
  unfold add_load_rule_to_mod. apply commutes_bind_mod. intros m st.
  change (packageid (scm m)) with (packageid m). by_commutes.
  apply commutes_bind; [apply commutes_lift|]. intros [deps|];
    [|apply commutes_skip].
  apply commutes_bind;
    [apply commutes_update_mod; intros m0; reflexivity|]. intros _.
  apply commutes_for_each. intros dep.
  apply commutes_bind_state. intros st. rewrite index_scoped.
  destruct (packageid_to_uuids st !! dep) as [grp|]; [|apply commutes_skip].
  by_commutes.
  apply commutes_bind; [apply commutes_add_rule|]. intros _.
  apply commutes_for_each. intros dep_uuid. apply commutes_add_rule.
Qed.

Lemma commutes_process_dependencies uuid dependencies :
  commutes keep (process_dependencies uuid dependencies).
Proof.
  unfold process_dependencies.
  destruct dependencies as [| | | |l|]; try apply commutes_skip.
  apply commutes_for_each. intros [| | | | |d]; try apply commutes_skip.
  destruct (dmem "packageId" d); [|apply commutes_skip].
  destruct (truthy (default VNone (dget "packageId" d)));
    [|apply commutes_skip].
  apply commutes_bind; [apply commutes_add_dependency_to_mod|]. intros _.
  apply commutes_bind_state. intros st.
  change (dependency_for_sorting (sc st)) with (dependency_for_sorting st).
  destruct (dependency_for_sorting st); [|apply commutes_skip].
  apply commutes_add_load_rule_to_mod.
Qed.

Lemma commutes_process_incompatibilities uuid incompatibilities :
  commutes keep (process_incompatibilities uuid incompatibilities).
Proof.
  unfold process_incompatibilities.
  destruct incompatibilities as [| | | |l|]; try apply commutes_skip.
  apply commutes_for_each. intros [| | |s0| |]; try apply commutes_skip.
  apply commutes_add_incompatibility_to_mod.
Qed.

Lemma commutes_process_load_order uuid load_these rt ort :
  commutes keep (process_load_order uuid load_these rt ort).
Proof.
  unfold process_load_order.
  destruct load_these as [| | | |l|]; try apply commutes_skip.
  apply commutes_for_each. intros [| | |s0| |]; try apply commutes_skip.
  apply commutes_add_load_rule_to_mod.
Qed.

Lemma commutes_for_matching_versions regex by_version body :
  (forall data, commutes keep (body data)) ->
  commutes keep (for_matching_versions regex by_version body).
Proof.
  intros Hb. unfold for_matching_versions. apply commutes_for_each.
  intros entry. apply commutes_bind; [apply commutes_lift|].
  intros [|]; [apply Hb | apply commutes_skip].
Qed.

Lemma commutes_load_order_block uuid m key rt ort :
  commutes keep (load_order_block uuid m key rt ort).
Proof.
  unfold load_order_block. apply commutes_bind; [apply commutes_lift|].
  intros load_list. apply commutes_process_load_order.
Qed.

Lemma commutes_load_order_by_version_body uuid rt ort by_ver :
  commutes keep (load_order_by_version_body uuid rt ort by_ver).
Proof.
  unfold load_order_by_version_body.
  destruct (is_dict by_ver); [|apply commutes_skip].
  apply commutes_bind; [apply commutes_lift|]. intros l.
  apply commutes_process_load_order.
Qed.

Lemma commutes_track_uuid publishedfileid mod_data uuid tracking_dict :
  commutes keep (track_uuid publishedfileid mod_data uuid tracking_dict).
Proof.
  unfold track_uuid. apply commutes_bind_state. intros st.
  rewrite store_scoped, dget_scoped.
  destruct (dget uuid (internal_local_metadata st)) as [m|]; cbn [option_map];
    [|apply commutes_ret].
  change (Metadata.publishedfileid (scm m)) with (Metadata.publishedfileid m).
  by_commutes.
  destruct (bool_decide (Metadata.publishedfileid m = Some publishedfileid));
    [|apply commutes_ret].
  apply commutes_bind; [apply commutes_lift|]. intros dependencies.
  destruct (truthy dependencies); [|apply commutes_ret].
  apply commutes_bind; [apply commutes_lift|]. intros deps. apply commutes_ret.
Qed.

Lemma commutes_track_uuids publishedfileid mod_data uuids tracking_dict :
  commutes keep (track_uuids publishedfileid mod_data uuids tracking_dict).
Proof.
  revert tracking_dict. induction uuids as [|uuid uuids IH]; intros tracking_dict;
    [apply commutes_ret|].
  cbn [track_uuids]. apply commutes_bind; [apply commutes_track_uuid|].
  intros t. apply IH.
Qed.

Lemma commutes_steamdb_entry publishedfileid mod_data locals :
  commutes keep (steamdb_entry publishedfileid mod_data locals).
Proof.
  unfold steamdb_entry. destruct locals as [ids tracking_dict].
  apply commutes_bind; [apply commutes_lift|]. intros db_packageid.
  destruct (truthy db_packageid); [|apply commutes_ret].
  apply commutes_bind; [apply commutes_lift|]. intros pid.
  apply commutes_bind; [apply commutes_lift|]. intros name.
  apply commutes_bind; [apply commutes_modify; intros st; reflexivity|].
  intros _. apply commutes_bind_state. intros st. rewrite index_scoped.
  generalize (elements (default ∅ (packageid_to_uuids st !! pid))).
  intros uuids. by_commutes.
  apply commutes_bind; [apply commutes_track_uuids|]. intros t.
  apply commutes_ret.
Qed.

Lemma commutes_steamdb_entries entries locals :
  commutes keep (steamdb_entries entries locals).
Proof.
  revert locals. induction entries as [|[publishedfileid mod_data] entries IH];
    intros locals; [apply commutes_ret|].
  cbn [steamdb_entries]. apply commutes_bind; [apply commutes_steamdb_entry|].
  intros locals'. apply IH.
Qed.

Lemma commutes_compile_steamdb : commutes keep compile_steamdb.
Proof.
  unfold compile_steamdb. apply commutes_bind_state. intros st.
  change (external_steam_metadata (sc st)) with (external_steam_metadata st).
  destruct (external_steam_metadata st) as [|entry entries];
    [apply commutes_skip|].
  by_commutes.
  apply commutes_bind; [apply commutes_steamdb_entries|].
  intros [ids tracking_dict]. apply commutes_for_each. intros tracked.
  apply commutes_for_each. intros dependency_steam_id.
  destruct (dget dependency_steam_id ids);
    [apply commutes_add_dependency_to_mod_from_steamdb | apply commutes_skip].
Qed.

Lemma commutes_apply_bucket rule_data bucket potential_uuids rt ort :
  commutes keep (apply_bucket rule_data bucket potential_uuids rt ort).
Proof.
  unfold apply_bucket. apply commutes_bind; [apply commutes_lift|].
  intros [| | | |[|x l]|]; try apply commutes_skip.
  apply commutes_for_each. intros [| | |s0| |]; try apply commutes_skip.
  apply commutes_for_each. intros uuid. apply commutes_add_load_rule_to_mod.
Qed.

Lemma commutes_process_external_rules rules rt ort :
  commutes keep (process_external_rules rules rt ort).
Proof.
  unfold process_external_rules. apply commutes_for_each. intros rule.
  apply commutes_bind_state. intros st. rewrite index_scoped.
  destruct (packageid_to_uuids st !! Str.lower (fst rule)) as [uuids|];
    [|apply commutes_skip].
  by_commutes.
  apply commutes_bind; [apply commutes_apply_bucket|]. intros _.
  apply commutes_bind; [apply commutes_apply_bucket|]. intros _.
  apply commutes_apply_bucket.
Qed.

Lemma commutes_compile_rules rules : commutes keep (compile_rules rules).
Proof.
  unfold compile_rules. destruct rules as [|rule rules]; [apply commutes_skip|].
  apply commutes_bind; [apply commutes_process_external_rules|]. intros _.
  apply commutes_process_external_rules.
Qed.

(** *** The descriptor of a scoped record *)

Lemma dget_scope_about key (descriptor : dict pyval) :
  dget key (scope_about keep descriptor)
  = option_map (fun v => if str_in key by_version_keys
                         then scope_value keep v else v)
               (dget key descriptor).
Proof.
  unfold scope_about. induction descriptor as [|[k v] d IH]; [reflexivity|].
  cbn [map dget fst snd]. destruct (String.eqb_spec key k) as [->|_];
    [reflexivity | exact IH].
Qed.

Lemma about_get_plain m key :
  str_in key by_version_keys = false -> about_get (scm m) key = about_get m key.
Proof.
  intros Hk. unfold about_get. cbn [about scope_mod].
  rewrite dget_scope_about, Hk. destruct (dget key (about m)); reflexivity.
Qed.

Lemma about_get_by_version m key :
  str_in key by_version_keys = true ->
  about_get (scm m) key = scope_value keep (about_get m key).
Proof.
  intros Hk. unfold about_get. cbn [about scope_mod].
  rewrite dget_scope_about, Hk. destruct (dget key (about m)); reflexivity.
Qed.

(** *** The loop over version keys *)

Variable regex : string * string.
Hypothesis regex_keeps : forall key, re_match regex key = Ok (keep key).

Lemma bind_ext {A B} (m m' : M A) (k k' : A -> M B) st :
  (forall s, m s = m' s) -> (forall a s, k a s = k' a s) ->
  bind m k st = bind m' k' st.
Proof.
  intros Hm Hk. unfold bind. rewrite Hm.
  destruct (m' st) as [s1 [a|e]]; [apply Hk | reflexivity].
Qed.

Lemma for_matching_versions_kept by_version body st :
  for_matching_versions regex by_version body st
  = for_each (List.filter (fun entry => keep (fst entry)) by_version)
             (fun entry => body (snd entry)) st.
Proof.
  unfold for_matching_versions. revert st.
  induction by_version as [|[key data] by_version IH]; intros st; [reflexivity|].
  cbn [for_each List.filter fst snd]. rewrite regex_keeps.
  destruct (keep key).
  - cbn [for_each fst snd]. apply bind_ext; [reflexivity|]. intros _ s. apply IH.
  - etransitivity; [|apply IH]. reflexivity.
Qed.

Lemma for_matching_versions_scoped by_version body st :
  for_matching_versions regex
    (List.filter (fun entry => keep (fst entry)) by_version) body st
  = for_matching_versions regex by_version body st.
Proof.
  rewrite !for_matching_versions_kept. f_equal.
  induction by_version as [|entry by_version IH]; [reflexivity|].
  cbn [List.filter]. destruct (keep (fst entry)) eqn:E; [|exact IH].
  cbn [List.filter]. rewrite E, IH. reflexivity.
Qed.

(** A block read through [items()]. *)
Lemma items_block_scoped v body st :
  (let* by_version := lift (items_of (scope_value keep v)) in
   for_matching_versions regex by_version body) st
  = (let* by_version := lift (items_of v) in
     for_matching_versions regex by_version body) st.
Proof.
  destruct v; try reflexivity. cbn [scope_value items_of].
  unfold bind, lift. apply for_matching_versions_scoped.
Qed.

Lemma bind_get_state {B} (k : Manager -> M B) st :
  bind get_state k st = k st st.
Proof. reflexivity. Qed.

Lemma bind_lift_ok {A B} (a : A) (k : A -> M B) st :
  bind (lift (Ok a)) k st = k a st.
Proof. reflexivity. Qed.

(** A block read when its dictionary is not empty. *)
Lemma nonempty_block_scoped v body st :
  match scope_value keep v with
  | VDict ((_ :: _) as by_version) => for_matching_versions regex by_version body
  | _ => skip
  end st
  = match v with
    | VDict ((_ :: _) as by_version) => for_matching_versions regex by_version body
    | _ => skip
    end st.
Proof.
  destruct v as [| | | | |by_version]; try reflexivity. cbn [scope_value].
  destruct by_version as [|entry by_version]; [reflexivity|].
  rewrite <- (for_matching_versions_scoped (entry :: by_version)).
  destruct (List.filter (fun e => keep (fst e)) (entry :: by_version));
    reflexivity.
Qed.

Lemma dict_block_scoped v body st :
  match scope_value keep v with
  | VDict by_version => for_matching_versions regex by_version body
  | _ => skip
  end st
  = match v with
    | VDict by_version => for_matching_versions regex by_version body
    | _ => skip
    end st.
Proof.
  destruct v as [| | | | |by_version]; try reflexivity. cbn [scope_value].
  apply for_matching_versions_scoped.
Qed.

Lemma load_order_block_scoped uuid m key rt ort :
  str_in key by_version_keys = false ->
  load_order_block uuid (scm m) key rt ort = load_order_block uuid m key rt ort.
Proof.
  intros Hk. unfold load_order_block. rewrite about_get_plain by exact Hk.
  reflexivity.
Qed.

Lemma compile_mod_scoped uuid st :
  version_regex (game_version st) = Ok regex ->
  compile_mod uuid (sc st) = (sc (fst (compile_mod uuid st)), snd (compile_mod uuid st)).
Proof.
  intros Hv. unfold compile_mod. rewrite !bind_get_state.
  rewrite store_scoped, dget_scoped.
  destruct (dget uuid (internal_local_metadata st)) as [m|]; cbn [option_map];
    [|reflexivity].
  change (game_version (sc st)) with (game_version st). rewrite Hv.
  rewrite (about_get_plain m "moddependencies"),
    (about_get_plain m "incompatiblewith") by reflexivity.
  rewrite (load_order_block_scoped uuid m "loadafter"),
    (load_order_block_scoped uuid m "forceloadafter"),
    (load_order_block_scoped uuid m "loadbefore"),
    (load_order_block_scoped uuid m "forceloadbefore") by reflexivity.
  rewrite (about_get_by_version m "moddependenciesbyversion"),
    (about_get_by_version m "incompatiblewithbyversion"),
    (about_get_by_version m "loadafterbyversion"),
    (about_get_by_version m "loadbeforebyversion") by reflexivity.
  match goal with
  | |- ?c1 (sc st) = (sc (fst (?c2 st)), _) => transitivity (c2 (sc st))
  end.
  - generalize (sc st). intros s0.
    apply bind_ext; [reflexivity|]. intros dependencies s1.
    apply bind_ext; [reflexivity|]. intros _ s2.
    rewrite !bind_lift_ok.
    destruct (about_get m "moddependenciesbyversion") as [| | | | |bvd];
      try reflexivity.
    cbn [scope_value items_of]. rewrite !bind_lift_ok.
    apply bind_ext; [intros s; apply for_matching_versions_scoped|].
    intros _ s3.
    apply bind_ext; [reflexivity|]. intros incompatibilities s4.
    apply bind_ext; [reflexivity|]. intros _ s5.
    destruct (about_get m "incompatiblewithbyversion") as [| | | | |bvi];
      try reflexivity.
    cbn [scope_value items_of]. rewrite !bind_lift_ok.
    apply bind_ext; [intros s; apply for_matching_versions_scoped|].
    intros _ s6.
    apply bind_ext; [reflexivity|]. intros _ s7.
    apply bind_ext; [reflexivity|]. intros _ s8.
    apply bind_ext; [intros s; apply nonempty_block_scoped|]. intros _ s9.
    apply bind_ext; [reflexivity|]. intros _ s10.
    apply bind_ext; [reflexivity|]. intros _ s11.
    apply dict_block_scoped.
  - clear Hv. by_commutes.
    apply commutes_bind; [apply commutes_lift|]. intros dependencies.
    apply commutes_bind; [apply commutes_process_dependencies|]. intros _.
    apply commutes_bind; [apply commutes_lift|]. intros rx.
    apply commutes_bind; [apply commutes_lift|]. intros bvd.
    apply commutes_bind.
    { apply commutes_for_matching_versions. intros deps.
      apply commutes_bind; [apply commutes_lift|]. intros l.
      apply commutes_process_dependencies. }
    intros _.
    apply commutes_bind; [apply commutes_lift|]. intros incompatibilities.
    apply commutes_bind; [apply commutes_process_incompatibilities|]. intros _.
    apply commutes_bind; [apply commutes_lift|]. intros bvi.
    apply commutes_bind.
    { apply commutes_for_matching_versions. intros incs.
      apply commutes_bind; [apply commutes_lift|]. intros l.
      apply commutes_process_incompatibilities. }
    intros _.
    apply commutes_bind; [apply commutes_load_order_block|]. intros _.
    apply commutes_bind; [apply commutes_load_order_block|]. intros _.
    apply commutes_bind.
    { destruct (about_get m "loadafterbyversion") as [| | | | |[|e es]];
        try apply commutes_skip.
      apply commutes_for_matching_versions. intros data.
      apply commutes_load_order_by_version_body. }
    intros _.
    apply commutes_bind; [apply commutes_load_order_block|]. intros _.
    apply commutes_bind; [apply commutes_load_order_block|]. intros _.
    destruct (about_get m "loadbeforebyversion"); try apply commutes_skip.
    apply commutes_for_matching_versions. intros data.
    apply commutes_load_order_by_version_body.
Qed.

Lemma for_each_compile_mod_scoped uuids st :
  version_regex (game_version st) = Ok regex ->
  for_each uuids compile_mod (sc st)
  = (sc (fst (for_each uuids compile_mod st)),
     snd (for_each uuids compile_mod st)).
Proof.
  revert st. induction uuids as [|uuid uuids IH]; intros st Hv; [reflexivity|].
  cbn [for_each]. apply bind_scoped; [apply compile_mod_scoped, Hv|].
  intros [] s1 Hrun. apply IH.
  pose proof (steady_run _ _ _ _ (steady_compile_mod uuid) Hrun)
    as (_ & _ & Hg & _).
  rewrite Hg. exact Hv.
Qed.

Lemma commutes_external_rules :
  commutes keep (let* st := get_state in compile_rules (external_community_rules st)) /\
  commutes keep (let* st := get_state in compile_rules (external_user_rules st)).
Proof.
  split; apply commutes_bind_state; intros st.
  - change (external_community_rules (sc st)) with (external_community_rules st).
    apply commutes_compile_rules.
  - change (external_user_rules (sc st)) with (external_user_rules st).
    apply commutes_compile_rules.
Qed.

(** Compiling the scoped manager gives the outcome of compiling the
    manager itself, and the scoped final manager. *)
Lemma compile_metadata_scoped uuids st :
  version_regex (game_version st) = Ok regex ->
  compile_metadata uuids (sc st)
  = (sc (fst (compile_metadata uuids st)), snd (compile_metadata uuids st)).
Proof.
  intros Hv. unfold compile_metadata. rewrite !bind_get_state.
  rewrite store_scoped, dkeys_scoped.
  apply bind_scoped; [apply for_each_compile_mod_scoped, Hv|].
  intros [] s1 _. clear Hv. revert s1.
  destruct commutes_external_rules as [Hc Hu].
  apply commutes_bind; [apply commutes_compile_steamdb|]. intros _.
  apply commutes_bind; [exact Hc|]. intros _. exact Hu.
Qed.

End Scoping.

Section VersionBlocks.
Import Py Metadata CompilerSpec VersionSpec.
Local Open Scope py_scope.

(** The block of an accepted version key is run in the course of the
    loop. *)
Lemma version_entry_ok regex by_version body key data st st' :
  (forall d, steady (body d)) ->
  for_matching_versions regex by_version body st = (st', Ok tt) ->
  In (key, data) by_version -> re_match regex key = Ok true ->
  exists sa sb, evolves st sa /\ body data sa = (sb, Ok tt) /\ evolves sb st'.
Proof.
  intros Hb Hrun Hin Hk. unfold for_matching_versions in Hrun.
  eapply (for_each_ok_elem _ _ (key, data)) in Hrun
    as (sa & sb & Ea & Hbody & Eb); [| |exact Hin].
  - exists sa, sb. split; [exact Ea|]. split; [|exact Eb].
    cbn [fst snd] in Hbody. apply bind_ok in Hbody as (applies & s0 & Hl & Hbody).
    apply lift_ok in Hl as [Hl ->]. rewrite Hk in Hl. injection Hl as <-.
    exact Hbody.
  - intros y. apply steady_bind; [apply steady_lift|].
    intros [|]; [apply Hb | apply steady_skip].
Qed.

(** The version-scoped blocks of a successful [compile_mod], in order,
    with the states between them. *)
Lemma compile_mod_version_blocks uuid st st' m :
  compile_mod uuid st = (st', Ok tt) ->
  dget uuid (internal_local_metadata st) = Some m ->
  exists regex bvd bvi s1 s2 s3 s4 s6 s7 s9,
    version_regex (game_version st) = Ok regex /\
    evolves st s1 /\
    items_of (about_get m "moddependenciesbyversion") = Ok bvd /\
    for_matching_versions regex bvd
      (fun deps => let* dependencies := lift (li_of deps) in
                   process_dependencies uuid dependencies) s1 = (s2, Ok tt) /\
    evolves s2 s3 /\
    items_of (about_get m "incompatiblewithbyversion") = Ok bvi /\
    for_matching_versions regex bvi
      (fun incs => let* incompatibilities := lift (li_of incs) in
                   process_incompatibilities uuid (or_empty_list incompatibilities))
      s3 = (s4, Ok tt) /\
    evolves s4 s6 /\
    match about_get m "loadafterbyversion" with
    | VDict ((_ :: _) as by_version) =>
        for_matching_versions regex by_version
          (load_order_by_version_body uuid "loadTheseBefore" "loadTheseAfter")
    | _ => skip
    end s6 = (s7, Ok tt) /\
    evolves s7 s9 /\
    match about_get m "loadbeforebyversion" with
    | VDict by_version =>
        for_matching_versions regex by_version
          (load_order_by_version_body uuid "loadTheseAfter" "loadTheseBefore")
    | _ => skip
    end s9 = (st', Ok tt).
Proof.
  intros Hrun Hg. unfold compile_mod in Hrun.
  apply bind_ok in Hrun as (sx & s0 & Hgs & Hrun).
  apply get_state_ok in Hgs as [-> ->]. rewrite Hg in Hrun.
  apply bind_ok in Hrun as (deps & s0 & Hl & Hrun). apply lift_ok in Hl as [_ ->].
  apply bind_ok in Hrun as ([] & s1 & Hdeps & Hrun).
  apply bind_ok in Hrun as (regex & s0 & Hl & Hrun). apply lift_ok in Hl as [Hv ->].
  apply bind_ok in Hrun as (bvd & s0 & Hl & Hrun). apply lift_ok in Hl as [Hbvd ->].
  apply bind_ok in Hrun as ([] & s2 & Hdv & Hrun).
  apply bind_ok in Hrun as (inc & s0 & Hl & Hrun). apply lift_ok in Hl as [_ ->].
  apply bind_ok in Hrun as ([] & s3 & Hincs & Hrun).
  apply bind_ok in Hrun as (bvi & s0 & Hl & Hrun). apply lift_ok in Hl as [Hbvi ->].
  apply bind_ok in Hrun as ([] & s4 & Hiv & Hrun).
  apply bind_ok in Hrun as ([] & s5 & Hla & Hrun).
  apply bind_ok in Hrun as ([] & s6 & Hfla & Hrun).
  apply bind_ok in Hrun as ([] & s7 & Hlav & Hrun).
  apply bind_ok in Hrun as ([] & s8 & Hlb & Hrun).
  apply bind_ok in Hrun as ([] & s9 & Hflb & Hrun).
  exists regex, bvd, bvi, s1, s2, s3, s4, s6, s7, s9.
  split; [exact Hv|].
  split; [eapply steady_run; [apply steady_process_dependencies | exact Hdeps]|].
  split; [exact Hbvd|]. split; [exact Hdv|].
  split; [eapply steady_run; [apply steady_process_incompatibilities | exact Hincs]|].
  split; [exact Hbvi|]. split; [exact Hiv|].
  split.
  { eapply evolves_trans;
      [eapply steady_run; [apply steady_load_order_block | exact Hla]|].
    eapply steady_run; [apply steady_load_order_block | exact Hfla]. }
  split; [exact Hlav|].
  split; [|exact Hrun].
  eapply evolves_trans;
    [eapply steady_run; [apply steady_load_order_block | exact Hlb]|].
  eapply steady_run; [apply steady_load_order_block | exact Hflb].
Qed.

Lemma li_of_block d l x :
  dget "li" d = Some (VList l) -> In x l ->
  li_of (VDict d) = Ok (VList l) /\ or_empty_list (VList l) = VList l.
Proof.
  intros Hli Hin. destruct d as [|kv d]; [discriminate|].
  unfold li_of, get_of. cbn [truthy]. rewrite Hli. cbn [default from_option id].
  split; [reflexivity|]. destruct l; [contradiction | reflexivity].
Qed.

(** A load-order block of an accepted version key. *)
Lemma by_version_rule uuid rt ort d l name st st' m grp :
  load_order_by_version_body uuid rt ort (VDict d) st = (st', Ok tt) ->
  dget "li" d = Some (VList l) -> In (VStr name) l ->
  dget uuid (internal_local_metadata st) = Some m ->
  packageid_to_uuids st !! Str.lower name = Some grp ->
  (exists m', dget uuid (internal_local_metadata st') = Some m' /\
              (Str.lower name, true) ∈ rules_of m' rt) /\
  (forall u, u ∈ grp ->
     exists mu, dget u (internal_local_metadata st') = Some mu /\
                (packageid m, false) ∈ rules_of mu ort).
Proof.
  intros Hrun Hli Hin Hg Hidx. unfold load_order_by_version_body in Hrun.
  cbn [is_dict] in Hrun.
  destruct (li_of_block d l _ Hli Hin) as [Hl Hor].
  apply bind_ok in Hrun as (v & s1 & Hv & Hrun).
  apply lift_ok in Hv as [Hv ->]. rewrite Hl in Hv. injection Hv as <-.
  rewrite Hor in Hrun. eapply process_load_order_ok; eassumption.
Qed.

(** A dependency of an accepted version key, when dependencies are used
    for sorting. *)
Lemma by_version_dependency uuid l dependency name st st' m grp :
  process_dependencies uuid (VList l) st = (st', Ok tt) ->
  In (VDict dependency) l ->
  dget "packageId" dependency = Some (VStr name) -> name <> "" ->
  dependency_for_sorting st = true ->
  dget uuid (internal_local_metadata st) = Some m ->
  packageid_to_uuids st !! Str.lower name = Some grp ->
  (exists m', dget uuid (internal_local_metadata st') = Some m' /\
              (Str.lower name, true) ∈ rules_of m' "loadTheseBefore") /\
  (forall u, u ∈ grp ->
     exists mu, dget u (internal_local_metadata st') = Some mu /\
                (packageid m, false) ∈ rules_of mu "loadTheseAfter").
Proof.
  intros Hrun Hin Hpid Hname Hsort Hg Hidx. unfold process_dependencies in Hrun.
  eapply (for_each_ok_elem _ _ (VDict dependency)) in Hrun
    as (sa & sb & Ea & Hbody & Eb); [| |exact Hin].
  - assert (Hmem : dmem "packageId" dependency = true)
      by (apply dmem_In, (dget_dkeys _ _ _ Hpid)).
    rewrite Hmem, Hpid in Hbody. cbn [default from_option id truthy] in Hbody.
    assert (Hn : negb (String.eqb name "") = true)
      by (apply negb_true_iff, String.eqb_neq, Hname).
    rewrite Hn in Hbody.
    apply bind_ok in Hbody as ([] & s1 & Hdep & Hbody).
    apply bind_ok in Hbody as (sx & s1' & Hgs & Hbody).
    apply get_state_ok in Hgs as [-> ->].
    assert (E1 : evolves st s1).
    { eapply evolves_trans; [exact Ea|].
      eapply steady_run; [apply steady_add_dependency_to_mod | exact Hdep]. }
    pose proof E1 as (_ & E1i & _ & E1d & _).
    rewrite E1d, Hsort in Hbody.
    destruct (evolves_packageid _ _ _ _ E1 Hg) as (m1 & Hg1 & Hp1 & _).
    rewrite <- E1i in Hidx.
    destruct (add_load_rule_ok _ _ _ _ _ _ _ _ Hbody Hg1 Hidx)
      as ((mb & Hgb & Hinb) & Hgrp).
    split.
    + destruct (rule_survives _ _ _ _ _ _ Eb Hgb Hinb) as (m' & Hg' & Hin' & _).
      exists m'. split; assumption.
    + intros u Hu. destruct (Hgrp u Hu) as (mu & Hgu & Hinu).
      destruct (rule_survives _ _ _ _ _ _ Eb Hgu Hinu) as (mu' & Hg' & Hin' & _).
      exists mu'. split; [exact Hg'|]. rewrite <- Hp1. exact Hin'.
  - intros y. destruct y as [| | | | |d0]; try apply steady_skip.
    destruct (dmem "packageId" d0); [|apply steady_skip].
    destruct (truthy (default VNone (dget "packageId" d0))); [|apply steady_skip].
    apply steady_bind; [apply steady_add_dependency_to_mod|]. intros _.
    apply steady_bind; [apply steady_get_state|]. intros s.
    destruct (dependency_for_sorting s);
      [apply steady_add_load_rule_to_mod | apply steady_skip].
Qed.

Section Compiled.

Variables (uuids : list string) (st st' : Manager) (uA : string) (A : Mod).
Variables (regex : string * string) (version : string).
Hypothesis Hrun : compile_metadata uuids st = (st', Ok tt).
Hypothesis Hin : uuids = [] \/ In uA uuids.
Hypothesis HA : dget uA (internal_local_metadata st) = Some A.
Hypothesis Hv : version_regex (game_version st) = Ok regex.
Hypothesis Hk : re_match regex version = Ok true.

(** The run of [compile_mod] on A inside the compilation, cut at its
    version-scoped blocks. *)
Lemma compiled_version_blocks :
  exists Aa bvd bvi s1 s2 s3 s4 s6 s7 s9,
    about Aa = about A /\ packageid Aa = packageid A /\
    evolves st s1 /\
    items_of (about_get Aa "moddependenciesbyversion") = Ok bvd /\
    for_matching_versions regex bvd
      (fun deps => let* dependencies := lift (li_of deps) in
                   process_dependencies uA dependencies) s1 = (s2, Ok tt) /\
    evolves s2 st' /\ evolves st s3 /\
    items_of (about_get Aa "incompatiblewithbyversion") = Ok bvi /\
    for_matching_versions regex bvi
      (fun incs => let* incompatibilities := lift (li_of incs) in
                   process_incompatibilities uA (or_empty_list incompatibilities))
      s3 = (s4, Ok tt) /\
    evolves s4 st' /\ evolves st s6 /\
    match about_get Aa "loadafterbyversion" with
    | VDict ((_ :: _) as by_version) =>
        for_matching_versions regex by_version
          (load_order_by_version_body uA "loadTheseBefore" "loadTheseAfter")
    | _ => skip
    end s6 = (s7, Ok tt) /\
    evolves s7 st' /\ evolves st s9 /\
    exists s10,
      match about_get Aa "loadbeforebyversion" with
      | VDict by_version =>
          for_matching_versions regex by_version
            (load_order_by_version_body uA "loadTheseAfter" "loadTheseBefore")
      | _ => skip
      end s9 = (s10, Ok tt) /\ evolves s10 st'.
Proof.
  destruct (compile_metadata_reaches _ _ _ _ _ Hrun HA Hin)
    as (sa & sb & Ea & Hc & Eb).
  destruct (evolves_packageid _ _ _ _ Ea HA) as (Aa & HAa & HpAa & HabAa).
  destruct (compile_mod_version_blocks _ _ _ _ Hc HAa)
    as (regex' & bvd & bvi & s1 & s2 & s3 & s4 & s6 & s7 & s9 &
        Hv' & E1 & Hbvd & Hdv & E3 & Hbvi & Hiv & E6 & Hlav & E9 & Hlbv).
  assert (Hg : game_version sa = game_version st) by apply Ea.
  rewrite Hg, Hv in Hv'. injection Hv' as <-.
  assert (Hbody : forall rt ort data,
             steady (load_order_by_version_body uA rt ort data))
    by (intros; apply steady_load_order_by_version_body).
  assert (E2 : evolves s1 s2).
  { eapply steady_run; [|exact Hdv]. apply steady_for_matching_versions.
    intros ?. apply steady_bind; [apply steady_lift|].
    intros ?. apply steady_process_dependencies. }
  assert (E4 : evolves s3 s4).
  { eapply steady_run; [|exact Hiv]. apply steady_for_matching_versions.
    intros ?. apply steady_bind; [apply steady_lift|].
    intros ?. apply steady_process_incompatibilities. }
  assert (E7 : evolves s6 s7).
  { eapply steady_run; [|exact Hlav].
    destruct (about_get Aa "loadafterbyversion") as [| | | | |[|e es]];
      try apply steady_skip.
    apply steady_for_matching_versions, Hbody. }
  assert (E10 : evolves s9 sb).
  { eapply steady_run; [|exact Hlbv].
    destruct (about_get Aa "loadbeforebyversion"); try apply steady_skip.
    apply steady_for_matching_versions, Hbody. }
  assert (F1 : evolves st s1) by (eapply evolves_trans; eassumption).
  assert (F3 : evolves st s3)
    by (eapply evolves_trans; [exact F1|]; eapply evolves_trans; eassumption).
  assert (F6 : evolves st s6)
    by (eapply evolves_trans; [exact F3|]; eapply evolves_trans; eassumption).
  assert (F9 : evolves st s9)
    by (eapply evolves_trans; [exact F6|]; eapply evolves_trans; eassumption).
  assert (G9 : evolves s9 st') by (eapply evolves_trans; eassumption).
  assert (G7 : evolves s7 st') by (eapply evolves_trans; eassumption).
  assert (G4 : evolves s4 st')
    by (eapply evolves_trans; [exact E6|]; eapply evolves_trans; eassumption).
  assert (G2 : evolves s2 st')
    by (eapply evolves_trans; [exact E3|]; eapply evolves_trans; eassumption).
  exists Aa, bvd, bvi, s1, s2, s3, s4, s6, s7, s9.
  repeat (split; [assumption|]). exists sb. split; assumption.
Qed.

Lemma declared_block (m : Mod) key by_version :
  dget key (about m) = Some (VDict by_version) ->
  about_get m key = VDict by_version.
Proof. intros H. unfold about_get. rewrite H. reflexivity. Qed.

(** A load-order rule of an accepted version key. *)
Lemma compiled_version_rule key rt ort name grp :
  declares_for A key version name ->
  (key, rt, ort) = ("loadafterbyversion", "loadTheseBefore", "loadTheseAfter") \/
  (key, rt, ort) = ("loadbeforebyversion", "loadTheseAfter", "loadTheseBefore") ->
  packageid_to_uuids st !! Str.lower name = Some grp ->
  (exists A', dget uA (internal_local_metadata st') = Some A' /\
              (Str.lower name, true) ∈ rules_of A' rt) /\
  (forall u, u ∈ grp ->
     exists mu, dget u (internal_local_metadata st') = Some mu /\
                (packageid A, false) ∈ rules_of mu ort).
Proof.
  intros (bv & d & l & Hkey & Hentry & Hli & Hname) Hcase Hidx.
  destruct compiled_version_blocks
    as (Aa & bvd & bvi & s1 & s2 & s3 & s4 & s6 & s7 & s9 &
        Hab & Hp & F1 & Hbvd & Hdv & G2 & F3 & Hbvi & Hiv & G4 & F6 & Hlav &
        G7 & F9 & s10 & Hlbv & G10).
  rewrite <- Hab in Hkey. apply declared_block in Hkey.
  assert (Hblock : forall s s', evolves st s -> evolves s' st' ->
            for_matching_versions regex bv
              (load_order_by_version_body uA rt ort) s = (s', Ok tt) ->
            (exists A', dget uA (internal_local_metadata st') = Some A' /\
                        (Str.lower name, true) ∈ rules_of A' rt) /\
            (forall u, u ∈ grp ->
               exists mu, dget u (internal_local_metadata st') = Some mu /\
                          (packageid A, false) ∈ rules_of mu ort)).
  { intros s s' Es Es' Hb.
    destruct (version_entry_ok _ _ _ _ _ _ _
                (steady_load_order_by_version_body uA rt ort) Hb Hentry Hk)
      as (sa & sb & Ea & Hbody & Eb).
    assert (Fa : evolves st sa) by (eapply evolves_trans; eassumption).
    assert (Gb : evolves sb st') by (eapply evolves_trans; eassumption).
    destruct (evolves_packageid _ _ _ _ Fa HA) as (Ax & HAx & HpAx & _).
    rewrite <- (evolves_index _ _ Fa) in Hidx.
    destruct (by_version_rule _ _ _ _ _ _ _ _ _ _ Hbody Hli Hname HAx Hidx)
      as ((m1 & Hg1 & Hin1) & Hgrp).
    split.
    - destruct (rule_survives _ _ _ _ _ _ Gb Hg1 Hin1) as (A' & HA' & HinA' & _).
      exists A'. split; assumption.
    - intros u Hu. destruct (Hgrp u Hu) as (m2 & Hg2 & Hin2).
      destruct (rule_survives _ _ _ _ _ _ Gb Hg2 Hin2) as (B' & HB' & HinB' & _).
      exists B'. split; [exact HB'|]. rewrite <- HpAx. exact HinB'. }
  destruct Hcase as [E | E]; injection E as -> -> ->; rewrite Hkey in *.
  - destruct bv as [|e bv]; [destruct Hentry|]. exact (Hblock s6 s7 F6 G7 Hlav).
  - exact (Hblock s9 s10 F9 G10 Hlbv).
Qed.

(** An incompatibility of an accepted version key. *)
Lemma compiled_version_incompatibility X :
  declares_for A "incompatiblewithbyversion" version X ->
  In (Str.lower X) (all_package_ids (internal_local_metadata st)) ->
  exists A', dget uA (internal_local_metadata st') = Some A' /\
             Str.lower X ∈ incompatibilities A'.
Proof.
  intros (bv & d & l & Hkey & Hentry & Hli & Hname) Hpid.
  destruct compiled_version_blocks
    as (Aa & bvd & bvi & s1 & s2 & s3 & s4 & s6 & s7 & s9 &
        Hab & Hp & F1 & Hbvd & Hdv & G2 & F3 & Hbvi & Hiv & G4 & _).
  rewrite <- Hab in Hkey. apply declared_block in Hkey.
  rewrite Hkey in Hbvi. injection Hbvi as <-.
  eapply version_entry_ok in Hiv as (sa & sb & Ea & Hbody & Eb);
    [| |exact Hentry|exact Hk].
  - destruct (li_of_block d l _ Hli Hname) as [Hl Hor].
    apply bind_ok in Hbody as (v & s0 & Hlift & Hbody).
    apply lift_ok in Hlift as [Hlift ->]. rewrite Hl in Hlift.
    injection Hlift as <-. rewrite Hor in Hbody.
    assert (Fa : evolves st sa) by (eapply evolves_trans; eassumption).
    rewrite <- (evolves_pids _ _ Fa) in Hpid.
    destruct (process_incompatibilities_ok _ _ _ _ _ Hbody Hname Hpid)
      as (m3 & Hg3 & Hin3).
    eapply incompatibility_survives; [|exact Hg3|exact Hin3].
    eapply evolves_trans; eassumption.
  - intros ?. apply steady_bind; [apply steady_lift|].
    intros ?. apply steady_process_incompatibilities.
Qed.

(** A dependency of an accepted version key. *)
Lemma compiled_version_dependency name grp :
  depends_for A version name ->
  dependency_for_sorting st = true ->
  packageid_to_uuids st !! Str.lower name = Some grp ->
  (exists A', dget uA (internal_local_metadata st') = Some A' /\
              (Str.lower name, true) ∈ rules_of A' "loadTheseBefore") /\
  (forall u, u ∈ grp ->
     exists mu, dget u (internal_local_metadata st') = Some mu /\
                (packageid A, false) ∈ rules_of mu "loadTheseAfter").
Proof.
  intros (bv & d & l & dep & Hkey & Hentry & Hli & Hdep & Hpid & Hname) Hsort Hidx.
  destruct compiled_version_blocks
    as (Aa & bvd & bvi & s1 & s2 & s3 & s4 & s6 & s7 & s9 &
        Hab & Hp & F1 & Hbvd & Hdv & G2 & _).
  rewrite <- Hab in Hkey. apply declared_block in Hkey.
  rewrite Hkey in Hbvd. injection Hbvd as <-.
  eapply version_entry_ok in Hdv as (sa & sb & Ea & Hbody & Eb);
    [| |exact Hentry|exact Hk].
  - destruct (li_of_block d l _ Hli Hdep) as [Hl _].
    apply bind_ok in Hbody as (v & s0 & Hlift & Hbody).
    apply lift_ok in Hlift as [Hlift ->]. rewrite Hl in Hlift.
    injection Hlift as <-.
    assert (Fa : evolves st sa) by (eapply evolves_trans; eassumption).
    assert (Gb : evolves sb st') by (eapply evolves_trans; eassumption).
    destruct (evolves_packageid _ _ _ _ Fa HA) as (Ax & HAx & HpAx & _).
    pose proof Fa as (_ & Fi & _ & Fd & _).
    rewrite <- Fi in Hidx. rewrite <- Fd in Hsort.
    destruct (by_version_dependency _ _ _ _ _ _ _ _ Hbody Hdep Hpid Hname
                Hsort HAx Hidx) as ((m1 & Hg1 & Hin1) & Hgrp).
    split.
    + destruct (rule_survives _ _ _ _ _ _ Gb Hg1 Hin1) as (A' & HA' & HinA' & _).
      exists A'. split; assumption.
    + intros u Hu. destruct (Hgrp u Hu) as (m2 & Hg2 & Hin2).
      destruct (rule_survives _ _ _ _ _ _ Gb Hg2 Hin2) as (B' & HB' & HinB' & _).
      exists B'. split; [exact HB'|]. rewrite <- HpAx. exact HinB'.
  - intros ?. apply steady_bind; [apply steady_lift|].
    intros ?. apply steady_process_dependencies.
Qed.

End Compiled.

End VersionBlocks.

(** C5. With game version "1.4.3600" the pattern is built from "1" and
    "4" and a version key is accepted exactly when it starts with "v1.4":
    "v1.4" is accepted, "v1.5" is not, and a longer key such as "v1.45" is
    (the match is not anchored at the end). The loop over a dictionary of
    version-scoped blocks runs the blocks of the accepted keys, all of them
    and in order, wherever they stand in the dictionary. In a compilation
    that returns, the block of an accepted key is applied, for each of the
    four version-scoped descriptor keys: a dependency becomes a load rule
    when dependencies are used for sorting, an incompatibility with an
    installed package is recorded, and a load-order rule for an indexed
    package is added in both directions. The blocks of the other keys, such
    as "v1.5", are not applied: compiling the manager without them gives the
    same outcome and the same manager without them. *)
Theorem C5_version_key_prefix_match :
  forall st : Metadata.Manager,
    Metadata.game_version st = "1.4.3600" ->
    Metadata.version_regex (Metadata.game_version st) = Ok ("1", "4") /\
    (forall key, Metadata.re_match ("1", "4") key = Ok (String.prefix "v1.4" key)) /\
    Metadata.re_match ("1", "4") "v1.4" = Ok true /\
    Metadata.re_match ("1", "4") "v1.5" = Ok false /\
    Metadata.re_match ("1", "4") "v1.45" = Ok true /\
    (forall by_version body s,
       Metadata.for_matching_versions ("1", "4") by_version body s
       = Metadata.for_each
           (List.filter (fun entry => String.prefix "v1.4" (fst entry)) by_version)
           (fun entry => body (snd entry)) s) /\
    (forall uuids st' uA A version,
       Metadata.compile_metadata uuids st = (st', Ok tt) ->
       uuids = [] \/ In uA uuids ->
       Py.dget uA (Metadata.internal_local_metadata st) = Some A ->
       String.prefix "v1.4" version = true ->
       (forall name grp,
          VersionSpec.depends_for A version name ->
          Metadata.dependency_for_sorting st = true ->
          Metadata.packageid_to_uuids st !! Str.lower name = Some grp ->
          (exists A', Py.dget uA (Metadata.internal_local_metadata st') = Some A' /\
                      (Str.lower name, true) ∈ Metadata.loadTheseBefore A') /\
          (forall u, u ∈ grp ->
             exists B', Py.dget u (Metadata.internal_local_metadata st') = Some B' /\
                        (Metadata.packageid A, false) ∈ Metadata.loadTheseAfter B')) /\
       (forall X,
          VersionSpec.declares_for A "incompatiblewithbyversion" version X ->
          In (Str.lower X)
             (Metadata.all_package_ids (Metadata.internal_local_metadata st)) ->
          exists A', Py.dget uA (Metadata.internal_local_metadata st') = Some A' /\
                     Str.lower X ∈ Metadata.incompatibilities A') /\
       (forall name grp,
          VersionSpec.declares_for A "loadafterbyversion" version name ->
          Metadata.packageid_to_uuids st !! Str.lower name = Some grp ->
          (exists A', Py.dget uA (Metadata.internal_local_metadata st') = Some A' /\
                      (Str.lower name, true) ∈ Metadata.loadTheseBefore A') /\
          (forall u, u ∈ grp ->
             exists B', Py.dget u (Metadata.internal_local_metadata st') = Some B' /\
                        (Metadata.packageid A, false) ∈ Metadata.loadTheseAfter B')) /\
       (forall name grp,
          VersionSpec.declares_for A "loadbeforebyversion" version name ->
          Metadata.packageid_to_uuids st !! Str.lower name = Some grp ->
          (exists A', Py.dget uA (Metadata.internal_local_metadata st') = Some A' /\
                      (Str.lower name, true) ∈ Metadata.loadTheseAfter A') /\
          (forall u, u ∈ grp ->
             exists B', Py.dget u (Metadata.internal_local_metadata st') = Some B' /\
                        (Metadata.packageid A, false) ∈ Metadata.loadTheseBefore B'))) /\
    (forall uuids,
       Metadata.compile_metadata uuids (VersionSpec.scoped (String.prefix "v1.4") st)
       = (VersionSpec.scoped (String.prefix "v1.4")
            (fst (Metadata.compile_metadata uuids st)),
          snd (Metadata.compile_metadata uuids st))).
Proof.
  intros st Hgv.
  assert (Hv : Metadata.version_regex (Metadata.game_version st) = Ok ("1", "4"))
    by (rewrite Hgv; reflexivity).
  assert (Hkeys : forall key,
            Metadata.re_match ("1", "4") key = Ok (String.prefix "v1.4" key))
    by (intros key; reflexivity).
  split; [exact Hv|]. split; [exact Hkeys|].
  split; [reflexivity|]. split; [reflexivity|]. split; [reflexivity|].
  split; [|split].
  - intros by_version body s.
    apply (for_matching_versions_kept (String.prefix "v1.4") ("1", "4") Hkeys).
  - intros uuids st' uA A version Hrun Hin HA Hver.
    assert (Hk : Metadata.re_match ("1", "4") version = Ok true)
      by (rewrite Hkeys, Hver; reflexivity).
    unfold Metadata.loadTheseBefore, Metadata.loadTheseAfter.
    split; [|split; [|split]].
    + intros name grp Hd Hsort Hidx.
      exact (compiled_version_dependency uuids st st' uA A ("1", "4") version
               Hrun Hin HA Hv Hk name grp Hd Hsort Hidx).
    + intros X Hd Hpid.
      exact (compiled_version_incompatibility uuids st st' uA A ("1", "4") version
               Hrun Hin HA Hv Hk X Hd Hpid).
    + intros name grp Hd Hidx.
      exact (compiled_version_rule uuids st st' uA A ("1", "4") version
               Hrun Hin HA Hv Hk _ _ _ name grp Hd (or_introl eq_refl) Hidx).
    + intros name grp Hd Hidx.
      exact (compiled_version_rule uuids st st' uA A ("1", "4") version
               Hrun Hin HA Hv Hk _ _ _ name grp Hd (or_intror eq_refl) Hidx).
  - intros uuids.
    apply (compile_metadata_scoped (String.prefix "v1.4") ("1", "4") Hkeys), Hv.
Qed.

Lemma C5_witness :
  (exists V', Py.dget "uV" (Metadata.internal_local_metadata
                              (fst (Metadata.compile_metadata [] Examples.st_versions)))
              = Some V' /\
              (Str.lower "b", true) ∈ Metadata.loadTheseBefore V') /\
  Metadata.compile_metadata []
    (VersionSpec.scoped (String.prefix "v1.4") Examples.st_versions)
  = (VersionSpec.scoped (String.prefix "v1.4")
       (fst (Metadata.compile_metadata [] Examples.st_versions)),
     snd (Metadata.compile_metadata [] Examples.st_versions)).
Proof.
  destruct (C5_version_key_prefix_match Examples.st_versions eq_refl)
    as (_ & _ & _ & _ & _ & _ & Happlied & Hscoped).
  split; [|apply Hscoped].
  destruct (Happlied [] (fst (Metadata.compile_metadata [] Examples.st_versions))
              "uV" Examples.mod_v "v1.4") as (_ & _ & Hafter & _).
  - vm_compute. reflexivity.
  - left. reflexivity.
  - reflexivity.
  - reflexivity.
  - apply (Hafter "b" {["uB"]}).
    + exists [("v1.4", Examples.li ["b"]); ("v1.5", Examples.li ["c"])],
        [("li", VList [VStr "b"])], [VStr "b"].
      split; [reflexivity|]. split; [left; reflexivity|].
      split; [reflexivity | left; reflexivity].
    + vm_compute. reflexivity.
Defined.

(** * Further properties *)

(** ** Sizes of the batches *)

Section ChunkSizes.
Import Chunks.
Context {A : Type}.
Implicit Types (l : list A) (i limit fuel : nat).

Lemma range_from_length fuel i stop step :
  0 < step -> stop - i <= fuel ->
  length (range_from fuel i stop step) = (stop - i + step - 1) / step.
Proof.
  intros Hs. revert i.
  induction fuel as [|fuel IH]; intros i Hf; simpl.
  - replace (stop - i + step - 1) with (step - 1) by lia.
    symmetry. apply Nat.div_small. lia.
  - destruct (Nat.ltb_spec i stop) as [Hlt|Hge]; simpl.
    + rewrite IH by lia.
      destruct (Nat.le_gt_cases step (stop - i)) as [Hle|Hgt].
      * replace (stop - i + step - 1)
          with (stop - (i + step) + step - 1 + 1 * step) by lia.
        rewrite Nat.div_add by lia. lia.
      * replace (stop - (i + step) + step - 1) with (step - 1) by lia.
        rewrite (Nat.div_small (step - 1)) by lia.
        apply (Nat.div_unique _ _ 1 (stop - i - 1)); lia.
    + replace (stop - i + step - 1) with (step - 1) by lia.
      symmetry. apply Nat.div_small. lia.
Qed.

Lemma chunks_layout l limit :
  0 < limit ->
  exists batches,
    chunks l limit = Ok batches /\
    length batches = (length l + limit - 1) / limit /\
    (forall k b, nth_error batches k = Some b ->
       k * limit < length l /\
       b = slice l (k * limit) (k * limit + limit) /\
       length b = Nat.min limit (length l - k * limit)).
Proof.
  intros Hl. unfold chunks. destruct (Nat.eqb_spec limit 0) as [|_]; [lia|].
  eexists. split; [reflexivity|].
  assert (Hlen : length (py_range 0 (length l) limit)
                 = (length l + limit - 1) / limit).
  { unfold py_range. rewrite range_from_length by lia. f_equal. lia. }
  split; [rewrite length_map; exact Hlen|].
  intros k b Hb.
  assert (Hk : k < (length l + limit - 1) / limit).
  { rewrite <- Hlen, <- (length_map (fun i => slice l i (i + limit))).
    apply nth_error_Some. congruence. }
  assert (Hkl : k * limit < length l).
  { pose proof (Nat.Div0.mul_div_le (length l + limit - 1) limit). nia. }
  rewrite nth_error_map in Hb. unfold py_range in Hb.
  rewrite (range_from_nth _ 0 _ limit k) in Hb by lia.
  simpl in Hb. injection Hb as <-.
  split; [assumption|]. split; [reflexivity|].
  unfold slice. rewrite length_firstn, length_skipn. lia.
Qed.

End ChunkSizes.

(** X1. For a positive limit [__chunks] yields the least number of
    batches, the length of the list divided by the limit and rounded up;
    batch [k] is the slice that starts at [k * limit], so every batch but
    the last holds exactly [limit] elements and the last one holds the
    rest. *)
Theorem chunks_sizes :
  forall (A : Type) (l : list A) (limit : nat),
    0 < limit ->
    exists batches,
      Chunks.chunks l limit = Ok batches /\
      length batches = (length l + limit - 1) / limit /\
      (forall k b, nth_error batches k = Some b ->
         k * limit < length l /\
         b = Chunks.slice l (k * limit) (k * limit + limit) /\
         length b = Nat.min limit (length l - k * limit)).
Proof. intros A l limit. apply chunks_layout. Qed.

Lemma chunks_sizes_witness :
  exists batches,
    Chunks.chunks [1; 2; 3; 4; 5] 2 = Ok batches /\
    length batches = (length [1; 2; 3; 4; 5] + 2 - 1) / 2 /\
    (forall k b, nth_error batches k = Some b ->
       k * 2 < length [1; 2; 3; 4; 5] /\
       b = Chunks.slice [1; 2; 3; 4; 5] (k * 2) (k * 2 + 2) /\
       length b = Nat.min 2 (length [1; 2; 3; 4; 5] - k * 2)).
Proof. apply (chunks_sizes nat [1; 2; 3; 4; 5] 2). lia. Defined.

(** ** The merge, key by key *)

Section MergeLookup.
Import Py Merge MergeSpec.
Variables (PE PK RE : list string).
Implicit Types (a b d : dict pyval) (k : string) (v : pyval).

Lemma drop_stale_NoDup a b :
  List.NoDup (dkeys a) -> List.NoDup (dkeys (drop_stale_exceptions RE a b)).
Proof. intros H. rewrite drop_stale_filter. apply NoDup_filter_keys, H. Qed.

Lemma drop_stale_dget a b k :
  List.NoDup (dkeys a) ->
  dget k (drop_stale_exceptions RE a b)
  = if str_in k RE && negb (dmem k b) then None else dget k a.
Proof.
  intros H. rewrite drop_stale_filter, (dget_filter _ _ _ H). simpl.
  destruct (dget k a); destruct (str_in k RE && negb (dmem k b)); reflexivity.
Qed.

(** The value found under a key after the merge. *)
Lemma merge_dget a b k :
  List.NoDup (dkeys a) -> List.NoDup (dkeys b) ->
  dget k (recursively_update_dict PE PK RE a b)
  = match dget k b with
    | Some v =>
        let x := merged_value PE PK RE k (dget k a) v in
        if kept PE PK (k, x) then Some x else None
    | None =>
        match dget k a with
        | Some x => if negb (str_in k RE) && kept PE PK (k, x) then Some x else None
        | None => None
        end
    end.
Proof.
  intros Ha Hb. unfold recursively_update_dict.
  rewrite update_with_unfold.
  rewrite purge_prune_kept by (apply items_NoDup, drop_stale_NoDup, Ha).
  rewrite dget_filter by (apply items_NoDup, drop_stale_NoDup, Ha).
  rewrite (items_dget _ _ _ _ _ _ Hb), (drop_stale_dget _ _ _ Ha).
  destruct (dget k b) as [v|] eqn:Eb.
  - assert (Hm : dmem k b = true) by (apply dmem_In; eapply dget_dkeys; exact Eb).
    rewrite Hm, andb_false_r. reflexivity.
  - assert (Hm : dmem k b = false) by (apply dmem_false, dget_none; exact Eb).
    rewrite Hm, andb_true_r.
    destruct (str_in k RE); simpl; destruct (dget k a); reflexivity.
Qed.

Lemma merge_dget_fresh a b k v :
  List.NoDup (dkeys a) -> List.NoDup (dkeys b) ->
  dget k b = Some v -> Metadata.is_dict v = false -> str_in k PK = false ->
  dget k (recursively_update_dict PE PK RE a b) = Some v.
Proof.
  intros Ha Hb Hv Hn Hk. rewrite (merge_dget _ _ _ Ha Hb), Hv. cbv zeta.
  assert (Hx : merged_value PE PK RE k (dget k a) v = v).
  { unfold merged_value. destruct (str_in k RE); [reflexivity|].
    destruct (dget k a) as [[| | | | |sub]|]; try reflexivity.
    destruct v; try reflexivity. discriminate. }
  rewrite Hx. unfold kept, prunable. cbn [fst snd]. rewrite Hk.
  destruct v; try reflexivity. discriminate.
Qed.

Lemma merge_dget_nested a b k sub bd :
  List.NoDup (dkeys a) -> List.NoDup (dkeys b) ->
  dget k a = Some (VDict sub) -> dget k b = Some (VDict bd) ->
  str_in k RE = false -> str_in k PK = false ->
  dget k (recursively_update_dict PE PK RE a b)
  = match recursively_update_dict PE PK RE sub bd with
    | [] => if str_in k PE then Some (VDict []) else None
    | merged => Some (VDict merged)
    end.
Proof.
  intros Ha Hb Hka Hkb Hre Hpk. rewrite (merge_dget _ _ _ Ha Hb), Hkb, Hka.
  cbv zeta. unfold merged_value. rewrite Hre.
  change (update_with PE PK RE sub (VDict bd))
    with (recursively_update_dict PE PK RE sub bd).
  generalize (recursively_update_dict PE PK RE sub bd). intros m.
  unfold kept, prunable. cbn [fst snd]. rewrite Hpk.
  destruct m; cbn [is_empty_dict negb andb]; [|reflexivity].
  destruct (str_in k PE); reflexivity.
Qed.

Lemma merge_dget_absent a b k x :
  List.NoDup (dkeys a) -> List.NoDup (dkeys b) ->
  dget k a = Some x -> dget k b = None ->
  dget k (recursively_update_dict PE PK RE a b)
  = if str_in k RE || str_in k PK
       || (is_empty_dict x && negb (str_in k PE))
    then None else Some x.
Proof.
  intros Ha Hb Hka Hkb. rewrite (merge_dget _ _ _ Ha Hb), Hkb, Hka.
  unfold kept, prunable. cbn [fst snd].
  destruct (str_in k RE), (str_in k PK), (is_empty_dict x && negb (str_in k PE));
    reflexivity.
Qed.

Lemma merge_entries_kept a b kv :
  In kv (recursively_update_dict PE PK RE a b) ->
  str_in (fst kv) PK = false /\
  (snd kv = VDict [] -> str_in (fst kv) PE = true).
Proof.
  unfold recursively_update_dict. rewrite update_with_unfold, purge_filter.
  intros Hin. apply filter_In in Hin as [Hin Hpk].
  split; [apply negb_true_iff, Hpk|].
  unfold prune in Hin. rewrite fold_ddel in Hin.
  apply filter_In in Hin as [Hin Hpr]. intros Hv.
  apply negb_true_iff, str_in_false in Hpr.
  destruct (str_in (fst kv) PE) eqn:E; [reflexivity|]. exfalso. apply Hpr.
  unfold dkeys. apply in_map. apply filter_In. split; [exact Hin|].
  rewrite Hv, E. reflexivity.
Qed.

Lemma merge_empty_existing b :
  List.NoDup (dkeys b) ->
  recursively_update_dict PE PK RE [] b = List.filter (kept PE PK) b.
Proof.
  intros Hb. unfold recursively_update_dict. rewrite update_with_unfold.
  assert (E : drop_stale_exceptions RE [] b = []) by reflexivity.
  rewrite E, (items_settled PE PK RE b [] Hb).
  - simpl. rewrite (filter_all _ b) by reflexivity.
    apply purge_prune_kept, Hb.
  - intros k v x _ H. discriminate.
Qed.

End MergeLookup.

(** X2. A value of the fresh dictionary that is not itself a dictionary
    is the value found under its key after the merge, whatever the
    existing dictionary held there, unless the key is on the purge list. *)
Theorem merge_fresh_value_wins :
  forall (prune_exceptions purge_keys recurse_exceptions : list string)
         (a_dict b_dict : Py.dict pyval) (key : string) (value : pyval),
    MergeSpec.distinct (Py.dkeys a_dict) = true ->
    MergeSpec.distinct (Py.dkeys b_dict) = true ->
    Py.dget key b_dict = Some value ->
    Metadata.is_dict value = false ->
    Py.str_in key purge_keys = false ->
    Py.dget key (Merge.recursively_update_dict prune_exceptions purge_keys
                                               recurse_exceptions a_dict b_dict)
    = Some value.
Proof.
  intros PE PK RE a b k v Ha Hb. apply merge_dget_fresh; apply distinct_NoDup;
    assumption.
Qed.

Lemma merge_fresh_value_wins_witness :
  Py.dget "steamName"
    (Merge.recursively_update_dict [] [] ["blacklist"]
       [("steamName", VStr "Old"); ("url", VStr "u")]
       [("steamName", VStr "Foo")])
  = Some (VStr "Foo").
Proof.
  apply (merge_fresh_value_wins [] [] ["blacklist"]
           [("steamName", VStr "Old"); ("url", VStr "u")]
           [("steamName", VStr "Foo")] "steamName" (VStr "Foo"));
    reflexivity.
Defined.

(** X3. Two dictionaries under the same key, outside the recurse
    exceptions and the purge list, are merged by the recursive call; the
    merged dictionary is dropped when it ends up empty under a key that is
    not exempt from pruning. *)
Theorem merge_nested_dicts :
  forall (prune_exceptions purge_keys recurse_exceptions : list string)
         (a_dict b_dict : Py.dict pyval) (key : string)
         (a_sub b_sub : Py.dict pyval),
    MergeSpec.distinct (Py.dkeys a_dict) = true ->
    MergeSpec.distinct (Py.dkeys b_dict) = true ->
    Py.dget key a_dict = Some (VDict a_sub) ->
    Py.dget key b_dict = Some (VDict b_sub) ->
    Py.str_in key recurse_exceptions = false ->
    Py.str_in key purge_keys = false ->
    Py.dget key (Merge.recursively_update_dict prune_exceptions purge_keys
                                               recurse_exceptions a_dict b_dict)
    = match Merge.recursively_update_dict prune_exceptions purge_keys
                                          recurse_exceptions a_sub b_sub with
      | [] => if Py.str_in key prune_exceptions then Some (VDict []) else None
      | merged => Some (VDict merged)
      end.
Proof.
  intros PE PK RE a b k sub bd Ha Hb. apply merge_dget_nested; apply distinct_NoDup;
    assumption.
Qed.

Lemma merge_nested_dicts_witness :
  Py.dget "123"
    (Merge.recursively_update_dict [] [] ["blacklist"]
       MergeExamples.existing MergeExamples.fresh)
  = match Merge.recursively_update_dict [] [] ["blacklist"]
            [("blacklist", VDict [("comment", VStr "bad")])]
            [("steamName", VStr "Foo")] with
    | [] => if Py.str_in "123" [] then Some (VDict []) else None
    | merged => Some (VDict merged)
    end.
Proof.
  apply (merge_nested_dicts [] [] ["blacklist"]
           MergeExamples.existing MergeExamples.fresh "123"
           [("blacklist", VDict [("comment", VStr "bad")])]
           [("steamName", VStr "Foo")]);
    reflexivity.
Defined.

(** X4. An entry of the existing dictionary whose key the fresh
    dictionary lacks keeps its value, and is removed exactly when its key
    is a recurse exception or a purge key, or when it is an empty
    dictionary under a key that is not exempt from pruning. *)
Theorem merge_keeps_absent_keys :
  forall (prune_exceptions purge_keys recurse_exceptions : list string)
         (a_dict b_dict : Py.dict pyval) (key : string) (value : pyval),
    MergeSpec.distinct (Py.dkeys a_dict) = true ->
    MergeSpec.distinct (Py.dkeys b_dict) = true ->
    Py.dget key a_dict = Some value ->
    Py.dget key b_dict = None ->
    Py.dget key (Merge.recursively_update_dict prune_exceptions purge_keys
                                               recurse_exceptions a_dict b_dict)
    = if Py.str_in key recurse_exceptions || Py.str_in key purge_keys
         || (Py.is_empty_dict value && negb (Py.str_in key prune_exceptions))
      then None else Some value.
Proof.
  intros PE PK RE a b k x Ha Hb. apply merge_dget_absent; apply distinct_NoDup;
    assumption.
Qed.

Lemma merge_keeps_absent_keys_witness :
  Py.dget "url"
    (Merge.recursively_update_dict [] [] ["blacklist"]
       [("steamName", VStr "Old"); ("url", VStr "u")]
       [("steamName", VStr "Foo")])
  = if Py.str_in "url" ["blacklist"] || Py.str_in "url" []
       || (Py.is_empty_dict (VStr "u") && negb (Py.str_in "url" []))
    then None else Some (VStr "u").
Proof.
  apply (merge_keeps_absent_keys [] [] ["blacklist"]
           [("steamName", VStr "Old"); ("url", VStr "u")]
           [("steamName", VStr "Foo")] "url" (VStr "u"));
    reflexivity.
Defined.

(** X5. No entry of the merged dictionary has a key of the purge list,
    and none is an empty dictionary unless its key is exempt from
    pruning. *)
Theorem merge_result_kept :
  forall (prune_exceptions purge_keys recurse_exceptions : list string)
         (a_dict b_dict : Py.dict pyval) (key : string) (value : pyval),
    In (key, value)
       (Merge.recursively_update_dict prune_exceptions purge_keys
                                      recurse_exceptions a_dict b_dict) ->
    Py.str_in key purge_keys = false /\
    (value = VDict [] -> Py.str_in key prune_exceptions = true).
Proof.
  intros PE PK RE a b k v Hin. exact (merge_entries_kept PE PK RE a b (k, v) Hin).
Qed.

Lemma merge_result_kept_witness :
  Py.str_in "123" [] = false /\
  (VDict [("steamName", VStr "Foo")] = VDict [] -> Py.str_in "123" [] = true).
Proof.
  apply (merge_result_kept [] [] ["blacklist"]
           MergeExamples.existing MergeExamples.fresh
           "123" (VDict [("steamName", VStr "Foo")])).
  vm_compute. left. reflexivity.
Defined.

(** X6. Merging into an empty dictionary copies the fresh one less, at
    its top level, the purge keys and the empty dictionaries open to
    pruning; nothing below the top level is cleaned. *)
Theorem merge_into_empty :
  forall (prune_exceptions purge_keys recurse_exceptions : list string)
         (b_dict : Py.dict pyval),
    MergeSpec.distinct (Py.dkeys b_dict) = true ->
    Merge.recursively_update_dict prune_exceptions purge_keys
                                  recurse_exceptions [] b_dict
    = List.filter
        (fun kv => negb (Py.is_empty_dict (snd kv)
                         && negb (Py.str_in (fst kv) prune_exceptions))
                   && negb (Py.str_in (fst kv) purge_keys))
        b_dict.
Proof.
  intros PE PK RE b Hb. apply merge_empty_existing, distinct_NoDup, Hb.
Qed.

Lemma merge_into_empty_witness :
  Merge.recursively_update_dict [] [] [] [] MergeExamples.fresh_nested_empty
  = List.filter
      (fun kv => negb (Py.is_empty_dict (snd kv)
                       && negb (Py.str_in (fst kv) []))
                 && negb (Py.str_in (fst kv) []))
      MergeExamples.fresh_nested_empty.
Proof.
  apply (merge_into_empty [] [] [] MergeExamples.fresh_nested_empty).
  reflexivity.
Defined.

(** ** Deleting and purging records *)

Section IndexOf.
Import Py Metadata StoreSpec.

Lemma index_of_elem (s : dict Mod) u p :
  (exists g, index_of s !! p = Some g /\ u ∈ g)
  <-> (exists m, In (u, m) s /\ packageid m = p).
Proof.
  induction s as [|[k v] s IH]; simpl.
  - split; [intros (g & H & _); rewrite lookup_empty in H; discriminate|].
    intros (m & [] & _).
  - destruct (decide (p = packageid v)) as [->|Hne].
    + rewrite lookup_insert_eq. split.
      * intros (g & [= <-] & Hu). apply elem_of_union in Hu as [Hu|Hu].
        -- apply elem_of_singleton in Hu. subst u. exists v. split; [left|]; reflexivity.
        -- destruct (index_of s !! packageid v) as [g'|] eqn:E;
             [|simpl in Hu; set_solver].
           destruct IH as [IH _]. destruct IH as (m & Hin & Hp); [eauto|].
           exists m. split; [right; exact Hin | exact Hp].
      * intros (m & [[= -> ->]|Hin] & Hp).
        -- eexists. split; [reflexivity|]. apply elem_of_union. left.
           apply elem_of_singleton. reflexivity.
        -- destruct IH as [_ IH]. destruct IH as (g & Hg & Hu); [eauto|].
           eexists. split; [reflexivity|]. apply elem_of_union. right.
           rewrite Hg. exact Hu.
    + rewrite lookup_insert_ne by congruence. rewrite IH. split.
      * intros (m & Hin & Hp). exists m. split; [right; exact Hin | exact Hp].
      * intros (m & [[= -> ->]|Hin] & Hp); [congruence|]. eauto.
Qed.

Lemma index_of_indexed st :
  packageid_to_uuids st = index_of (internal_local_metadata st) ->
  List.NoDup (dkeys (internal_local_metadata st)) ->
  indexed st.
Proof.
  intros Hi Hnd u p _. rewrite Hi, index_of_elem. split.
  - intros (m & Hin & Hp). exists m. split; [apply In_dget; assumption | exact Hp].
  - intros (m & Hg & Hp). exists m. split; [apply dget_some_In, Hg | exact Hp].
Qed.

End IndexOf.

Section Deletion.
Import Py Metadata Refresh StoreSpec.
Local Open Scope py_scope.

Lemma dget_ddel {V} (u uuid : string) (d : dict V) :
  dget u (ddel uuid d) = if String.eqb u uuid then None else dget u d.
Proof.
  unfold ddel. induction d as [|[k v] d IH]; simpl.
  - destruct (String.eqb u uuid); reflexivity.
  - destruct (String.eqb uuid k) eqn:E; simpl.
    + apply String.eqb_eq in E. subst k. rewrite IH.
      destruct (String.eqb u uuid); reflexivity.
    + destruct (String.eqb u k) eqn:E'; [|exact IH].
      apply String.eqb_eq in E'. subst k.
      rewrite String.eqb_sym, E. reflexivity.
Qed.

(** What the removal of one record does to the store and the index. *)
Lemma purge_uuid_indexed uuid st :
  indexed st ->
  exists st',
    purge_uuid uuid st = (st', Ok tt) /\
    internal_local_metadata st' = ddel uuid (internal_local_metadata st) /\
    emitted st' = emitted st /\
    indexed st'.
Proof.
  intros Hidx. unfold purge_uuid, bind, get_state.
  destruct (dget uuid (internal_local_metadata st)) as [m|] eqn:Hm.
  2:{ exists st. split; [reflexivity|]. split; [|split; [reflexivity|exact Hidx]].
      symmetry. unfold ddel. apply filter_all. intros [k v] Hin. simpl.
      apply negb_true_iff, String.eqb_neq. intros ->.
      apply dget_none in Hm. apply Hm. apply (in_map fst) in Hin. exact Hin. }
  unfold modify at 1.
  assert (Hstore : forall u p, p <> "" ->
            ((exists m0, dget u (ddel uuid (internal_local_metadata st)) = Some m0
                         /\ packageid m0 = p)
             <-> (u <> uuid /\ exists g, packageid_to_uuids st !! p = Some g /\ u ∈ g))).
  { intros u p Hp. rewrite dget_ddel. rewrite (Hidx u p Hp).
    destruct (String.eqb_spec u uuid) as [->|Hne]; split.
    - intros (m0 & H & _). discriminate.
    - intros [H _]. congruence.
    - intros H. split; assumption.
    - intros [_ H]. exact H. }
  destruct (String.eqb_spec (packageid m) "") as [Hemp|Hne]; simpl negb; cbv iota.
  - eexists. split; [reflexivity|]. split; [reflexivity|]. split; [reflexivity|].
    intros u p Hp. simpl. rewrite (Hstore u p Hp). split.
    + intros (g & Hg & Hu). split; [|eauto].
      intros ->. assert (H : exists m0, dget uuid (internal_local_metadata st) = Some m0
                                      /\ packageid m0 = p)
        by (apply (Hidx uuid p Hp); eauto).
      destruct H as (m0 & H0 & H1). congruence.
    + intros [_ H]. exact H.
  - assert (Hg : exists g, packageid_to_uuids st !! packageid m = Some g /\ uuid ∈ g)
      by (apply (Hidx uuid _ Hne); eauto).
    destruct Hg as (g & Hg & Hin). rewrite Hg.
    destruct (bool_decide (g = ∅)) eqn:He.
    { apply bool_decide_eq_true in He. subst g. set_solver. }
    rewrite (bool_decide_eq_true_2 _ Hin). unfold modify.
    eexists. split; [reflexivity|]. split; [reflexivity|]. split; [reflexivity|].
    intros u p Hp. simpl. rewrite (Hstore u p Hp).
    destruct (decide (p = packageid m)) as [->|Hpm].
    + rewrite lookup_insert_eq. split.
      * intros (g' & E & Hu). injection E as <-.
        apply elem_of_difference in Hu as [Hu Hn].
        split; [intros ->; apply Hn, elem_of_singleton; reflexivity|]. eauto.
      * intros (Hu & g' & E & Hu'). rewrite Hg in E. injection E as <-.
        eexists. split; [reflexivity|]. apply elem_of_difference.
        split; [exact Hu'|]. intros H. apply elem_of_singleton in H. contradiction.
    + rewrite lookup_insert_ne by congruence. split.
      * intros (g' & E & Hu). split; [|eauto]. intros ->.
        assert (H : exists m0, dget uuid (internal_local_metadata st) = Some m0
                               /\ packageid m0 = p)
          by (apply (Hidx uuid p Hp); eauto).
        destruct H as (m0 & H0 & H1). congruence.
      * intros [_ H]. exact H.
Qed.

Lemma process_deletion_purge uuid st :
  process_deletion uuid st
  = match dget uuid (internal_local_metadata st) with
    | None => (st, Ok tt)
    | Some _ => (purge_uuid uuid >>> modify (emit (mod_deleted uuid))) st
    end.
Proof.
  unfold process_deletion, purge_uuid, bind, get_state.
  destruct (dget uuid (internal_local_metadata st)) as [m|]; [|reflexivity].
  unfold modify at 1. unfold modify at 2.
  destruct (negb (String.eqb (packageid m) "")); [|reflexivity].
  destruct (packageid_to_uuids st !! packageid m) as [g|]; [|reflexivity].
  destruct (bool_decide (g = ∅)); [reflexivity|].
  destruct (bool_decide (uuid ∈ g)); reflexivity.
Qed.

Lemma process_deletion_indexed uuid st :
  indexed st ->
  exists st',
    process_deletion uuid st = (st', Ok tt) /\
    dget uuid (internal_local_metadata st') = None /\
    (forall u, u <> uuid ->
       dget u (internal_local_metadata st') = dget u (internal_local_metadata st)) /\
    indexed st' /\
    emitted st'
    = (if dmem uuid (internal_local_metadata st)
       then emitted st ++ [mod_deleted uuid] else emitted st).
Proof.
  intros Hidx. rewrite process_deletion_purge.
  destruct (dget uuid (internal_local_metadata st)) as [m|] eqn:Hm.
  - destruct (purge_uuid_indexed uuid st Hidx) as (st1 & E & Hs & He & Hi).
    unfold bind. rewrite E. unfold modify.
    eexists. split; [reflexivity|]. simpl. rewrite Hs, He.
    split; [rewrite dget_ddel, String.eqb_refl; reflexivity|].
    split; [|split; [exact Hi|]].
    + intros u Hu. rewrite dget_ddel.
      destruct (String.eqb_spec u uuid); [contradiction | reflexivity].
    + assert (Hd : dmem uuid (internal_local_metadata st) = true)
        by (apply dmem_In; eapply dget_dkeys; exact Hm).
      rewrite Hd. reflexivity.
  - exists st. split; [reflexivity|]. split; [exact Hm|].
    split; [reflexivity|]. split; [exact Hidx|].
    assert (Hd : dmem uuid (internal_local_metadata st) = false)
      by (apply dmem_false, dget_none; exact Hm).
    rewrite Hd. reflexivity.
Qed.

Lemma process_deletion_raises uuid st m g :
  dget uuid (internal_local_metadata st) = Some m ->
  packageid m <> "" ->
  packageid_to_uuids st !! packageid m = Some g ->
  g <> ∅ -> uuid ∉ g ->
  exists st',
    process_deletion uuid st = (st', Raise KeyError) /\
    dget uuid (internal_local_metadata st') = None /\
    packageid_to_uuids st' = packageid_to_uuids st /\
    emitted st' = emitted st.
Proof.
  intros Hm Hp Hg Hne Hnotin. unfold process_deletion, bind, get_state.
  rewrite Hm. unfold modify at 1.
  destruct (String.eqb_spec (packageid m) ""); [contradiction|]. simpl negb. cbv iota.
  rewrite Hg, (bool_decide_eq_false_2 _ Hne), (bool_decide_eq_false_2 _ Hnotin).
  eexists. split; [reflexivity|]. simpl.
  split; [rewrite dget_ddel, String.eqb_refl; reflexivity|]. split; reflexivity.
Qed.

Lemma uuids_to_remove_filter ds batch (all_mods : dict Mod) :
  uuids_to_remove ds batch all_mods
  = dkeys (List.filter
             (fun um => String.eqb (Metadata.data_source (snd um)) ds
                        && negb (str_in (fst um) batch)) all_mods).
Proof.
  unfold uuids_to_remove. destruct batch; [|reflexivity].
  f_equal. apply filter_ext. intros um. rewrite andb_true_r. reflexivity.
Qed.

Lemma purge_by_data_source_for_each ds batch st :
  purge_by_data_source ds batch st
  = for_each (uuids_to_remove ds batch (internal_local_metadata st)) purge_uuid st.
Proof.
  unfold purge_by_data_source, bind, get_state.
  destruct (uuids_to_remove ds batch (internal_local_metadata st)); reflexivity.
Qed.

Lemma for_each_purge uuids st :
  indexed st ->
  exists st',
    for_each uuids purge_uuid st = (st', Ok tt) /\
    internal_local_metadata st'
    = fold_left (fun d u => ddel u d) uuids (internal_local_metadata st) /\
    emitted st' = emitted st /\
    indexed st'.
Proof.
  revert st. induction uuids as [|u uuids IH]; intros st Hidx.
  - exists st. split; [reflexivity|]. split; [reflexivity|].
    split; [reflexivity | exact Hidx].
  - destruct (purge_uuid_indexed u st Hidx) as (st1 & E & Hs & He & Hi).
    destruct (IH st1 Hi) as (st' & E' & Hs' & He' & Hi').
    exists st'. simpl for_each. unfold bind. rewrite E.
    split; [exact E'|]. split; [|split; [congruence | exact Hi']].
    rewrite Hs', Hs. reflexivity.
Qed.

Lemma purge_by_data_source_indexed ds batch st :
  indexed st -> List.NoDup (dkeys (internal_local_metadata st)) ->
  exists st',
    purge_by_data_source ds batch st = (st', Ok tt) /\
    internal_local_metadata st'
    = List.filter
        (fun um => negb (String.eqb (Metadata.data_source (snd um)) ds
                         && negb (str_in (fst um) batch)))
        (internal_local_metadata st) /\
    indexed st' /\
    emitted st' = emitted st.
Proof.
  intros Hidx Hnd. rewrite purge_by_data_source_for_each.
  destruct (for_each_purge (uuids_to_remove ds batch (internal_local_metadata st))
                           st Hidx) as (st' & E & Hs & He & Hi).
  exists st'. split; [exact E|]. split; [|split; assumption].
  rewrite Hs, fold_ddel, uuids_to_remove_filter.
  apply filter_ext_in. intros [u m] Hin. simpl. f_equal.
  set (cond := fun um : string * Mod =>
                 String.eqb (Metadata.data_source (snd um)) ds
                 && negb (str_in (fst um) batch)).
  change (str_in u (dkeys (List.filter cond (internal_local_metadata st)))
          = cond (u, m)).
  destruct (cond (u, m)) eqn:Ec.
  - apply str_in_In. unfold dkeys.
    apply (in_map fst (List.filter cond _) (u, m)). apply filter_In. tauto.
  - apply str_in_false. unfold dkeys. rewrite in_map_iff.
    intros ([u' m'] & Eu & Hin'). simpl in Eu. subst u'.
    apply filter_In in Hin' as [Hin' Hc].
    apply (In_dget _ _ _ Hnd) in Hin. apply (In_dget _ _ _ Hnd) in Hin'.
    rewrite Hin in Hin'. injection Hin' as <-. congruence.
Qed.

Lemma purge_uuid_deletion u st1 st2 :
  internal_local_metadata st1 = internal_local_metadata st2 ->
  packageid_to_uuids st1 = packageid_to_uuids st2 ->
  let r1 := purge_uuid u st1 in
  let r2 := process_deletion u st2 in
  snd r1 = snd r2 /\
  internal_local_metadata (fst r1) = internal_local_metadata (fst r2) /\
  packageid_to_uuids (fst r1) = packageid_to_uuids (fst r2) /\
  emitted (fst r1) = emitted st1.
Proof.
  intros Hs Hi. unfold purge_uuid, process_deletion, bind, get_state.
  rewrite Hs, Hi.
  destruct (dget u (internal_local_metadata st2)) as [m|]; [|simpl; tauto].
  unfold modify at 1. unfold modify at 2.
  destruct (negb (String.eqb (packageid m) "")); [|simpl; rewrite Hs, Hi; tauto].
  destruct (packageid_to_uuids st2 !! packageid m) as [g|];
    [|simpl; rewrite Hs, Hi; tauto].
  destruct (bool_decide (g = ∅)); [simpl; rewrite Hs, Hi; tauto|].
  destruct (bool_decide (u ∈ g)); simpl; rewrite Hs, ?Hi; tauto.
Qed.

Lemma for_each_purge_deletion uuids st1 st2 :
  internal_local_metadata st1 = internal_local_metadata st2 ->
  packageid_to_uuids st1 = packageid_to_uuids st2 ->
  let r1 := for_each uuids purge_uuid st1 in
  let r2 := for_each uuids process_deletion st2 in
  snd r1 = snd r2 /\
  internal_local_metadata (fst r1) = internal_local_metadata (fst r2) /\
  packageid_to_uuids (fst r1) = packageid_to_uuids (fst r2) /\
  emitted (fst r1) = emitted st1.
Proof.
  revert st1 st2. induction uuids as [|u uuids IH]; intros st1 st2 Hs Hi.
  - simpl. tauto.
  - cbv zeta. simpl for_each. unfold bind.
    destruct (purge_uuid_deletion u st1 st2 Hs Hi) as (R & S & I & E).
    destruct (purge_uuid u st1) as [s1 r1].
    destruct (process_deletion u st2) as [s2 r2]. simpl in R, S, I, E.
    subst r2. destruct r1 as [[]|e]; [|simpl; tauto].
    destruct (IH s1 s2 S I) as (R' & S' & I' & E').
    split; [exact R'|]. split; [exact S'|]. split; [exact I'|]. congruence.
Qed.

End Deletion.

(** X7. On a manager whose index agrees with its store,
    [process_deletion] returns: the record is out of the store, every
    other record is where it was, the uuid is out of the group of its
    package id so that index and store still agree, and [mod_deleted] is
    emitted exactly when the record existed. *)
Theorem process_deletion_keeps_index :
  forall (uuid : string) (st : Metadata.Manager),
    StoreSpec.indexed st ->
    exists st',
      Metadata.process_deletion uuid st = (st', Ok tt) /\
      Py.dget uuid (Metadata.internal_local_metadata st') = None /\
      (forall u, u <> uuid ->
         Py.dget u (Metadata.internal_local_metadata st')
         = Py.dget u (Metadata.internal_local_metadata st)) /\
      StoreSpec.indexed st' /\
      Metadata.emitted st'
      = (if Py.dmem uuid (Metadata.internal_local_metadata st)
         then Metadata.emitted st ++ [Metadata.mod_deleted uuid]
         else Metadata.emitted st).
Proof. intros uuid st. apply process_deletion_indexed. Qed.

Lemma process_deletion_keeps_index_witness :
  exists st',
    Metadata.process_deletion "uB" Examples.st_abc = (st', Ok tt) /\
    Py.dget "uB" (Metadata.internal_local_metadata st') = None /\
    (forall u, u <> "uB" ->
       Py.dget u (Metadata.internal_local_metadata st')
       = Py.dget u (Metadata.internal_local_metadata Examples.st_abc)) /\
    StoreSpec.indexed st' /\
    Metadata.emitted st'
    = (if Py.dmem "uB" (Metadata.internal_local_metadata Examples.st_abc)
       then Metadata.emitted Examples.st_abc ++ [Metadata.mod_deleted "uB"]
       else Metadata.emitted Examples.st_abc).
Proof.
  apply (process_deletion_keeps_index "uB" Examples.st_abc).
  apply index_of_indexed; [vm_compute; reflexivity|].
  apply distinct_NoDup. reflexivity.
Defined.

(** X8. A record whose uuid is missing from the non-empty group of its
    package id: [process_deletion] raises [KeyError] when the record has
    already left the store; the index is as it was and no signal is
    emitted. *)
Theorem process_deletion_unindexed_uuid :
  forall (uuid : string) (st : Metadata.Manager) (m : Metadata.Mod)
         (g : gset string),
    Py.dget uuid (Metadata.internal_local_metadata st) = Some m ->
    Metadata.packageid m <> "" ->
    Metadata.packageid_to_uuids st !! Metadata.packageid m = Some g ->
    g <> ∅ -> uuid ∉ g ->
    exists st',
      Metadata.process_deletion uuid st = (st', Raise KeyError) /\
      Py.dget uuid (Metadata.internal_local_metadata st') = None /\
      Metadata.packageid_to_uuids st' = Metadata.packageid_to_uuids st /\
      Metadata.emitted st' = Metadata.emitted st.
Proof. intros uuid st m g. apply process_deletion_raises. Qed.

Lemma process_deletion_unindexed_uuid_witness :
  exists st',
    Metadata.process_deletion "uB"
      (Examples.manager Examples.store_abc {[ "b" := {["uX"]} ]} "1.4.3600")
    = (st', Raise KeyError) /\
    Py.dget "uB" (Metadata.internal_local_metadata st') = None /\
    Metadata.packageid_to_uuids st'
    = Metadata.packageid_to_uuids
        (Examples.manager Examples.store_abc {[ "b" := {["uX"]} ]} "1.4.3600") /\
    Metadata.emitted st'
    = Metadata.emitted
        (Examples.manager Examples.store_abc {[ "b" := {["uX"]} ]} "1.4.3600").
Proof.
  apply (process_deletion_unindexed_uuid "uB"
           (Examples.manager Examples.store_abc {[ "b" := {["uX"]} ]} "1.4.3600")
           Examples.mod_b {["uX"]}).
  - reflexivity.
  - discriminate.
  - vm_compute. reflexivity.
  - set_solver.
  - set_solver.
Defined.

(** X9. On a manager whose index agrees with its store,
    [purge_by_data_source] returns: the records of the data source whose
    uuid is not in the batch are gone (all records of the data source for
    an empty batch), the other records stay in their order, index and
    store still agree and no signal is emitted. *)
Theorem purge_by_data_source_removes :
  forall (data_source : string) (batch : list string) (st : Metadata.Manager),
    StoreSpec.indexed st ->
    MergeSpec.distinct (Py.dkeys (Metadata.internal_local_metadata st)) = true ->
    exists st',
      Refresh.purge_by_data_source data_source batch st = (st', Ok tt) /\
      Metadata.internal_local_metadata st'
      = List.filter
          (fun um => negb (String.eqb (Metadata.data_source (snd um)) data_source
                           && negb (Py.str_in (fst um) batch)))
          (Metadata.internal_local_metadata st) /\
      StoreSpec.indexed st' /\
      Metadata.emitted st' = Metadata.emitted st.
Proof.
  intros ds batch st Hidx Hnd. apply purge_by_data_source_indexed; [exact Hidx|].
  apply distinct_NoDup, Hnd.
Qed.

Lemma purge_by_data_source_removes_witness :
  exists st',
    Refresh.purge_by_data_source "workshop" ["uC"] Examples.st_abc = (st', Ok tt) /\
    Metadata.internal_local_metadata st'
    = List.filter
        (fun um => negb (String.eqb (Metadata.data_source (snd um)) "workshop"
                         && negb (Py.str_in (fst um) ["uC"])))
        (Metadata.internal_local_metadata Examples.st_abc) /\
    StoreSpec.indexed st' /\
    Metadata.emitted st' = Metadata.emitted Examples.st_abc.
Proof.
  apply (purge_by_data_source_removes "workshop" ["uC"] Examples.st_abc).
  - apply index_of_indexed; [vm_compute; reflexivity|].
    apply distinct_NoDup. reflexivity.
  - reflexivity.
Defined.

(** X10. A purge is the deletion of each record it selects, less the
    signals: [purge_by_data_source] and [process_deletion] applied to the
    selected uuids in order return or raise alike and leave the same store
    and the same index; the purge emits nothing. *)
Theorem purge_is_silent_deletion :
  forall (data_source : string) (batch : list string) (st : Metadata.Manager),
    let uuids :=
      Refresh.uuids_to_remove data_source batch
                              (Metadata.internal_local_metadata st) in
    let purged := Refresh.purge_by_data_source data_source batch st in
    let deleted := Metadata.for_each uuids Metadata.process_deletion st in
    snd purged = snd deleted /\
    Metadata.internal_local_metadata (fst purged)
    = Metadata.internal_local_metadata (fst deleted) /\
    Metadata.packageid_to_uuids (fst purged)
    = Metadata.packageid_to_uuids (fst deleted) /\
    Metadata.emitted (fst purged) = Metadata.emitted st.
Proof.
  intros ds batch st. cbv zeta. rewrite purge_by_data_source_for_each.
  apply (for_each_purge_deletion _ st st); reflexivity.
Qed.

(** ** What the compiler leaves alone *)

(** X11. Whether it returns or raises, [compile_metadata] leaves the
    store with the same uuids in the same order, every record with its
    package id, data source, path, PublishedFileId and parsed descriptor,
    and the package index and the game version as they were. *)
Theorem compile_metadata_keeps_records :
  forall (uuids : list string) (st : Metadata.Manager),
    let st' := fst (Metadata.compile_metadata uuids st) in
    Py.dkeys (Metadata.internal_local_metadata st')
    = Py.dkeys (Metadata.internal_local_metadata st) /\
    Metadata.packageid_to_uuids st' = Metadata.packageid_to_uuids st /\
    Metadata.game_version st' = Metadata.game_version st /\
    (forall u m,
       Py.dget u (Metadata.internal_local_metadata st) = Some m ->
       exists m',
         Py.dget u (Metadata.internal_local_metadata st') = Some m' /\
         Metadata.packageid m' = Metadata.packageid m /\
         Metadata.data_source m' = Metadata.data_source m /\
         Metadata.path m' = Metadata.path m /\
         Metadata.publishedfileid m' = Metadata.publishedfileid m /\
         Metadata.about m' = Metadata.about m).
Proof.
  intros uuids st. cbv zeta.
  pose proof (steady_compile_metadata uuids st) as E.
  destruct E as (Hs & Hi & Hv & _).
  split; [eapply entries_evolve_keys, Hs|]. split; [exact Hi|].
  split; [exact Hv|]. intros u m Hg.
  pose proof (entries_evolve_dget _ _ _ u Hs) as H. rewrite Hg in H.
  destruct H as (m' & Hg' & H1 & H2 & H3 & H4 & H5 & _).
  exists m'. repeat split; assumption.
Qed.

(** X12. Whether it returns or raises, [compile_metadata] only adds to
    the derived sets of a record: the dependencies, the incompatibilities
    and the rule set under every key contain what they held before, so a
    relation compiled earlier stays after a recompile. *)
Theorem compile_metadata_only_adds :
  forall (uuids : list string) (st : Metadata.Manager) (u : string)
         (m : Metadata.Mod),
    Py.dget u (Metadata.internal_local_metadata st) = Some m ->
    exists m',
      Py.dget u (Metadata.internal_local_metadata
                   (fst (Metadata.compile_metadata uuids st))) = Some m' /\
      Metadata.dependencies m ⊆ Metadata.dependencies m' /\
      Metadata.incompatibilities m ⊆ Metadata.incompatibilities m' /\
      (forall key, Metadata.rules_of m key ⊆ Metadata.rules_of m' key).
Proof.
  intros uuids st u m Hg.
  pose proof (steady_compile_metadata uuids st) as E.
  destruct E as (Hs & _).
  pose proof (entries_evolve_dget _ _ _ u Hs) as H. rewrite Hg in H.
  destruct H as (m' & Hg' & _ & _ & _ & _ & _ & H6 & H7 & _ & H9).
  exists m'. repeat split; assumption.
Qed.

Lemma compile_metadata_only_adds_witness :
  exists m',
    Py.dget "uA" (Metadata.internal_local_metadata
                    (fst (Metadata.compile_metadata [] Examples.st_abc)))
    = Some m' /\
    Metadata.dependencies Examples.mod_a ⊆ Metadata.dependencies m' /\
    Metadata.incompatibilities Examples.mod_a ⊆ Metadata.incompatibilities m' /\
    (forall key, Metadata.rules_of Examples.mod_a key ⊆ Metadata.rules_of m' key).
Proof.
  apply (compile_metadata_only_adds [] Examples.st_abc "uA" Examples.mod_a).
  reflexivity.
Defined.

(** ** Relations kept by the compiler *)

Create HintDb keeps.

Section KeepingFacts.
Import Py Metadata Keeping.
Local Open Scope py_scope.

Variable Qm : Mod -> Mod -> Prop.
Variable idx : gmap string (gset string).
Variable pids : list string.
Hypothesis Qm_refl : forall m, Qm m m.
Hypothesis Qm_trans : forall m1 m2 m3, Qm m1 m2 -> Qm m2 m3 -> Qm m1 m3.
Hypothesis Qm_packageid : forall m m', Qm m m' -> packageid m' = packageid m.

Lemma lifted_refl s : lifted Qm s s.
Proof. induction s; constructor; auto. Qed.

Lemma lifted_trans s1 s2 s3 :
  lifted Qm s1 s2 -> lifted Qm s2 s3 -> lifted Qm s1 s3.
Proof.
  intros H. revert s3. induction H as [|x y s1 s2 [E Q] H IH]; intros s3 H3.
  - inversion H3. constructor.
  - inversion H3 as [|? z ? s3' [E' Q'] H3']; subst. constructor.
    + split; [congruence | eapply Qm_trans; eassumption].
    + apply IH, H3'.
Qed.

Lemma lifted_pids s s' : lifted Qm s s' -> all_package_ids s' = all_package_ids s.
Proof.
  induction 1 as [|x y s s' [E Q] H IH]; [reflexivity|].
  unfold all_package_ids in *. simpl. rewrite IH, (Qm_packageid _ _ Q). reflexivity.
Qed.

Lemma lifted_dget s s' u m :
  lifted Qm s s' -> dget u s = Some m ->
  exists m', dget u s' = Some m' /\ Qm m m'.
Proof.
  induction 1 as [|[k v] [k' v'] s s' [E Q] H IH]; simpl; [discriminate|].
  simpl in E, Q. subst k'. destruct (String.eqb u k); [|exact IH].
  intros [= <-]. eauto.
Qed.

Lemma lifted_dset s u m m' :
  dget u s = Some m -> Qm m m' -> lifted Qm s (dset u m' s).
Proof.
  induction s as [|[k v] s IH]; simpl; [discriminate|].
  destruct (String.eqb u k).
  - intros [= ->] Q. constructor; [split; [reflexivity | exact Q]|].
    apply lifted_refl.
  - intros Hg Q. constructor; [split; [reflexivity | apply Qm_refl]|].
    apply IH; assumption.
Qed.

Lemma related_refl st : related Qm st st.
Proof. split; [reflexivity | apply lifted_refl]. Qed.

Lemma related_trans st1 st2 st3 :
  related Qm st1 st2 -> related Qm st2 st3 -> related Qm st1 st3.
Proof.
  intros [A1 A2] [B1 B2]. split; [congruence | eapply lifted_trans; eassumption].
Qed.

Lemma based_related st st' :
  based idx pids st -> related Qm st st' -> based idx pids st'.
Proof.
  intros [B1 B2] [R1 R2]. split; [congruence|].
  rewrite (lifted_pids _ _ R2). exact B2.
Qed.

#[local] Abbreviation keeps := (Keeping.keeps Qm idx pids).

Lemma keeps_ret {A} (a : A) : keeps (ret a).
Proof. intros st _. apply related_refl. Qed.

Lemma keeps_skip : keeps skip.
Proof. apply keeps_ret. Qed.

Lemma keeps_raise {A} e : keeps (@raise A e).
Proof. intros st _. apply related_refl. Qed.

Lemma keeps_lift {A} (r : result A) : keeps (lift r).
Proof. intros st _. apply related_refl. Qed.

Lemma keeps_get_state : keeps get_state.
Proof. intros st _. apply related_refl. Qed.

Lemma keeps_bind {A B} (m : M A) (k : A -> M B) :
  keeps m -> (forall a, keeps (k a)) -> keeps (bind m k).
Proof.
  intros Hm Hk st Hst. unfold bind. specialize (Hm st Hst).
  destruct (m st) as [st1 [a|e]]; simpl in *; [|exact Hm].
  eapply related_trans; [exact Hm|]. apply Hk. eapply based_related; eassumption.
Qed.

(** The continuation of [get_state] runs on the state it was given. *)
Lemma keeps_bind_state {B} (k : Manager -> M B) :
  (forall st, based idx pids st -> related Qm st (fst (k st st))) ->
  keeps (bind get_state k).
Proof. intros Hk st Hst. apply Hk, Hst. Qed.

(** The continuation of [the_mod] runs on a record of the store. *)
Lemma keeps_bind_mod {B} uuid (k : Mod -> M B) :
  (forall m, In (packageid m) pids -> keeps (k m)) ->
  keeps (bind (the_mod uuid) k).
Proof.
  intros Hk st Hst. unfold bind, the_mod at 1, bind, get_state.
  destruct (dget uuid (internal_local_metadata st)) as [m|] eqn:Hg;
    [|apply related_refl].
  apply Hk; [|exact Hst]. destruct Hst as [_ <-]. unfold all_package_ids.
  apply dget_some_In in Hg.
  apply (in_map (fun um => packageid (snd um)) _ (uuid, m)). exact Hg.
Qed.

Lemma keeps_for_each {X} (l : list X) (body : X -> M unit) :
  (forall x, In x l -> keeps (body x)) -> keeps (for_each l body).
Proof.
  induction l as [|x l IH]; intros Hb; simpl.
  - apply keeps_ret.
  - apply keeps_bind; [apply Hb; left; reflexivity|].
    intros _. apply IH. intros y Hy. apply Hb. right. exact Hy.
Qed.

Lemma keeps_the_mod uuid : keeps (the_mod uuid).
Proof.
  intros st _. unfold the_mod, bind, get_state.
  destruct (dget uuid (internal_local_metadata st)); apply related_refl.
Qed.

Lemma keeps_names f : keeps (modify (set_steamdb_names f)).
Proof.
  intros st _. unfold modify. simpl. split; [reflexivity | apply lifted_refl].
Qed.

Lemma keeps_update_mod uuid f :
  (forall m, Qm m (f m)) -> keeps (update_mod uuid f).
Proof.
  intros Hf st _. unfold update_mod, bind, get_state.
  destruct (dget uuid (internal_local_metadata st)) as [m|] eqn:Hg; simpl;
    [|apply related_refl].
  split; [reflexivity|]. simpl. apply lifted_dset with (m := m); [exact Hg | apply Hf].
Qed.


Hypothesis keep_dependency : forall dep m, Qm m (add_dependency dep m).
Hypothesis keep_incompatibility : forall dep m, Qm m (add_incompatibility dep m).
Hypothesis keep_setdefault : forall key m, Qm m (setdefault_rules key m).
Hypothesis keep_rule :
  forall key rule m, nameable idx pids rule -> Qm m (add_rule key rule m).

Lemma keeps_update_dependency uuid dep :
  keeps (update_mod uuid (add_dependency dep)).
Proof. apply keeps_update_mod, keep_dependency. Qed.

Lemma keeps_update_incompatibility uuid dep :
  keeps (update_mod uuid (add_incompatibility dep)).
Proof. apply keeps_update_mod, keep_incompatibility. Qed.

Lemma keeps_update_setdefault uuid key :
  keeps (update_mod uuid (setdefault_rules key)).
Proof. apply keeps_update_mod, keep_setdefault. Qed.

Lemma keeps_update_rule uuid key rule :
  nameable idx pids rule -> keeps (update_mod uuid (add_rule key rule)).
Proof. intros H. apply keeps_update_mod. intros m. apply keep_rule, H. Qed.

Hint Resolve keeps_ret keeps_skip keeps_raise keeps_lift keeps_get_state
  keeps_the_mod keeps_names keeps_update_dependency
  keeps_update_incompatibility keeps_update_setdefault : keeps.

Ltac keeps_step :=
  first
    [ solve [auto with keeps]
    | apply keeps_for_each; intros ? _
    | apply keeps_bind; [|intros ?]
    | match goal with
      | |- Keeping.keeps _ _ _ (match ?x with _ => _ end) => destruct x
      | |- Keeping.keeps _ _ _ (if ?b then _ else _) => destruct b
      end ].

Ltac keeps_tac := repeat keeps_step.

Lemma keeps_add_load_rule_to_mod uuid x ek ik :
  keeps (add_load_rule_to_mod uuid x ek ik).
Proof.
  unfold add_load_rule_to_mod. apply keeps_bind_mod. intros mod_data Hpid.
  apply keeps_bind; [auto with keeps|]. intros [deps|]; [|auto with keeps].
  apply keeps_bind; [auto with keeps|]. intros _.
  apply keeps_for_each. intros dep _. apply keeps_bind_state. intros st Hst.
  destruct Hst as [Hi Hp]. pose proof (conj Hi Hp : based idx pids st) as Hst.
  destruct (packageid_to_uuids st !! dep) as [grp|] eqn:Hg;
    [|apply related_refl].
  refine (keeps_bind _ _ _ _ st Hst).
  - apply keeps_update_rule. left. split; [reflexivity|]. simpl.
    rewrite <- Hi, Hg. eauto.
  - intros _. apply keeps_for_each. intros dep_uuid _.
    apply keeps_update_rule. right. split; [reflexivity | exact Hpid].
Qed.

Lemma keeps_add_dependency_to_mod uuid x : keeps (add_dependency_to_mod uuid x).
Proof. unfold add_dependency_to_mod. keeps_tac. Qed.

Lemma keeps_add_incompatibility_to_mod uuid x :
  keeps (add_incompatibility_to_mod uuid x).
Proof. unfold add_incompatibility_to_mod. keeps_tac. Qed.

Hint Resolve keeps_add_load_rule_to_mod keeps_add_dependency_to_mod
  keeps_add_incompatibility_to_mod : keeps.

Lemma keeps_process_dependencies uuid x : keeps (process_dependencies uuid x).
Proof. unfold process_dependencies. keeps_tac. Qed.

Lemma keeps_process_incompatibilities uuid x :
  keeps (process_incompatibilities uuid x).
Proof. unfold process_incompatibilities. keeps_tac. Qed.

Lemma keeps_process_load_order uuid x rt ort :
  keeps (process_load_order uuid x rt ort).
Proof. unfold process_load_order. keeps_tac. Qed.

Hint Resolve keeps_process_dependencies keeps_process_incompatibilities
  keeps_process_load_order : keeps.

Lemma keeps_for_matching_versions regex by_version body :
  (forall data, keeps (body data)) ->
  keeps (for_matching_versions regex by_version body).
Proof. intros Hb. unfold for_matching_versions. keeps_tac. Qed.

Lemma keeps_load_order_block uuid m key rt ort :
  keeps (load_order_block uuid m key rt ort).
Proof. unfold load_order_block. keeps_tac. Qed.

Lemma keeps_load_order_by_version_body uuid rt ort by_ver :
  keeps (load_order_by_version_body uuid rt ort by_ver).
Proof. unfold load_order_by_version_body. keeps_tac. Qed.

Hint Resolve keeps_load_order_block keeps_load_order_by_version_body : keeps.

Lemma keeps_compile_mod uuid : keeps (compile_mod uuid).
Proof.
  unfold compile_mod. keeps_tac;
    try (apply keeps_for_matching_versions; intros ?; keeps_tac).
Qed.

Lemma keeps_track_uuids pfid mod_data uuids t :
  keeps (track_uuids pfid mod_data uuids t).
Proof.
  revert t. induction uuids as [|u uuids IH]; intros t; simpl; [auto with keeps|].
  apply keeps_bind; [|intros ?; apply IH].
  unfold track_uuid. keeps_tac.
Qed.

Lemma keeps_steamdb_entries entries locals :
  keeps (steamdb_entries entries locals).
Proof.
  revert locals. induction entries as [|[pfid mod_data] entries IH];
    intros locals; simpl; [auto with keeps|].
  apply keeps_bind; [|intros ?; apply IH].
  unfold steamdb_entry. destruct locals as [ids tracking].
  keeps_tac. apply keeps_track_uuids.
Qed.

Lemma keeps_compile_steamdb : keeps compile_steamdb.
Proof.
  unfold compile_steamdb. apply keeps_bind; [auto with keeps|]. intros st.
  destruct (external_steam_metadata st) as [|e es]; [auto with keeps|].
  apply keeps_bind; [apply keeps_steamdb_entries|]. intros [ids tracking].
  unfold add_dependency_to_mod_from_steamdb. keeps_tac.
Qed.

Lemma keeps_apply_bucket rule_data bucket uuids rt ort :
  keeps (apply_bucket rule_data bucket uuids rt ort).
Proof. unfold apply_bucket. keeps_tac. Qed.

Hint Resolve keeps_apply_bucket : keeps.

Lemma keeps_process_external_rules rules rt ort :
  keeps (process_external_rules rules rt ort).
Proof. unfold process_external_rules. keeps_tac. Qed.

Lemma keeps_compile_rules rules : keeps (compile_rules rules).
Proof.
  unfold compile_rules. destruct rules; [auto with keeps|].
  apply keeps_bind; [|intros ?]; apply keeps_process_external_rules.
Qed.

Lemma keeps_compile_metadata uuids : keeps (compile_metadata uuids).
Proof.
  unfold compile_metadata. apply keeps_bind; [auto with keeps|]. intros st.
  apply keeps_bind; [apply keeps_for_each; intros ? _; apply keeps_compile_mod|].
  intros _. apply keeps_bind; [apply keeps_compile_steamdb|]. intros _.
  apply keeps_bind.
  - apply keeps_bind; [auto with keeps|]. intros ?. apply keeps_compile_rules.
  - intros _. apply keeps_bind; [auto with keeps|]. intros ?.
    apply keeps_compile_rules.
Qed.

End KeepingFacts.

Section RuleNames.
Import Py Metadata Keeping.

Lemma names_rules_refl idx pids m : names_rules idx pids m m.
Proof. split; [reflexivity | intros; left; assumption]. Qed.

Lemma names_rules_trans idx pids m1 m2 m3 :
  names_rules idx pids m1 m2 -> names_rules idx pids m2 m3 ->
  names_rules idx pids m1 m3.
Proof.
  intros [A1 A2] [B1 B2]. split; [congruence|].
  intros key rule H. destruct (B2 key rule H) as [H'|H']; [|right; exact H'].
  apply A2, H'.
Qed.

Lemma compile_metadata_names_rules uuids st :
  related (names_rules (packageid_to_uuids st)
                       (all_package_ids (internal_local_metadata st)))
          st (fst (compile_metadata uuids st)).
Proof.
  set (idx := packageid_to_uuids st).
  set (pids := all_package_ids (internal_local_metadata st)).
  apply (keeps_compile_metadata (names_rules idx pids) idx pids).
  - apply names_rules_refl.
  - apply names_rules_trans.
  - intros m m' [H _]. exact H.
  - intros dep m. split; [reflexivity | intros key rule H; left; exact H].
  - intros dep m. split; [reflexivity | intros key rule H; left; exact H].
  - intros key m. split; [reflexivity|]. intros key' rule.
    rewrite rules_of_setdefault. auto.
  - intros key rule m Hn. split; [reflexivity|]. intros key' rule'.
    rewrite rules_of_add_rule. destruct (decide (key = key')); [|auto].
    intros H. apply elem_of_union in H as [H|H]; [|auto].
    apply elem_of_singleton in H. subst. auto.
  - split; reflexivity.
Qed.

End RuleNames.

(** X13. Whether it returns or raises, [compile_metadata] adds to the
    rule sets of a record only explicit tuples that name a key of the
    package index and implied tuples that carry the package id of a record
    of the store. *)
Theorem compile_metadata_rule_tuples :
  forall (uuids : list string) (st : Metadata.Manager) (u : string)
         (m : Metadata.Mod),
    Py.dget u (Metadata.internal_local_metadata st) = Some m ->
    exists m',
      Py.dget u (Metadata.internal_local_metadata
                   (fst (Metadata.compile_metadata uuids st))) = Some m' /\
      forall (key name : string) (explicit : bool),
        (name, explicit) ∈ Metadata.rules_of m' key ->
        (name, explicit) ∈ Metadata.rules_of m key \/
        (explicit = true /\ is_Some (Metadata.packageid_to_uuids st !! name)) \/
        (explicit = false /\
         In name (Metadata.all_package_ids (Metadata.internal_local_metadata st))).
Proof.
  intros uuids st u m Hg.
  destruct (compile_metadata_names_rules uuids st) as [_ Hl].
  destruct (lifted_dget _ _ _ _ _ Hl Hg) as (m' & Hg' & _ & Hr).
  exists m'. split; [exact Hg'|]. intros key name explicit H.
  destruct (Hr key (name, explicit) H) as [H'|H']; [left; exact H'|].
  right. exact H'.
Qed.

Lemma compile_metadata_rule_tuples_witness :
  exists m',
    Py.dget "uA" (Metadata.internal_local_metadata
                    (fst (Metadata.compile_metadata [] Examples.st_abc)))
    = Some m' /\
    forall (key name : string) (explicit : bool),
      (name, explicit) ∈ Metadata.rules_of m' key ->
      (name, explicit) ∈ Metadata.rules_of Examples.mod_a key \/
      (explicit = true /\
       is_Some (Metadata.packageid_to_uuids Examples.st_abc !! name)) \/
      (explicit = false /\
       In name (Metadata.all_package_ids
                  (Metadata.internal_local_metadata Examples.st_abc))).
Proof.
  apply (compile_metadata_rule_tuples [] Examples.st_abc "uA" Examples.mod_a).
  reflexivity.
Defined.

Section PlainDependencies.
Import Py Metadata Keeping.
Local Open Scope py_scope.

Variables (idx : gmap string (gset string)) (pids : list string).
#[local] Abbreviation keeps_deps := (Keeping.keeps same_dependencies idx pids).

Lemma same_dependencies_refl m : same_dependencies m m.
Proof. split; reflexivity. Qed.

Lemma same_dependencies_trans m1 m2 m3 :
  same_dependencies m1 m2 -> same_dependencies m2 m3 -> same_dependencies m1 m3.
Proof. intros [A1 A2] [B1 B2]. split; congruence. Qed.

Lemma same_dependencies_packageid m m' :
  same_dependencies m m' -> packageid m' = packageid m.
Proof. intros [H _]. exact H. Qed.

Ltac deps_side :=
  first [ exact same_dependencies_refl | exact same_dependencies_trans
        | exact same_dependencies_packageid ].

Lemma load_rule_keeps_dependencies uuid x ek ik :
  keeps_deps (add_load_rule_to_mod uuid x ek ik).
Proof.
  apply keeps_add_load_rule_to_mod.
  - apply same_dependencies_refl.
  - apply same_dependencies_trans.
  - apply same_dependencies_packageid.
  - intros key m. split; reflexivity.
  - intros key rule m _. split; reflexivity.
Qed.

Lemma plain_id_keeps_dependencies uuid package_id :
  is_list package_id = false -> is_dict package_id = false ->
  keeps_deps (add_dependency_to_mod uuid package_id).
Proof.
  intros Hl Hd. unfold add_dependency_to_mod.
  apply keeps_bind; try deps_side.
  - apply keeps_the_mod. apply same_dependencies_refl.
  - intros _. destruct package_id; try discriminate;
      apply keeps_skip, same_dependencies_refl.
Qed.

Lemma process_dependencies_keeps_dependencies uuid l :
  forallb plain_package_id l = true ->
  keeps_deps (process_dependencies uuid (VList l)).
Proof.
  intros Hall. unfold process_dependencies.
  apply keeps_for_each; try deps_side.
  intros dependency Hin.
  assert (Hp : plain_package_id dependency = true).
  { rewrite forallb_forall in Hall. apply Hall, Hin. }
  destruct dependency as [| | | | |d];
    try (apply keeps_skip, same_dependencies_refl).
  destruct (dmem "packageId" d); [|apply keeps_skip, same_dependencies_refl].
  unfold plain_package_id in Hp.
  destruct (dget "packageId" d) as [package_id|]; simpl default;
    [|apply keeps_skip, same_dependencies_refl].
  apply andb_true_iff in Hp as [Hl Hd].
  apply negb_true_iff in Hl. apply negb_true_iff in Hd.
  destruct (truthy package_id); [|apply keeps_skip, same_dependencies_refl].
  apply keeps_bind; try deps_side.
  - apply plain_id_keeps_dependencies; assumption.
  - intros _. apply keeps_bind; try deps_side.
    + apply keeps_get_state, same_dependencies_refl.
    + intros st. destruct (dependency_for_sorting st).
      * apply load_rule_keeps_dependencies.
      * apply keeps_skip, same_dependencies_refl.
Qed.

End PlainDependencies.

(** X14. A dependency entry whose [packageId] is a plain value (a string
    in a well-formed descriptor) adds nothing to the [dependencies] of any
    record: [process_dependencies] hands that value to
    [add_dependency_to_mod], which records dictionaries and lists of
    dictionaries only. *)
Theorem plain_dependencies_not_recorded :
  forall (uuid : string) (l : list pyval) (st : Metadata.Manager) (u : string)
         (m : Metadata.Mod),
    forallb Keeping.plain_package_id l = true ->
    Py.dget u (Metadata.internal_local_metadata st) = Some m ->
    exists m',
      Py.dget u (Metadata.internal_local_metadata
                   (fst (Metadata.process_dependencies uuid (VList l) st)))
      = Some m' /\
      Metadata.dependencies m' = Metadata.dependencies m.
Proof.
  intros uuid l st u m Hall Hg.
  destruct (process_dependencies_keeps_dependencies
              (Metadata.packageid_to_uuids st)
              (Metadata.all_package_ids (Metadata.internal_local_metadata st))
              uuid l Hall st) as [_ Hl]; [split; reflexivity|].
  destruct (lifted_dget Keeping.same_dependencies _ _ _ _ Hl Hg)
    as (m' & Hg' & _ & Hd).
  exists m'. split; assumption.
Qed.

Lemma plain_dependencies_not_recorded_witness :
  exists m',
    Py.dget "uA"
      (Metadata.internal_local_metadata
         (fst (Metadata.process_dependencies "uA"
                 (VList [VDict [("packageId", VStr "B")]]) Examples.st_abc)))
    = Some m' /\
    Metadata.dependencies m' = Metadata.dependencies Examples.mod_a.
Proof.
  apply (plain_dependencies_not_recorded "uA" [VDict [("packageId", VStr "B")]]
           Examples.st_abc "uA" Examples.mod_a); reflexivity.
Defined.

(** ** The active-list builder: duplicates and the active list *)

Section Duplicates.
Import Py Metadata Resolver ResolverSpec.

Variable all_mods : dict Mod.

(** The uuids of the records that carry package id [p], in store order. *)
#[local] Abbreviation carriers := (fun (s : dict Mod) (p : string) =>
  dkeys (List.filter (fun um => String.eqb (packageid (snd um)) p) s)).

#[local] Abbreviation group_step := (fun (acc : dict (list string)) (um : string * Mod) =>
  dset (packageid (snd um))
       (default [] (dget (packageid (snd um)) acc) ++ [fst um]) acc).

Lemma grouped_dget (s : dict Mod) acc p :
  dget p (fold_left group_step s acc)
  = match dget p acc, carriers s p with
    | Some l, us => Some (l ++ us)
    | None, [] => None
    | None, us => Some us
    end.
Proof.
  revert acc. induction s as [|[u m] s IH]; intros acc.
  - simpl. destruct (dget p acc); [rewrite app_nil_r|]; reflexivity.
  - cbn [fold_left]. rewrite IH. cbn [List.filter fst snd].
    destruct (String.eqb_spec (packageid m) p) as [E|Hne].
    + subst p. rewrite dget_dset_eq. cbn [dkeys map fst].
      destruct (dget (packageid m) acc) as [l|]; cbn [default from_option id].
      * rewrite <- app_assoc. reflexivity.
      * reflexivity.
    + rewrite dget_dset_ne by exact Hne. reflexivity.
Qed.

Lemma grouped_NoDup (s : dict Mod) acc :
  List.NoDup (dkeys acc) -> List.NoDup (dkeys (fold_left group_step s acc)).
Proof.
  revert acc. induction s as [|um s IH]; intros acc H; [exact H|].
  cbn [fold_left]. apply IH, NoDup_dset, H.
Qed.

Lemma duplicate_mods_dget p :
  dget p (duplicate_mods all_mods)
  = if 1 <? length (carriers all_mods p) then Some (carriers all_mods p) else None.
Proof.
  unfold duplicate_mods.
  rewrite dget_filter by (apply grouped_NoDup; constructor).
  rewrite grouped_dget. cbn [dget].
  destruct (carriers all_mods p) as [|u us]; [reflexivity|]. reflexivity.
Qed.

Lemma carriers_In (s : dict Mod) p u :
  In u (carriers s p) <-> exists m, In (u, m) s /\ packageid m = p.
Proof.
  unfold dkeys. rewrite in_map_iff. split.
  - intros ([u' m] & E & Hin). simpl in E. subst u'.
    apply filter_In in Hin as [Hin Hp]. apply String.eqb_eq in Hp. eauto.
  - intros (m & Hin & Hp). exists (u, m). split; [reflexivity|].
    apply filter_In. split; [exact Hin|]. apply String.eqb_eq. exact Hp.
Qed.

End Duplicates.

Section Priority.
Import Py Metadata Resolver ResolverSpec.

Lemma insert_sorted_In x y l :
  In y (Natsort.insert_sorted x l) <-> y = x \/ In y l.
Proof.
  induction l as [|z l IH]; simpl.
  - split; [intros [<-|[]]; left; reflexivity | intros [->|[]]; left; reflexivity].
  - destruct (Natsort.key_leb x z); simpl.
    + split; [intros [<-|H]; [left; reflexivity | right; exact H]
             | intros [->|H]; [left; reflexivity | right; exact H]].
    + rewrite IH. split.
      * intros [<-|[->|H]]; [right; left; reflexivity | left; reflexivity
                            | right; right; exact H].
      * intros [->|[<-|H]]; [right; left; reflexivity | left; reflexivity
                            | right; right; exact H].
Qed.

Lemma natsorted_In y l : In y (Natsort.natsorted l) <-> In y l.
Proof.
  unfold Natsort.natsorted. induction l as [|x l IH]; simpl; [tauto|].
  rewrite insert_sorted_In, IH. split; intros [H|H]; auto.
Qed.

Variable all_mods : dict Mod.

(** A duplicate whose record comes from [source]. *)
#[local] Abbreviation from_source := (fun (source u : string) =>
  match dget u all_mods with
  | Some m => Str.contains source (data_source m)
  | None => false
  end).

#[local] Abbreviation path_step := (fun (source : string) (acc : dict string) (u : string) =>
  match dget u all_mods with
  | Some m => if Str.contains source (data_source m)
              then dset (path m) u acc else acc
  | None => acc
  end).

Lemma paths_fold_sound source us acc pth u :
  dget pth (fold_left (path_step source) us acc) = Some u ->
  dget pth acc = Some u \/ (In u us /\ from_source source u = true).
Proof.
  revert acc. induction us as [|u0 us IH]; intros acc; cbn [fold_left];
    [left; assumption|].
  intros H. apply IH in H as [H|[H1 H2]]; [|right; split; [right|]; assumption].
  destruct (dget u0 all_mods) as [m|] eqn:Hm; [|left; exact H].
  destruct (Str.contains source (data_source m)) eqn:Hc; [|left; exact H].
  destruct (String.eqb_spec pth (path m)) as [->|Hne].
  - rewrite dget_dset_eq in H. injection H as <-. right.
    split; [left; reflexivity|]. rewrite Hm. exact Hc.
  - rewrite dget_dset_ne in H by congruence. left. exact H.
Qed.

Lemma paths_fold_keys source us acc :
  (forall k, In k (dkeys acc) ->
             In k (dkeys (fold_left (path_step source) us acc))) /\
  (forall u, In u us -> from_source source u = true ->
             dkeys (fold_left (path_step source) us acc) <> []).
Proof.
  revert acc. induction us as [|u0 us IH]; intros acc; cbn [fold_left].
  - split; [auto | intros u []].
  - set (acc' := path_step source acc u0).
    destruct (IH acc') as [IH1 IH2].
    assert (Hmono : forall k, In k (dkeys acc) -> In k (dkeys acc')).
    { intros k Hk. subst acc'. cbv beta.
      destruct (dget u0 all_mods) as [m|]; [|exact Hk].
      destruct (Str.contains source (data_source m)); [|exact Hk].
      rewrite dkeys_dset. destruct (dmem (path m) acc); [exact Hk|].
      apply in_or_app. left. exact Hk. }
    split; [intros k Hk; apply IH1, Hmono, Hk|].
    intros u [<-|Hin] Hs; [|eapply IH2; eassumption].
    assert (Hk : exists k, In k (dkeys acc')).
    { subst acc'. cbv beta. destruct (dget u0 all_mods) as [m|]; [|discriminate].
      rewrite Hs. exists (path m). rewrite dkeys_dset.
      destruct (dmem (path m) acc) eqn:E; [apply dmem_In, E|].
      apply in_or_app. right. left. reflexivity. }
    destruct Hk as (k & Hk). apply IH1 in Hk. intros E. rewrite E in Hk.
    destruct Hk.
Qed.

Lemma calculated_duplicate_spec sources dups :
  match calculated_duplicate all_mods sources dups with
  | Some u =>
      exists before source after,
        sources = before ++ source :: after /\
        (forall s u', In s before -> In u' dups -> from_source s u' = false) /\
        In u dups /\ from_source source u = true
  | None =>
      forall s u', In s sources -> In u' dups -> from_source s u' = false
  end.
Proof.
  induction sources as [|source sources IH]; cbn [calculated_duplicate].
  - intros s u' [].
  - unfold paths_to_uuid.
    set (p2u := fold_left (path_step source) dups []).
    destruct (Natsort.natsorted (dkeys p2u)) as [|first rest] eqn:Hsort.
    + assert (Hnone : forall u', In u' dups -> from_source source u' = false).
      { intros u' Hin. destruct (from_source source u') eqn:Hs; [|reflexivity].
        exfalso. destruct (paths_fold_keys source dups []) as [_ H].
        apply (H u' Hin Hs). fold p2u.
        destruct (dkeys p2u) as [|k ks] eqn:Ek; [reflexivity|]. exfalso.
        assert (Hk : In k (Natsort.natsorted (k :: ks)))
          by (apply natsorted_In; left; reflexivity).
        rewrite Hsort in Hk. destruct Hk. }
      destruct (calculated_duplicate all_mods sources dups) as [u|].
      * destruct IH as (before & src & after & E & Hb & Hu & Hs).
        exists (source :: before), src, after. rewrite E.
        split; [reflexivity|]. split; [|split; assumption].
        intros s u' [<-|Hin] Hu'; [apply Hnone, Hu' | eapply Hb; eassumption].
      * intros s u' [<-|Hin] Hu'; [apply Hnone, Hu' | eapply IH; eassumption].
    + assert (Hfirst : In first (dkeys p2u)).
      { apply natsorted_In. rewrite Hsort. left. reflexivity. }
      destruct (dget first p2u) as [u|] eqn:Hg.
      * apply paths_fold_sound in Hg as [Hg|[Hin Hs]]; [discriminate|].
        exists [], source, sources. split; [reflexivity|].
        split; [intros s u' []|]. split; assumption.
      * apply dget_none in Hg. contradiction.
Qed.

End Priority.

Section ActiveList.
Import Py Metadata Resolver ResolverSpec.

Variable all_mods : dict Mod.
#[local] Abbreviation dups := (duplicate_mods all_mods).

(** Some record at [u] answers entry [p]. *)
#[local] Abbreviation answers := (fun (p u : string) =>
  exists m, In (u, m) all_mods /\ entry_matches p m = true).

Lemma target_matches p m :
  packageid m = target_of p -> entry_matches p m = true.
Proof.
  unfold entry_matches, target_of. intros ->.
  destruct (is_steam p); rewrite String.eqb_refl; [apply orb_true_r | reflexivity].
Qed.

Lemma visit_mod_active p l um u :
  In um all_mods ->
  In u (active_mods_uuids
          (visit_mod all_mods dups (normalized p) (stripped p) (target_of p)
                     (sources_order (is_steam p)) l um)) ->
  In u (active_mods_uuids l) \/ answers p u.
Proof.
  intros Hum. unfold visit_mod. fold (entry_matches p (snd um)).
  destruct (entry_matches p (snd um)) eqn:Hm; [|left; assumption].
  destruct (dmem (target_of p) dups) eqn:Hd; cbn [negb].
  - destruct (str_in (target_of p) (duplicates_processed l)); [left; assumption|].
    pose proof (calculated_duplicate_spec all_mods (sources_order (is_steam p))
                  (default [] (dget (target_of p) dups))) as Hc.
    destruct (calculated_duplicate all_mods (sources_order (is_steam p))
                (default [] (dget (target_of p) dups))) as [c|];
      [|left; assumption].
    cbn [active_mods_uuids]. intros Hin.
    apply in_app_iff in Hin as [Hin|[<-|[]]]; [left; exact Hin|]. right.
    destruct Hc as (_ & _ & _ & _ & _ & Hc & _).
    rewrite duplicate_mods_dget in Hc.
    destruct (1 <? length (dkeys (List.filter
                (fun um0 => String.eqb (packageid (snd um0)) (target_of p))
                all_mods))); [|destruct Hc].
    cbn [default from_option id] in Hc.
    apply carriers_In in Hc as (m & Hin & Hp).
    exists m. split; [exact Hin | apply target_matches, Hp].
  - cbn [active_mods_uuids]. intros Hin.
    apply in_app_iff in Hin as [Hin|[<-|[]]]; [left; exact Hin|]. right.
    exists (snd um). split; [destruct um; exact Hum | exact Hm].
Qed.

Lemma visit_mod_grows p l um u :
  In u (active_mods_uuids l) ->
  In u (active_mods_uuids
          (visit_mod all_mods dups (normalized p) (stripped p) (target_of p)
                     (sources_order (is_steam p)) l um)).
Proof.
  intros Hin. unfold visit_mod.
  destruct (String.eqb (packageid (snd um)) (normalized p)
            || String.eqb (packageid (snd um)) (stripped p)); [|exact Hin].
  destruct (negb (dmem (target_of p) dups)).
  - cbn [active_mods_uuids]. apply in_or_app. left. exact Hin.
  - destruct (str_in (target_of p) (duplicates_processed l)); [exact Hin|].
    destruct (calculated_duplicate all_mods (sources_order (is_steam p))
                (default [] (dget (target_of p) dups))); [|exact Hin].
    cbn [active_mods_uuids]. apply in_or_app. left. exact Hin.
Qed.

Lemma inner_active p ms l u :
  (forall um, In um ms -> In um all_mods) ->
  In u (active_mods_uuids
          (fold_left (visit_mod all_mods dups (normalized p) (stripped p)
                                (target_of p) (sources_order (is_steam p)))
                     ms l)) ->
  In u (active_mods_uuids l) \/ answers p u.
Proof.
  revert l. induction ms as [|um ms IH]; intros l Hms; cbn [fold_left];
    [left; assumption|].
  intros H. apply IH in H as [H|H]; [|right; exact H|].
  - eapply visit_mod_active; [|exact H]. apply Hms. left. reflexivity.
  - intros um' Hin. apply Hms. right. exact Hin.
Qed.

Lemma inner_grows p ms l u :
  In u (active_mods_uuids l) ->
  In u (active_mods_uuids
          (fold_left (visit_mod all_mods dups (normalized p) (stripped p)
                                (target_of p) (sources_order (is_steam p)))
                     ms l)).
Proof.
  revert l. induction ms as [|um ms IH]; intros l H; cbn [fold_left]; [exact H|].
  apply IH, visit_mod_grows, H.
Qed.

Lemma inner_reaches p ms l u m :
  In (u, m) ms -> entry_matches p m = true ->
  dmem (target_of p) dups = false ->
  In u (active_mods_uuids
          (fold_left (visit_mod all_mods dups (normalized p) (stripped p)
                                (target_of p) (sources_order (is_steam p)))
                     ms l)).
Proof.
  revert l. induction ms as [|um ms IH]; intros l Hin Hm Hd; [destruct Hin|].
  cbn [fold_left]. destruct Hin as [->|Hin]; [|apply IH; assumption].
  apply inner_grows. unfold visit_mod. cbn [fst snd].
  fold (entry_matches p m). rewrite Hm, Hd. cbn [negb active_mods_uuids].
  apply in_or_app. right. left. reflexivity.
Qed.

Lemma requests_active request l u :
  In u (active_mods_uuids (fold_left (visit_request all_mods dups) request l)) ->
  In u (active_mods_uuids l) \/ exists p, In p request /\ answers p u.
Proof.
  revert l. induction request as [|p request IH]; intros l; cbn [fold_left];
    [left; assumption|].
  intros H. apply IH in H as [H|(q & Hq & H)].
  - unfold visit_request in H. apply inner_active in H as [H|H]; [left; exact H| |auto].
    right. exists p. split; [left; reflexivity | exact H].
  - right. exists q. split; [right; exact Hq | exact H].
Qed.

Lemma requests_grow request l u :
  In u (active_mods_uuids l) ->
  In u (active_mods_uuids (fold_left (visit_request all_mods dups) request l)).
Proof.
  revert l. induction request as [|p request IH]; intros l H; cbn [fold_left];
    [exact H|].
  apply IH. unfold visit_request. apply inner_grows. exact H.
Qed.

Lemma requests_reach request l p u m :
  In p request -> In (u, m) all_mods -> entry_matches p m = true ->
  dmem (target_of p) dups = false ->
  In u (active_mods_uuids (fold_left (visit_request all_mods dups) request l)).
Proof.
  revert l. induction request as [|q request IH]; intros l Hp Hin Hm Hd;
    [destruct Hp|].
  cbn [fold_left]. destruct Hp as [->|Hp]; [|apply IH; assumption].
  apply requests_grow. unfold visit_request.
  eapply inner_reaches; eassumption.
Qed.

End ActiveList.

(** ** The copy chosen among duplicates *)

Section NaturalOrder.
Import Natsort.

Lemma run_compare_refl a : run_compare a a = Eq.
Proof.
  destruct a as [s|n]; simpl.
  - apply OrderedTypeEx.String_as_OT.cmp_eq. reflexivity.
  - apply N.compare_refl.
Qed.

Lemma run_compare_antisym a b : run_compare b a = CompOpp (run_compare a b).
Proof.
  destruct a as [s|n], b as [s'|n']; simpl; try reflexivity.
  - apply String.compare_antisym.
  - apply N.compare_antisym.
Qed.

Lemma run_compare_eq a b : run_compare a b = Eq -> a = b.
Proof.
  destruct a as [s|n], b as [s'|n']; simpl; try discriminate.
  - intros H. apply String.compare_eq_iff in H. congruence.
  - intros H. apply N.compare_eq in H. congruence.
Qed.

Lemma run_compare_trans a b c :
  run_compare a b = Lt -> run_compare b c = Lt -> run_compare a c = Lt.
Proof.
  destruct a as [s|n], b as [s'|n'], c as [s''|n'']; simpl; try discriminate;
    try reflexivity.
  - intros H1 H2. apply OrderedTypeEx.String_as_OT.cmp_lt.
    apply OrderedTypeEx.String_as_OT.cmp_lt in H1, H2.
    eapply OrderedTypeEx.String_as_OT.lt_trans; eassumption.
  - rewrite !N.compare_lt_iff. apply N.lt_trans.
Qed.

Lemma key_compare_refl k : key_compare k k = Eq.
Proof.
  induction k as [|a k IH]; [reflexivity|]. simpl. rewrite run_compare_refl. exact IH.
Qed.

Lemma key_compare_antisym k k' : key_compare k' k = CompOpp (key_compare k k').
Proof.
  revert k'. induction k as [|a k IH]; intros [|b k']; try reflexivity.
  simpl. rewrite (run_compare_antisym a b).
  destruct (run_compare a b); simpl; [apply IH | reflexivity | reflexivity].
Qed.

Lemma key_compare_eq k k' : key_compare k k' = Eq -> k = k'.
Proof.
  revert k'. induction k as [|a k IH]; intros [|b k']; simpl; try discriminate;
    [reflexivity|].
  destruct (run_compare a b) eqn:E; try discriminate.
  intros H. apply run_compare_eq in E. apply IH in H. congruence.
Qed.

Lemma key_compare_trans k1 k2 k3 :
  key_compare k1 k2 = Lt -> key_compare k2 k3 = Lt -> key_compare k1 k3 = Lt.
Proof.
  revert k2 k3. induction k1 as [|a k1 IH]; intros [|b k2] [|c k3]; simpl;
    try discriminate; try reflexivity.
  destruct (run_compare a b) eqn:Eab; try discriminate.
  - apply run_compare_eq in Eab. subst b.
    destruct (run_compare a c); try discriminate; [apply IH | reflexivity].
  - intros _. destruct (run_compare b c) eqn:Ebc; try discriminate.
    + apply run_compare_eq in Ebc. subst c. rewrite Eab. reflexivity.
    + rewrite (run_compare_trans _ _ _ Eab Ebc). reflexivity.
Qed.

Lemma key_leb_refl x : key_leb x x = true.
Proof. unfold key_leb. rewrite key_compare_refl. reflexivity. Qed.

Lemma key_leb_total x y : key_leb x y = false -> key_leb y x = true.
Proof.
  unfold key_leb. rewrite (key_compare_antisym (natsort_key x) (natsort_key y)).
  destruct (key_compare (natsort_key x) (natsort_key y)); simpl;
    intros; try discriminate; reflexivity.
Qed.

Lemma key_leb_trans x y z :
  key_leb x y = true -> key_leb y z = true -> key_leb x z = true.
Proof.
  unfold key_leb.
  destruct (key_compare (natsort_key x) (natsort_key y)) eqn:Exy; try discriminate;
    destruct (key_compare (natsort_key y) (natsort_key z)) eqn:Eyz; try discriminate;
    intros _ _.
  - apply key_compare_eq in Exy. rewrite Exy, Eyz. reflexivity.
  - apply key_compare_eq in Exy. rewrite Exy, Eyz. reflexivity.
  - apply key_compare_eq in Eyz. rewrite <- Eyz, Exy. reflexivity.
  - rewrite (key_compare_trans _ _ _ Exy Eyz). reflexivity.
Qed.

(** The head of an insertion is below every element. *)
Lemma insert_sorted_head x l first rest :
  (forall h t, l = h :: t -> forall y, In y l -> key_leb h y = true) ->
  insert_sorted x l = first :: rest ->
  forall y, In y (x :: l) -> key_leb first y = true.
Proof.
  intros Hl. destruct l as [|h t]; simpl.
  - intros [= <- <-] y [<-|[]]. apply key_leb_refl.
  - specialize (Hl h t eq_refl). destruct (key_leb x h) eqn:E.
    + intros [= <- <-] y [<-|Hy]; [apply key_leb_refl|].
      eapply key_leb_trans; [exact E | apply Hl, Hy].
    + intros [= <- <-] y [<-|Hy]; [apply key_leb_total, E | apply Hl, Hy].
Qed.

Lemma natsorted_head l first rest :
  natsorted l = first :: rest -> forall y, In y l -> key_leb first y = true.
Proof.
  revert first rest. induction l as [|x l IH]; intros first rest; [discriminate|].
  unfold natsorted. cbn [fold_right]. fold (natsorted l). intros H y Hy.
  eapply insert_sorted_head; [|exact H|].
  - intros h t E z Hz. apply (IH h t E). apply natsorted_In, Hz.
  - destruct Hy as [<-|Hy]; [left; reflexivity|]. right. apply natsorted_In, Hy.
Qed.

End NaturalOrder.

Section FirstPath.
Import Py Metadata Resolver ResolverSpec.

Variable all_mods : dict Mod.

#[local] Abbreviation path_step := (fun (source : string) (acc : dict string) (u : string) =>
  match dget u all_mods with
  | Some m => if Str.contains source (data_source m)
              then dset (path m) u acc else acc
  | None => acc
  end).

Lemma paths_fold_path source us acc pth u :
  dget pth (fold_left (path_step source) us acc) = Some u ->
  dget pth acc = Some u \/
  (In u us /\ exists m, dget u all_mods = Some m /\
                        Str.contains source (data_source m) = true /\
                        path m = pth).
Proof.
  revert acc. induction us as [|u0 us IH]; intros acc; cbn [fold_left];
    [left; assumption|].
  intros H. apply IH in H as [H|[H1 H2]]; [|right; split; [right|]; assumption].
  destruct (dget u0 all_mods) as [m|] eqn:Hm; [|left; exact H].
  destruct (Str.contains source (data_source m)) eqn:Hc; [|left; exact H].
  destruct (String.eqb_spec pth (path m)) as [->|Hne].
  - rewrite dget_dset_eq in H. injection H as <-. right.
    split; [left; reflexivity|]. exists m. auto.
  - rewrite dget_dset_ne in H by congruence. left. exact H.
Qed.

Lemma paths_fold_covers source us acc u m :
  In u us -> dget u all_mods = Some m ->
  Str.contains source (data_source m) = true ->
  In (path m) (dkeys (fold_left (path_step source) us acc)).
Proof.
  revert acc. induction us as [|u0 us IH]; intros acc Hin Hm Hc; [destruct Hin|].
  cbn [fold_left]. destruct Hin as [->|Hin]; [|apply IH; assumption].
  rewrite Hm, Hc.
  apply (proj1 (paths_fold_keys all_mods source us (dset (path m) u acc))).
  rewrite dkeys_dset. destruct (dmem (path m) acc) eqn:E; [apply dmem_In, E|].
  apply in_or_app. right. left. reflexivity.
Qed.

(** The duplicate chosen for a priority order: it comes from the first
    source of the order that has a candidate, and its path is first, in
    natural order, among the paths of the candidates of that source. *)
Lemma calculated_duplicate_first_path sources dups u :
  calculated_duplicate all_mods sources dups = Some u ->
  exists before source after m,
    sources = before ++ source :: after /\
    (forall s u' m', In s before -> In u' dups -> dget u' all_mods = Some m' ->
                     Str.contains s (data_source m') = false) /\
    In u dups /\ dget u all_mods = Some m /\
    Str.contains source (data_source m) = true /\
    (forall u' m', In u' dups -> dget u' all_mods = Some m' ->
                   Str.contains source (data_source m') = true ->
                   Natsort.key_leb (path m) (path m') = true).
Proof.
  induction sources as [|source sources IH]; cbn [calculated_duplicate];
    [discriminate|].
  unfold paths_to_uuid.
  set (p2u := fold_left (path_step source) dups []).
  destruct (Natsort.natsorted (dkeys p2u)) as [|first rest] eqn:Hsort.
  - intros H. destruct (IH H) as (before & src & after & m & E & Hb & Hu & Hm & Hs & Hmin).
    exists (source :: before), src, after, m. rewrite E.
    split; [reflexivity|]. split; [|auto].
    intros s u' m' [<-|Hin] Hu' Hm'; [|eapply Hb; eassumption].
    destruct (Str.contains source (data_source m')) eqn:Hc; [|reflexivity]. exfalso.
    pose proof (paths_fold_covers source dups [] u' m' Hu' Hm' Hc) as Hk.
    fold p2u in Hk. apply natsorted_In in Hk. rewrite Hsort in Hk. destruct Hk.
  - intros Hg.
    apply paths_fold_path in Hg as [Hg|(Hin & m & Hm & Hc & Hp)]; [discriminate|].
    exists [], source, sources, m. split; [reflexivity|].
    split; [intros s u' m' []|]. split; [exact Hin|]. split; [exact Hm|].
    split; [exact Hc|]. intros u' m' Hu' Hm' Hc'. rewrite Hp.
    eapply natsorted_head; [exact Hsort|].
    apply (paths_fold_covers source dups [] u' m' Hu' Hm' Hc').
Qed.

End FirstPath.

Section SteamMarker.
Import Py Metadata Resolver ResolverSpec.

Lemma replace_absent old new s :
  Str.contains old s = false -> Str.replace old new s = s.
Proof.
  unfold Str.replace. induction s as [|c s IH]; [reflexivity|].
  cbn [Str.contains Str.replace_from]. intros H.
  apply orb_false_iff in H as [Hp Hc]. rewrite Hp, (IH Hc). reflexivity.
Qed.

Lemma plain_stripped e : is_steam e = false -> stripped e = normalized e.
Proof. unfold is_steam, stripped. apply replace_absent. Qed.

(** A record whose package id holds no [_steam] answers an entry exactly
    when its package id is the target of the entry. *)
Lemma matches_target e m :
  Str.contains steam_suffix (packageid m) = false ->
  entry_matches e m = String.eqb (packageid m) (target_of e).
Proof.
  intros Hpid. unfold entry_matches, target_of.
  destruct (is_steam e) eqn:Hs.
  - destruct (String.eqb_spec (packageid m) (normalized e)) as [E|_];
      [|reflexivity].
    exfalso. unfold is_steam in Hs. rewrite <- E, Hpid in Hs. discriminate.
  - rewrite (plain_stripped e Hs). apply orb_diag.
Qed.

End SteamMarker.

Section TwoCopies.
Import Py Metadata Resolver ResolverSpec.

#[local] Arguments String.eqb : simpl never.
#[local] Arguments Str.contains : simpl never.

Variables (uL uW : string) (L W : Mod) (all_mods : dict Mod).
Hypothesis Hne : uL <> uW.
Hypothesis HpL : packageid L = "x.mod".
Hypothesis HpW : packageid W = "x.mod".
Hypothesis HsL : data_source L = "local".
Hypothesis HsW : data_source W = "workshop".
Hypothesis Hstore : all_mods = [(uL, L); (uW, W)] \/ all_mods = [(uW, W); (uL, L)].

#[local] Abbreviation dups := (duplicate_mods all_mods).

(** The copy an entry naming x.mod asks for. *)
#[local] Abbreviation copy_for := (fun e : string => if is_steam e then uW else uL).

Lemma two_copies_get : dget uL all_mods = Some L /\ dget uW all_mods = Some W.
Proof.
  assert (HLW : String.eqb uL uW = false) by (apply String.eqb_neq; assumption).
  assert (HWL : String.eqb uW uL = false)
    by (apply String.eqb_neq; intros E; apply Hne; symmetry; assumption).
  destruct Hstore as [-> | ->]; simpl; rewrite ?String.eqb_refl, ?HLW, ?HWL;
    split; reflexivity.
Qed.

Lemma two_copies_dups :
  exists dup, dups = [("x.mod", dup)] /\ (dup = [uL; uW] \/ dup = [uW; uL]).
Proof.
  unfold duplicate_mods.
  destruct Hstore as [-> | ->]; simpl; rewrite HpL, HpW; simpl;
    rewrite ?String.eqb_refl; simpl; eexists; split; try reflexivity; auto.
Qed.

Lemma calculated_local dup :
  dup = [uL; uW] \/ dup = [uW; uL] ->
  calculated_duplicate all_mods ["expansion"; "local"; "workshop"] dup = Some uL.
Proof.
  intros Hdup. destruct two_copies_get as [HL HW].
  assert (Hc1 : Str.contains "expansion" "local" = false) by reflexivity.
  assert (Hc2 : Str.contains "expansion" "workshop" = false) by reflexivity.
  assert (Hc3 : Str.contains "local" "local" = true) by reflexivity.
  assert (Hc4 : Str.contains "local" "workshop" = false) by reflexivity.
  unfold calculated_duplicate, paths_to_uuid.
  destruct Hdup as [-> | ->]; simpl fold_left;
    rewrite HL, HW, HsL, HsW, Hc1, Hc2, Hc3, Hc4; simpl;
    rewrite String.eqb_refl; reflexivity.
Qed.

Lemma calculated_copy e dup :
  dup = [uL; uW] \/ dup = [uW; uL] ->
  calculated_duplicate all_mods (sources_order (is_steam e)) dup
  = Some (copy_for e).
Proof.
  intros Hdup. destruct two_copies_get as [HL HW].
  destruct (is_steam e); cbn [sources_order].
  - apply (calculated_workshop uL uW L W); assumption.
  - apply calculated_local, Hdup.
Qed.

Lemma two_copies_match e um :
  In um all_mods ->
  entry_matches e (snd um) = String.eqb "x.mod" (target_of e).
Proof.
  intros Hin.
  assert (Hp : packageid (snd um) = "x.mod").
  { destruct Hstore as [-> | ->]; destruct Hin as [<-|[<-|[]]]; assumption. }
  rewrite matches_target; rewrite Hp; reflexivity.
Qed.

(** One requested entry. *)
Lemma two_copies_entry l e :
  visit_request all_mods dups l e
  = if String.eqb "x.mod" (target_of e)
       && negb (str_in "x.mod" (duplicates_processed l))
    then mkLists (active_mods_uuids l ++ [copy_for e])
                 (duplicates_processed l ++ ["x.mod"])
                 (populated_mods l ++ ["x.mod"])
                 (to_populate l ++ ["x.mod"])
    else mkLists (active_mods_uuids l) (duplicates_processed l)
                 (populated_mods l) (to_populate l ++ [target_of e]).
Proof.
  destruct two_copies_dups as (dup & Hd & Hdup).
  unfold visit_request.
  destruct (String.eqb_spec "x.mod" (target_of e)) as [Et|Hnt]; cbn [andb].
  - rewrite <- Et.
    set (F := visit_mod all_mods dups (normalized e) (stripped e) "x.mod"
                        (sources_order (is_steam e))).
    assert (Hstep : forall l0 um, In um all_mods ->
              F l0 um
              = if str_in "x.mod" (duplicates_processed l0) then l0
                else mkLists (active_mods_uuids l0 ++ [copy_for e])
                             (duplicates_processed l0 ++ ["x.mod"])
                             (populated_mods l0 ++ ["x.mod"]) (to_populate l0)).
    { intros l0 um Hin. subst F. unfold visit_mod. fold (entry_matches e (snd um)).
      rewrite (two_copies_match e um Hin), <- Et, String.eqb_refl, Hd.
      cbn [dmem existsb fst]. rewrite String.eqb_refl. cbn [orb negb].
      destruct (str_in "x.mod" (duplicates_processed l0)); [reflexivity|].
      cbn [dget]. rewrite String.eqb_refl. cbn [default from_option id].
      rewrite (calculated_copy e dup Hdup). reflexivity. }
    assert (Hshape : exists um1 um2, all_mods = [um1; um2])
      by (destruct Hstore as [-> | ->]; eauto).
    destruct Hshape as (um1 & um2 & Eshape).
    assert (I1 : In um1 all_mods) by (rewrite Eshape; left; reflexivity).
    assert (I2 : In um2 all_mods) by (rewrite Eshape; right; left; reflexivity).
    rewrite Eshape. cbn [fold_left].
    rewrite (Hstep _ um1 I1). cbn [duplicates_processed].
    destruct (str_in "x.mod" (duplicates_processed l)) eqn:Hp; cbn [negb].
    + rewrite (Hstep _ um2 I2). cbn [duplicates_processed]. rewrite Hp.
      reflexivity.
    + rewrite (Hstep _ um2 I2). cbn [duplicates_processed].
      assert (Hp' : str_in "x.mod" (duplicates_processed l ++ ["x.mod"]) = true).
      { apply str_in_In, in_or_app. right. left. reflexivity. }
      rewrite Hp'. reflexivity.
  - rewrite unmatched_entry_skips; [reflexivity|].
    intros um Hin. rewrite (two_copies_match e um Hin).
    apply String.eqb_neq, Hnt.
Qed.

#[local] Abbreviation names_x := (fun e : string => String.eqb "x.mod" (target_of e)).

Lemma two_copies_requests request l :
  active_mods_uuids (fold_left (visit_request all_mods dups) request l)
  = if str_in "x.mod" (duplicates_processed l) then active_mods_uuids l
    else active_mods_uuids l
         ++ match find names_x request with
            | Some e => [copy_for e]
            | None => []
            end.
Proof.
  revert l. induction request as [|e request IH]; intros l; cbn [fold_left find].
  - destruct (str_in "x.mod" (duplicates_processed l)); [|rewrite app_nil_r];
      reflexivity.
  - rewrite IH, two_copies_entry.
    destruct (String.eqb "x.mod" (target_of e)); cbn [andb].
    + destruct (str_in "x.mod" (duplicates_processed l)) eqn:Hp; cbn [negb].
      * cbn [duplicates_processed active_mods_uuids]. rewrite Hp. reflexivity.
      * cbn [duplicates_processed active_mods_uuids].
        assert (Hp' : str_in "x.mod" (duplicates_processed l ++ ["x.mod"]) = true).
        { apply str_in_In, in_or_app. right. left. reflexivity. }
        rewrite Hp'. reflexivity.
    + cbn [duplicates_processed active_mods_uuids]. reflexivity.
Qed.

Lemma two_copies_active request :
  active (get_mods_from_list all_mods request)
  = match find names_x request with
    | Some e => [copy_for e]
    | None => []
    end.
Proof.
  unfold get_mods_from_list. cbv zeta. cbn [active].
  rewrite two_copies_requests. reflexivity.
Qed.

End TwoCopies.

(** C6 as the claim states it fails: a request that contains "x.mod_steam"
    after "x.mod" activates the local copy, and the entry with the marker
    is skipped because the package id has been processed. *)
Lemma C6_steam_entry_after_plain_entry :
  In "x.mod_steam" ["x.mod"; "x.mod_steam"] /\
  Resolver.active
    (Resolver.get_mods_from_list Examples.store_local_workshop
                                 ["x.mod"; "x.mod_steam"]) = ["u1"] /\
  ~ In "u2" (Resolver.active
               (Resolver.get_mods_from_list Examples.store_local_workshop
                                            ["x.mod"; "x.mod_steam"])).
Proof.
  split; [right; left; reflexivity|]. split; [vm_compute; reflexivity|].
  vm_compute. intros [H|[]]. discriminate.
Qed.

(** C6 (amended). In a store holding exactly one local and one workshop
    record of package "x.mod" (whatever their uuids, paths and order), the
    active list of a request is decided by the first entry whose target is
    "x.mod": the workshop copy alone when that entry carries the [_steam]
    marker, the local copy alone when it does not, nothing when there is no
    such entry. So a request in which "x.mod_steam" comes before every
    other entry for "x.mod" activates the workshop copy; for the request
    ["x.mod_steam"] the local copy is inactive and nothing is missing. The
    priority order is [workshop, local] for an entry with the marker and
    [expansion, local, workshop] otherwise. In every store the duplicate
    chosen for a priority order comes from the first source of the order
    with a candidate, and its path is first in natural order among the
    paths of the candidates of that source; natural order reads digit runs
    as numbers, so "/workshop/9" comes before "/workshop/10". *)
Theorem C6_steam_entry_selects_workshop_copy :
  (forall (uL uW : string) (L W : Metadata.Mod) (all_mods : Py.dict Metadata.Mod),
     uL <> uW ->
     Metadata.packageid L = "x.mod" -> Metadata.packageid W = "x.mod" ->
     Metadata.data_source L = "local" -> Metadata.data_source W = "workshop" ->
     all_mods = [(uL, L); (uW, W)] \/ all_mods = [(uW, W); (uL, L)] ->
     (forall request,
        Resolver.active (Resolver.get_mods_from_list all_mods request)
        = match find (fun e => String.eqb "x.mod" (Resolver.target_of e)) request with
          | Some e => [if Resolver.is_steam e then uW else uL]
          | None => []
          end) /\
     (forall before after,
        (forall e, In e before -> Resolver.target_of e <> "x.mod") ->
        Resolver.active
          (Resolver.get_mods_from_list all_mods (before ++ "x.mod_steam" :: after))
        = [uW]) /\
     Resolver.inactive (Resolver.get_mods_from_list all_mods ["x.mod_steam"]) = [uL] /\
     Resolver.missing (Resolver.get_mods_from_list all_mods ["x.mod_steam"]) = []) /\
  Resolver.sources_order (Resolver.is_steam "x.mod_steam") = ["workshop"; "local"] /\
  Resolver.sources_order (Resolver.is_steam "x.mod")
  = ["expansion"; "local"; "workshop"] /\
  (forall (all_mods : Py.dict Metadata.Mod) (sources duplicate_uuids : list string)
          (u : string),
     Resolver.calculated_duplicate all_mods sources duplicate_uuids = Some u ->
     exists before source after m,
       sources = before ++ source :: after /\
       (forall s u' m', In s before -> In u' duplicate_uuids ->
                        Py.dget u' all_mods = Some m' ->
                        Str.contains s (Metadata.data_source m') = false) /\
       In u duplicate_uuids /\ Py.dget u all_mods = Some m /\
       Str.contains source (Metadata.data_source m) = true /\
       (forall u' m', In u' duplicate_uuids -> Py.dget u' all_mods = Some m' ->
                      Str.contains source (Metadata.data_source m') = true ->
                      Natsort.key_leb (Metadata.path m) (Metadata.path m') = true)) /\
  Natsort.natsorted
    ["/workshop/10"; "/mods/b"; "/workshop/9"; "/mods/a"; "/workshop/1"]
  = ["/mods/a"; "/mods/b"; "/workshop/1"; "/workshop/9"; "/workshop/10"] /\
  Resolver.active
    (Resolver.get_mods_from_list Examples.store_two_workshop ["x.mod_steam"]) = ["w9"].
Proof.
  split; [|split; [reflexivity|split; [reflexivity|split; [|split]]]].
  - intros uL uW L W all_mods Hne HpL HpW HsL HsW Hstore.
    pose proof (two_copies_active uL uW L W all_mods Hne HpL HpW HsL HsW Hstore)
      as Hact.
    split; [exact Hact|]. split.
    + intros before after Hbefore. rewrite Hact.
      assert (Hfind : forall rest,
                find (fun e => String.eqb "x.mod" (Resolver.target_of e))
                     (before ++ rest)
                = find (fun e => String.eqb "x.mod" (Resolver.target_of e)) rest).
      { intros rest. induction before as [|e before IH]; [reflexivity|].
        cbn [app find].
        destruct (String.eqb_spec "x.mod" (Resolver.target_of e)) as [E|_].
        - exfalso. apply (Hbefore e); [left; reflexivity | symmetry; exact E].
        - apply IH. intros e' He'. apply Hbefore. right. exact He'. }
      rewrite Hfind. reflexivity.
    + destruct L as [pL sL dL fL aL depL incL rL], W as [pW sW dW fW aW depW incW rW].
      simpl in HpL, HpW, HsL, HsW. subst pL pW sL sW.
      destruct Hstore as [-> | ->].
      * rewrite (two_copies_resolved uL uW dL dW fL fW aL aW depL depW incL incW
                   rL rW true Hne). split; reflexivity.
      * rewrite (two_copies_resolved uL uW dL dW fL fW aL aW depL depW incL incW
                   rL rW false Hne). split; reflexivity.
  - intros all_mods sources dups u. apply calculated_duplicate_first_path.
  - vm_compute. reflexivity.
  - vm_compute. reflexivity.
Qed.

Lemma C6_witness :
  Resolver.active
    (Resolver.get_mods_from_list Examples.store_local_workshop
                                 (["missing.mod"] ++ "x.mod_steam" :: ["x.mod"]))
  = ["u2"].
Proof.
  destruct C6_steam_entry_selects_workshop_copy as [H _].
  assert (Hne : "u1" <> "u2") by discriminate.
  destruct (H "u1" "u2" Examples.x_local Examples.x_workshop
              Examples.store_local_workshop Hne eq_refl eq_refl eq_refl eq_refl
              (or_introl eq_refl)) as (_ & Hreq & _).
  apply Hreq. intros e [<-|[]]. vm_compute. discriminate.
Defined.


(** X15. [duplicate_mods] maps a package id to the uuids of all the
    records that carry it, in store order, exactly when there are at least
    two of them; a package id carried by fewer records is not a key. *)
Theorem duplicate_mods_groups :
  forall (all_mods : Py.dict Metadata.Mod) (p : string),
    Py.dget p (Resolver.duplicate_mods all_mods)
    = let uuids :=
        Py.dkeys (List.filter
                    (fun um => String.eqb (Metadata.packageid (snd um)) p)
                    all_mods) in
      if 1 <? length uuids then Some uuids else None.
Proof. intros all_mods p. cbv zeta. apply duplicate_mods_dget. Qed.

(** X16. The duplicate chosen for a priority order of sources is one of
    the duplicate uuids, and the data source of its record holds the first
    source of the order that the data source of any duplicate holds; no
    duplicate is chosen exactly when no duplicate comes from a source of
    the order. *)
Theorem calculated_duplicate_priority :
  forall (all_mods : Py.dict Metadata.Mod) (sources duplicate_uuids : list string),
    let from_source := fun (source u : string) =>
      match Py.dget u all_mods with
      | Some m => Str.contains source (Metadata.data_source m)
      | None => false
      end in
    match Resolver.calculated_duplicate all_mods sources duplicate_uuids with
    | Some u =>
        exists before source after,
          sources = before ++ source :: after /\
          (forall s u', In s before -> In u' duplicate_uuids ->
                        from_source s u' = false) /\
          In u duplicate_uuids /\ from_source source u = true
    | None =>
        forall s u', In s sources -> In u' duplicate_uuids ->
                     from_source s u' = false
    end.
Proof.
  intros all_mods sources dups. cbv zeta.
  apply calculated_duplicate_spec.
Qed.

(** X17. Every uuid of the active list belongs to a record of the store
    that answers a requested entry: its package id is the lower-cased
    entry, or the lower-cased entry without [_steam]. *)
Theorem active_uuids_answer_requests :
  forall (all_mods : Py.dict Metadata.Mod) (request : list string) (u : string),
    In u (Resolver.active (Resolver.get_mods_from_list all_mods request)) ->
    exists p m,
      In p request /\ In (u, m) all_mods /\
      (Metadata.packageid m = Resolver.normalized p \/
       Metadata.packageid m = Resolver.stripped p).
Proof.
  intros all_mods request u Hin. unfold Resolver.get_mods_from_list in Hin.
  cbv zeta in Hin. cbn [Resolver.active] in Hin.
  apply requests_active in Hin as [[]|(p & Hp & m & Hm & He)].
  exists p, m. split; [exact Hp|]. split; [exact Hm|].
  unfold ResolverSpec.entry_matches in He. apply orb_true_iff in He.
  destruct He as [He|He]; apply String.eqb_eq in He; auto.
Qed.

Lemma active_uuids_answer_requests_witness :
  exists p m,
    In p ["x.mod_steam"] /\ In ("u2", m) Examples.store_local_workshop /\
    (Metadata.packageid m = Resolver.normalized p \/
     Metadata.packageid m = Resolver.stripped p).
Proof.
  apply (active_uuids_answer_requests Examples.store_local_workshop
           ["x.mod_steam"] "u2").
  vm_compute. left. reflexivity.
Defined.

(** X18. A requested entry whose target package id is not duplicated
    activates every record that answers it. *)
Theorem requested_record_is_active :
  forall (all_mods : Py.dict Metadata.Mod) (request : list string)
         (p u : string) (m : Metadata.Mod),
    In p request -> In (u, m) all_mods ->
    ResolverSpec.entry_matches p m = true ->
    Py.dmem (Resolver.target_of p) (Resolver.duplicate_mods all_mods) = false ->
    In u (Resolver.active (Resolver.get_mods_from_list all_mods request)).
Proof.
  intros all_mods request p u m Hp Hin Hm Hd.
  unfold Resolver.get_mods_from_list. cbv zeta. cbn [Resolver.active].
  eapply requests_reach; eassumption.
Qed.

Lemma requested_record_is_active_witness :
  In "uA" (Resolver.active
             (Resolver.get_mods_from_list Examples.store_abc ["C"; "A"])).
Proof.
  apply (requested_record_is_active Examples.store_abc ["C"; "A"] "A" "uA"
           Examples.mod_a).
  - right. left. reflexivity.
  - left. reflexivity.
  - vm_compute. reflexivity.
  - vm_compute. reflexivity.
Defined.

(** ** The version check *)

Section VersionCheck.
Import Py Metadata Checks.

Lemma versions_started_strings gv vers :
  versions_started gv (map VStr vers)
  = Returns (List.filter (fun ver => String.prefix ver gv) vers).
Proof.
  induction vers as [|ver vers IH]; [reflexivity|]. cbn [map versions_started].
  rewrite IH. cbn [List.filter]. destruct (String.prefix ver gv); reflexivity.
Qed.

Lemma versions_started_sound gv l found ver :
  versions_started gv l = Returns found -> In ver found ->
  In (VStr ver) l /\ String.prefix ver gv = true.
Proof.
  revert found. induction l as [|x l IH]; intros found; cbn [versions_started].
  - intros [= <-] [].
  - destruct x as [| | |s| |]; try discriminate.
    destruct (String.prefix s gv) eqn:Hp.
    + destruct (versions_started gv l) as [f|e]; [|discriminate].
      intros [= <-] [<-|Hin].
      * split; [left; reflexivity | exact Hp].
      * destruct (IH f eq_refl Hin) as [H1 H2]. split; [right; exact H1 | exact H2].
    + intros H Hin. destruct (IH found H Hin) as [H1 H2].
      split; [right; exact H1 | exact H2].
Qed.

Lemma any_str_filter gv vers :
  any_str (List.filter (fun ver => String.prefix ver gv) vers)
  = existsb (fun ver => negb (String.eqb ver "") && String.prefix ver gv) vers.
Proof.
  unfold any_str. induction vers as [|ver vers IH]; [reflexivity|].
  cbn [List.filter existsb]. destruct (String.prefix ver gv); cbn [existsb].
  - rewrite IH, andb_true_r. reflexivity.
  - rewrite IH, andb_false_r. reflexivity.
Qed.

Lemma about_get_some m key d :
  dget key (about m) = Some (VDict d) -> about_get m key = VDict d.
Proof. unfold about_get. intros ->. reflexivity. Qed.

Lemma is_version_mismatch_declared_versions uuid st m d vers :
  game_version st <> "" ->
  dget uuid (internal_local_metadata st) = Some m ->
  dget "supportedversions" (about m) = Some (VDict d) ->
  (exists s, dget "li" d = Some (VStr s) /\ vers = [s]) \/
  dget "li" d = Some (VList (map VStr vers)) ->
  is_version_mismatch uuid st
  = Returns (negb (existsb (fun ver => negb (String.eqb ver "")
                                       && String.prefix ver (game_version st))
                           vers)).
Proof.
  intros Hgv Hm Hd Hli. unfold is_version_mismatch.
  destruct (String.eqb_spec (game_version st) ""); [contradiction|].
  rewrite Hm, (about_get_some _ _ _ Hd).
  destruct Hli as [(s & Hs & ->)|Hl].
  - rewrite Hs. cbn [default from_option id truthy existsb].
    rewrite orb_false_r. destruct (String.eqb s ""); reflexivity.
  - rewrite Hl. cbn [default from_option id truthy].
    destruct vers as [|ver vers]; [reflexivity|].
    cbn [map]. change (VStr ver :: map VStr vers) with (map VStr (ver :: vers)).
    rewrite versions_started_strings, any_str_filter. reflexivity.
Qed.

Lemma is_version_mismatch_false uuid st :
  is_version_mismatch uuid st = Returns false ->
  game_version st <> "" /\
  exists m d ver,
    dget uuid (internal_local_metadata st) = Some m /\
    dget "supportedversions" (about m) = Some (VDict d) /\
    ver <> "" /\ String.prefix ver (game_version st) = true /\
    (dget "li" d = Some (VStr ver) \/
     exists l, dget "li" d = Some (VList l) /\ In (VStr ver) l).
Proof.
  unfold is_version_mismatch.
  destruct (String.eqb_spec (game_version st) "") as [|Hgv]; [discriminate|].
  destruct (dget uuid (internal_local_metadata st)) as [m|] eqn:Hm; [|discriminate].
  unfold about_get.
  destruct (dget "supportedversions" (about m)) as [v|] eqn:Hv;
    cbn [default from_option id]; [|discriminate].
  destruct v as [| | | | |d]; try discriminate.
  destruct (dget "li" d) as [li|] eqn:Hli; cbn [default from_option id];
    [|discriminate].
  destruct (truthy li) eqn:Ht; [|discriminate].
  destruct li as [| | |s|l|]; try discriminate.
  - intros [= Hp]. apply negb_false_iff in Hp. split; [exact Hgv|].
    exists m, d, s. split; [first [assumption | reflexivity]|].
    split; [first [assumption | reflexivity]|].
    split; [intros ->; discriminate|]. split; [exact Hp|].
    left. first [assumption | reflexivity].
  - destruct (versions_started (game_version st) l) as [found|e] eqn:Hf;
      [|discriminate].
    intros [= Hany]. apply negb_false_iff in Hany. unfold any_str in Hany.
    apply existsb_exists in Hany as (ver & Hin & Hne).
    destruct (versions_started_sound _ _ _ _ Hf Hin) as [Hl Hp].
    split; [exact Hgv|]. exists m, d, ver.
    split; [first [assumption | reflexivity]|].
    split; [first [assumption | reflexivity]|].
    split; [intros ->; discriminate|]. split; [exact Hp|].
    right. exists l. split; [first [assumption | reflexivity] | exact Hl].
Qed.

End VersionCheck.

(** X19. For a record whose [supportedversions] lists strings (or is a
    single string) and a game version that is not empty,
    [is_version_mismatch] returns false exactly when some listed version
    that is not empty is a prefix of the game version. *)
Theorem is_version_mismatch_declared :
  forall (uuid : string) (st : Metadata.Manager) (m : Metadata.Mod)
         (d : Py.dict pyval) (versions : list string),
    Metadata.game_version st <> "" ->
    Py.dget uuid (Metadata.internal_local_metadata st) = Some m ->
    Py.dget "supportedversions" (Metadata.about m) = Some (VDict d) ->
    (exists s, Py.dget "li" d = Some (VStr s) /\ versions = [s]) \/
    Py.dget "li" d = Some (VList (map VStr versions)) ->
    Checks.is_version_mismatch uuid st
    = Returns (negb (existsb
                       (fun ver => negb (String.eqb ver "")
                                   && String.prefix ver (Metadata.game_version st))
                       versions)).
Proof. intros uuid st m d versions. apply is_version_mismatch_declared_versions. Qed.

Lemma is_version_mismatch_declared_witness :
  Checks.is_version_mismatch "uS" Scenarios.st_supported
  = Returns (negb (existsb
                     (fun ver => negb (String.eqb ver "")
                                 && String.prefix ver
                                      (Metadata.game_version Scenarios.st_supported))
                     ["1.3"; "1.4"])).
Proof.
  apply (is_version_mismatch_declared "uS" Scenarios.st_supported Scenarios.mod_s
           [("li", VList [VStr "1.3"; VStr "1.4"])] ["1.3"; "1.4"]).
  - discriminate.
  - reflexivity.
  - reflexivity.
  - right. reflexivity.
Defined.

(** X20. [is_version_mismatch] reports a match (returns false) only for
    an installed record, a game version that is not empty and a declared
    supported version, not empty, that is a prefix of the game version. *)
Theorem is_version_mismatch_false_only_if :
  forall (uuid : string) (st : Metadata.Manager),
    Checks.is_version_mismatch uuid st = Returns false ->
    Metadata.game_version st <> "" /\
    exists m d ver,
      Py.dget uuid (Metadata.internal_local_metadata st) = Some m /\
      Py.dget "supportedversions" (Metadata.about m) = Some (VDict d) /\
      ver <> "" /\ String.prefix ver (Metadata.game_version st) = true /\
      (Py.dget "li" d = Some (VStr ver) \/
       exists l, Py.dget "li" d = Some (VList l) /\ In (VStr ver) l).
Proof. intros uuid st. apply is_version_mismatch_false. Qed.

Lemma is_version_mismatch_false_only_if_witness :
  Metadata.game_version Scenarios.st_supported <> "" /\
  exists m d ver,
    Py.dget "uS" (Metadata.internal_local_metadata Scenarios.st_supported)
    = Some m /\
    Py.dget "supportedversions" (Metadata.about m) = Some (VDict d) /\
    ver <> "" /\
    String.prefix ver (Metadata.game_version Scenarios.st_supported) = true /\
    (Py.dget "li" d = Some (VStr ver) \/
     exists l, Py.dget "li" d = Some (VList l) /\ In (VStr ver) l).
Proof.
  apply (is_version_mismatch_false_only_if "uS" Scenarios.st_supported).
  vm_compute. reflexivity.
Defined.

(** ** The blacklist check *)

Section Blacklist.
Import Py Metadata Checks.

Implicit Type steamdb : dict pyval.

Lemma blacklisted_mods_keys steamdb ids found result :
  blacklisted_mods steamdb ids found = Returns result ->
  List.NoDup ids -> (forall id, In id ids -> ~ In id (dkeys found)) ->
  dkeys result = dkeys found ++ List.filter (blacklisted steamdb) ids.
Proof.
  revert found. induction ids as [|id ids IH]; intros found; cbn [blacklisted_mods].
  - intros [= <-] _ _. rewrite app_nil_r. reflexivity.
  - intros H Hnd Hfresh. inversion Hnd as [|? ? Hnot Hnd']; subst.
    cbn [List.filter]. unfold blacklisted at 1.
    destruct (blacklist_of steamdb id) as [v|e]; [|discriminate].
    destruct (truthy v).
    + destruct (report_entry steamdb id v) as [entry|e]; [|discriminate].
      rewrite (IH _ H Hnd').
      * rewrite dkeys_dset.
        assert (Hm : dmem id found = false).
        { apply dmem_false. apply Hfresh. left. reflexivity. }
        rewrite Hm, <- app_assoc. reflexivity.
      * intros id' Hin. rewrite dkeys_dset.
        assert (Hm : dmem id found = false).
        { apply dmem_false. apply Hfresh. left. reflexivity. }
        rewrite Hm. intros Hk. apply in_app_iff in Hk as [Hk|[<-|[]]].
        -- apply (Hfresh id'); [right; exact Hin | exact Hk].
        -- contradiction.
    + apply IH; [exact H | exact Hnd'|].
      intros id' Hin. apply Hfresh. right. exact Hin.
Qed.

Lemma list_remove_filter x l :
  List.NoDup l -> In x l ->
  list_remove x l = Returns (List.filter (fun y => negb (String.eqb x y)) l).
Proof.
  induction l as [|y l IH]; intros Hnd Hin; [destruct Hin|].
  inversion Hnd as [|? ? Hnot Hnd']; subst. cbn [list_remove List.filter].
  destruct (String.eqb_spec x y) as [->|Hne]; cbn [negb].
  - f_equal. symmetry. apply filter_all. intros z Hz.
    apply negb_true_iff, String.eqb_neq. intros ->. contradiction.
  - destruct Hin as [->|Hin]; [contradiction|]. rewrite (IH Hnd' Hin). reflexivity.
Qed.

Lemma remove_each_filter xs l :
  List.NoDup l -> (forall x, In x xs -> In x l) -> List.NoDup xs ->
  remove_each xs l = Returns (List.filter (fun y => negb (str_in y xs)) l).
Proof.
  revert l. induction xs as [|x xs IH]; intros l Hnd Hsub Hxs; cbn [remove_each].
  - f_equal. symmetry. apply filter_all. reflexivity.
  - inversion Hxs as [|? ? Hnot Hxs']; subst.
    rewrite (list_remove_filter x l Hnd (Hsub x (or_introl eq_refl))).
    rewrite IH.
    + f_equal. clear. induction l as [|y l IHl]; [reflexivity|].
      cbn [List.filter]. rewrite str_in_cons, (String.eqb_sym y x).
      destruct (String.eqb x y); cbn [negb orb List.filter]; [exact IHl|].
      destruct (str_in y xs); cbn [negb]; rewrite IHl; reflexivity.
    + apply List.NoDup_filter, Hnd.
    + intros z Hz. apply filter_In. split; [apply Hsub; right; exact Hz|].
      apply negb_true_iff, String.eqb_neq. intros ->. contradiction.
    + exact Hxs'.
Qed.

Lemma check_if_pfids_blacklisted_distinct steamdb ids answer result :
  List.NoDup ids ->
  check_if_pfids_blacklisted ids steamdb answer = Returns result ->
  result = if Str.contains "Download" answer
           then List.filter (fun id => negb (blacklisted steamdb id)) ids
           else ids.
Proof.
  intros Hnd. unfold check_if_pfids_blacklisted.
  destruct steamdb as [|e0 es] eqn:Hdb.
  { intros [= <-]. destruct (Str.contains "Download" answer); [|reflexivity].
    symmetry. apply filter_all. intros id _. reflexivity. }
  rewrite <- Hdb in *.
  destruct (blacklisted_mods steamdb ids []) as [found|e] eqn:Hf; [|discriminate].
  pose proof (blacklisted_mods_keys steamdb ids [] found Hf Hnd
                ltac:(intros ? _ [])) as Hk.
  change (dkeys found = List.filter (blacklisted steamdb) ids) in Hk.
  assert (Hfilter :
            List.filter (fun y => negb (str_in y (List.filter (blacklisted steamdb) ids))) ids
            = List.filter (fun id => negb (blacklisted steamdb id)) ids).
  { apply filter_ext_in. intros y Hy. f_equal.
    destruct (blacklisted steamdb y) eqn:Hl.
    - apply str_in_In, filter_In. split; assumption.
    - apply str_in_false. intros H. apply filter_In in H as [_ H]. congruence. }
  destruct found as [|kv found'].
  - intros [= <-]. destruct (Str.contains "Download" answer); [|reflexivity].
    rewrite <- Hfilter, <- Hk. symmetry. apply filter_all. reflexivity.
  - destruct (Str.contains "Download" answer); [|intros [= <-]; reflexivity].
    rewrite remove_each_filter.
    + intros [= <-]. change (fst kv :: dkeys found') with (dkeys (kv :: found')).
      rewrite Hk. exact Hfilter.
    + exact Hnd.
    + intros x Hx. rewrite Hk in Hx.
      apply filter_In in Hx as [Hx _]. exact Hx.
    + rewrite Hk. apply List.NoDup_filter, Hnd.
Qed.

End Blacklist.

(** X21. For a list of distinct PublishedFileIds on which
    [check_if_pfids_blacklisted] returns: when the answer of the dialogue
    holds "Download" the result is the list without the blacklisted ids, in
    the same order; with any other answer, and when no dialogue is shown,
    it is the list itself. *)
Theorem check_if_pfids_blacklisted_result :
  forall (publishedfileids : list string) (steamdb : Py.dict pyval)
         (answer : string) (result : list string),
    MergeSpec.distinct publishedfileids = true ->
    Checks.check_if_pfids_blacklisted publishedfileids steamdb answer
    = Returns result ->
    result = if Str.contains "Download" answer
             then List.filter (fun id => negb (Checks.blacklisted steamdb id))
                              publishedfileids
             else publishedfileids.
Proof.
  intros ids steamdb answer result Hd.
  apply check_if_pfids_blacklisted_distinct, distinct_NoDup, Hd.
Qed.

Lemma check_if_pfids_blacklisted_result_witness :
  ["2"] = if Str.contains "Download" "Download blacklisted mods"
          then List.filter
                 (fun id => negb (Checks.blacklisted Scenarios.steamdb_blacklist id))
                 ["1"; "2"]
          else ["1"; "2"].
Proof.
  apply (check_if_pfids_blacklisted_result ["1"; "2"] Scenarios.steamdb_blacklist
           "Download blacklisted mods" ["2"]).
  - reflexivity.
  - vm_compute. reflexivity.
Defined.

(** ** Dependencies from the Steam database *)

Section SteamDependencies.
Import Py Metadata CompilerSpec.
Local Open Scope py_scope.

(** The tracking dictionary only grows. *)
#[local] Abbreviation grows := (fun (t t' : dict (gset string)) =>
  forall u S, dget u t = Some S -> exists S', dget u t' = Some S' /\ S ⊆ S').

Lemma grows_refl (t : dict (gset string)) : grows t t.
Proof. intros u S H. exists S. split; [exact H | reflexivity]. Qed.

Lemma grows_trans (t1 t2 t3 : dict (gset string)) :
  grows t1 t2 -> grows t2 t3 -> grows t1 t3.
Proof.
  intros H12 H23 u S H. destruct (H12 u S H) as (S2 & H2 & Hs2).
  destruct (H23 u S2 H2) as (S3 & H3 & Hs3). exists S3.
  split; [exact H3 | etransitivity; eassumption].
Qed.

Lemma track_uuid_ok pfid mod_data uuid t st st' t' :
  track_uuid pfid mod_data uuid t st = (st', Ok t') ->
  st' = st /\ grows t t' /\
  (forall m deps,
     dget uuid (internal_local_metadata st) = Some m ->
     publishedfileid m = Some pfid ->
     get_of mod_data "dependencies" = Ok (VDict deps) -> deps <> [] ->
     exists S', dget uuid t' = Some S' /\ list_to_set (dkeys deps) ⊆ S').
Proof.
  unfold track_uuid, bind, get_state.
  destruct (dget uuid (internal_local_metadata st)) as [m|] eqn:Hm.
  2:{ intros [= <- <-]. split; [reflexivity|]. split; [apply grows_refl|].
      intros m deps H. discriminate. }
  destruct (bool_decide (publishedfileid m = Some pfid)) eqn:Hp.
  2:{ intros [= <- <-]. split; [reflexivity|]. split; [apply grows_refl|].
      intros m0 deps [= <-] Hpf. apply bool_decide_eq_false in Hp. contradiction. }
  unfold lift. destruct (get_of mod_data "dependencies") as [dependencies|e];
    [|discriminate].
  destruct (truthy dependencies) eqn:Ht.
  2:{ intros [= <- <-]. split; [reflexivity|]. split; [apply grows_refl|].
      intros m0 deps _ _ [= ->] Hne. destruct deps; [contradiction | discriminate]. }
  destruct (items_of dependencies) as [deps0|e] eqn:Hi; [|discriminate].
  unfold ret. intros [= <- <-]. split; [reflexivity|]. split.
  - intros u S Hu. destruct (String.eqb_spec u uuid) as [->|Hne].
    + rewrite dget_dset_eq. eexists. split; [reflexivity|].
      rewrite Hu. simpl. apply union_subseteq_l.
    + rewrite dget_dset_ne by congruence. exists S. split; [exact Hu | reflexivity].
  - intros m0 deps _ _ [= ->] _. simpl in Hi. injection Hi as <-.
    rewrite dget_dset_eq. eexists. split; [reflexivity|]. apply union_subseteq_r.
Qed.

Lemma track_uuids_ok pfid mod_data uuids t st st' t' :
  track_uuids pfid mod_data uuids t st = (st', Ok t') ->
  st' = st /\ grows t t' /\
  (forall uuid m deps,
     In uuid uuids ->
     dget uuid (internal_local_metadata st) = Some m ->
     publishedfileid m = Some pfid ->
     get_of mod_data "dependencies" = Ok (VDict deps) -> deps <> [] ->
     exists S', dget uuid t' = Some S' /\ list_to_set (dkeys deps) ⊆ S').
Proof.
  revert t st. induction uuids as [|u uuids IH]; intros t st; cbn [track_uuids].
  - intros [= <- <-]. split; [reflexivity|]. split; [apply grows_refl|].
    intros uuid m deps [].
  - intros Hrun. apply bind_ok in Hrun as (t1 & s1 & Hu & Hrest).
    apply track_uuid_ok in Hu as (-> & Hg1 & Ht1).
    apply IH in Hrest as (-> & Hg2 & Ht2).
    split; [reflexivity|]. split; [eapply grows_trans; eassumption|].
    intros uuid m deps [<-|Hin] Hm Hp Hd Hne.
    + destruct (Ht1 m deps Hm Hp Hd Hne) as (S1 & HS1 & Hsub).
      destruct (Hg2 u S1 HS1) as (S2 & HS2 & Hsub2).
      exists S2. split; [exact HS2 | etransitivity; eassumption].
    + eapply Ht2; eassumption.
Qed.


(** The first loop over the Steam database, from locals [(ids0, t0)]. *)
Lemma steamdb_entries_ok entries ids0 t0 st st' ids1 t1 :
  steamdb_entries entries (ids0, t0) st = (st', Ok (ids1, t1)) ->
  evolves st st' /\ grows t0 t1 /\
  (forall k, ~ In k (dkeys entries) -> dget k ids1 = dget k ids0) /\
  (List.NoDup (dkeys entries) ->
   forall pfid d package_id,
     In (pfid, VDict d) entries ->
     dget "packageId" d = Some (VStr package_id) -> package_id <> "" ->
     dget pfid ids1 = Some (Str.lower package_id)) /\
  (forall pfid d package_id deps uuid m grp,
     In (pfid, VDict d) entries ->
     dget "packageId" d = Some (VStr package_id) -> package_id <> "" ->
     dget "dependencies" d = Some (VDict deps) -> deps <> [] ->
     packageid_to_uuids st !! Str.lower package_id = Some grp -> uuid ∈ grp ->
     dget uuid (internal_local_metadata st) = Some m ->
     publishedfileid m = Some pfid ->
     exists S', dget uuid t1 = Some S' /\ list_to_set (dkeys deps) ⊆ S').
Proof.
  revert ids0 t0 st.
  induction entries as [|[pfid0 data0] entries IH]; intros ids0 t0 st;
    cbn [steamdb_entries].
  - intros [= <- <- <-]. split; [apply evolves_refl|]. split; [apply grows_refl|].
    split; [reflexivity|]. split; [intros _ ? ? ? []|].
    intros ? ? ? ? ? ? ? [].
  - intros Hrun. apply bind_ok in Hrun as ([ids2 t2] & s2 & Hentry & Hrest).
    assert (E2 : evolves st s2).
    { pose proof (steady_steamdb_entries [(pfid0, data0)] (ids0, t0) st) as E.
      cbn [steamdb_entries] in E. unfold bind at 1 in E. rewrite Hentry in E.
      exact E. }
    destruct (IH ids2 t2 s2 Hrest) as (E' & Hg' & Hids' & Hmap' & Htrack').
    (* what the entry itself did *)
    assert (Hentry' :
      grows t0 t2 /\
      (forall k, k <> pfid0 -> dget k ids2 = dget k ids0) /\
      (forall d package_id,
         data0 = VDict d -> dget "packageId" d = Some (VStr package_id) ->
         package_id <> "" ->
         dget pfid0 ids2 = Some (Str.lower package_id) /\
         forall deps uuid m grp,
           dget "dependencies" d = Some (VDict deps) -> deps <> [] ->
           packageid_to_uuids st !! Str.lower package_id = Some grp ->
           uuid ∈ grp ->
           dget uuid (internal_local_metadata st) = Some m ->
           publishedfileid m = Some pfid0 ->
           exists S', dget uuid t2 = Some S' /\ list_to_set (dkeys deps) ⊆ S')).
    { clear Hrest IH E' Hg' Hids' Hmap' Htrack'.
      unfold steamdb_entry in Hentry.
      apply bind_ok in Hentry as (pid & s0 & Hpid & Hentry).
      apply lift_ok in Hpid as [Hpid ->].
      destruct (truthy pid) eqn:Htr.
      2:{ injection Hentry as <- <- <-. split; [apply grows_refl|].
          split; [reflexivity|]. intros d package_id -> Hd Hne.
          simpl in Hpid. rewrite Hd in Hpid. simpl in Hpid. injection Hpid as <-.
          simpl in Htr. apply negb_false_iff, String.eqb_eq in Htr. contradiction. }
      apply bind_ok in Hentry as (low & s1 & Hlow & Hentry).
      apply lift_ok in Hlow as [Hlow ->].
      apply bind_ok in Hentry as (name & s1 & Hname & Hentry).
      apply lift_ok in Hname as [Hname ->].
      apply bind_ok in Hentry as ([] & s3 & Hmod & Hentry).
      unfold modify in Hmod. injection Hmod as <-.
      apply bind_ok in Hentry as (sx & s4 & Hgs & Hentry).
      apply get_state_ok in Hgs as [-> ->].
      apply bind_ok in Hentry as (t3 & s5 & Htr3 & Hret).
      unfold ret in Hret. injection Hret as <- <- <-.
      apply track_uuids_ok in Htr3 as (_ & Hg3 & Ht3).
      split; [exact Hg3|]. split.
      { intros k Hk. apply dget_dset_ne. congruence. }
      intros d package_id -> Hd Hne.
      simpl in Hpid. rewrite Hd in Hpid. simpl in Hpid. injection Hpid as <-.
      simpl in Hlow. injection Hlow as <-.
      split; [apply dget_dset_eq|].
      intros deps uuid m grp Hdeps Hdne Hgrp Hin Hm Hpf.
      apply (Ht3 uuid m deps).
      - simpl packageid_to_uuids. rewrite Hgrp. simpl.
        apply list_elem_of_In, elem_of_elements. exact Hin.
      - exact Hm.
      - exact Hpf.
      - simpl. rewrite Hdeps. reflexivity.
      - exact Hdne. }
    destruct Hentry' as (Hg2 & Hids2 & Hdata).
    split; [eapply evolves_trans; eassumption|].
    split; [eapply grows_trans; eassumption|].
    split; [|split].
    + intros k Hk. rewrite Hids'.
      * apply Hids2. intros ->. apply Hk. left. reflexivity.
      * intros Hin. apply Hk. right. exact Hin.
    + intros Hnd pfid d package_id Hin Hd Hne.
      inversion Hnd as [|? ? Hnot Hnd']; subst.
      destruct Hin as [[= -> ->]|Hin].
      * rewrite (Hids' pfid Hnot). apply (Hdata d package_id eq_refl Hd Hne).
      * eapply Hmap'; eassumption.
    + intros pfid d package_id deps uuid m grp Hin Hd Hne Hdeps Hdne Hgrp Hu Hm Hpf.
      destruct Hin as [[= -> ->]|Hin].
      * destruct (Hdata d package_id eq_refl Hd Hne) as [_ Ht].
        destruct (Ht deps uuid m grp Hdeps Hdne Hgrp Hu Hm Hpf) as (S2 & HS2 & Hs).
        destruct (Hg' uuid S2 HS2) as (S3 & HS3 & Hs3).
        exists S3. split; [exact HS3 | etransitivity; eassumption].
      * destruct (evolves_dget _ _ _ _ E2 Hm) as (m2 & Hm2 & Hev).
        destruct E2 as (_ & Ei & _).
        eapply Htrack'; try eassumption.
        -- rewrite Ei. exact Hgrp.
        -- destruct Hev as (_ & _ & _ & Hp & _). rewrite Hp. exact Hpf.
Qed.


Lemma dependency_survives st st' u m dep :
  evolves st st' -> dget u (internal_local_metadata st) = Some m ->
  dep ∈ dependencies m ->
  exists m', dget u (internal_local_metadata st') = Some m' /\
             dep ∈ dependencies m'.
Proof.
  intros E Hg Hin. destruct (evolves_dget _ _ _ _ E Hg) as (m' & Hg' & Hm).
  exists m'. split; [exact Hg'|].
  destruct Hm as (_ & _ & _ & _ & _ & Hd & _). apply Hd, Hin.
Qed.

(** The second loop: a tracked dependency id that the Steam database maps
    to a package id becomes a dependency of the tracking record. *)
Lemma tracked_dependency_added (ids : dict string) (t : dict (gset string))
      st st' uuid S dep_id package_id :
  for_each t (fun tracked =>
    for_each (elements (snd tracked)) (fun dependency_steam_id =>
      match dget dependency_steam_id ids with
      | Some package_id =>
          add_dependency_to_mod_from_steamdb (fst tracked) package_id
      | None => skip
      end)) st = (st', Ok tt) ->
  In (uuid, S) t -> dep_id ∈ S -> dget dep_id ids = Some package_id ->
  exists m', dget uuid (internal_local_metadata st') = Some m' /\
             package_id ∈ dependencies m'.
Proof.
  intros Hrun Hin Hdep Hid.
  assert (Hinner : forall u y,
            steady (match dget y ids with
                    | Some package_id => add_dependency_to_mod_from_steamdb u package_id
                    | None => skip
                    end)).
  { intros u y. destruct (dget y ids); [|apply steady_skip].
    unfold add_dependency_to_mod_from_steamdb. apply steady_update_dependency. }
  eapply (for_each_ok_elem _ _ (uuid, S)) in Hrun as (s1 & s2 & E1 & Hbody & E2);
    [|intros y; apply steady_for_each; intros ?; apply Hinner | exact Hin].
  cbn [fst snd] in Hbody.
  eapply (for_each_ok_elem _ _ dep_id) in Hbody as (s3 & s4 & E3 & Hup & E4);
    [|intros y; apply Hinner
     |apply list_elem_of_In, elem_of_elements; exact Hdep].
  rewrite Hid in Hup. unfold add_dependency_to_mod_from_steamdb in Hup.
  apply update_mod_ok in Hup as (m & Hg & Hg').
  eapply dependency_survives; [eapply evolves_trans; eassumption | exact Hg' |].
  unfold add_dependency. simpl. apply elem_of_union. left.
  apply elem_of_singleton. reflexivity.
Qed.

Lemma compile_steamdb_dependency st st' pfid d package_id deps dep_id dep_d
      dep_package_id uuid m grp :
  compile_steamdb st = (st', Ok tt) ->
  List.NoDup (dkeys (external_steam_metadata st)) ->
  dget pfid (external_steam_metadata st) = Some (VDict d) ->
  dget "packageId" d = Some (VStr package_id) -> package_id <> "" ->
  dget "dependencies" d = Some (VDict deps) -> dmem dep_id deps = true ->
  dget dep_id (external_steam_metadata st) = Some (VDict dep_d) ->
  dget "packageId" dep_d = Some (VStr dep_package_id) -> dep_package_id <> "" ->
  packageid_to_uuids st !! Str.lower package_id = Some grp -> uuid ∈ grp ->
  dget uuid (internal_local_metadata st) = Some m ->
  publishedfileid m = Some pfid ->
  exists m', dget uuid (internal_local_metadata st') = Some m' /\
             Str.lower dep_package_id ∈ dependencies m'.
Proof.
  intros Hrun Hnd Hp Hpid Hne Hdeps Hdep Hq Hqid Hqne Hgrp Hu Hm Hpf.
  unfold compile_steamdb in Hrun.
  apply bind_ok in Hrun as (sx & s0 & Hgs & Hrun).
  apply get_state_ok in Hgs as [-> ->].
  destruct (external_steam_metadata st) as [|e es] eqn:Hdb; [discriminate|].
  rewrite <- Hdb in *.
  apply bind_ok in Hrun as ([ids t] & s1 & Hfirst & Hsecond).
  apply steamdb_entries_ok in Hfirst as (E1 & _ & _ & Hmap & Htrack).
  assert (Hdne : deps <> []) by (intros ->; discriminate).
  destruct (Htrack pfid d package_id deps uuid m grp
              (dget_some_In _ _ _ Hp) Hpid Hne Hdeps Hdne Hgrp Hu Hm Hpf)
    as (S & HS & Hsub).
  eapply tracked_dependency_added.
  - exact Hsecond.
  - apply dget_some_In. exact HS.
  - apply Hsub. apply elem_of_list_to_set, list_elem_of_In, dmem_In. exact Hdep.
  - apply (Hmap Hnd dep_id dep_d dep_package_id (dget_some_In _ _ _ Hq) Hqid Hqne).
Qed.

Lemma compile_metadata_steamdb_dependency uuids st st' pfid d package_id deps
      dep_id dep_d dep_package_id uuid m grp :
  compile_metadata uuids st = (st', Ok tt) ->
  List.NoDup (dkeys (external_steam_metadata st)) ->
  dget pfid (external_steam_metadata st) = Some (VDict d) ->
  dget "packageId" d = Some (VStr package_id) -> package_id <> "" ->
  dget "dependencies" d = Some (VDict deps) -> dmem dep_id deps = true ->
  dget dep_id (external_steam_metadata st) = Some (VDict dep_d) ->
  dget "packageId" dep_d = Some (VStr dep_package_id) -> dep_package_id <> "" ->
  packageid_to_uuids st !! Str.lower package_id = Some grp -> uuid ∈ grp ->
  dget uuid (internal_local_metadata st) = Some m ->
  publishedfileid m = Some pfid ->
  exists m', dget uuid (internal_local_metadata st') = Some m' /\
             Str.lower dep_package_id ∈ dependencies m'.
Proof.
  intros Hrun Hnd Hp Hpid Hne Hdeps Hdep Hq Hqid Hqne Hgrp Hu Hm Hpf.
  unfold compile_metadata in Hrun.
  apply bind_ok in Hrun as (sx & s0 & Hgs & Hrun).
  apply get_state_ok in Hgs as [-> ->].
  apply bind_ok in Hrun as ([] & s1 & Hmods & Hrun).
  apply bind_ok in Hrun as ([] & s2 & Hsteam & Hrest).
  assert (E1 : evolves st s1).
  { eapply steady_run; [|exact Hmods]. apply steady_for_each. intros ?.
    apply steady_compile_mod. }
  assert (E2 : evolves s2 st').
  { eapply steady_run; [|exact Hrest].
    apply steady_bind.
    - apply steady_bind; [apply steady_get_state|]. intros ?. apply steady_compile_rules.
    - intros _. apply steady_bind; [apply steady_get_state|]. intros ?.
      apply steady_compile_rules. }
  destruct (evolves_dget _ _ _ _ E1 Hm) as (m1 & Hm1 & Hev).
  destruct E1 as (_ & Ei & _ & _ & Es & _).
  destruct Hev as (_ & _ & _ & Hpf1 & _).
  destruct (compile_steamdb_dependency s1 s2 pfid d package_id deps dep_id dep_d
              dep_package_id uuid m1 grp Hsteam) as (m2 & Hm2 & Hin);
    rewrite ?Es, ?Ei; try assumption; [congruence|].
  eapply dependency_survives; eassumption.
Qed.

End SteamDependencies.

(** X22. When [compile_metadata] returns, a dependency that the Steam
    database lists for an installed workshop item is in the
    [dependencies] of that record under its lower-cased package id,
    whether the dependency is installed or not: the item is the database
    entry of the record's PublishedFileId, its package id indexes the
    record, and the dependency id has an entry with a package id of its
    own. *)
Theorem steamdb_dependency_recorded :
  forall (uuids : list string) (st st' : Metadata.Manager)
         (pfid : string) (d : Py.dict pyval) (package_id : string)
         (deps : Py.dict pyval) (dep_id : string) (dep_d : Py.dict pyval)
         (dep_package_id uuid : string) (m : Metadata.Mod) (grp : gset string),
    Metadata.compile_metadata uuids st = (st', Ok tt) ->
    MergeSpec.distinct (Py.dkeys (Metadata.external_steam_metadata st)) = true ->
    Py.dget pfid (Metadata.external_steam_metadata st) = Some (VDict d) ->
    Py.dget "packageId" d = Some (VStr package_id) -> package_id <> "" ->
    Py.dget "dependencies" d = Some (VDict deps) ->
    Py.dmem dep_id deps = true ->
    Py.dget dep_id (Metadata.external_steam_metadata st) = Some (VDict dep_d) ->
    Py.dget "packageId" dep_d = Some (VStr dep_package_id) ->
    dep_package_id <> "" ->
    Metadata.packageid_to_uuids st !! Str.lower package_id = Some grp ->
    uuid ∈ grp ->
    Py.dget uuid (Metadata.internal_local_metadata st) = Some m ->
    Metadata.publishedfileid m = Some pfid ->
    exists m',
      Py.dget uuid (Metadata.internal_local_metadata st') = Some m' /\
      Str.lower dep_package_id ∈ Metadata.dependencies m'.
Proof.
  intros uuids st st' pfid d package_id deps dep_id dep_d dep_package_id uuid m
         grp Hrun Hnd.
  apply (compile_metadata_steamdb_dependency uuids st st' pfid d package_id deps
           dep_id dep_d dep_package_id uuid m grp Hrun).
  apply distinct_NoDup, Hnd.
Qed.

Lemma steamdb_dependency_recorded_witness :
  exists m',
    Py.dget "uW" (Metadata.internal_local_metadata
                    (fst (Metadata.compile_metadata [] Scenarios.st_steam)))
    = Some m' /\
    Str.lower "B.Lib" ∈ Metadata.dependencies m'.
Proof.
  apply (steamdb_dependency_recorded
           [] Scenarios.st_steam
           (fst (Metadata.compile_metadata [] Scenarios.st_steam))
           "100"
           [("packageId", VStr "A.Mod"); ("name", VStr "A");
            ("dependencies", VDict [("200", VList [VStr "B"; VStr "url"])])]
           "A.Mod" [("200", VList [VStr "B"; VStr "url"])]
           "200" [("packageId", VStr "B.Lib"); ("name", VStr "B")]
           "B.Lib" "uW" Scenarios.mod_w {["uW"]}).
  - vm_compute. reflexivity.
  - reflexivity.
  - reflexivity.
  - reflexivity.
  - discriminate.
  - reflexivity.
  - reflexivity.
  - reflexivity.
  - reflexivity.
  - discriminate.
  - vm_compute. reflexivity.
  - apply elem_of_singleton. reflexivity.
  - reflexivity.
  - reflexivity.
Defined.

(** ** The order of the active list *)

Section ActiveOrder.
Import Py Metadata Resolver ResolverSpec.

Variable all_mods : dict Mod.
#[local] Abbreviation dups := (duplicate_mods all_mods).

Lemma inner_plain p ms l :
  dmem (target_of p) dups = false ->
  active_mods_uuids
    (fold_left (visit_mod all_mods dups (normalized p) (stripped p)
                          (target_of p) (sources_order (is_steam p))) ms l)
  = active_mods_uuids l
    ++ dkeys (List.filter (fun um => entry_matches p (snd um)) ms).
Proof.
  intros Hd. revert l. induction ms as [|um ms IH]; intros l; cbn [fold_left].
  - cbn. rewrite app_nil_r. reflexivity.
  - rewrite IH. cbn [List.filter]. unfold visit_mod.
    fold (entry_matches p (snd um)).
    destruct (entry_matches p (snd um)); [|reflexivity].
    rewrite Hd. cbn [negb active_mods_uuids dkeys map].
    rewrite <- app_assoc. reflexivity.
Qed.

Lemma visit_mod_duplicate p l um :
  dmem (target_of p) dups = true ->
  let l' := visit_mod all_mods dups (normalized p) (stripped p)
                      (target_of p) (sources_order (is_steam p)) l um in
  l' = l \/
  (~ In (target_of p) (duplicates_processed l) /\
   In (target_of p) (duplicates_processed l') /\
   exists u,
     calculated_duplicate all_mods (sources_order (is_steam p))
                          (default [] (dget (target_of p) dups)) = Some u /\
     active_mods_uuids l' = active_mods_uuids l ++ [u]).
Proof.
  intros Hd. cbv zeta. unfold visit_mod.
  destruct (String.eqb (packageid (snd um)) (normalized p)
            || String.eqb (packageid (snd um)) (stripped p)); [|left; reflexivity].
  rewrite Hd. cbn [negb].
  destruct (str_in (target_of p) (duplicates_processed l)) eqn:Hp;
    [left; reflexivity|].
  destruct (calculated_duplicate all_mods (sources_order (is_steam p))
              (default [] (dget (target_of p) dups))) as [c|];
    [|left; reflexivity].
  right. split; [apply str_in_false, Hp|]. cbn [duplicates_processed active_mods_uuids].
  split; [apply in_or_app; right; left; reflexivity|].
  exists c. split; reflexivity.
Qed.

Lemma inner_duplicate p ms l :
  dmem (target_of p) dups = true ->
  let l' := fold_left (visit_mod all_mods dups (normalized p) (stripped p)
                                 (target_of p) (sources_order (is_steam p)))
                      ms l in
  active_mods_uuids l' = active_mods_uuids l \/
  (~ In (target_of p) (duplicates_processed l) /\
   exists u,
     calculated_duplicate all_mods (sources_order (is_steam p))
                          (default [] (dget (target_of p) dups)) = Some u /\
     active_mods_uuids l' = active_mods_uuids l ++ [u]).
Proof.
  intros Hd. revert l. induction ms as [|um ms IH]; intros l; cbn [fold_left].
  - left. reflexivity.
  - cbv zeta in IH |- *.
    destruct (visit_mod_duplicate p l um Hd) as [E|(Hn & Hin & u & Hc & Ha)].
    + rewrite E. apply IH.
    + destruct (IH (visit_mod all_mods dups (normalized p) (stripped p)
                              (target_of p) (sources_order (is_steam p)) l um))
        as [E|(Hn' & _)]; [|contradiction].
      right. split; [exact Hn|]. exists u. split; [exact Hc|].
      rewrite E. exact Ha.
Qed.

End ActiveOrder.

(** X23. A requested entry whose target package id is not duplicated
    appends to the active list the uuids of the records that answer it, all
    of them and in store order. *)
Theorem active_of_plain_entry :
  forall (all_mods : Py.dict Metadata.Mod) (before : list string) (p : string),
    Py.dmem (Resolver.target_of p) (Resolver.duplicate_mods all_mods) = false ->
    Resolver.active (Resolver.get_mods_from_list all_mods (before ++ [p]))
    = Resolver.active (Resolver.get_mods_from_list all_mods before)
      ++ Py.dkeys (List.filter
                     (fun um => ResolverSpec.entry_matches p (snd um))
                     all_mods).
Proof.
  intros all_mods before p Hd. unfold Resolver.get_mods_from_list. cbv zeta.
  cbn [Resolver.active]. rewrite fold_left_app. cbn [fold_left].
  unfold Resolver.visit_request at 1. rewrite (inner_plain all_mods p _ _ Hd).
  reflexivity.
Qed.

Lemma active_of_plain_entry_witness :
  Resolver.active (Resolver.get_mods_from_list Examples.store_abc (["C"] ++ ["A"]))
  = Resolver.active (Resolver.get_mods_from_list Examples.store_abc ["C"])
    ++ Py.dkeys (List.filter
                   (fun um => ResolverSpec.entry_matches "A" (snd um))
                   Examples.store_abc).
Proof.
  apply (active_of_plain_entry Examples.store_abc ["C"] "A").
  vm_compute. reflexivity.
Defined.

(** X24. A requested entry whose target package id is duplicated appends
    at most one uuid to the active list, the duplicate calculated for the
    priority order of the entry. *)
Theorem active_of_duplicate_entry :
  forall (all_mods : Py.dict Metadata.Mod) (before : list string) (p : string),
    Py.dmem (Resolver.target_of p) (Resolver.duplicate_mods all_mods) = true ->
    Resolver.active (Resolver.get_mods_from_list all_mods (before ++ [p]))
    = Resolver.active (Resolver.get_mods_from_list all_mods before) \/
    exists u,
      Resolver.calculated_duplicate
        all_mods (Resolver.sources_order (Resolver.is_steam p))
        (default [] (Py.dget (Resolver.target_of p)
                             (Resolver.duplicate_mods all_mods))) = Some u /\
      Resolver.active (Resolver.get_mods_from_list all_mods (before ++ [p]))
      = Resolver.active (Resolver.get_mods_from_list all_mods before) ++ [u].
Proof.
  intros all_mods before p Hd. unfold Resolver.get_mods_from_list. cbv zeta.
  cbn [Resolver.active]. rewrite fold_left_app. cbn [fold_left].
  unfold Resolver.visit_request at 1 3.
  match goal with
  | |- context [fold_left ?f all_mods ?l0] =>
      destruct (inner_duplicate all_mods p all_mods l0 Hd) as [E|(_ & u & Hc & E)]
  end.
  - left. exact E.
  - right. exists u. split; [exact Hc | exact E].
Qed.

Lemma active_of_duplicate_entry_witness :
  Resolver.active
    (Resolver.get_mods_from_list Examples.store_local_workshop ([] ++ ["x.mod_steam"]))
  = Resolver.active (Resolver.get_mods_from_list Examples.store_local_workshop []) \/
  exists u,
    Resolver.calculated_duplicate
      Examples.store_local_workshop
      (Resolver.sources_order (Resolver.is_steam "x.mod_steam"))
      (default [] (Py.dget (Resolver.target_of "x.mod_steam")
                           (Resolver.duplicate_mods Examples.store_local_workshop)))
    = Some u /\
    Resolver.active
      (Resolver.get_mods_from_list Examples.store_local_workshop
                                   ([] ++ ["x.mod_steam"]))
    = Resolver.active (Resolver.get_mods_from_list Examples.store_local_workshop [])
      ++ [u].
Proof.
  apply (active_of_duplicate_entry Examples.store_local_workshop [] "x.mod_steam").
  vm_compute. reflexivity.
Defined.

(** ** Rules from the community and the user rule sets *)

Section ExternalRules.
Import Py Metadata CompilerSpec.
Local Open Scope py_scope.

(** The outcome of one rule: the explicit tuple on [u], the implied tuple
    on every record of the target's group. *)
#[local] Abbreviation ruled := (fun (st' : Manager) (u : string) (mu : Mod)
    (name rt ort : string) (grp : gset string) =>
  (exists mu', dget u (internal_local_metadata st') = Some mu' /\
               (Str.lower name, true) ∈ rules_of mu' rt) /\
  (forall v, v ∈ grp ->
     exists mv, dget v (internal_local_metadata st') = Some mv /\
                (packageid mu, false) ∈ rules_of mv ort)).

Lemma ruled_survives st st' u mu name rt ort grp :
  evolves st st' -> ruled st u mu name rt ort grp -> ruled st' u mu name rt ort grp.
Proof.
  intros E [(mu' & Hg & Hin) Hall]. split.
  - destruct (rule_survives _ _ _ _ _ _ E Hg Hin) as (m2 & Hg2 & Hin2 & _). eauto.
  - intros v Hv. destruct (Hall v Hv) as (mv & Hgv & Hinv).
    destruct (rule_survives _ _ _ _ _ _ E Hgv Hinv) as (m2 & Hg2 & Hin2 & _). eauto.
Qed.

Lemma ruled_packageid st' u m mu name rt ort grp :
  packageid m = packageid mu ->
  ruled st' u m name rt ort grp -> ruled st' u mu name rt ort grp.
Proof.
  intros Hp [H1 H2]. split; [exact H1|]. intros v Hv.
  destruct (H2 v Hv) as (mv & Hg & Hin). exists mv. split; [exact Hg|].
  rewrite <- Hp. exact Hin.
Qed.

Lemma apply_bucket_ok d bucket uuids rt ort st st' l name u mu grp :
  apply_bucket (VDict d) bucket uuids rt ort st = (st', Ok tt) ->
  dget bucket d = Some (VList l) -> In (VStr name) l -> In u uuids ->
  dget u (internal_local_metadata st) = Some mu ->
  packageid_to_uuids st !! Str.lower name = Some grp ->
  ruled st' u mu name rt ort grp.
Proof.
  intros Hrun Hb Hname Hu Hmu Hgrp. unfold apply_bucket in Hrun.
  apply bind_ok in Hrun as (load_these & s0 & Hl & Hrun).
  apply lift_ok in Hl as [Hl ->]. simpl in Hl. rewrite Hb in Hl. simpl in Hl.
  injection Hl as <-. destruct l as [|x l']; [destruct Hname|].
  eapply (for_each_ok_elem _ _ (VStr name)) in Hrun as (s1 & s2 & E1 & Hbody & E2);
    [| |exact Hname].
  2:{ intros y. destruct y; try apply steady_skip.
      apply steady_for_each. intros ?. apply steady_add_load_rule_to_mod. }
  eapply (for_each_ok_elem _ _ u) in Hbody as (s3 & s4 & E3 & Hrule & E4);
    [|intros y; apply steady_add_load_rule_to_mod | exact Hu].
  assert (E : evolves st s3) by (eapply evolves_trans; eassumption).
  destruct (evolves_packageid _ _ _ _ E Hmu) as (m3 & Hm3 & Hp3 & _).
  assert (Hgrp3 : packageid_to_uuids s3 !! Str.lower name = Some grp).
  { destruct E as (_ & Ei & _). rewrite Ei. exact Hgrp. }
  pose proof (add_load_rule_ok _ _ _ _ _ _ _ _ Hrule Hm3 Hgrp3) as Hok.
  apply (ruled_packageid _ _ m3); [exact Hp3|].
  apply (ruled_survives s4 st'); [exact (evolves_trans _ _ _ E4 E2) | exact Hok].
Qed.

Lemma process_external_rules_ok rules rt ort st st' p d bucket l name u mu
      grp_p grp :
  process_external_rules rules rt ort st = (st', Ok tt) ->
  In (p, VDict d) rules ->
  bucket = rt \/ bucket = "loadBottom" \/ bucket = "loadTop" ->
  dget bucket d = Some (VList l) -> In (VStr name) l ->
  packageid_to_uuids st !! Str.lower p = Some grp_p -> u ∈ grp_p ->
  dget u (internal_local_metadata st) = Some mu ->
  packageid_to_uuids st !! Str.lower name = Some grp ->
  ruled st' u mu name rt ort grp.
Proof.
  intros Hrun Hin Hbucket Hb Hname Hgp Hu Hmu Hgrp.
  unfold process_external_rules in Hrun.
  eapply (for_each_ok_elem _ _ (p, VDict d)) in Hrun as (s1 & s2 & E1 & Hbody & E2);
    [| |exact Hin].
  2:{ intros y. apply steady_bind; [apply steady_get_state|]. intros sx.
      destruct (packageid_to_uuids sx !! Str.lower (fst y)); [|apply steady_skip].
      apply steady_bind; [apply steady_apply_bucket|]. intros _.
      apply steady_bind; [apply steady_apply_bucket|]. intros _.
      apply steady_apply_bucket. }
  cbn [fst snd] in Hbody.
  apply bind_ok in Hbody as (sx & s1' & Hgs & Hbody).
  apply get_state_ok in Hgs as [-> ->].
  assert (Hi1 : packageid_to_uuids s1 = packageid_to_uuids st)
    by (destruct E1 as (_ & Ei & _); exact Ei).
  rewrite Hi1, Hgp in Hbody.
  apply bind_ok in Hbody as ([] & sa & Ha & Hbody).
  apply bind_ok in Hbody as ([] & sb & Hbt & Htop).
  assert (Ea : evolves s1 sa) by (eapply steady_run; [apply steady_apply_bucket | exact Ha]).
  assert (Eb : evolves sa sb) by (eapply steady_run; [apply steady_apply_bucket | exact Hbt]).
  assert (Ec : evolves sb s2) by (eapply steady_run; [apply steady_apply_bucket | exact Htop]).
  assert (Hue : In u (elements grp_p))
    by (apply list_elem_of_In, elem_of_elements; exact Hu).
  assert (Hat : forall s, evolves st s ->
            exists m, dget u (internal_local_metadata s) = Some m /\
                      packageid m = packageid mu /\
                      packageid_to_uuids s !! Str.lower name = Some grp).
  { intros s E. destruct (evolves_packageid _ _ _ _ E Hmu) as (m & Hm & Hp & _).
    exists m. split; [exact Hm|]. split; [exact Hp|].
    destruct E as (_ & Ei & _). rewrite Ei. exact Hgrp. }
  destruct Hbucket as [-> | [-> | ->]].
  - destruct (Hat s1 E1) as (m & Hm & Hp & Hg).
    pose proof (apply_bucket_ok _ _ _ _ _ _ _ _ _ _ _ _ Ha Hb Hname Hue Hm Hg) as H.
    apply (ruled_packageid _ _ m); [exact Hp|].
    apply (ruled_survives sa st'); [|exact H].
    exact (evolves_trans _ _ _ Eb (evolves_trans _ _ _ Ec E2)).
  - destruct (Hat sa (evolves_trans _ _ _ E1 Ea)) as (m & Hm & Hp & Hg).
    pose proof (apply_bucket_ok _ _ _ _ _ _ _ _ _ _ _ _ Hbt Hb Hname Hue Hm Hg) as H.
    apply (ruled_packageid _ _ m); [exact Hp|].
    apply (ruled_survives sb st'); [|exact H].
    exact (evolves_trans _ _ _ Ec E2).
  - destruct (Hat sb (evolves_trans _ _ _ (evolves_trans _ _ _ E1 Ea) Eb))
      as (m & Hm & Hp & Hg).
    pose proof (apply_bucket_ok _ _ _ _ _ _ _ _ _ _ _ _ Htop Hb Hname Hue Hm Hg) as H.
    apply (ruled_packageid _ _ m); [exact Hp|].
    apply (ruled_survives s2 st'); [exact E2 | exact H].
Qed.

Lemma compile_rules_ok rules st st' p d key opp bucket l name u mu grp_p grp :
  compile_rules rules st = (st', Ok tt) ->
  In (p, VDict d) rules ->
  (key, opp) = ("loadBefore", "loadAfter") \/
  (key, opp) = ("loadAfter", "loadBefore") ->
  bucket = key \/ bucket = "loadBottom" \/ bucket = "loadTop" ->
  dget bucket d = Some (VList l) -> In (VStr name) l ->
  packageid_to_uuids st !! Str.lower p = Some grp_p -> u ∈ grp_p ->
  dget u (internal_local_metadata st) = Some mu ->
  packageid_to_uuids st !! Str.lower name = Some grp ->
  ruled st' u mu name key opp grp.
Proof.
  intros Hrun Hin Hkey Hbucket Hb Hname Hgp Hu Hmu Hgrp.
  unfold compile_rules in Hrun. destruct rules as [|r rules']; [destruct Hin|].
  apply bind_ok in Hrun as ([] & s1 & Hbefore & Hafter).
  assert (E1 : evolves st s1)
    by (eapply steady_run; [apply steady_process_external_rules | exact Hbefore]).
  assert (E2 : evolves s1 st')
    by (eapply steady_run; [apply steady_process_external_rules | exact Hafter]).
  destruct Hkey as [[= -> ->]|[= -> ->]].
  - apply (ruled_survives s1 st'); [exact E2|].
    eapply process_external_rules_ok; eassumption.
  - destruct (evolves_packageid _ _ _ _ E1 Hmu) as (m & Hm & Hp & _).
    destruct E1 as (_ & Ei & _).
    pose proof (process_external_rules_ok _ _ _ _ _ _ _ _ _ _ u m grp_p grp
                  Hafter Hin Hbucket Hb Hname) as H.
    rewrite Ei in H. apply (ruled_packageid _ _ m); [exact Hp|].
    apply H; assumption.
Qed.

Lemma compile_metadata_external_rule uuids st st' rules p d key opp bucket l
      name u mu grp_p grp :
  compile_metadata uuids st = (st', Ok tt) ->
  rules = external_community_rules st \/ rules = external_user_rules st ->
  In (p, VDict d) rules ->
  (key, opp) = ("loadBefore", "loadAfter") \/
  (key, opp) = ("loadAfter", "loadBefore") ->
  bucket = key \/ bucket = "loadBottom" \/ bucket = "loadTop" ->
  dget bucket d = Some (VList l) -> In (VStr name) l ->
  packageid_to_uuids st !! Str.lower p = Some grp_p -> u ∈ grp_p ->
  dget u (internal_local_metadata st) = Some mu ->
  packageid_to_uuids st !! Str.lower name = Some grp ->
  ruled st' u mu name key opp grp.
Proof.
  intros Hrun Hrules Hin Hkey Hbucket Hb Hname Hgp Hu Hmu Hgrp.
  unfold compile_metadata in Hrun.
  apply bind_ok in Hrun as (sx & s0 & Hgs & Hrun).
  apply get_state_ok in Hgs as [-> ->].
  apply bind_ok in Hrun as ([] & s1 & Hmods & Hrun).
  apply bind_ok in Hrun as ([] & s2 & Hsteam & Hrun).
  apply bind_ok in Hrun as ([] & s3 & Hcomm & Huser).
  apply bind_ok in Hcomm as (sx & s2' & Hgs & Hcomm).
  apply get_state_ok in Hgs as [-> ->].
  apply bind_ok in Huser as (sx & s3' & Hgs & Huser).
  apply get_state_ok in Hgs as [-> ->].
  assert (E1 : evolves st s1).
  { eapply steady_run; [|exact Hmods]. apply steady_for_each. intros ?.
    apply steady_compile_mod. }
  assert (E2 : evolves s1 s2)
    by (eapply steady_run; [apply steady_compile_steamdb | exact Hsteam]).
  assert (E3 : evolves s2 s3)
    by (eapply steady_run; [apply steady_compile_rules | exact Hcomm]).
  assert (E4 : evolves s3 st')
    by (eapply steady_run; [apply steady_compile_rules | exact Huser]).
  assert (E02 : evolves st s2) by (eapply evolves_trans; eassumption).
  assert (E03 : evolves st s3) by (eapply evolves_trans; eassumption).
  destruct Hrules as [-> | ->].
  - destruct (evolves_packageid _ _ _ _ E02 Hmu) as (m & Hm & Hp & _).
    destruct E02 as (_ & Ei & _ & _ & _ & Ec & _).
    rewrite Ec in Hcomm.
    pose proof (compile_rules_ok _ _ _ _ _ _ _ _ _ _ u m grp_p grp
                  Hcomm Hin Hkey Hbucket Hb Hname) as H.
    rewrite Ei in H. apply (ruled_packageid _ _ m); [exact Hp|].
    apply (ruled_survives s3 st'); [exact E4|].
    apply H; assumption.
  - destruct (evolves_packageid _ _ _ _ E03 Hmu) as (m & Hm & Hp & _).
    destruct E03 as (_ & Ei & _ & _ & _ & _ & Eu).
    rewrite Eu in Huser.
    pose proof (compile_rules_ok _ _ _ _ _ _ _ _ _ _ u m grp_p grp
                  Huser Hin Hkey Hbucket Hb Hname) as H.
    rewrite Ei in H. apply (ruled_packageid _ _ m); [exact Hp|].
    apply H; assumption.
Qed.

End ExternalRules.

(** X25. When [compile_metadata] returns, a rule of the community or the
    user rule set for a package of the index is compiled for every record
    of that package: a target named under [loadBefore] (or [loadAfter]) is
    an explicit tuple of the record's set under that same key, and the
    records of the target carry the implied tuple under the opposite key.
    Targets named under [loadBottom] and [loadTop] are compiled like those
    of both keys. *)
Theorem external_rule_recorded :
  forall (uuids : list string) (st st' : Metadata.Manager)
         (rules : Py.dict pyval) (p : string) (d : Py.dict pyval)
         (key opp bucket : string) (l : list pyval) (name u : string)
         (mu : Metadata.Mod) (grp_p grp : gset string),
    Metadata.compile_metadata uuids st = (st', Ok tt) ->
    rules = Metadata.external_community_rules st \/
    rules = Metadata.external_user_rules st ->
    In (p, VDict d) rules ->
    (key, opp) = ("loadBefore", "loadAfter") \/
    (key, opp) = ("loadAfter", "loadBefore") ->
    bucket = key \/ bucket = "loadBottom" \/ bucket = "loadTop" ->
    Py.dget bucket d = Some (VList l) -> In (VStr name) l ->
    Metadata.packageid_to_uuids st !! Str.lower p = Some grp_p -> u ∈ grp_p ->
    Py.dget u (Metadata.internal_local_metadata st) = Some mu ->
    Metadata.packageid_to_uuids st !! Str.lower name = Some grp ->
    (exists mu',
       Py.dget u (Metadata.internal_local_metadata st') = Some mu' /\
       (Str.lower name, true) ∈ Metadata.rules_of mu' key) /\
    (forall v, v ∈ grp ->
       exists mv,
         Py.dget v (Metadata.internal_local_metadata st') = Some mv /\
         (Metadata.packageid mu, false) ∈ Metadata.rules_of mv opp).
Proof.
  intros uuids st st' rules p d key opp bucket l name u mu grp_p grp.
  apply compile_metadata_external_rule.
Qed.

Lemma external_rule_recorded_witness :
  (exists mu',
     Py.dget "uA" (Metadata.internal_local_metadata
                     (fst (Metadata.compile_metadata [] Scenarios.st_rules)))
     = Some mu' /\
     (Str.lower "B", true) ∈ Metadata.rules_of mu' "loadBefore") /\
  (forall v, v ∈ ({["uB"]} : gset string) ->
     exists mv,
       Py.dget v (Metadata.internal_local_metadata
                    (fst (Metadata.compile_metadata [] Scenarios.st_rules)))
       = Some mv /\
       (Metadata.packageid Examples.mod_a, false) ∈ Metadata.rules_of mv "loadAfter").
Proof.
  apply (external_rule_recorded
           [] Scenarios.st_rules
           (fst (Metadata.compile_metadata [] Scenarios.st_rules))
           [("A", VDict [("loadBefore", VList [VStr "B"])])]
           "A" [("loadBefore", VList [VStr "B"])]
           "loadBefore" "loadAfter" "loadBefore" [VStr "B"] "B" "uA"
           Examples.mod_a {["uA"]} {["uB"]}).
  - vm_compute. reflexivity.
  - left. reflexivity.
  - left. reflexivity.
  - left. reflexivity.
  - left. reflexivity.
  - reflexivity.
  - left. reflexivity.
  - vm_compute. reflexivity.
  - apply elem_of_singleton. reflexivity.
  - reflexivity.
  - vm_compute. reflexivity.
Defined.
